(* ===== verification/_CoqProject ===== *)
-Q . S2P
Prelude.v
Endian.v
NetBuffer.v
Framing.v
LengthCodec.v
ProtobufCodec.v
Poller.v
Calendar.v
Format.v
LogStream.v
TimeZone.v
InetAddress.v
TimerQueue.v
TcpConnection.v
FileServer.v
EventLoop.v
Client.v
Server.v
Hub.v
HubNetwork.v
HubTools.v
SudokuStat.v
SudokuReport.v
Sudoku.v
DancingLinks.v
ExactCover.v
SudokuMatrix.v
SudokuBoard.v
SudokuServer.v
SudokuWire.v
SudokuClient.v
LoadTest.v
BatchClient.v
SudokuProd.v
Logging.v
DateText.v
Threads.v
Chat.v
Mysql.v
SignUp.v
ChatClient.v
Broadcast.v
SimpleChat.v
FileUtil.v
ProcessInfo.v
