(* ===== verification/Prelude.v ===== *)
(** * Verification of the chat repository

    The repository is a reactor network library in C++ (the files at the root of src/, a
    reworking of muduo) and servers built on it (src/excercises/): a chat server that talks
    protobuf, a publish/subscribe hub and a sudoku service.  This library models the C++ code
    function by function and proves what makes each part correct.  Definitions keep the names of
    the source; every definition is executable, so the witnesses and examples evaluate it.

    ** How the program fits together

    An [EventLoop] waits in [Poller::poll] for the [Channel]s registered with it, calls the
    handlers of the active ones and then the functors other threads queued.  A [TimerQueue] is
    such a channel on a timerfd.  An [Acceptor] hands new sockets to a [TcpServer], a
    [Connector] hands them to a [TcpClient]; both make a [TcpConnection], which reads into one
    [Buffer], gives it to the application's message callback, and writes from another.  Codecs
    sit between the buffer and the application: [LengthHeaderCodec] and [ProtobufCodec] frame
    messages by length, the hub and the sudoku service read lines.  Everything logs through
    [Logger], which formats with [LogStream] and shows the time with [TimeZone] and [Date].

    ** The conventions of the model

    - A function that can stop the program returns an [outcome]: [Ret] or [Crash] with the
      reason (below).  Failed assertions, uncaught exceptions, signed overflow, accesses outside
      a container and uses of null or freed pointers are all reasons, so "the function returns"
      includes that none of them happens.
    - Machine integers are [Z]: [u64], [u32], [s32] wrap, [i32] and [i64] crash on overflow, and
      [int_eval] evaluates an [int] expression checking every intermediate result.
    - Memory is a list of bytes with [load] and [store], or a map from addresses to objects where
      the code keeps pointers (channels, timers, the solver's nodes).
    - System calls are oracles: the answers (bytes written, errno, descriptors, the time) are
      arguments or events, and the theorems quantify over them.
    - Code that is not in the repository is a class or a parameter with the laws of its
      documentation: protobuf messages and adler32 (ProtobufCodec.v), MySQL (Chat.v,
      Mysql.v) and Redis (Chat.v), strerror_r and gettid (Logging.v),
      [Buffer::findCRLF(const char* )] (Hub.v).
    - Loops that are not structural run in [while] with fuel.  The fuel is always computed from
      the input (the readable bytes, the bytes of a line, the nodes of the arena, the length of
      the table plus one), and every theorem says that the function returns, so running out of
      fuel is excluded and not assumed away.
    - Threads are interleavings: a relation on states whose steps are the atomic pieces of the
      source (EventLoop.v), or sequences of events in any order.

    ** The files

    - Prelude.v: outcomes, integers, bytes, memory, loops, and the lemmas and tactics on them.
    - Endian.v (Endian.h): byte order, [be_bytes] and [networkToHost32].
    - NetBuffer.v (Buffer.h, Buffer.cc): module [Buffer], every operation, refined to a byte queue
      (C1); class [ByteSource], what the codecs need of a buffer; module [Lines], what the
      line protocols share: finding a CRLF, taking a line off, serving a stream in pieces.
    - Framing.v: the specification of a length-prefixed stream, shared by the codecs.
    - LengthCodec.v (excercises/chatServer/codec.h): round trip in any pieces (C3), bad lengths
      (C4).
    - ProtobufCodec.v (excercises/chatServer/codec/): the wire format, round trip (C5), no input
      makes it fail (C6), the dispatcher.
    - Poller.v (Channel, Poller): the pollfd array and the map of channels refine the set of
      registered channels with their interests (C8); what poll reports.
    - Calendar.v (Date): Julian day numbers against the Gregorian calendar.
    - Format.v, LogStream.v (StringPiece, LogStream): string order, number conversion,
      formatting into the fixed buffer (C14).
    - TimeZone.v (Timestamp, TimeZone): UTC and local time and zone files (C15 to C17).
    - InetAddress.v (InetAddress, SocketsOps): addresses as memory, their texts and back (C13).
    - TimerQueue.v (Timer, TimerId, TimerQueue): the queue's invariants under any calls and
      alarms (C18), alarms run the due timers (C19), cancellation (C20).
    - TcpConnection.v: the state machine with its buffers and functors: no assertion fails (C21),
      the byte stream is kept (C22), output drains (C23).
    - FileServer.v (excercises/filetransfer): the file servers over such a connection: the whole
      file is written before the connection is shut (C7).
    - EventLoop.v (EventLoop, EventLoopThread, EventLoopThreadPool): functors run once in order
      (C24), no wakeup is lost (C25), an iteration runs everything (C26), the start handshake
      ends (C27), round robin.
    - Client.v (Connector, TcpClient): retries (C29), one connection at a time (C30).
    - Server.v (Acceptor, TcpServer): running out of descriptors (C31), the map of connections
      (C32).
    - Hub.v (excercises/hub): the protocol, the subscriptions.  HubNetwork.v: hub and clients
      over a network implement an abstract publish/subscribe service (C33).  HubTools.v: the
      command line clients pub.cc and sub.cc.
    - SudokuStat.v (excercises/sudoku/stat.h, percentile.h): the measurement window (C35).
      SudokuReport.v: the texts of [SudokuStat::report] and of [Percentile].
    - Sudoku.v (excercises/sudoku/sudoku.cc): the dancing-links solver.  DancingLinks.v: covering a
      column is undone by uncovering it.  ExactCover.v: the links represent a matrix, and the
      search decides whether it has an exact cover.  SudokuMatrix.v: the constructor builds that
      matrix.  SudokuBoard.v: exact covers are completed boards, so the solver decides every
      puzzle (C36).
    - SudokuServer.v (excercises/sudoku/server_basic.cc): the service (C37).
    - SudokuClient.v (excercises/sudoku/pipeline.cc): the client and the service with a network
      between them: the client always has its requests in flight (C2).  SudokuWire.v: what clients
      of the service need for that.
    - LoadTest.v (excercises/sudoku/loadtest.cc): requests at a given rate (C34).
    - BatchClient.v (excercises/sudoku/batch.cc): a file of puzzles in one batch, against the
      service (C10).
    - SudokuProd.v (excercises/sudoku/server_prod.cc): the service over a thread pool, with
      throttling and statistics: while its connection is up every request gets one reply (C28).
    - Logging.v (Logging, CurrentThread): log lines (C38).  DateText.v: the texts of [Date] and
      [Timestamp].
    - Threads.v (Atomic, Mutex, Condition, Thread): interleavings on a mutex with its condition
      (C9), the life of a thread.
    - Chat.v (excercises/chatServer/server_threaded.cc): the chat server: what it stores and
      sends, and the events that stop it, every login with the right password among them (C39).
    - Mysql.v (excercises/chatServer/mysql_connection): the wrapper of libmysqlclient and the
      results it owns.
    - SignUp.v (excercises/chatServer/sign_up.cc, test/permutation.h): the program that registers
      users, and the arrangements of a string their names are taken from (C11).
    - ChatClient.v (excercises/chatServer/client.cc, stress.cc): the command line client: what is
      typed becomes the messages written; the load generator made of it.
    - Broadcast.v (excercises/chat/server_threaded_highperformance.cc, the copy-on-write lists of
      chat/server_threaded_efficient.cc and hub/hub_threaded_efficient.cc): the clients of the
      loops that ran [threadInit] see one sequence of messages, each what its loop distributed
      while it was up (C12).
    - SimpleChat.v (chat/server.cc, client.cc and loadtest.cc): everybody hears what is said while
      he is connected; the load test against the server ends with one statistic.
    - FileUtil.v (FileUtil): files are read back as they were appended (C40).
    - ProcessInfo.v (ProcessInfo): what is read in /proc.

    Where the code does not do what it means to, a lemma with the behaviour stands next to the
    component: a quit before [loop()] is lost, [forceClose] twice fails an assertion, a cancel
    that overtakes its [addTimer] is lost, a stopped connector can fail when it is started
    again, a missing zone file counts as valid, a login to the chat server frees a reply
    twice and would send the oldest instead of the missed messages, [TcpServer] never runs the
    thread initialisation of its loops, and others of this kind.

    ** What is not modelled

    - EPoller.cc is not a C++ program (stray tokens and parentheses), so it has no behaviour.
    - Generated protobuf classes, MySQL, Redis and pthreads themselves; Socket.cc, ThreadLocal.h
      and the functions of ProcessInfo.cc and mysql_connection.h that pass one call on;
      backtraces (Exception.cc).  ThreadPool.cc is not in the repository.
    - [operator<<(double)] and [Percentile::save]: formatting of floating-point numbers.
    - stress_test.cc of excercises/chatServer, which is not a C++ program either.
    - The servers that differ from a modelled one only in the threads they use (the other
      sudoku servers and threaded hubs), and the [main] functions.

    ** The order of the work

    The library's data (buffers, codecs), then its state machines (poller, timers, connections,
    loop, client, server), then the services with the sudoku solver, its clients, the hub's
    clients and the chat programs, and last what the library has around the system calls:
    addresses, threads, files, /proc and MySQL. *)

From stdpp Require Export base list gmap strings numbers.
From Stdlib Require Export ZArith Lia.
From Stdlib Require Export Strings.Byte.

#[export] Set Default Goal Selector "!".

Declare Scope chat_scope.
Delimit Scope chat_scope with chat.
Global Open Scope Z_scope.
Global Open Scope chat_scope.

(** ** Outcomes

    A C++ function either returns or stops the program.  The reasons to stop
    are the ones the source has: a failed [assert], a [LOG_FATAL] (which calls
    [abort]), an uncaught exception, and the undefined behaviours the model
    keeps visible (signed overflow, division by zero, access out of a
    container's range, use of a null or freed pointer).  [OutOfFuel] is the
    model's own: no theorem lets it stand for a result. *)

Inductive fault : Type :=
| AssertFailed
| FatalLog
| Thrown
| IntOverflow
| OutOfRange
| NullPointer
| UseAfterFree
| DivisionByZero
| OutOfFuel.

Inductive outcome (A : Type) : Type :=
| Ret (a : A)
| Crash (f : fault).
Arguments Ret {A} a.
Arguments Crash {A} f.

#[export] Instance fault_eq_dec : EqDecision fault.
Proof. solve_decision. Defined.

#[export] Instance outcome_ret : MRet outcome := fun A a => Ret a.
#[export] Instance outcome_bind : MBind outcome :=
  fun A B f m => match m with Ret a => f a | Crash e => Crash e end.
#[export] Instance outcome_fmap : FMap outcome :=
  fun A B f m => match m with Ret a => Ret (f a) | Crash e => Crash e end.

(** The C [assert] macro. *)
Definition check (b : bool) : outcome unit :=
  if b then Ret tt else Crash AssertFailed.

(** The result of a function that must have returned. *)
Definition returns {A} (m : outcome A) (P : A -> Prop) : Prop :=
  match m with Ret a => P a | Crash _ => False end.

(** ** Machine integers *)

Definition u16 (x : Z) : Z := x mod 2 ^ 16.
Definition u32 (x : Z) : Z := x mod 2 ^ 32.
Definition u64 (x : Z) : Z := x mod 2 ^ 64.

(** Conversion to a signed type of 32 or 64 bits (modular on the targets). *)
Definition s32 (x : Z) : Z := (x + 2 ^ 31) mod 2 ^ 32 - 2 ^ 31.
Definition s64 (x : Z) : Z := (x + 2 ^ 63) mod 2 ^ 64 - 2 ^ 63.

(** The value of a signed arithmetic expression: overflow is undefined. *)
Definition in_i32 (x : Z) : bool := (- 2 ^ 31 <=? x) && (x <? 2 ^ 31).
Definition in_i64 (x : Z) : bool := (- 2 ^ 63 <=? x) && (x <? 2 ^ 63).
Definition i32 (x : Z) : outcome Z := if in_i32 x then Ret x else Crash IntOverflow.
Definition i64 (x : Z) : outcome Z := if in_i64 x then Ret x else Crash IntOverflow.

(** Arithmetic expressions of type [int]: [int_eval] computes them with the
    overflow checks, [int_val] is the exact value and [int_fits] says that no
    intermediate result overflows. *)
Inductive iexp :=
| INum (z : Z)
| IAdd (x y : iexp)
| ISub (x y : iexp)
| IMul (x y : iexp)
| IDiv (x y : iexp)
| IMod (x y : iexp).

Declare Scope int_scope.
Delimit Scope int_scope with int.
Bind Scope int_scope with iexp.
Coercion INum : Z >-> iexp.
Infix "+" := IAdd : int_scope.
Infix "-" := ISub : int_scope.
Infix "*" := IMul : int_scope.
Infix "/" := IDiv : int_scope.
Infix "mod" := IMod : int_scope.

Fixpoint int_val (e : iexp) : Z :=
  match e with
  | INum z => z
  | IAdd x y => int_val x + int_val y
  | ISub x y => int_val x - int_val y
  | IMul x y => int_val x * int_val y
  | IDiv x y => Z.quot (int_val x) (int_val y)
  | IMod x y => Z.rem (int_val x) (int_val y)
  end.

Fixpoint int_eval (e : iexp) : outcome Z :=
  match e with
  | INum z => i32 z
  | IAdd x y => a ← int_eval x; b ← int_eval y; i32 (a + b)
  | ISub x y => a ← int_eval x; b ← int_eval y; i32 (a - b)
  | IMul x y => a ← int_eval x; b ← int_eval y; i32 (a * b)
  | IDiv x y => a ← int_eval x; b ← int_eval y;
                if b =? 0 then Crash IntOverflow else i32 (Z.quot a b)
  | IMod x y => a ← int_eval x; b ← int_eval y;
                if b =? 0 then Crash IntOverflow else i32 (Z.rem a b)
  end.

(** [int x = e; k] *)
Notation "x ←ᵢ e ; k" := (mbind (M := outcome) (fun x : Z => k) (int_eval e%int))
  (at level 20, e at level 100, k at level 200, only parsing).

Definition fits32 (x : Z) : Prop := - 2 ^ 31 <= x < 2 ^ 31.

Fixpoint int_fits (e : iexp) : Prop :=
  match e with
  | INum z => fits32 z
  | IAdd x y | ISub x y | IMul x y => int_fits x /\ int_fits y /\ fits32 (int_val e)
  | IDiv x y | IMod x y => int_fits x /\ int_fits y /\ int_val y <> 0 /\ fits32 (int_val e)
  end.

(** ** Bytes and byte strings *)

Abbreviation bytes := (list byte).

Definition b2Z (b : byte) : Z := Z.of_N (Byte.to_N b).
Definition Z2b (z : Z) : byte := default x00 (Byte.of_N (Z.to_N (z mod 256))).
Definition byte_eqb (a b : byte) : bool := Byte.eqb a b.

(** A string literal of the source. *)
Abbreviation lit s := (String.list_byte_of_string s%string).

#[export] Instance byte_eq_decision : EqDecision byte := Byte.byte_eq_dec.
#[export] Instance byte_countable : Countable byte :=
  inj_countable' Byte.to_N (fun n => default x00 (Byte.of_N n))
    (fun b => f_equal (default x00) (Byte.of_to_N b)).

(** ** Memory ranges

    [zlen] is a size, [slice off len] reads a range and [splice off d] writes
    one, with offsets as the source's [size_t] values. *)

Definition zlen {A} (l : list A) : Z := Z.of_nat (length l).
Definition slice {A} (off len : Z) (l : list A) : list A :=
  take (Z.to_nat len) (drop (Z.to_nat off) l).
Definition splice {A} (off : Z) (d l : list A) : list A :=
  take (Z.to_nat off) l ++ d ++ drop (Z.to_nat (off + zlen d)) l.

(** Reading and writing through a pointer into a container: outside the
    container's range the behaviour is undefined. *)
Definition load {A} (off len : Z) (l : list A) : outcome (list A) :=
  if (0 <=? off) && (0 <=? len) && (off + len <=? zlen l)
  then Ret (slice off len l) else Crash OutOfRange.
Definition store {A} (off : Z) (d l : list A) : outcome (list A) :=
  if (0 <=? off) && (off + zlen d <=? zlen l)
  then Ret (splice off d l) else Crash OutOfRange.

(** [std::vector<char>]: at most [PTRDIFF_MAX] elements; growing further throws
    [std::length_error].  New elements are zero. *)
Definition vector_max_size : Z := 2 ^ 63 - 1.
Definition vector_new (n : Z) : outcome bytes :=
  if n <=? vector_max_size then Ret (replicate (Z.to_nat n) x00) else Crash Thrown.
Definition vector_resize (n : Z) (l : bytes) : outcome bytes :=
  if n <=? vector_max_size
  then Ret (take (Z.to_nat n) l ++ replicate (Z.to_nat (n - zlen l)) x00)
  else Crash Thrown.

(** [std::find] and [std::search]: index of the first match. *)
Fixpoint find_byte (c : byte) (l : bytes) : option nat :=
  match l with
  | [] => None
  | x :: l' => if byte_eqb x c then Some O else S <$> find_byte c l'
  end.
Fixpoint is_prefix (p l : bytes) : bool :=
  match p, l with
  | [], _ => true
  | a :: p', b :: l' => byte_eqb a b && is_prefix p' l'
  | _ :: _, [] => false
  end.
Fixpoint search (p l : bytes) : option nat :=
  if is_prefix p l then Some O
  else match l with
       | [] => None
       | _ :: l' => S <$> search p l'
       end.

(** ** Loops

    [while fuel body s] runs [body] until it answers [inr]. *)
Fixpoint while {S R} (fuel : nat) (body : S -> outcome (S + R)) (s : S) : outcome R :=
  match fuel with
  | O => Crash OutOfFuel
  | S fuel' =>
      match body s with
      | Ret (inl s') => while fuel' body s'
      | Ret (inr r) => Ret r
      | Crash e => Crash e
      end
  end.

(** ** Automation *)

Create HintDb chat.

(** Split the outer boolean tests of a goal or hypothesis into facts [lia] reads. *)
Ltac bools :=
  repeat match goal with
  | H : andb _ _ = true |- _ => apply andb_true_iff in H as [? ?]
  | H : andb _ _ = false |- _ => apply andb_false_iff in H
  | H : orb _ _ = false |- _ => apply orb_false_iff in H as [? ?]
  | H : orb _ _ = true |- _ => apply orb_true_iff in H
  | H : negb _ = true |- _ => apply negb_true_iff in H
  | H : negb _ = false |- _ => apply negb_false_iff in H
  | H : (_ <? _) = true |- _ => apply Z.ltb_lt in H
  | H : (_ <? _) = false |- _ => apply Z.ltb_ge in H
  | H : (_ <=? _) = true |- _ => apply Z.leb_le in H
  | H : (_ <=? _) = false |- _ => apply Z.leb_gt in H
  | H : (_ =? _) = true |- _ => apply Z.eqb_eq in H
  | H : (_ =? _) = false |- _ => apply Z.eqb_neq in H
  end.

(** Case analysis on the tests of a goal, closing the impossible branches. *)
Ltac split_tests :=
  repeat match goal with
  | |- context [if ?b then _ else _] =>
      lazymatch b with
      | context [if _ then _ else _] => fail
      | _ => destruct b eqn:?
      end
  end; bools.

(** ** Lemmas on outcomes *)

Lemma bind_Ret {A B} (a : A) (f : A -> outcome B) : (Ret a ≫= f) = f a.
Proof. reflexivity. Qed.

Lemma check_true (b : bool) : b = true -> check b = Ret tt.
Proof. intros ->. reflexivity. Qed.

Lemma check_bind {A} b (f : unit -> outcome A) : b = true -> (check b ≫= f) = f tt.
Proof. by intros ->. Qed.

Lemma int_eval_ok e : int_fits e -> int_eval e = Ret (int_val e).
Proof.
  assert (forall z, fits32 z -> i32 z = Ret z) as Hi.
  { intros z Hz. unfold i32, in_i32, fits32 in *.
    rewrite (proj2 (Z.leb_le _ _)), (proj2 (Z.ltb_lt _ _)) by lia. done. }
  induction e; cbn [int_fits int_eval int_val].
  - apply Hi.
  - intros (Hx & Hy & Hz). rewrite IHe1, IHe2, !bind_Ret by done. by apply Hi.
  - intros (Hx & Hy & Hz). rewrite IHe1, IHe2, !bind_Ret by done. by apply Hi.
  - intros (Hx & Hy & Hz). rewrite IHe1, IHe2, !bind_Ret by done. by apply Hi.
  - intros (Hx & Hy & Hn & Hz). rewrite IHe1, IHe2, !bind_Ret by done.
    rewrite (proj2 (Z.eqb_neq _ _)) by done. by apply Hi.
  - intros (Hx & Hy & Hn & Hz). rewrite IHe1, IHe2, !bind_Ret by done.
    rewrite (proj2 (Z.eqb_neq _ _)) by done. by apply Hi.
Qed.

Lemma int_bind {A} e (f : Z -> outcome A) :
  int_fits e -> (int_eval e ≫= f) = f (int_val e).
Proof. intros H. by rewrite int_eval_ok. Qed.

Lemma bind_Ret_inv {A B} (m : outcome A) (f : A -> outcome B) b :
  (m ≫= f) = Ret b -> exists a, m = Ret a /\ f a = Ret b.
Proof. destruct m; cbn; [eauto | discriminate]. Qed.

Lemma check_Ret_inv (b : bool) u : check b = Ret u -> b = true.
Proof. unfold check. destruct b; [done | discriminate]. Qed.

Lemma returns_bind {A B} (m : outcome A) (f : A -> outcome B) (P : B -> Prop) :
  returns m (fun a => returns (f a) P) -> returns (m ≫= f) P.
Proof. by destruct m. Qed.

Lemma returns_mono {A} (m : outcome A) (P Q : A -> Prop) :
  (forall a, P a -> Q a) -> returns m P -> returns m Q.
Proof. destruct m; cbn; auto. Qed.

Lemma returns_seq {A B} (m : outcome A) (f : A -> outcome B) (P : A -> Prop) (Q : B -> Prop) :
  returns m P -> (forall a, P a -> returns (f a) Q) -> returns (m ≫= f) Q.
Proof. destruct m; cbn; auto. Qed.

Lemma returns_Ret {A} (m : outcome A) (P : A -> Prop) :
  returns m P <-> exists a, m = Ret a /\ P a.
Proof.
  split; [destruct m; [by eexists | done] | by intros (a & -> & ?)].
Qed.

(** ** Lemmas on machine integers *)

Lemma u64_id x : 0 <= x < 2 ^ 64 -> u64 x = x.
Proof. apply Z.mod_small. Qed.
Lemma u32_id x : 0 <= x < 2 ^ 32 -> u32 x = x.
Proof. apply Z.mod_small. Qed.
Lemma u16_id x : 0 <= x < 2 ^ 16 -> u16 x = x.
Proof. apply Z.mod_small. Qed.
Lemma u32_range x : 0 <= u32 x < 2 ^ 32.
Proof. apply Z.mod_pos_bound. lia. Qed.
Lemma u64_range x : 0 <= u64 x < 2 ^ 64.
Proof. apply Z.mod_pos_bound. lia. Qed.

Lemma s32_id x : - 2 ^ 31 <= x < 2 ^ 31 -> s32 x = x.
Proof. intros. unfold s32. rewrite Z.mod_small; lia. Qed.
Lemma s64_id x : - 2 ^ 63 <= x < 2 ^ 63 -> s64 x = x.
Proof. intros. unfold s64. rewrite Z.mod_small; lia. Qed.
Lemma s32_range x : - 2 ^ 31 <= s32 x < 2 ^ 31.
Proof.
  unfold s32. pose proof (Z.mod_pos_bound (x + 2 ^ 31) (2 ^ 32) eq_refl). lia.
Qed.
Lemma s32_u32 x : s32 (u32 x) = s32 x.
Proof.
  unfold s32, u32. by rewrite <- (Z.add_mod_idemp_l x (2 ^ 31) (2 ^ 32)).
Qed.

Lemma u32_s32 x : u32 (s32 x) = u32 x.
Proof.
  unfold u32, s32. rewrite <- Zminus_mod_idemp_l, Z.mod_mod, Zminus_mod_idemp_l by lia.
  f_equal. lia.
Qed.
Lemma u64_s64 x : u64 (s64 x) = u64 x.
Proof.
  unfold u64, s64. rewrite <- Zminus_mod_idemp_l, Z.mod_mod, Zminus_mod_idemp_l by lia.
  f_equal. lia.
Qed.

Lemma i32_ok x : - 2 ^ 31 <= x < 2 ^ 31 -> i32 x = Ret x.
Proof. intros. unfold i32, in_i32. split_tests; [done | lia]. Qed.
Lemma i64_ok x : - 2 ^ 63 <= x < 2 ^ 63 -> i64 x = Ret x.
Proof. intros. unfold i64, in_i64. split_tests; [done | lia]. Qed.
Lemma i64_bind {A} x (f : Z -> outcome A) : - 2 ^ 63 <= x < 2 ^ 63 -> (i64 x ≫= f) = f x.
Proof. intros. by rewrite i64_ok. Qed.
Lemma i32_inv x y : i32 x = Ret y -> y = x /\ - 2 ^ 31 <= x < 2 ^ 31.
Proof. unfold i32, in_i32. split_tests; intros [=]; lia. Qed.

(** ** Lemmas on bytes *)

Lemma b2Z_range b : 0 <= b2Z b < 256.
Proof. unfold b2Z. pose proof (Byte.to_N_bounded b). lia. Qed.

Lemma Z2b_b2Z b : Z2b (b2Z b) = b.
Proof.
  unfold Z2b. rewrite Z.mod_small by apply b2Z_range.
  unfold b2Z. by rewrite N2Z.id, Byte.of_to_N.
Qed.

Lemma b2Z_Z2b z : b2Z (Z2b z) = z mod 256.
Proof.
  unfold Z2b, b2Z. pose proof (Z.mod_pos_bound z 256 eq_refl).
  destruct (Byte.of_N (Z.to_N (z mod 256))) as [b|] eqn:E; cbn.
  - apply Byte.to_of_N in E. rewrite E. lia.
  - apply Byte.of_N_None_iff in E. lia.
Qed.

Lemma b2Z_inj a b : b2Z a = b2Z b -> a = b.
Proof. intros H. rewrite <- (Z2b_b2Z a), H. apply Z2b_b2Z. Qed.

Lemma byte_eqb_eq a b : byte_eqb a b = true <-> a = b.
Proof.
  unfold byte_eqb. split; [apply Byte.byte_dec_bl | apply Byte.byte_dec_lb].
Qed.

(** ** Lemmas on memory ranges *)

Section Ranges.
Context {A : Type}.
Implicit Types l d : list A.

Lemma zlen_nonneg l : 0 <= zlen l.
Proof. unfold zlen. lia. Qed.

Lemma zlen_app l1 l2 : zlen (l1 ++ l2) = zlen l1 + zlen l2.
Proof. unfold zlen. rewrite length_app. lia. Qed.

Lemma zlen_cons (x : A) l : zlen (x :: l) = 1 + zlen l.
Proof. unfold zlen. cbn [length]. lia. Qed.

Lemma zlen_nil_inv l : zlen l = 0 -> l = [].
Proof. unfold zlen. destruct l; [done | cbn; lia]. Qed.

Lemma zlen_drop n l : zlen (drop n l) = Z.max 0 (zlen l - Z.of_nat n).
Proof. unfold zlen. rewrite length_drop. lia. Qed.

Lemma zlen_take n l : zlen (take n l) = Z.min (Z.of_nat n) (zlen l).
Proof. unfold zlen. rewrite length_take. lia. Qed.

Lemma zlen_replicate n (x : A) : zlen (replicate n x) = Z.of_nat n.
Proof. unfold zlen. by rewrite length_replicate. Qed.

Lemma zlen_slice off len l :
  0 <= off -> 0 <= len -> off + len <= zlen l -> zlen (slice off len l) = len.
Proof.
  intros. unfold slice. rewrite zlen_take, zlen_drop. lia.
Qed.

Lemma slice_split off n m l :
  0 <= off -> 0 <= n -> 0 <= m ->
  slice off (n + m) l = slice off n l ++ slice (off + n) m l.
Proof.
  intros. unfold slice.
  rewrite !Z2Nat.inj_add by lia.
  rewrite <- drop_drop, take_take_drop. done.
Qed.

Lemma slice_all l : slice 0 (zlen l) l = l.
Proof. unfold slice, zlen. rewrite Nat2Z.id. cbn. apply take_ge. lia. Qed.

Lemma slice_0 off l : slice off 0 l = [].
Proof. done. Qed.

(** A range of a range. *)
Lemma take_slice k off n l :
  Z.of_nat k <= n -> take k (slice off n l) = slice off (Z.of_nat k) l.
Proof.
  intros. unfold slice. rewrite take_take, Nat2Z.id. f_equal. lia.
Qed.

Lemma drop_slice k off n l :
  0 <= off -> Z.of_nat k <= n ->
  drop k (slice off n l) = slice (off + Z.of_nat k) (n - Z.of_nat k) l.
Proof.
  intros. unfold slice. rewrite skipn_firstn_comm, drop_drop.
  repeat f_equal; lia.
Qed.

Lemma lookup_slice off n l (i : nat) :
  slice off n l !! i =
  if bool_decide (Z.of_nat i < n) then l !! (Z.to_nat off + i)%nat else None.
Proof.
  unfold slice. case_bool_decide.
  - rewrite lookup_take_lt by lia. apply lookup_drop.
  - rewrite lookup_take_ge by lia. done.
Qed.

Lemma lookup_splice off d l (i : nat) :
  0 <= off -> off <= zlen l ->
  splice off d l !! i =
  if bool_decide (Z.of_nat i < off) then l !! i
  else if bool_decide (Z.of_nat i < off + zlen d) then d !! (i - Z.to_nat off)%nat
  else l !! i.
Proof.
  intros. assert (length (take (Z.to_nat off) l) = Z.to_nat off) as E.
  { rewrite length_take. unfold zlen in *. lia. }
  unfold splice. repeat case_bool_decide.
  - rewrite lookup_app_l by lia. apply lookup_take_lt. lia.
  - rewrite lookup_app_r, E by lia. apply lookup_app_l. unfold zlen in *. lia.
  - rewrite lookup_app_r, E, lookup_app_r, lookup_drop by (unfold zlen in *; lia).
    f_equal. unfold zlen in *. lia.
Qed.

Lemma zlen_splice off d l :
  0 <= off -> off + zlen d <= zlen l -> zlen (splice off d l) = zlen l.
Proof.
  intros. pose proof (zlen_nonneg d). unfold splice.
  rewrite !zlen_app, zlen_take, zlen_drop. lia.
Qed.

Lemma slice_splice_eq off d l :
  0 <= off -> off <= zlen l -> slice off (zlen d) (splice off d l) = d.
Proof.
  intros. unfold slice, splice.
  rewrite drop_app_length'.
  - rewrite take_app_length'; [done | unfold zlen; lia].
  - rewrite length_take. unfold zlen in *. lia.
Qed.

Lemma slice_splice_before o n off d l :
  0 <= o -> o + n <= off -> off <= zlen l ->
  slice o n (splice off d l) = slice o n l.
Proof.
  intros. apply list_eq. intros i. rewrite !lookup_slice.
  case_bool_decide; [|done]. rewrite lookup_splice by lia.
  by rewrite bool_decide_true by lia.
Qed.

Lemma slice_splice_after o n off d l :
  0 <= off -> off <= zlen l -> off + zlen d <= o ->
  slice o n (splice off d l) = slice o n l.
Proof.
  intros. pose proof (zlen_nonneg d). apply list_eq. intros i.
  rewrite !lookup_slice. case_bool_decide; [|done].
  rewrite lookup_splice by lia. by rewrite !bool_decide_false by lia.
Qed.

Lemma slice_app_l o n l d :
  0 <= o -> o + n <= zlen l -> slice o n (l ++ d) = slice o n l.
Proof.
  intros. apply list_eq. intros i. rewrite !lookup_slice.
  case_bool_decide; [|done]. apply lookup_app_l. unfold zlen in *. lia.
Qed.

Lemma load_ok off len l :
  0 <= off -> 0 <= len -> off + len <= zlen l -> load off len l = Ret (slice off len l).
Proof. intros. unfold load. split_tests; [done | lia]. Qed.

Lemma store_ok off d l :
  0 <= off -> off + zlen d <= zlen l -> store off d l = Ret (splice off d l).
Proof. intros. unfold store. split_tests; [done | lia]. Qed.

End Ranges.

Create Rewrite HintDb zlen.
#[export] Hint Rewrite @zlen_app @zlen_cons @zlen_replicate : zlen.

(** ** Searching *)

Lemma is_prefix_spec p l : is_prefix p l = true <-> exists l', l = p ++ l'.
Proof.
  revert l. induction p as [|a p IH]; intros l; cbn.
  - split; [by exists l | done].
  - destruct l as [|b l]; [split; [done | by intros [? [=]]]|].
    rewrite andb_true_iff, byte_eqb_eq, IH. split.
    + intros [-> [l' ->]]. by exists l'.
    + intros [l' [= -> ->]]. eauto.
Qed.

(** [search] finds the first occurrence and only an occurrence. *)
Lemma search_Some p l i :
  search p l = Some i ->
  exists l1 l2, l = l1 ++ p ++ l2 /\ length l1 = i /\
    (forall j, (j < i)%nat -> is_prefix p (drop j l) = false).
Proof.
  revert i. induction l as [|x l IH]; intros i; cbn.
  - destruct (is_prefix p []) eqn:E; [|done]. intros [= <-].
    apply is_prefix_spec in E as [l' E]. exists [], l'. repeat split; [done|]. lia.
  - destruct (is_prefix p (x :: l)) eqn:E.
    + intros [= <-]. apply is_prefix_spec in E as [l' E].
      exists [], l'. repeat split; [done|]. lia.
    + destruct (search p l) as [k|]; [|done]. intros [= <-].
      destruct (IH k eq_refl) as (l1 & l2 & -> & <- & Hmin).
      exists (x :: l1), l2. repeat split; [done..|].
      intros [|j] Hj; cbn; [done|]. apply Hmin. lia.
Qed.

Lemma search_None p l :
  search p l = None -> forall l1 l2, l <> l1 ++ p ++ l2.
Proof.
  induction l as [|x l IH]; cbn; intros H l1 l2 E.
  - destruct (is_prefix p []) eqn:Ep; [done|].
    destruct l1; [|done]. destruct p; [done|]. done.
  - destruct (is_prefix p (x :: l)) eqn:Ep; [done|].
    destruct (search p l); [done|].
    destruct l1 as [|y l1].
    + assert (is_prefix p (x :: l) = true) by (apply is_prefix_spec; by exists l2).
      congruence.
    + injection E as -> ->. by apply (IH eq_refl l1 l2).
Qed.

(** A byte string in which a pattern first occurs right after [l1]. *)
Lemma search_app p l1 l2 :
  (forall j, (j < length l1)%nat -> is_prefix p (drop j (l1 ++ p ++ l2)) = false) ->
  search p (l1 ++ p ++ l2) = Some (length l1).
Proof.
  induction l1 as [|x l1 IH]; intros H.
  - assert (is_prefix p (p ++ l2) = true) by (apply is_prefix_spec; eauto).
    cbn. destruct (p ++ l2); cbn in *; by rewrite H0.
  - cbn [app search]. pose proof (H O) as H0. cbn [drop app] in H0.
    rewrite H0 by (cbn; lia). rewrite IH; [done|].
    intros j Hj. apply (H (S j)). cbn. lia.
Qed.

Lemma search_bound p l k : search p l = Some k -> (k + length p <= length l)%nat.
Proof. intros (l1 & l2 & -> & <- & _)%search_Some. rewrite !length_app. lia. Qed.

Lemma is_prefix_app p l x : (length p <= length l)%nat -> is_prefix p (l ++ x) = is_prefix p l.
Proof.
  revert l. induction p as [|a p IH]; intros [|b l] H; cbn in *; try done; [lia|]. by rewrite IH by lia.
Qed.

(** More input does not move the first match. *)
Lemma search_stable p l x k : search p l = Some k -> search p (l ++ x) = Some k.
Proof.
  revert k. induction l as [|b l IH]; intros k H; pose proof (search_bound _ _ _ H) as Hb; cbn in H |- *.
  - destruct (is_prefix p []) eqn:E; [|done]. destruct p; [|done]. injection H as <-. by destruct x.
  - change (b :: l ++ x) with ((b :: l) ++ x). rewrite (is_prefix_app p (b :: l) x) by lia. destruct (is_prefix p (b :: l)); [done|].
    destruct (search p l) as [j|] eqn:E; [|done]. by rewrite (IH j).
Qed.

Lemma find_byte_Some c l i :
  find_byte c l = Some i ->
  exists l1 l2, l = l1 ++ c :: l2 /\ length l1 = i /\ c ∉ l1.
Proof.
  revert i. induction l as [|x l IH]; intros i; cbn; [done|].
  destruct (byte_eqb x c) eqn:E.
  - intros [= <-]. apply byte_eqb_eq in E as ->. exists [], l. set_solver.
  - destruct (find_byte c l) as [k|]; [|done]. intros [= <-].
    destruct (IH k eq_refl) as (l1 & l2 & -> & <- & Hn).
    exists (x :: l1), l2. repeat split; [done..|].
    assert (x <> c) by (intros ->; by rewrite (proj2 (byte_eqb_eq c c) eq_refl) in E).
    set_solver.
Qed.

Lemma find_byte_None c l : find_byte c l = None <-> c ∉ l.
Proof.
  induction l as [|x l IH]; cbn; [set_solver|].
  destruct (byte_eqb x c) eqn:E.
  - apply byte_eqb_eq in E as ->. set_solver.
  - assert (x <> c) by (intros ->; by rewrite (proj2 (byte_eqb_eq c c) eq_refl) in E).
    destruct (find_byte c l); cbn; set_solver.
Qed.

Lemma find_byte_app c l1 l2 : c ∉ l1 -> find_byte c (l1 ++ c :: l2) = Some (length l1).
Proof.
  induction l1 as [|x l1 IH]; cbn; intros Hn.
  - by rewrite (proj2 (byte_eqb_eq c c) eq_refl).
  - destruct (byte_eqb x c) eqn:E; [apply byte_eqb_eq in E; set_solver|].
    rewrite IH by set_solver. done.
Qed.

(** ** Loops: a decreasing measure bounds the number of iterations. *)

Lemma while_measure {S R} (body : S -> outcome (S + R)) (I : S -> Prop)
    (Q : R -> Prop) (m : S -> nat) :
  (forall s, I s ->
     returns (body s) (fun x => match x with
                                | inl s' => I s' /\ (m s' < m s)%nat
                                | inr r => Q r
                                end)) ->
  forall fuel s, I s -> (m s < fuel)%nat -> returns (while fuel body s) Q.
Proof.
  intros Hb fuel. induction fuel as [|fuel IH]; intros s Hs Hm; [lia|].
  cbn. specialize (Hb s Hs). destruct (body s) as [[s'|r]|]; cbn in *; [|done|done].
  destruct Hb. apply IH; [done | lia].
Qed.

Lemma while_S {S R} (body : S -> outcome (S + R)) fuel s :
  while (Datatypes.S fuel) body s =
  match body s with
  | Ret (inl s') => while fuel body s'
  | Ret (inr r) => Ret r
  | Crash e => Crash e
  end.
Proof. reflexivity. Qed.

(** More fuel never changes an answer. *)
Lemma while_fuel_mono {S R} (body : S -> outcome (S + R)) fuel fuel' s r :
  while fuel body s = Ret r -> (fuel <= fuel')%nat -> while fuel' body s = Ret r.
Proof.
  revert fuel' s. induction fuel as [|fuel IH]; intros [|fuel'] s; cbn; try done.
  - lia.
  - intros H Hle. destruct (body s) as [[s'|]|]; try done. apply IH; [done | lia].
Qed.
