(* ===== verification/Endian.v ===== *)
(** * Endian.h: byte order of the wire integers

    The host is little-endian (x86-64, the platform of the build files), so
    the [htobe*] and [be*toh] macros are byte swaps.  [le_bytes n x] is the
    object representation of an [n]-byte integer on the host; [be_bytes] the
    network representation. *)

From S2P Require Import Prelude.

(** ** Object representation *)

Fixpoint le_bytes (n : nat) (x : Z) : bytes :=
  match n with
  | O => []
  | S n' => Z2b x :: le_bytes n' (x / 256)
  end.

Fixpoint le_value (l : bytes) : Z :=
  match l with
  | [] => 0
  | b :: l' => b2Z b + 256 * le_value l'
  end.

Definition be_bytes (n : nat) (x : Z) : bytes := reverse (le_bytes n x).
Definition be_value (l : bytes) : Z := le_value (reverse l).

Definition bswap (n : nat) (x : Z) : Z := le_value (reverse (le_bytes n x)).

(** ** The conversions of Endian.h *)

Definition hostToNetwork64 (host64 : Z) : Z := bswap 8 host64.
Definition hostToNetwork32 (host32 : Z) : Z := bswap 4 host32.
Definition hostToNetwork16 (host16 : Z) : Z := bswap 2 host16.
Definition networkToHost64 (net64 : Z) : Z := bswap 8 net64.
Definition networkToHost32 (net32 : Z) : Z := bswap 4 net32.
Definition networkToHost16 (net16 : Z) : Z := bswap 2 net16.

(** ** Lemmas *)

Lemma length_le_bytes n x : length (le_bytes n x) = n.
Proof. revert x. induction n; intros; cbn; auto. Qed.

Lemma length_be_bytes n x : length (be_bytes n x) = n.
Proof. unfold be_bytes. rewrite length_reverse. apply length_le_bytes. Qed.

Lemma zlen_be_bytes n x : zlen (be_bytes n x) = Z.of_nat n.
Proof. unfold zlen. by rewrite length_be_bytes. Qed.

Lemma le_value_bytes n x : le_value (le_bytes n x) = x mod 256 ^ Z.of_nat n.
Proof.
  revert x. induction n as [|n IH]; intros x.
  - cbn. by rewrite Z.mod_1_r.
  - cbn [le_bytes le_value]. rewrite IH, b2Z_Z2b, Nat2Z.inj_succ, Z.pow_succ_r by lia.
    assert (0 < 256 ^ Z.of_nat n) by (apply Z.pow_pos_nonneg; lia).
    rewrite Z.rem_mul_r; lia.
Qed.

Lemma le_value_range l : 0 <= le_value l < 256 ^ zlen l.
Proof.
  induction l as [|b l IH]; [by cbn|].
  cbn [le_value]. rewrite zlen_cons, Z.pow_add_r by (pose proof (zlen_nonneg l); lia).
  change (256 ^ 1) with 256. pose proof (b2Z_range b). lia.
Qed.

Lemma le_bytes_value l : le_bytes (length l) (le_value l) = l.
Proof.
  induction l as [|b l IH]; [done|]. cbn [length le_bytes le_value].
  pose proof (b2Z_range b).
  replace ((b2Z b + 256 * le_value l) / 256) with (le_value l)
    by (rewrite Z.mul_comm, Z.div_add, (Z.div_small (b2Z b)); lia).
  rewrite IH. f_equal. apply b2Z_inj.
  rewrite b2Z_Z2b, Z.mul_comm, Z_mod_plus_full. apply Z.mod_small. lia.
Qed.

(** Congruent integers have the same representation. *)
Lemma le_bytes_mod n x : le_bytes n (x mod 256 ^ Z.of_nat n) = le_bytes n x.
Proof.
  rewrite <- le_value_bytes. rewrite <- (length_le_bytes n x) at 1.
  apply le_bytes_value.
Qed.

Lemma le_bytes_cong n x y :
  x mod 256 ^ Z.of_nat n = y mod 256 ^ Z.of_nat n -> le_bytes n x = le_bytes n y.
Proof. intros H. by rewrite <- (le_bytes_mod n x), H, le_bytes_mod. Qed.

Lemma le_bytes_bswap n x : le_bytes n (bswap n x) = be_bytes n x.
Proof.
  unfold bswap, be_bytes. rewrite <- (length_le_bytes n x) at 1.
  rewrite <- length_reverse. apply le_bytes_value.
Qed.

Lemma be_value_bytes n x : be_value (be_bytes n x) = x mod 256 ^ Z.of_nat n.
Proof. unfold be_value, be_bytes. rewrite reverse_involutive. apply le_value_bytes. Qed.

(** Loading a network integer from memory and swapping it reads it big-endian. *)
Lemma bswap_mem n l x :
  length l = n -> x mod 256 ^ Z.of_nat n = le_value l mod 256 ^ Z.of_nat n ->
  bswap n x = be_value l.
Proof.
  intros <- H. unfold bswap, be_value.
  by rewrite (le_bytes_cong _ _ _ H), le_bytes_value.
Qed.

Lemma bswap_range n x : 0 <= bswap n x < 256 ^ Z.of_nat n.
Proof.
  unfold bswap. pose proof (le_value_range (reverse (le_bytes n x))) as H.
  unfold zlen in H. by rewrite length_reverse, length_le_bytes in H.
Qed.

Lemma bswap_involutive n x : bswap n (bswap n x) = x mod 256 ^ Z.of_nat n.
Proof.
  unfold bswap at 1. rewrite le_bytes_bswap. unfold be_bytes.
  rewrite reverse_involutive. apply le_value_bytes.
Qed.

(** Signed reading of a 32-bit network integer. *)
Lemma s32_be_value_bytes x : s32 (be_value (be_bytes 4 x)) = s32 x.
Proof. rewrite be_value_bytes. change (256 ^ Z.of_nat 4) with (2 ^ 32). apply s32_u32. Qed.

(** An [int32_t] converted with [hostToNetwork32] and copied to memory. *)
Lemma net32_bytes x : le_bytes 4 (s32 (hostToNetwork32 (u32 (s32 x)))) = be_bytes 4 (s32 x).
Proof.
  rewrite (le_bytes_cong 4 _ (bswap 4 (u32 (s32 x)))) by apply u32_s32.
  rewrite le_bytes_bswap. unfold be_bytes. f_equal. by apply (le_bytes_mod 4).
Qed.

#[export] Hint Rewrite length_be_bytes zlen_be_bytes : zlen.

Arguments le_bytes : simpl never.
Arguments be_bytes : simpl never.
