(* ===== verification/NetBuffer.v ===== *)
(** * Buffer.h, Buffer.cc: the input and output buffer of a connection

    [Module Buffer] follows class [Buffer] member by member: the vector and the
    two indices are the record [t], pointers into the vector are its offsets,
    [size_t] arithmetic wraps at 64 bits and every [assert] is a [check].

    The abstract view is a byte queue: [contents] is the readable range.  [queue],
    [spec] and [refines] state what the class promises its clients, and
    [ByteSource] is the part of it the codecs are written against. *)

From S2P Require Import Prelude Endian.

Module Buffer.

Definition kCheapPrepend : Z := 8.
Definition kInitialSize : Z := 1024.
Definition kCRLF : bytes := [x0d; x0a].

Record t := mk { buffer_ : bytes; readerIndex_ : Z; writerIndex_ : Z }.

Definition readableBytes (b : t) : Z := u64 (writerIndex_ b - readerIndex_ b).
Definition writableBytes (b : t) : Z := u64 (zlen (buffer_ b) - writerIndex_ b).
Definition prependableBytes (b : t) : Z := readerIndex_ b.

(** The constructor. *)
Definition Buffer : outcome t :=
  buf ← vector_new (kCheapPrepend + kInitialSize);
  let b := mk buf kCheapPrepend kCheapPrepend in
  _ ← check (readableBytes b =? 0);
  _ ← check (writableBytes b =? kInitialSize);
  _ ← check (prependableBytes b =? kCheapPrepend);
  Ret b.

Definition swap (lhs rhs : t) : t * t :=
  (mk (buffer_ rhs) (readerIndex_ rhs) (writerIndex_ rhs),
   mk (buffer_ lhs) (readerIndex_ lhs) (writerIndex_ lhs)).

(** [peek()] and [beginWrite()] are the offsets [readerIndex_] and [writerIndex_]. *)
Definition peek (b : t) : Z := readerIndex_ b.
Definition beginWrite (b : t) : Z := writerIndex_ b.

(** [NULL] is [None]. *)
Definition findCRLF (b : t) : outcome (option Z) :=
  range ← load (peek b) (beginWrite b - peek b) (buffer_ b);
  Ret ((fun i : nat => peek b + Z.of_nat i) <$> search kCRLF range).

Definition retrieve (len : Z) (b : t) : outcome t :=
  _ ← check (len <=? readableBytes b);
  Ret (mk (buffer_ b) (u64 (readerIndex_ b + len)) (writerIndex_ b)).

Definition retrieveUntil (end_ : Z) (b : t) : outcome t :=
  _ ← check (peek b <=? end_);
  _ ← check (end_ <=? beginWrite b);
  retrieve (u64 (end_ - peek b)) b.

Definition retrieveAll (b : t) : t := mk (buffer_ b) kCheapPrepend kCheapPrepend.

Definition retrieveAsString (len : Z) (b : t) : outcome (bytes * t) :=
  _ ← check (len <=? readableBytes b);
  result ← load (peek b) len (buffer_ b);
  b' ← retrieve len b;
  Ret (result, b').

Definition retrieveAllAsString (b : t) : outcome (bytes * t) :=
  retrieveAsString (readableBytes b) b.

Definition makeSpace (len : Z) (b : t) : outcome t :=
  if u64 (writableBytes b + prependableBytes b) <? u64 (len + kCheapPrepend) then
    buf ← vector_resize (u64 (writerIndex_ b + len)) (buffer_ b);
    Ret (mk buf (readerIndex_ b) (writerIndex_ b))
  else
    _ ← check (kCheapPrepend <? readerIndex_ b);
    let readable := readableBytes b in
    range ← load (readerIndex_ b) (writerIndex_ b - readerIndex_ b) (buffer_ b);
    buf ← store kCheapPrepend range (buffer_ b);
    let b' := mk buf kCheapPrepend (u64 (kCheapPrepend + readable)) in
    _ ← check (readable =? readableBytes b');
    Ret b'.

Definition ensureWritableBytes (len : Z) (b : t) : outcome t :=
  b' ← (if writableBytes b <? len then makeSpace len b else Ret b);
  _ ← check (len <=? writableBytes b');
  Ret b'.

Definition hasWritten (len : Z) (b : t) : t :=
  mk (buffer_ b) (readerIndex_ b) (u64 (writerIndex_ b + len)).

(** [append(const char* data, size_t len)]: [data] is the range of [len] bytes.
    The [std::string] and [void*] overloads forward to it. *)
Definition append (data : bytes) (b : t) : outcome t :=
  let len := zlen data in
  b' ← ensureWritableBytes len b;
  buf ← store (beginWrite b') data (buffer_ b');
  Ret (hasWritten len (mk buf (readerIndex_ b') (writerIndex_ b'))).

Definition appendInt64 (x : Z) (b : t) : outcome t :=
  let be64 := s64 (hostToNetwork64 (u64 x)) in
  append (le_bytes 8 be64) b.

Definition appendInt32 (x : Z) (b : t) : outcome t :=
  let be32 := s32 (hostToNetwork32 (u32 x)) in
  append (le_bytes 4 be32) b.

Definition peekInt64 (b : t) : outcome Z :=
  _ ← check (8 <=? readableBytes b);
  mem ← load (peek b) 8 (buffer_ b);
  let be64 := s64 (le_value mem) in
  Ret (s64 (networkToHost64 (u64 be64))).

Definition peekInt32 (b : t) : outcome Z :=
  _ ← check (4 <=? readableBytes b);
  mem ← load (peek b) 4 (buffer_ b);
  let be32 := s32 (le_value mem) in
  Ret (s32 (networkToHost32 (u32 be32))).

Definition prepend (data : bytes) (b : t) : outcome t :=
  let len := zlen data in
  _ ← check (len <=? prependableBytes b);
  let r := u64 (readerIndex_ b - len) in
  buf ← store r data (buffer_ b);
  Ret (mk buf r (writerIndex_ b)).

Definition shrink (reserve : Z) (b : t) : outcome t :=
  buf ← vector_new (u64 (kCheapPrepend + readableBytes b + reserve));
  range ← load (peek b) (readableBytes b) (buffer_ b);
  buf' ← store kCheapPrepend range buf;
  Ret (mk buf' (readerIndex_ b) (writerIndex_ b)).

(** [readv(2)] on the writable range followed by a 64 KiB stack buffer: the
    bytes it delivered, or the [errno] of a failure.  [readFd] answers the
    [ssize_t] result and the saved [errno]. *)
Definition extrabuf_size : Z := 65536.
Inductive readv_result := ReadBytes (d : bytes) | ReadError (e : Z).

Definition readFd (r : readv_result) (b : t) : outcome (Z * option Z * t) :=
  let writable := writableBytes b in
  match r with
  | ReadError e => Ret (-1, Some e, b)
  | ReadBytes d =>
      let n := zlen d in
      let iov0 := take (Z.to_nat writable) d in
      let extrabuf := drop (Z.to_nat writable) d in
      buf ← store (writerIndex_ b) iov0 (buffer_ b);
      if n <=? writable then
        Ret (n, None, mk buf (readerIndex_ b) (u64 (writerIndex_ b + n)))
      else
        b' ← append extrabuf (mk buf (readerIndex_ b) (zlen buf));
        Ret (n, None, b')
  end.

(** ** The abstract byte queue *)

(** Bytes between the indices, in order. *)
Definition contents (b : t) : bytes :=
  slice (readerIndex_ b) (writerIndex_ b - readerIndex_ b) (buffer_ b).

(** The picture in the class comment: 0 <= readerIndex <= writerIndex <= size. *)
Record wf (b : t) : Prop := {
  wf_reader : 0 <= readerIndex_ b;
  wf_order : readerIndex_ b <= writerIndex_ b;
  wf_writer : writerIndex_ b <= zlen (buffer_ b);
  wf_cheap : kCheapPrepend <= zlen (buffer_ b);
  wf_max : zlen (buffer_ b) <= vector_max_size
}.

(** What a client may rely on: the bytes queued, how many can still be
    prepended, and a bound on the memory used so far. *)
Record queue := mkq { q_bytes : bytes; q_room : Z; q_vol : Z }.

Definition empty_queue : queue := mkq [] kCheapPrepend (kCheapPrepend + kInitialSize).

Inductive op :=
| Append (d : bytes)
| AppendInt32 (x : Z)
| AppendInt64 (x : Z)
| Prepend (d : bytes)
| Retrieve (n : Z)
| RetrieveAll
| RetrieveAsString (n : Z)
| RetrieveAllAsString
| EnsureWritable (n : Z)
| PeekInt32
| PeekInt64
| FindCRLF
| ReadFd (r : readv_result).

Inductive answer :=
| Unit
| Int (x : Z)
| Str (s : bytes)
| Offset (o : option Z)
| Read (n : Z) (e : option Z).

(** Behaviour of the class. *)
Definition exec (o : op) (b : t) : outcome (answer * t) :=
  match o with
  | Append d => b' ← append d b; Ret (Unit, b')
  | AppendInt32 x => b' ← appendInt32 x b; Ret (Unit, b')
  | AppendInt64 x => b' ← appendInt64 x b; Ret (Unit, b')
  | Prepend d => b' ← prepend d b; Ret (Unit, b')
  | Retrieve n => b' ← retrieve n b; Ret (Unit, b')
  | RetrieveAll => Ret (Unit, retrieveAll b)
  | RetrieveAsString n => '(s, b') ← retrieveAsString n b; Ret (Str s, b')
  | RetrieveAllAsString => '(s, b') ← retrieveAllAsString b; Ret (Str s, b')
  | EnsureWritable n => b' ← ensureWritableBytes n b; Ret (Unit, b')
  | PeekInt32 => x ← peekInt32 b; Ret (Int x, b)
  | PeekInt64 => x ← peekInt64 b; Ret (Int x, b)
  | FindCRLF => o ← findCRLF b; Ret (Offset ((fun p => p - peek b) <$> o), b)
  | ReadFd r => '(n, e, b') ← readFd r b; Ret (Read n e, b')
  end.

Fixpoint run (ops : list op) (b : t) : outcome (list answer * t) :=
  match ops with
  | [] => Ret ([], b)
  | o :: ops' =>
      '(a, b1) ← exec o b;
      '(rest, b2) ← run ops' b1;
      Ret (a :: rest, b2)
  end.

(** Behaviour of the queue: [None] when the client breaks the contract. *)
Definition grow (d : bytes) (q : queue) : option queue :=
  if q_vol q + zlen d <=? vector_max_size
  then Some (mkq (q_bytes q ++ d) (q_room q) (q_vol q + zlen d)) else None.

Definition spec (o : op) (q : queue) : option (answer * queue) :=
  match o with
  | Append d => (fun q' => (Unit, q')) <$> grow d q
  | AppendInt32 x => (fun q' => (Unit, q')) <$> grow (be_bytes 4 x) q
  | AppendInt64 x => (fun q' => (Unit, q')) <$> grow (be_bytes 8 x) q
  | Prepend d =>
      if zlen d <=? q_room q
      then Some (Unit, mkq (d ++ q_bytes q) (q_room q - zlen d) (q_vol q)) else None
  | Retrieve n =>
      if (0 <=? n) && (n <=? zlen (q_bytes q))
      then Some (Unit, mkq (drop (Z.to_nat n) (q_bytes q)) (q_room q) (q_vol q)) else None
  | RetrieveAll => Some (Unit, mkq [] kCheapPrepend (q_vol q))
  | RetrieveAsString n =>
      if (0 <=? n) && (n <=? zlen (q_bytes q))
      then Some (Str (take (Z.to_nat n) (q_bytes q)),
                 mkq (drop (Z.to_nat n) (q_bytes q)) (q_room q) (q_vol q)) else None
  | RetrieveAllAsString => Some (Str (q_bytes q), mkq [] (q_room q) (q_vol q))
  | EnsureWritable n =>
      if (0 <=? n) && (q_vol q + n <=? vector_max_size)
      then Some (Unit, mkq (q_bytes q) (q_room q) (q_vol q + n)) else None
  | PeekInt32 =>
      if 4 <=? zlen (q_bytes q)
      then Some (Int (s32 (be_value (take 4 (q_bytes q)))), q) else None
  | PeekInt64 =>
      if 8 <=? zlen (q_bytes q)
      then Some (Int (s64 (be_value (take 8 (q_bytes q)))), q) else None
  | FindCRLF => Some (Offset (Z.of_nat <$> search kCRLF (q_bytes q)), q)
  | ReadFd (ReadError e) => Some (Read (-1) (Some e), q)
  | ReadFd (ReadBytes d) => (fun q' => (Read (zlen d) None, q')) <$> grow d q
  end.

Fixpoint run_spec (ops : list op) (q : queue) : option (list answer * queue) :=
  match ops with
  | [] => Some ([], q)
  | o :: ops' =>
      '(a, q1) ← spec o q;
      '(rest, q2) ← run_spec ops' q1;
      Some (a :: rest, q2)
  end.

(** The simulation relation. *)
Record refines (q : queue) (b : t) : Prop := {
  rf_wf : wf b;
  rf_bytes : contents b = q_bytes q;
  rf_room : 0 <= q_room q <= readerIndex_ b;
  rf_cheap : q_room q <= kCheapPrepend;
  rf_vol : zlen (buffer_ b) <= q_vol q
}.

(** ** Lemmas *)

Ltac wf_lia :=
  unfold kCheapPrepend, kInitialSize, vector_max_size, extrabuf_size, peek, beginWrite,
    prependableBytes in *; lia.

Ltac u64_norm :=
  repeat match goal with |- context [u64 ?x] => rewrite (u64_id x) by wf_lia end.

Lemma readable_ok b : wf b -> readableBytes b = writerIndex_ b - readerIndex_ b.
Proof. intros []. unfold readableBytes. apply u64_id. wf_lia. Qed.

Lemma writable_ok b : wf b -> writableBytes b = zlen (buffer_ b) - writerIndex_ b.
Proof. intros []. unfold writableBytes. apply u64_id. wf_lia. Qed.

Lemma zlen_contents b : wf b -> zlen (contents b) = writerIndex_ b - readerIndex_ b.
Proof. intros []. apply zlen_slice; lia. Qed.

Lemma readable_contents b : wf b -> readableBytes b = zlen (contents b).
Proof. intros H. by rewrite readable_ok, zlen_contents. Qed.

(** A readable sub-range, read through a pointer. *)
Lemma load_readable b off n :
  wf b -> 0 <= off -> 0 <= n -> off + n <= zlen (contents b) ->
  load (peek b + off) n (buffer_ b) = Ret (slice off n (contents b)).
Proof.
  intros H ? ? Hn. rewrite zlen_contents in Hn by done. destruct H.
  rewrite load_ok by wf_lia. f_equal. unfold contents, peek.
  apply list_eq. intros i. rewrite !lookup_slice. case_bool_decide; [|done].
  rewrite bool_decide_true by lia. f_equal. lia.
Qed.

Lemma load_contents b : wf b ->
  load (readerIndex_ b) (writerIndex_ b - readerIndex_ b) (buffer_ b) = Ret (contents b).
Proof. intros []. apply load_ok; lia. Qed.

(** What reserving [len] bytes does: the content stays, the space is there. *)
Record reserved (len : Z) (b b' : t) : Prop := {
  rs_wf : wf b';
  rs_contents : contents b' = contents b;
  rs_space : len <= zlen (buffer_ b') - writerIndex_ b';
  rs_reader : Z.min kCheapPrepend (readerIndex_ b) <= readerIndex_ b';
  rs_size : zlen (buffer_ b') <= zlen (buffer_ b) + len
}.

Lemma makeSpace_ok len b :
  wf b -> zlen (buffer_ b) - writerIndex_ b < len ->
  zlen (buffer_ b) + len <= vector_max_size ->
  returns (makeSpace len b) (reserved len b).
Proof.
  intros H Hlt Hmax. pose proof (writable_ok b H). pose proof (readable_ok b H).
  destruct H. unfold makeSpace. rewrite H0, H1. u64_norm.
  destruct (_ <? _) eqn:E; bools.
  - unfold vector_resize. u64_norm. rewrite (proj2 (Z.leb_le _ _)) by wf_lia.
    cbn [mbind outcome_bind returns].
    assert (zlen (take (Z.to_nat (writerIndex_ b + len)) (buffer_ b) ++
              replicate (Z.to_nat (writerIndex_ b + len - zlen (buffer_ b))) x00)
            = writerIndex_ b + len) as El
      by (rewrite zlen_app, zlen_take, zlen_replicate; wf_lia).
    split; [split|..]; cbn [buffer_ readerIndex_ writerIndex_]; try rewrite El; try wf_lia.
    unfold contents; cbn [buffer_ readerIndex_ writerIndex_].
    rewrite take_ge by (unfold zlen in *; wf_lia).
    apply slice_app_l; lia.
  - rewrite check_true by (apply Z.ltb_lt; wf_lia). rewrite bind_Ret, load_contents by done.
    rewrite bind_Ret.
    assert (zlen (contents b) = writerIndex_ b - readerIndex_ b) as Ec
      by (by apply zlen_contents).
    rewrite store_ok by wf_lia. rewrite bind_Ret. unfold readableBytes; cbn [writerIndex_ readerIndex_].
    u64_norm.
    rewrite check_true by (apply Z.eqb_eq; lia). cbn [mbind outcome_bind returns].
    assert (zlen (splice kCheapPrepend (contents b) (buffer_ b)) = zlen (buffer_ b)) as Es
      by (apply zlen_splice; wf_lia).
    split; [split|..]; cbn [buffer_ readerIndex_ writerIndex_]; try rewrite Es; try wf_lia.
    unfold contents at 1; cbn [buffer_ readerIndex_ writerIndex_].
    replace (kCheapPrepend + _ - kCheapPrepend) with (zlen (contents b)) by lia.
    apply slice_splice_eq; wf_lia.
Qed.

Lemma ensureWritableBytes_ok len b :
  wf b -> 0 <= len -> zlen (buffer_ b) + len <= vector_max_size ->
  returns (ensureWritableBytes len b) (reserved len b).
Proof.
  intros H Hl Hmax. unfold ensureWritableBytes. rewrite writable_ok by done.
  apply returns_bind.
  apply (returns_mono _ (reserved len b)).
  - intros b' Hr. rewrite writable_ok by apply Hr.
    rewrite check_true by (apply Z.leb_le, Hr). done.
  - destruct (_ <? _) eqn:E; bools; [by apply makeSpace_ok|].
    split; [done | done | lia | lia | lia].
Qed.

(** Writing into reserved space. *)
Lemma write_ok d b :
  wf b -> zlen d <= zlen (buffer_ b) - writerIndex_ b ->
  exists mem, store (beginWrite b) d (buffer_ b) = Ret mem /\
    let b' := hasWritten (zlen d) (mk mem (readerIndex_ b) (writerIndex_ b)) in
    wf b' /\ contents b' = contents b ++ d /\ readerIndex_ b' = readerIndex_ b /\
    zlen (buffer_ b') = zlen (buffer_ b).
Proof.
  intros H Hd. pose proof H as []. pose proof (zlen_nonneg d).
  exists (splice (writerIndex_ b) d (buffer_ b)). split; [apply store_ok; wf_lia|].
  unfold hasWritten. cbn [buffer_ readerIndex_ writerIndex_]. u64_norm.
  assert (zlen (splice (writerIndex_ b) d (buffer_ b)) = zlen (buffer_ b)) as Es
    by (apply zlen_splice; lia).
  split; [|split; [|done]].
  - split; cbn [buffer_ readerIndex_ writerIndex_]; rewrite ?Es; wf_lia.
  - unfold contents; cbn [buffer_ readerIndex_ writerIndex_].
    replace (writerIndex_ b + zlen d - readerIndex_ b)
      with (writerIndex_ b - readerIndex_ b + zlen d) by lia.
    rewrite slice_split by lia. f_equal.
    + apply slice_splice_before; lia.
    + replace (readerIndex_ b + _) with (writerIndex_ b) by lia.
      apply slice_splice_eq; lia.
Qed.

Lemma append_ok d b :
  wf b -> zlen (buffer_ b) + zlen d <= vector_max_size ->
  returns (append d b) (fun b' =>
    wf b' /\ contents b' = contents b ++ d /\
    Z.min kCheapPrepend (readerIndex_ b) <= readerIndex_ b' /\
    zlen (buffer_ b') <= zlen (buffer_ b) + zlen d).
Proof.
  intros H Hmax. unfold append. apply returns_bind. pose proof (zlen_nonneg d).
  apply (returns_mono _ (reserved (zlen d) b)); [|by apply ensureWritableBytes_ok].
  intros b' [Hw Hc Hs Hr Hz]. destruct (write_ok d b' Hw Hs) as (mem & -> & Hw' & Hc' & Hr' & Hz').
  cbn [mbind outcome_bind returns]. rewrite Hc', Hr', Hz', Hc. split_and!; [done..|lia].
Qed.

Lemma retrieve_ok n b :
  wf b -> 0 <= n <= zlen (contents b) ->
  returns (retrieve n b) (fun b' =>
    wf b' /\ contents b' = drop (Z.to_nat n) (contents b) /\
    readerIndex_ b <= readerIndex_ b' /\ buffer_ b' = buffer_ b).
Proof.
  intros H Hn. unfold retrieve. rewrite readable_contents by done.
  rewrite check_true by (apply Z.leb_le; lia). rewrite zlen_contents in Hn by done.
  destruct H. cbn [mbind outcome_bind returns]. u64_norm.
  repeat split; cbn [buffer_ readerIndex_ writerIndex_]; try lia.
  unfold contents; cbn [buffer_ readerIndex_ writerIndex_].
  rewrite drop_slice by lia. f_equal; lia.
Qed.

Lemma retrieveAsString_ok n b :
  wf b -> 0 <= n <= zlen (contents b) ->
  returns (retrieveAsString n b) (fun '(s, b') =>
    s = take (Z.to_nat n) (contents b) /\
    wf b' /\ contents b' = drop (Z.to_nat n) (contents b) /\
    readerIndex_ b <= readerIndex_ b' /\ buffer_ b' = buffer_ b).
Proof.
  intros H Hn. unfold retrieveAsString. rewrite readable_contents by done.
  rewrite check_true by (apply Z.leb_le; lia). rewrite bind_Ret.
  replace (peek b) with (peek b + 0) by lia. rewrite load_readable by lia || done.
  rewrite bind_Ret. apply returns_bind.
  eapply returns_mono; [|by apply retrieve_ok].
  intros b' ?. cbn. split; [|done]. done.
Qed.

Lemma prepend_ok d b :
  wf b -> zlen d <= readerIndex_ b ->
  returns (prepend d b) (fun b' =>
    wf b' /\ contents b' = d ++ contents b /\
    readerIndex_ b' = readerIndex_ b - zlen d /\
    zlen (buffer_ b') = zlen (buffer_ b)).
Proof.
  intros H Hd. pose proof (zlen_nonneg d). pose proof H as []. unfold prepend.
  rewrite check_true by (apply Z.leb_le; wf_lia). rewrite bind_Ret. u64_norm.
  rewrite store_ok by lia. cbn [mbind outcome_bind returns].
  assert (zlen (splice (readerIndex_ b - zlen d) d (buffer_ b)) = zlen (buffer_ b)) as Es
    by (apply zlen_splice; lia).
  split; [split; cbn [buffer_ readerIndex_ writerIndex_]; rewrite ?Es; wf_lia|].
  split; [|done]. unfold contents; cbn [buffer_ readerIndex_ writerIndex_].
  replace (writerIndex_ b - (readerIndex_ b - zlen d))
    with (zlen d + (writerIndex_ b - readerIndex_ b)) by lia.
  rewrite slice_split by lia. f_equal.
  - apply slice_splice_eq; lia.
  - replace (readerIndex_ b - zlen d + zlen d) with (readerIndex_ b) by lia.
    apply slice_splice_after; lia.
Qed.

Lemma retrieveAll_ok b :
  wf b -> wf (retrieveAll b) /\ contents (retrieveAll b) = [].
Proof. intros []. split; [split; cbn; wf_lia | done]. Qed.

Lemma peekInt32_ok b :
  wf b -> 4 <= zlen (contents b) ->
  peekInt32 b = Ret (s32 (be_value (take 4 (contents b)))).
Proof.
  intros H Hn. unfold peekInt32. rewrite readable_contents by done.
  rewrite check_true by (apply Z.leb_le; lia). rewrite bind_Ret.
  replace (peek b) with (peek b + 0) by lia. rewrite load_readable by lia || done.
  rewrite bind_Ret. unfold slice. change (Z.to_nat 4) with 4%nat. rewrite drop_0.
  set (l := take 4 (contents b)).
  assert (length l = 4%nat) as El by (unfold l; rewrite length_take; unfold zlen in Hn; lia).
  do 2 f_equal. apply bswap_mem; [done|].
  change (256 ^ Z.of_nat 4) with (2 ^ 32). fold (u32 (u32 (s32 (le_value l)))) (u32 (le_value l)).
  rewrite u32_s32. by apply Z.mod_mod.
Qed.

Lemma peekInt64_ok b :
  wf b -> 8 <= zlen (contents b) ->
  peekInt64 b = Ret (s64 (be_value (take 8 (contents b)))).
Proof.
  intros H Hn. unfold peekInt64. rewrite readable_contents by done.
  rewrite check_true by (apply Z.leb_le; lia). rewrite bind_Ret.
  replace (peek b) with (peek b + 0) by lia. rewrite load_readable by lia || done.
  rewrite bind_Ret. unfold slice. change (Z.to_nat 8) with 8%nat. rewrite drop_0.
  set (l := take 8 (contents b)).
  assert (length l = 8%nat) as El by (unfold l; rewrite length_take; unfold zlen in Hn; lia).
  do 2 f_equal. apply bswap_mem; [done|].
  change (256 ^ Z.of_nat 8) with (2 ^ 64). fold (u64 (u64 (s64 (le_value l)))) (u64 (le_value l)).
  rewrite u64_s64. by apply Z.mod_mod.
Qed.

(** ** The buffer refines the byte queue *)

Lemma refines_append d q q' b :
  refines q b -> grow d q = Some q' -> returns (append d b) (refines q').
Proof.
  intros [Hw Hb Hr Hc Hv] Hg. unfold grow in Hg. destruct (_ <=? _) eqn:E; [|done].
  injection Hg as <-. bools. eapply returns_mono; [|apply append_ok; [done | wf_lia]].
  intros b' (? & Hc' & Hr' & Hz). split; cbn [q_bytes q_room q_vol]; [done| |wf_lia..].
  congruence.
Qed.

(** Storing the network form of an integer writes its big-endian bytes. *)
Lemma appendInt32_bytes x b : appendInt32 x b = append (be_bytes 4 x) b.
Proof.
  unfold appendInt32. f_equal.
  rewrite (le_bytes_cong 4 _ (bswap 4 (u32 x))) by apply u32_s32.
  rewrite le_bytes_bswap. unfold be_bytes. f_equal. by apply (le_bytes_mod 4).
Qed.

Lemma appendInt64_bytes x b : appendInt64 x b = append (be_bytes 8 x) b.
Proof.
  unfold appendInt64. f_equal.
  rewrite (le_bytes_cong 8 _ (bswap 8 (u64 x))) by apply u64_s64.
  rewrite le_bytes_bswap. unfold be_bytes. f_equal. by apply (le_bytes_mod 8).
Qed.

Lemma refines_readFd d q q' b :
  refines q b -> grow d q = Some q' ->
  returns (readFd (ReadBytes d) b) (fun '(n, e, b') => n = zlen d /\ e = None /\ refines q' b').
Proof.
  intros [Hw Hb Hr Hc Hv] Hg. unfold grow in Hg. destruct (_ <=? _) eqn:E; [|done].
  injection Hg as <-. bools. unfold readFd. rewrite writable_ok by done. pose proof Hw as [].
  set (w := zlen (buffer_ b) - writerIndex_ b) in *.
  assert (zlen (take (Z.to_nat w) d) = Z.min w (zlen d)) as Et by (rewrite zlen_take; lia).
  pose proof (zlen_nonneg d).
  rewrite store_ok by lia. rewrite bind_Ret.
  assert (forall x, zlen (splice (writerIndex_ b) (take (Z.to_nat w) d) (buffer_ b)) = x
                    <-> zlen (buffer_ b) = x) as Es by (intros; rewrite zlen_splice; lia).
  assert (slice (readerIndex_ b) (writerIndex_ b - readerIndex_ b + zlen (take (Z.to_nat w) d))
            (splice (writerIndex_ b) (take (Z.to_nat w) d) (buffer_ b))
          = q_bytes q ++ take (Z.to_nat w) d) as Ec.
  { rewrite slice_split by lia. f_equal.
    - rewrite <- Hb. apply slice_splice_before; lia.
    - replace (readerIndex_ b + _) with (writerIndex_ b) by lia.
      apply slice_splice_eq; lia. }
  set (buf := splice _ _ _) in *. pose proof (proj2 (Es _) eq_refl) as El. clear Es.
  destruct (_ <=? _) eqn:Ele; bools.
  - cbn. split_and!; [done..|]. rewrite (take_ge d) in * by (unfold zlen in *; lia).
    u64_norm. split; cbn [buffer_ readerIndex_ writerIndex_ q_bytes q_room q_vol];
      [split; cbn [buffer_ readerIndex_ writerIndex_]; wf_lia| |wf_lia..].
    rewrite <- Ec. unfold contents; cbn [buffer_ readerIndex_ writerIndex_]. f_equal. lia.
  - apply returns_bind.
    assert (zlen (drop (Z.to_nat w) d) = zlen d - w) by (rewrite zlen_drop; lia).
    eapply returns_mono; [|apply append_ok].
    + cbn beta. intros b' (? & Hc' & Hr' & Hz). cbn [buffer_ readerIndex_] in *.
      cbn. split_and!; [done..|].
      split; cbn [q_bytes q_room q_vol]; [done| |wf_lia..].
      rewrite Hc'. unfold contents; cbn [buffer_ readerIndex_ writerIndex_].
      replace (zlen buf - readerIndex_ b)
        with (writerIndex_ b - readerIndex_ b + zlen (take (Z.to_nat w) d)) by lia.
      rewrite Ec, <- app_assoc, take_drop. done.
    + split; cbn [buffer_ readerIndex_ writerIndex_]; wf_lia.
    + cbn [buffer_]. wf_lia.
Qed.

(** A socket read appends what arrived, whichever branch stores it. *)
Lemma readFd_ok d b :
  wf b -> zlen (buffer_ b) + zlen d <= vector_max_size ->
  returns (readFd (ReadBytes d) b) (fun '(n, e, b') =>
    n = zlen d /\ e = None /\ wf b' /\ contents b' = contents b ++ d /\
    zlen (buffer_ b') <= zlen (buffer_ b) + zlen d).
Proof.
  intros H Hm. pose proof H as []. eapply returns_mono;
    [|apply (refines_readFd d (mkq (contents b) 0 (zlen (buffer_ b)))
        (mkq (contents b ++ d) 0 (zlen (buffer_ b) + zlen d)))].
  - intros [[n e] b'] (-> & -> & []). cbn in *. split_and!; done || lia.
  - split; cbn; [done|done|wf_lia..].
  - unfold grow. cbn. by rewrite (proj2 (Z.leb_le _ _)) by done.
Qed.

Lemma Buffer_ok : returns Buffer (refines empty_queue).
Proof.
  assert (zlen (replicate (Z.to_nat (kCheapPrepend + kInitialSize)) x00) = 1032) as E
    by (rewrite zlen_replicate; done).
  unfold Buffer, vector_new, readableBytes, writableBytes. cbn [mbind outcome_bind].
  rewrite (proj2 (Z.leb_le _ _)) by wf_lia. rewrite bind_Ret. cbn [buffer_ readerIndex_ writerIndex_].
  rewrite E. u64_norm. cbn -[replicate].
  split; cbn [q_bytes q_room q_vol]; [split| |..];
    cbn [buffer_ readerIndex_ writerIndex_]; rewrite ?E; wf_lia || done.
Qed.

Lemma contents_findCRLF b : wf b ->
  findCRLF b = Ret ((fun i : nat => peek b + Z.of_nat i) <$> search kCRLF (contents b)).
Proof.
  intros H. unfold findCRLF, peek, beginWrite. by rewrite load_contents by done.
Qed.

(** Weaken a [returns] fact about a component to the shape of [exec]. *)
Lemma returns_answer {A} (m : outcome t) (P : t -> Prop) (a : A) :
  returns m P -> returns (b' ← m; Ret (a, b')) (fun '(x, b') => x = a /\ P b').
Proof. destruct m; cbn; auto. Qed.

(** One operation of the class simulates one operation of the queue. *)
Lemma exec_refines o q q' b a :
  refines q b -> spec o q = Some (a, q') ->
  returns (exec o b) (fun '(a', b') => a' = a /\ refines q' b').
Proof.
  intros R E. pose proof R as [Hw Hb Hr Hc Hv]. pose proof Hw as [].
  destruct o; cbn [spec] in E; cbn [exec].
  - destruct (grow d q) eqn:Eg; [|done]. injection E as <- <-.
    by eapply returns_answer, refines_append.
  - destruct (grow _ q) eqn:Eg; [|done]. injection E as <- <-.
    rewrite appendInt32_bytes. by eapply returns_answer, refines_append.
  - destruct (grow _ q) eqn:Eg; [|done]. injection E as <- <-.
    rewrite appendInt64_bytes. by eapply returns_answer, refines_append.
  - destruct (_ <=? _) eqn:El; [|done]. injection E as <- <-. bools.
    apply returns_answer. eapply returns_mono; [|apply prepend_ok; [done | lia]].
    intros b' (? & Hc' & Hr' & Hz). split; cbn; [done|congruence|pose proof (zlen_nonneg d); wf_lia..].
  - destruct (_ && _) eqn:El; [|done]. injection E as <- <-. bools.
    apply returns_answer. rewrite <- Hb in *.
    eapply returns_mono; [|apply retrieve_ok; [done | lia]].
    intros b' (? & Hc' & Hr' & Hz). split; cbn; [done|congruence| |wf_lia|rewrite Hz; lia].
    lia.
  - injection E as <- <-. cbn. split; [done|].
    destruct (retrieveAll_ok b Hw). split; cbn; [done|done|wf_lia..].
  - destruct (_ && _) eqn:El; [|done]. injection E as <- <-. bools. rewrite <- Hb in *.
    apply returns_bind. eapply returns_mono; [|apply retrieveAsString_ok; [done | lia]].
    intros [s b'] (-> & ? & Hc' & Hr' & Hz). cbn. split; [done|].
    split; cbn; [done|congruence|lia|wf_lia|rewrite Hz; lia].
  - injection E as <- <-. unfold retrieveAllAsString. rewrite readable_contents by done.
    pose proof (zlen_nonneg (contents b)).
    apply returns_bind. eapply returns_mono; [|apply retrieveAsString_ok; [done | lia]].
    intros [s b'] (-> & ? & Hc' & Hr' & Hz). cbn.
    rewrite take_ge, Hb by (unfold zlen; lia). split; [done|].
    split; cbn; [done| |lia|wf_lia|rewrite Hz; lia].
    rewrite Hc'. apply drop_ge. unfold zlen. lia.
  - destruct (_ && _) eqn:El; [|done]. injection E as <- <-. bools. apply returns_answer.
    eapply returns_mono; [|apply ensureWritableBytes_ok; [done | lia | wf_lia]].
    intros b' [? Hc' ? Hr' Hz]. split; cbn; [done|congruence|wf_lia..].
  - destruct (_ <=? _) eqn:El; [|done]. injection E as <- <-. bools.
    rewrite peekInt32_ok by (rewrite ?Hb; done). cbn. by rewrite Hb.
  - destruct (_ <=? _) eqn:El; [|done]. injection E as <- <-. bools.
    rewrite peekInt64_ok by (rewrite ?Hb; done). cbn. by rewrite Hb.
  - injection E as <- <-. rewrite contents_findCRLF by done. cbn. rewrite Hb.
    split; [|done]. destruct (search kCRLF (q_bytes q)); cbn; [|done].
    do 2 f_equal. lia.
  - destruct r as [d|e].
    + destruct (grow d q) eqn:Eg; [|done]. injection E as <- <-.
      apply returns_bind. eapply returns_mono; [|by eapply refines_readFd].
      intros [[n e] b'] (-> & -> & ?). done.
    + injection E as <- <-. done.
Qed.

(** C1: the class is a byte queue.  From a freshly constructed buffer, every
    sequence of appends, prepends, retrievals, peeks, searches and socket reads
    that respects the queue's contract runs without failing any [assert] and
    without touching memory outside the vector, and answers exactly what the
    queue answers; afterwards the buffer still satisfies the layout picture and
    its readable bytes are the queue's bytes. *)
Theorem buffer_refines_queue (ops : list op) answers q' :
  run_spec ops empty_queue = Some (answers, q') ->
  returns (b ← Buffer; run ops b) (fun '(answers', b') =>
    answers' = answers /\ wf b' /\ contents b' = q_bytes q').
Proof.
  intros H. apply returns_bind. eapply returns_mono; [|apply Buffer_ok].
  revert H. generalize empty_queue as q. revert answers.
  induction ops as [|o ops IH]; intros answers q H b R; cbn in H |- *.
  - injection H as <- <-. by destruct R.
  - destruct (spec o q) as [[a q1]|] eqn:E; [|done]. cbn in H.
    destruct (run_spec ops q1) as [[rest q2]|] eqn:E2; [|done]. cbn in H. injection H as <- <-.
    apply returns_bind. eapply returns_mono; [|by eapply exec_refines].
    intros [a' b1] [-> R1]. apply returns_bind.
    eapply returns_mono; [|by eapply IH]. intros [? ?] (-> & ? & ?). done.
Qed.

(** A frame is written, prefixed with its length, and read back through a
    socket read. *)
Lemma buffer_refines_queue_witness :
  returns (b ← Buffer;
           run [Append (lit "hi"); Prepend (be_bytes 4 2); ReadFd (ReadBytes (lit "!!"));
                PeekInt32; Retrieve 4; RetrieveAsString 2; RetrieveAllAsString] b)
    (fun '(answers', b') =>
       answers' = [Unit; Unit; Read 2 None; Int 2; Unit; Str (lit "hi"); Str (lit "!!")] /\
       wf b' /\ contents b' = []).
Proof.
  apply (buffer_refines_queue
    [Append (lit "hi"); Prepend (be_bytes 4 2); ReadFd (ReadBytes (lit "!!"));
     PeekInt32; Retrieve 4; RetrieveAsString 2; RetrieveAllAsString]
    [Unit; Unit; Read 2 None; Int 2; Unit; Str (lit "hi"); Str (lit "!!")]
    (mkq [] 4 1036)).
  vm_compute. reflexivity.
Defined.

(** [shrink] copies the readable bytes to the front of the new vector but
    leaves both indices as they were.  It is right when the readable bytes were
    already at the front ([readerIndex_ == kCheapPrepend]); once more than
    [reserve] bytes have been retrieved, [writerIndex_] points past the end of
    the new vector. *)
Theorem shrink_behaviour b reserve :
  wf b -> 0 <= reserve ->
  kCheapPrepend + zlen (contents b) + reserve <= vector_max_size ->
  returns (shrink reserve b) (fun b' =>
    (readerIndex_ b = kCheapPrepend -> wf b' /\ contents b' = contents b) /\
    (kCheapPrepend + reserve < readerIndex_ b -> zlen (buffer_ b') < writerIndex_ b')).
Proof.
  intros H Hres Hmax. pose proof (zlen_contents b H) as Hz. unfold shrink.
  rewrite readable_contents by done. pose proof H as [].
  rewrite u64_id by wf_lia. unfold vector_new. rewrite (proj2 (Z.leb_le _ _)) by done.
  rewrite bind_Ret. replace (peek b) with (peek b + 0) by lia.
  rewrite load_readable by lia || done. rewrite bind_Ret, slice_all.
  set (fresh := replicate _ x00).
  assert (zlen fresh = kCheapPrepend + zlen (contents b) + reserve) as Ef
    by (unfold fresh; rewrite zlen_replicate; wf_lia).
  rewrite store_ok by wf_lia. rewrite bind_Ret.
  assert (zlen (splice kCheapPrepend (contents b) fresh) = zlen fresh) as Es
    by (apply zlen_splice; wf_lia).
  cbn [returns buffer_ readerIndex_ writerIndex_]. split; intros E.
  - split; [split; cbn [buffer_ readerIndex_ writerIndex_]; wf_lia|].
    unfold contents at 1; cbn [buffer_ readerIndex_ writerIndex_].
    rewrite <- Hz, E. apply slice_splice_eq; wf_lia.
  - rewrite Es, Ef. wf_lia.
Qed.

(** Ten bytes of a 20-byte message were consumed, then the buffer was shrunk
    with no reserve. *)
Lemma shrink_behaviour_witness :
  returns (shrink 0 (mk (replicate 40 x00) 18 28)) (fun b' =>
    (18 = kCheapPrepend -> wf b' /\ contents b' = replicate 10 x00) /\
    (kCheapPrepend + 0 < 18 -> zlen (buffer_ b') < writerIndex_ b')).
Proof.
  apply (shrink_behaviour (mk (replicate 40 x00) 18 28) 0).
  - split; vm_compute; discriminate.
  - lia.
  - vm_compute. discriminate.
Defined.

End Buffer.

(** ** What the codecs need from a buffer

    A codec only looks at the readable bytes and consumes them. *)

Class ByteSource (B : Type) := {
  bs_wf : B -> Prop;
  bs_contents : B -> bytes;
  bs_capacity : B -> Z;
  bs_readableBytes : B -> Z;
  bs_load : Z -> Z -> B -> outcome bytes;  (* [len] bytes at [peek() + off] *)
  bs_peekInt32 : B -> outcome Z;
  bs_retrieve : Z -> B -> outcome B;
  bs_readable_law b : bs_wf b -> bs_readableBytes b = zlen (bs_contents b);
  bs_load_law b off n :
    bs_wf b -> 0 <= off -> 0 <= n -> off + n <= zlen (bs_contents b) ->
    bs_load off n b = Ret (slice off n (bs_contents b));
  bs_peekInt32_law b :
    bs_wf b -> 4 <= zlen (bs_contents b) ->
    bs_peekInt32 b = Ret (s32 (be_value (take 4 (bs_contents b))));
  bs_retrieve_law b n :
    bs_wf b -> 0 <= n <= zlen (bs_contents b) ->
    returns (bs_retrieve n b) (fun b' =>
      bs_wf b' /\ bs_contents b' = drop (Z.to_nat n) (bs_contents b) /\
      bs_capacity b' = bs_capacity b)
}.

#[export] Program Instance buffer_source : ByteSource Buffer.t := {
  bs_wf := Buffer.wf;
  bs_contents := Buffer.contents;
  bs_capacity b := zlen (Buffer.buffer_ b);
  bs_readableBytes := Buffer.readableBytes;
  bs_load off n b := load (Buffer.peek b + off) n (Buffer.buffer_ b);
  bs_peekInt32 := Buffer.peekInt32;
  bs_retrieve := Buffer.retrieve
}.
Next Obligation. intros. by apply Buffer.readable_contents. Qed.
Next Obligation. intros. by apply Buffer.load_readable. Qed.
Next Obligation. intros. by apply Buffer.peekInt32_ok. Qed.
Next Obligation.
  intros. eapply returns_mono; [|by apply Buffer.retrieve_ok]. intros ? (? & ? & ? & ->). done.
Qed.

(** ** Lines

    What the text protocols on top of the buffer share: finding the CRLF of a line, and
    taking the line off the buffer. *)
Module Lines.

Lemma retrieveUntil_ok n b : Buffer.wf b -> (n <= length (Buffer.contents b))%nat ->
  returns (Buffer.retrieveUntil (Buffer.peek b + Z.of_nat n) b) (fun b' =>
    Buffer.wf b' /\ Buffer.contents b' = drop n (Buffer.contents b) /\ Buffer.buffer_ b' = Buffer.buffer_ b).
Proof.
  intros W Hn. pose proof (Buffer.zlen_contents b W) as Hz. unfold Buffer.retrieveUntil, Buffer.beginWrite, Buffer.peek in *.
  unfold zlen in Hz. rewrite !check_bind by (apply Z.leb_le; lia).
  assert (u64 (Buffer.readerIndex_ b + Z.of_nat n - Buffer.readerIndex_ b) = Z.of_nat n) as ->.
  { rewrite Z.add_simpl_l. apply u64_id. destruct W. pose proof (zlen_nonneg (Buffer.buffer_ b)).
    unfold zlen, vector_max_size in *. lia. }
  eapply returns_mono; [|apply Buffer.retrieve_ok; [done|unfold zlen; lia]].
  intros b' (W' & E & _ & Eb). rewrite Nat2Z.id in E. done.
Qed.

Lemma CRLF_bound l k : search Buffer.kCRLF l = Some k -> (k + 2 <= length l)%nat.
Proof. intros H%search_bound. done. Qed.

(** A line contains no CRLF. *)
Definition clean (l : bytes) : Prop := search Buffer.kCRLF l = None.

(** A line without CRLF is found whole. *)
Lemma search_line l x : clean l -> search Buffer.kCRLF (l ++ Buffer.kCRLF ++ x) = Some (length l).
Proof.
  intros H. apply search_app. intros j Hj. destruct (is_prefix _ _) eqn:E; [|done]. exfalso.
  apply is_prefix_spec in E as [y E]. rewrite drop_app_le in E by lia.
  destruct (drop j l) as [|a [|b d]] eqn:Ed; cbn in E.
  - apply (f_equal length) in Ed. rewrite length_drop in Ed. cbn in Ed. lia.
  - by injection E as -> E.
  - injection E as -> -> E. apply (search_None _ _ H (take j l) d). rewrite <- (take_drop j l) at 1. by rewrite Ed.
Qed.

(** A proper prefix of a line and its CRLF has no CRLF. *)
Lemma search_prefix l p y x : clean l -> p ++ y = l ++ Buffer.kCRLF ++ x -> (length p < length l + 2)%nat ->
  search Buffer.kCRLF p = None.
Proof.
  intros H E Hl. destruct (search Buffer.kCRLF p) as [k|] eqn:Ek; [|done]. exfalso.
  pose proof (CRLF_bound _ _ Ek). apply (search_stable _ _ y) in Ek. rewrite E, (search_line l x H) in Ek.
  injection Ek as <-. lia.
Qed.

(** The three steps of a handler on a buffer that starts with a line: find its CRLF, copy
    it, take it off. *)
Lemma take_line l x b : Buffer.wf b -> Buffer.contents b = l ++ Buffer.kCRLF ++ x -> clean l ->
  let crlf := Buffer.peek b + Z.of_nat (length l) in
  Buffer.findCRLF b = Ret (Some crlf) /\ load (Buffer.peek b) (crlf - Buffer.peek b) (Buffer.buffer_ b) = Ret l /\
  exists b1, Buffer.retrieveUntil (crlf + 2) b = Ret b1 /\ Buffer.wf b1 /\ Buffer.contents b1 = x /\
    Buffer.buffer_ b1 = Buffer.buffer_ b.
Proof.
  intros W Hx Hl crlf. assert (zlen (Buffer.contents b) = zlen l + 2 + zlen x) as Hz.
  { rewrite Hx, !zlen_app. change (zlen Buffer.kCRLF) with 2. lia. }
  pose proof (zlen_nonneg x). unfold crlf. split_and!.
  - by rewrite Buffer.contents_findCRLF, Hx, search_line.
  - replace (Buffer.peek b + Z.of_nat (length l) - Buffer.peek b) with (Z.of_nat (length l)) by lia.
    pose proof (Buffer.load_readable b 0 (Z.of_nat (length l)) W) as HL. rewrite Z.add_0_r in HL.
    rewrite HL by (unfold zlen in *; lia). unfold slice. change (Z.to_nat 0) with 0%nat.
    by rewrite drop_0, Nat2Z.id, Hx, take_app_length.
  - replace (Buffer.peek b + Z.of_nat (length l) + 2) with (Buffer.peek b + Z.of_nat (length l + 2)) by lia.
    pose proof (retrieveUntil_ok (length l + 2) b W) as Hu.
    destruct (Buffer.retrieveUntil _ b) as [b1|]; [|exfalso; apply Hu; unfold zlen in *; lia].
    destruct Hu as (W1 & E1 & Eb); [unfold zlen in *; lia|]. exists b1. split_and!; try done.
    rewrite E1, Hx, app_assoc. replace (length l + 2)%nat with (length (l ++ Buffer.kCRLF)) by (by rewrite length_app).
    by rewrite drop_app_length.
Qed.

(** ** Reading a stream of requests

    A message callback that takes requests off the buffer until none is complete, for any
    request type: [body] is one turn of its loop, [perform] what a request does, [I rs s] what
    holds of the state [s] before the requests [rs]. *)
Section stream.
Context {R S : Type} (encode : R -> bytes) (ok : R -> Prop) (perform : R -> S -> outcome S) (I : list R -> S -> Prop).
Variable body : Buffer.t * S -> outcome ((Buffer.t * S) + (Buffer.t * S)).

Definition on_message (b : Buffer.t) (s : S) : outcome (Buffer.t * S) :=
  while (Datatypes.S (Z.to_nat (Buffer.readableBytes b))) body (b, s).

Fixpoint perform_all (rs : list R) (s : S) : outcome S :=
  match rs with [] => Ret s | r :: rs' => s1 ← perform r s; perform_all rs' s1 end.

(** Each chunk goes through [Buffer::readFd], then the callback. *)
Fixpoint serve (chunks : list bytes) (b : Buffer.t) (s : S) : outcome (Buffer.t * S) :=
  match chunks with
  | [] => Ret (b, s)
  | c :: rest =>
      '(n, _, b1) ← Buffer.readFd (Buffer.ReadBytes c) b;
      '(b2, s1) ← (if 0 <? n then on_message b1 s else Ret (b1, s));
      serve rest b2 s1
  end.

Hypothesis encode_nonempty : forall r, ok r -> (0 < length (encode r))%nat.
Hypothesis body_empty : forall b s, Buffer.wf b -> Buffer.contents b = [] -> body (b, s) = Ret (inr (b, s)).
Hypothesis body_partial : forall r b s x y, ok r -> Buffer.wf b -> Buffer.contents b ++ y = encode r ++ x ->
  (length (Buffer.contents b) < length (encode r))%nat -> body (b, s) = Ret (inr (b, s)).
Hypothesis body_request : forall r rs b s x, ok r -> I (r :: rs) s -> Buffer.wf b -> Buffer.contents b = encode r ++ x ->
  exists b1 s1, body (b, s) = Ret (inl (b1, s1)) /\ perform r s = Ret s1 /\ I rs s1 /\ Buffer.wf b1 /\
    Buffer.contents b1 = x /\ Buffer.buffer_ b1 = Buffer.buffer_ b.

(** The loop on a prefix of a stream of requests performs the complete ones. *)
Lemma while_prefix rs : forall fuel b s y, Forall ok rs -> I rs s -> Buffer.wf b ->
  Buffer.contents b ++ y = concat (map encode rs) -> (length (Buffer.contents b) < fuel)%nat ->
  exists rs1 rs2 b' s', rs = rs1 ++ rs2 /\ while fuel body (b, s) = Ret (b', s') /\
    perform_all rs1 s = Ret s' /\ I rs2 s' /\ Buffer.wf b' /\ Buffer.buffer_ b' = Buffer.buffer_ b /\
    Buffer.contents b' ++ y = concat (map encode rs2) /\ (y = [] -> rs2 = []).
Proof using encode_nonempty body_empty body_partial body_request.
  induction rs as [|r rs IH]; intros fuel b s y Hok HI W E Hf; (destruct fuel as [|fuel]; [lia|]); rewrite while_S.
  - cbn in E. apply app_nil in E as [E ->]. rewrite body_empty by done. exists [], [], b, s. rewrite E. by split_and!.
  - inversion Hok as [|? ? Hr Hrs]; subst. cbn [map concat] in E.
    destruct (decide (length (Buffer.contents b) < length (encode r))%nat) as [Hlt|Hge].
    + rewrite (body_partial r _ _ _ y Hr W E Hlt). exists [], (r :: rs), b, s. split_and!; try done.
      intros ->. rewrite app_nil_r in E. rewrite E, length_app in Hlt. lia.
    + assert (take (length (encode r)) (Buffer.contents b) = encode r) as Et.
      { rewrite <- (take_app_le _ y) by lia. by rewrite E, take_app_length. }
      destruct (body_request r rs b s (drop (length (encode r)) (Buffer.contents b)) Hr HI W)
        as (b1 & s1 & -> & Ep & HI1 & W1 & E1 & Eb); [by rewrite <- Et at 1; rewrite take_drop|].
      destruct (IH fuel b1 s1 y Hrs HI1 W1) as (rs1 & rs2 & b' & s' & -> & Ew & Ep' & HI' & W' & Eb' & E' & Hy).
      * rewrite E1, <- drop_app_le by lia. by rewrite E, drop_app_length.
      * rewrite E1, length_drop. pose proof (encode_nonempty r Hr). lia.
      * exists (r :: rs1), rs2, b', s'. split_and!; try done; [by cbn; rewrite Ep, bind_Ret|congruence].
Qed.

Lemma perform_all_app rs1 rs2 s s1 : perform_all rs1 s = Ret s1 ->
  perform_all (rs1 ++ rs2) s = perform_all rs2 s1.
Proof.
  revert s. induction rs1 as [|r rs1 IH]; intros s H; cbn in *; [by injection H as ->|].
  destruct (perform r s); [|done]. cbn in *. by apply IH.
Qed.

(** One read: the requests that are complete then are performed. *)
Lemma serve_one c y rs b s : Forall ok rs -> I rs s -> Buffer.wf b ->
  Buffer.contents b ++ c ++ y = concat (map encode rs) ->
  zlen (Buffer.buffer_ b) + zlen c <= vector_max_size -> (c ++ y = [] -> rs = []) ->
  exists rs1 rs2 b' s', rs = rs1 ++ rs2 /\ serve [c] b s = Ret (b', s') /\ perform_all rs1 s = Ret s' /\ I rs2 s' /\
    Buffer.wf b' /\ zlen (Buffer.buffer_ b') <= zlen (Buffer.buffer_ b) + zlen c /\
    Buffer.contents b' ++ y = concat (map encode rs2) /\ (y = [] -> rs2 = []).
Proof using encode_nonempty body_empty body_partial body_request.
  intros Hok HI W E Hz Hn. cbn [serve]. pose proof (zlen_nonneg c).
  destruct (Buffer.readFd (Buffer.ReadBytes c) b) as [[[n e] b1]|f] eqn:ER; pose proof (Buffer.readFd_ok c b W) as HR; rewrite ER in HR;
    [|by destruct HR].
  destruct HR as (-> & -> & W1 & E1 & Hz1); [done |]. rewrite bind_Ret.
  assert (Buffer.contents b1 ++ y = concat (map encode rs)) as E1' by (by rewrite E1, <- app_assoc).
  destruct (0 <? zlen c) eqn:E0; bools.
  - unfold on_message. rewrite Buffer.readable_contents by done.
    destruct (while_prefix rs (Datatypes.S (Z.to_nat (zlen (Buffer.contents b1)))) b1 s y)
      as (rs1 & rs2 & b2 & s2 & -> & Ew & Ep & HI2 & W2 & Eb2 & E2 & Hy); try done; [unfold zlen; lia|].
    rewrite Ew, bind_Ret. exists rs1, rs2, b2, s2. rewrite Eb2. by split_and!.
  - assert (c = []) as -> by (apply zlen_nil_inv; lia). rewrite bind_Ret. exists [], rs, b1, s. by split_and!.
Qed.

Lemma serve_cons c chunks b s b' s' : serve [c] b s = Ret (b', s') -> serve (c :: chunks) b s = serve chunks b' s'.
Proof.
  cbn [serve]. destruct (Buffer.readFd _ b) as [[[n e] b1]|]; [|done]. rewrite !bind_Ret.
  destruct (if 0 <? n then _ else _) as [[b2 s1]|]; [|done]. rewrite !bind_Ret. by intros [= -> ->].
Qed.

Lemma serve_from chunks : forall rs b s, Forall ok rs -> I rs s -> Buffer.wf b ->
  Buffer.contents b ++ concat chunks = concat (map encode rs) ->
  zlen (Buffer.buffer_ b) + zlen (concat chunks) <= vector_max_size -> (concat chunks = [] -> rs = []) ->
  returns (serve chunks b s) (fun '(b', s') => perform_all rs s = Ret s' /\ Buffer.contents b' = []).
Proof using encode_nonempty body_empty body_partial body_request.
  induction chunks as [|c chunks IH]; intros rs b s Hok HI W E Hz Hn; cbn [concat] in *.
  { rewrite (Hn eq_refl) in *. cbn in E. apply app_nil in E as [Ec _]. by split. }
  rewrite zlen_app in Hz. pose proof (zlen_nonneg c). pose proof (zlen_nonneg (concat chunks)).
  destruct (serve_one c (concat chunks) rs b s) as (rs1 & rs2 & b' & s' & -> & Es & Ep & HI2 & W2 & Hz2 & E2 & Hy); try done; [lia |].
  rewrite (serve_cons _ _ _ _ _ _ Es), (perform_all_app _ _ _ _ Ep). apply Forall_app in Hok as [_ Hok2]. apply IH; try done. lia.
Qed.

(** However the stream is cut, every request is performed once, in order. *)
Lemma serve_stream rs chunks s : Forall ok rs -> I rs s -> concat chunks = concat (map encode rs) ->
  zlen (concat chunks) <= 2 ^ 62 ->
  returns (b ← Buffer.Buffer; serve chunks b s) (fun '(b', s') => perform_all rs s = Ret s' /\ Buffer.contents b' = []).
Proof using encode_nonempty body_empty body_partial body_request.
  intros Hok HI E Hz. eapply returns_seq; [apply Buffer.Buffer_ok|]. intros b [W Hb _ _ Hv].
  cbn [Buffer.q_bytes Buffer.q_vol Buffer.empty_queue] in *. apply serve_from; try done.
  - by rewrite Hb.
  - unfold Buffer.kCheapPrepend, Buffer.kInitialSize, vector_max_size in *. lia.
  - rewrite E. destruct rs as [|r rs]; [done|]. cbn. intros [H _]%app_nil. inversion Hok as [|? ? Hr _]; subst.
    apply encode_nonempty in Hr. rewrite H in Hr. cbn in Hr. lia.
Qed.
End stream.

End Lines.
