(* ===== verification/Framing.v ===== *)
(** * Length-prefixed framing, shared by the two codecs

    Both [LengthHeaderCodec::onMessage] and [ProtobufCodec::onMessage] read a
    stream of frames: a 32-bit big-endian length, then that many payload bytes.
    They differ in how many bytes they wait for before looking at the header
    ([need]), the lengths they accept ([lo] to [hi]) and what they make of a
    payload.  [framing] specifies such a reader; the lemmas give determinism and
    independence of how the stream is cut into reads. *)

From S2P Require Import Prelude Endian NetBuffer.

Definition frame (p : bytes) : bytes := be_bytes 4 (zlen p) ++ p.

(** The length field at the front of a stream. *)
Definition length_field (l : bytes) : Z := s32 (be_value (take 4 l)).

Arguments frame : simpl never.

(** ** Frames *)

Lemma zlen_frame p : zlen (frame p) = 4 + zlen p.
Proof. unfold frame. rewrite zlen_app, zlen_be_bytes. lia. Qed.

Lemma take_frame p l : take 4 (frame p ++ l) = be_bytes 4 (zlen p).
Proof.
  unfold frame. rewrite <- app_assoc. apply take_app_length'. by rewrite length_be_bytes.
Qed.

Lemma length_field_frame p l : zlen p < 2 ^ 31 -> length_field (frame p ++ l) = zlen p.
Proof.
  intros. unfold length_field. rewrite take_frame, s32_be_value_bytes.
  apply s32_id. pose proof (zlen_nonneg p). lia.
Qed.

(** The first four bytes of a stream, recomputed from its length field. *)
Lemma take_length_field l : 4 <= zlen l -> take 4 l = be_bytes 4 (length_field l).
Proof.
  intros H4.
  assert (length (take 4 l) = 4%nat) as E4 by (rewrite length_take; unfold zlen in *; lia).
  rewrite <- (reverse_involutive (take 4 l)). unfold be_bytes. f_equal.
  rewrite <- (le_bytes_value (reverse (take 4 l))), length_reverse, E4.
  fold (be_value (take 4 l)). apply le_bytes_cong.
  change (256 ^ Z.of_nat 4) with (2 ^ 32).
  fold (u32 (be_value (take 4 l))) (u32 (length_field l)).
  unfold length_field. by rewrite u32_s32.
Qed.

(** A complete frame at the front of a stream is the frame of its payload. *)
Lemma split_frame l :
  0 <= length_field l -> length_field l + 4 <= zlen l ->
  l = frame (slice 4 (length_field l) l) ++ drop (Z.to_nat (length_field l + 4)) l /\
  zlen (slice 4 (length_field l) l) = length_field l.
Proof.
  intros Hr Hle. set (n := length_field l) in *.
  assert (zlen (slice 4 n l) = n) as Ez by (apply zlen_slice; lia). split; [|done].
  unfold frame. rewrite Ez. rewrite <- (take_drop 4 l) at 1. rewrite <- app_assoc. f_equal.
  - rewrite take_length_field by lia. done.
  - replace (Z.to_nat (n + 4)) with (4 + Z.to_nat n)%nat by lia. rewrite <- drop_drop.
    unfold slice. change (Z.to_nat 4) with 4%nat. by rewrite take_drop.
Qed.

(** The length field as the code computes it from the first four bytes. *)
Lemma length_field_load (l : bytes) :
  4 <= zlen l ->
  s32 (networkToHost32 (u32 (s32 (le_value (slice 0 4 l))))) = length_field l.
Proof.
  intros H4. unfold length_field. f_equal. unfold slice.
  change (Z.to_nat 0) with 0%nat. change (Z.to_nat 4) with 4%nat. rewrite drop_0.
  apply bswap_mem; [rewrite length_take; unfold zlen in *; lia|].
  change (256 ^ Z.of_nat 4) with (2 ^ 32).
  fold (u32 (u32 (s32 (le_value (take 4 l))))) (u32 (le_value (take 4 l))).
  rewrite u32_s32. by apply Z.mod_mod.
Qed.

Lemma frame_app_inj p q l l' :
  zlen p = zlen q -> frame p ++ l = frame q ++ l' -> p = q /\ l = l'.
Proof.
  intros Ez E. apply app_inj_1 in E as [E ->].
  - unfold frame in E. rewrite Ez in E. by apply app_inv_head in E as ->.
  - unfold zlen in *. unfold frame. rewrite !length_app, !length_be_bytes. lia.
Qed.

(** ** Readers *)

Section Reader.
Context {Ev : Type} (need lo hi : Z) (bad_length : Ev).
(** A payload is delivered ([inl]) or refused ([inr]). *)
Context (payload : bytes -> Ev + Ev).

(** [framing l evs rest stop]: reading the stream [l] produces [evs] and leaves
    [rest]; [stop] says that the reader refused something. *)
Inductive framing : bytes -> list Ev -> bytes -> bool -> Prop :=
| framing_short l : zlen l < need -> framing l [] l false
| framing_partial l :
    need <= zlen l -> lo <= length_field l <= hi -> zlen l < length_field l + 4 ->
    framing l [] l false
| framing_deliver p e l evs rest stop :
    lo <= zlen p <= hi -> payload p = inl e -> framing l evs rest stop ->
    framing (frame p ++ l) (e :: evs) rest stop
| framing_refuse p e l :
    lo <= zlen p <= hi -> payload p = inr e ->
    framing (frame p ++ l) [e] (frame p ++ l) true
| framing_invalid l :
    need <= zlen l -> length_field l < lo \/ hi < length_field l ->
    framing l [bad_length] l true.

Hypothesis hi_int : hi < 2 ^ 31.
Hypothesis need_header : 4 <= need <= lo + 4.

(** A stream that starts with a whole acceptable frame is read by its payload. *)
Lemma framing_frame_inv p l evs rest stop :
  lo <= zlen p <= hi -> framing (frame p ++ l) evs rest stop ->
  match payload p with
  | inl e => exists evs', evs = e :: evs' /\ framing l evs' rest stop
  | inr e => evs = [e] /\ rest = frame p ++ l /\ stop = true
  end.
Proof.
  intros Hm H. remember (frame p ++ l) as x eqn:E.
  assert (zlen x = 4 + zlen p + zlen l) as Ex by (by rewrite E, zlen_app, zlen_frame).
  assert (length_field x = zlen p) as El by (rewrite E; apply length_field_frame; lia).
  pose proof (zlen_nonneg l).
  destruct H as [| |p' e l' evs rest stop Hm' Hp Hf|p' e l' Hm' Hp|]; try lia.
  all: rewrite length_field_frame in El by lia;
    apply frame_app_inj in E as [-> ->]; [rewrite Hp; eauto | done].
Qed.

(** Reading is deterministic: the first bytes decide which rule applies. *)
Lemma framing_det l evs rest stop :
  framing l evs rest stop -> forall evs' rest' stop', framing l evs' rest' stop' ->
  evs' = evs /\ rest' = rest /\ stop' = stop.
Proof.
  induction 1 as [l Hs|l H4 Hr Hp|p e l evs rest stop Hm Hp Hf IH|p e l Hm Hp|l H4 Hbad];
    intros evs' rest' stop' H'.
  3:{ apply framing_frame_inv in H'; [|done]. rewrite Hp in H'. destruct H' as (evs2 & -> & H2).
      by destruct (IH _ _ _ H2) as (-> & -> & ->). }
  3:{ apply framing_frame_inv in H'; [|done]. rewrite Hp in H'. naive_solver. }
  all: destruct H' as [| |p' e' l' evs2 rest2 stop2 Hm' Hp' Hf'|p' e' l' Hm' Hp'|];
    try lia; try done;
    rewrite ?zlen_app, ?zlen_frame, ?length_field_frame in * by lia;
    pose proof (zlen_nonneg l'); lia.
Qed.

(** More bytes after a stream without refusals are read from where it stopped. *)
Lemma framing_app l evs rest stop :
  framing l evs rest stop -> stop = false ->
  forall x evs' rest' stop', framing (rest ++ x) evs' rest' stop' ->
  framing (l ++ x) (evs ++ evs') rest' stop'.
Proof.
  induction 1 as [| |p e l evs rest stop Hm Hp Hf IH| |]; intros Hn x evs' rest' stop' H';
    try done.
  rewrite <- app_assoc. cbn. eapply framing_deliver; [done..|]. by apply IH.
Qed.

(** Payloads [ps] are acceptable and deliver [es]. *)
Definition delivers (ps : list bytes) (es : list Ev) : Prop :=
  Forall2 (fun p e => lo <= zlen p <= hi /\ payload p = inl e) ps es.

Lemma framing_frames ps es l evs rest stop :
  delivers ps es -> framing l evs rest stop ->
  framing (concat (map frame ps) ++ l) (es ++ evs) rest stop.
Proof.
  induction 1 as [|p e ps es [? ?] _ IH]; cbn; [done|]. intros Hf. rewrite <- app_assoc.
  constructor; auto.
Qed.

Lemma framing_frames_all ps es :
  delivers ps es -> framing (concat (map frame ps)) es [] false.
Proof.
  intros H. rewrite <- (app_nil_r (concat _)), <- (app_nil_r es).
  apply framing_frames; [done|]. constructor. unfold zlen. cbn. lia.
Qed.

(** A prefix of a well-framed stream is read without refusal. *)
Lemma framing_prefix l x ps es :
  delivers ps es -> l ++ x = concat (map frame ps) ->
  exists evs rest, framing l evs rest false.
Proof.
  intros Hd. revert l. induction Hd as [|p e ps es [Hm Hp] Hps IH]; intros l E; cbn in E.
  - apply app_nil in E as [-> ->]. exists [], []. constructor. unfold zlen. cbn. lia.
  - destruct (decide (zlen l < 4 + zlen p)) as [Hlt|Hge].
    + exists [], l. destruct (decide (zlen l < need)); [by constructor|].
      assert (length_field l = zlen p) as El.
      { rewrite <- (length_field_frame p (concat (map frame ps))), <- E by lia.
        unfold length_field. do 2 f_equal. rewrite take_app_le; [done | unfold zlen in *; lia]. }
      apply framing_partial; lia.
    + rewrite <- (take_drop (length (frame p)) l) in E |- *. rewrite <- app_assoc in E.
      apply app_inj_1 in E as [E1 E2].
      2:{ rewrite length_take. pose proof (zlen_frame p). unfold zlen in *. lia. }
      destruct (IH _ E2) as (evs & rest & Hf).
      exists (e :: evs), rest. rewrite E1. by constructor.
Qed.

(** ** Reading from a connection

    Each chunk that arrives goes through [Buffer::readFd] and the codec's
    [onMessage] is called on the input buffer. *)

Context (onMessage : Buffer.t -> outcome (Buffer.t * list Ev)).

Fixpoint feed (chunks : list bytes) (buf : Buffer.t) : outcome (Buffer.t * list Ev) :=
  match chunks with
  | [] => Ret (buf, [])
  | c :: chunks' =>
      '(n, _, buf1) ← Buffer.readFd (Buffer.ReadBytes c) buf;
      '(buf2, evs) ← (if 0 <? n then onMessage buf1 else Ret (buf1, []));
      '(buf3, evs') ← feed chunks' buf2;
      Ret (buf3, evs ++ evs')
  end.

Hypothesis onMessage_framing : forall b, Buffer.wf b ->
  returns (onMessage b) (fun '(b', evs) =>
    Buffer.wf b' /\ zlen (Buffer.buffer_ b') = zlen (Buffer.buffer_ b) /\
    exists stop, framing (Buffer.contents b) evs (Buffer.contents b') stop).

Lemma feed_ok ps es chunks b pre evs0 :
  delivers ps es -> pre ++ concat chunks = concat (map frame ps) ->
  Buffer.wf b -> zlen (Buffer.buffer_ b) + zlen (concat chunks) <= vector_max_size ->
  framing pre evs0 (Buffer.contents b) false ->
  returns (feed chunks b) (fun '(b', evs) =>
    exists stop, framing (pre ++ concat chunks) (evs0 ++ evs) (Buffer.contents b') stop).
Proof.
  intros Hd. revert b pre evs0.
  induction chunks as [|c chunks IH]; intros b pre evs0 E Hw Hmax Hf; cbn [feed concat] in *.
  { cbn. rewrite !app_nil_r. eauto. }
  rewrite zlen_app in Hmax. pose proof (zlen_nonneg c). pose proof (zlen_nonneg (concat chunks)).
  apply returns_bind. eapply returns_mono; [|apply Buffer.readFd_ok; [done | lia]].
  intros [[n e] b1] (-> & -> & Hw1 & Hc1 & Hz1). apply returns_bind.
  assert (returns (if 0 <? zlen c then onMessage b1 else Ret (b1, [])) (fun '(b2, evs) =>
    Buffer.wf b2 /\ zlen (Buffer.buffer_ b2) = zlen (Buffer.buffer_ b1) /\
    exists stop, framing (pre ++ c) (evs0 ++ evs) (Buffer.contents b2) stop)) as Hon.
  { destruct (0 <? _) eqn:E0; bools.
    - eapply returns_mono; [|apply (onMessage_framing b1); done].
      intros [b2 evs] (? & ? & stop & Hf2). split_and!; [done..|].
      rewrite Hc1 in Hf2. exists stop. by eapply framing_app.
    - assert (c = []) as -> by (apply zlen_nil_inv; lia).
      cbn. rewrite app_nil_r in *. rewrite app_nil_r, Hc1. eauto. }
  eapply returns_mono; [|exact Hon]. intros [b2 evs] (Hw2 & Hz2 & stop & Hf2).
  destruct (framing_prefix (pre ++ c) (concat chunks) ps es) as (evs3 & r3 & Hf3);
    [done | by rewrite <- app_assoc|].
  destruct (framing_det _ _ _ _ Hf3 _ _ _ Hf2) as (<- & <- & ->).
  apply returns_bind. rewrite (app_assoc pre c) in E.
  eapply returns_mono; [|apply (IH b2 (pre ++ c) (evs0 ++ evs)); [done|done|lia|done]].
  intros [b3 evs'] Hf4. cbn. by rewrite <- !app_assoc in Hf4.
Qed.

(** A fresh connection that receives well-framed bytes in any pieces. *)
Lemma feed_fresh ps es chunks :
  delivers ps es -> concat chunks = concat (map frame ps) ->
  zlen (concat chunks) <= 2 ^ 62 ->
  returns (b ← Buffer.Buffer; feed chunks b) (fun '(b', evs) =>
    evs = es /\ Buffer.contents b' = []).
Proof.
  intros Hd Hc Hz. apply returns_bind.
  eapply returns_mono; [|apply Buffer.Buffer_ok]. intros b0 [Hw Hb Hr Hcp Hv].
  cbn [Buffer.q_bytes Buffer.q_vol Buffer.empty_queue] in *.
  eapply returns_mono; [|apply (feed_ok ps es chunks b0 [] [])]; [|done|done|done| |].
  - intros [b' evs] [stop Hf]. cbn [app] in Hf. rewrite Hc in Hf.
    by destruct (framing_det _ _ _ _ (framing_frames_all ps es Hd) _ _ _ Hf) as (-> & -> & _).
  - Buffer.wf_lia.
  - rewrite Hb. constructor. unfold zlen. cbn. lia.
Qed.

End Reader.
