(* ===== verification/LengthCodec.v ===== *)
(** * excercises/chatServer/codec.h: length-prefixed framing

    [Module LengthHeaderCodec] models class [LengthHeaderCodec]: the receive loop
    [onMessage] and [send].  The loop runs on any [ByteSource]; its effects, the
    calls of [messageCallback_] and of [conn->shutdown()], are the trace it
    returns (the callback receives the connection and the message, not the
    buffer, so it cannot interfere with the loop).

    The specification is [Framing.framing]: which messages a stream carries. *)

From S2P Require Import Prelude Endian NetBuffer Framing.

Module LengthHeaderCodec.

Definition kHeaderLen : Z := 4.

Inductive event :=
| Message (m : bytes)      (* messageCallback_(conn, message, receiveTime) *)
| Shutdown.                (* LOG_ERROR << "Invalid length"; conn->shutdown() *)

Section OnMessage.
Context `{ByteSource B}.

(** One iteration of the [while] loop. *)
Definition onMessage_body (s : B * list event) :
    outcome ((B * list event) + (B * list event)) :=
  let '(buf, tr) := s in
  if kHeaderLen <=? bs_readableBytes buf then
    data ← bs_load 0 4 buf;
    let be32 := s32 (le_value data) in
    let len := s32 (networkToHost32 (u32 be32)) in
    if (65536 <? len) || (len <? 0) then Ret (inr (buf, tr ++ [Shutdown]))
    else if len + kHeaderLen <=? bs_readableBytes buf then
      buf1 ← bs_retrieve kHeaderLen buf;
      message ← bs_load 0 len buf1;
      buf2 ← bs_retrieve len buf1;
      Ret (inl (buf2, tr ++ [Message message]))
    else Ret (inr (buf, tr))
  else Ret (inr (buf, tr)).

(** Every iteration that continues consumes at least the header, so the number
    of readable bytes bounds the iterations. *)
Definition onMessage (buf : B) : outcome (B * list event) :=
  while (S (Z.to_nat (bs_readableBytes buf))) onMessage_body (buf, []).

End OnMessage.

(** [send]: the buffer handed to [conn->send(&buf)]. *)
Definition send (message : bytes) : outcome Buffer.t :=
  buf ← Buffer.Buffer;
  buf ← Buffer.append message buf;
  let len := s32 (zlen message) in
  let be32 := s32 (hostToNetwork32 (u32 len)) in
  Buffer.prepend (le_bytes 4 be32) buf.

(** ** Specification

    Frames of 0 to 65536 payload bytes; the payload is the message. *)

Definition reads : bytes -> list event -> bytes -> bool -> Prop :=
  framing kHeaderLen 0 65536 Shutdown (fun p => inl (Message p)).

(** ** Lemmas *)

Section OnMessageProof.
Context `{ByteSource B}.

(** The loop meets the specification from any state. *)
Lemma onMessage_loop fuel (b : B) tr :
  bs_wf b -> (Z.to_nat (zlen (bs_contents b)) < fuel)%nat ->
  returns (while fuel onMessage_body (b, tr)) (fun '(b', tr') =>
    bs_wf b' /\ bs_capacity b' = bs_capacity b /\
    exists evs stop, tr' = tr ++ evs /\ reads (bs_contents b) evs (bs_contents b') stop).
Proof.
  revert b tr. induction fuel as [|fuel IH]; intros b tr Hw Hf; [lia|].
  rewrite while_S. unfold onMessage_body at 1. rewrite bs_readable_law by done.
  pose proof (zlen_nonneg (bs_contents b)). unfold kHeaderLen.
  destruct (4 <=? _) eqn:E4; bools.
  2:{ cbn. split_and!; [done..|]. exists [], false. rewrite app_nil_r.
      split; [done | by constructor]. }
  rewrite bs_load_law, bind_Ret, length_field_load by done || lia.
  destruct (_ || _) eqn:Ebad; bools.
  { cbn. split_and!; [done..|]. exists [Shutdown], true. split; [done|].
    apply framing_invalid; [done|]. destruct Ebad; bools; lia. }
  destruct (_ <=? _) eqn:Ele; bools.
  2:{ cbn. split_and!; [done..|]. exists [], false. rewrite app_nil_r.
      split; [done|]. apply framing_partial; unfold kHeaderLen; lia. }
  set (n := length_field (bs_contents b)) in *.
  pose proof (bs_retrieve_law b 4 Hw ltac:(lia)) as [b1 [-> (Hw1 & Hc1 & Hk1)]]%returns_Ret.
  rewrite bind_Ret.
  assert (zlen (bs_contents b1) = zlen (bs_contents b) - 4) as Ez1
    by (rewrite Hc1, zlen_drop; lia).
  rewrite bs_load_law, bind_Ret by done || lia.
  pose proof (bs_retrieve_law b1 n Hw1 ltac:(lia)) as [b2 [-> (Hw2 & Hc2 & Hk2)]]%returns_Ret.
  rewrite bind_Ret.
  assert (bs_contents b2 = drop (Z.to_nat (n + 4)) (bs_contents b)) as Ec2.
  { rewrite Hc2, Hc1, drop_drop. f_equal. lia. }
  eapply returns_mono; [|apply IH; [done|]].
  2:{ rewrite Ec2, zlen_drop. lia. }
  intros [b' tr'] (Hw' & Hk' & evs & stop & -> & Hfr). split_and!; [done|congruence|].
  exists (Message (slice 0 n (bs_contents b1)) :: evs), stop. rewrite <- app_assoc.
  split; [done|]. destruct (split_frame (bs_contents b)) as [El Ez]; [lia|lia|].
  fold n in El, Ez. rewrite El, <- Ec2. apply framing_deliver; [lia| |done].
  do 2 f_equal. unfold slice. rewrite Hc1. change (Z.to_nat 0) with 0%nat. by rewrite drop_0.
Qed.

Lemma onMessage_ok (b : B) :
  bs_wf b ->
  returns (onMessage b) (fun '(b', evs) =>
    bs_wf b' /\ bs_capacity b' = bs_capacity b /\
    exists stop, reads (bs_contents b) evs (bs_contents b') stop).
Proof.
  intros Hw. unfold onMessage. rewrite bs_readable_law by done.
  eapply returns_mono; [|apply onMessage_loop; [done | lia]].
  intros [b' tr'] (? & ? & evs & stop & -> & ?). eauto.
Qed.

End OnMessageProof.

Lemma send_ok m :
  zlen m <= 65536 -> returns (send m) (fun b => Buffer.wf b /\ Buffer.contents b = frame m).
Proof.
  intros Hm. pose proof (zlen_nonneg m). unfold send. apply returns_bind.
  eapply returns_mono; [|apply Buffer.Buffer_ok]. intros b0 [Hw Hb Hr Hc Hv].
  unfold Buffer.empty_queue in *. cbn [Buffer.q_bytes Buffer.q_room Buffer.q_vol] in *.
  apply returns_bind. eapply returns_mono; [|apply Buffer.append_ok; [done|]].
  2:{ Buffer.wf_lia. }
  intros b1 (Hw1 & Hc1 & Hr1 & _).
  rewrite net32_bytes, s32_id by lia.
  eapply returns_mono; [|apply Buffer.prepend_ok; [done|]].
  - intros b2 (? & Hc2 & _). rewrite Hc2, Hc1, Hb. done.
  - rewrite zlen_be_bytes. Buffer.wf_lia.
Qed.

Lemma delivers_messages msgs :
  Forall (fun m => zlen m <= 65536) msgs ->
  delivers 0 65536 (fun p => inl (Message p)) msgs (map Message msgs).
Proof.
  induction 1 as [|m msgs ? _ IH]; constructor; [|exact IH].
  pose proof (zlen_nonneg m). split; [lia | done].
Qed.

(** C3: framing round trip under arbitrary fragmentation.  Whatever the sizes of
    the pieces in which TCP delivers the bytes that [send] produced for a list
    of messages of at most 64 KiB, the receiver's callback runs exactly once per
    message, in order, with the message's bytes; no error is reported and the
    input buffer ends empty. *)
Theorem length_codec_stream (msgs chunks : list bytes) (bufs : list Buffer.t) :
  Forall (fun m => zlen m <= 65536) msgs ->
  Forall2 (fun m b => send m = Ret b) msgs bufs ->
  concat chunks = concat (map Buffer.contents bufs) ->
  zlen (concat chunks) <= 2 ^ 62 ->
  returns (b ← Buffer.Buffer; feed onMessage chunks b) (fun '(b', evs) =>
    evs = map Message msgs /\ Buffer.contents b' = []).
Proof.
  intros Hm Hs Hc Hz.
  apply (feed_fresh kHeaderLen 0 65536 Shutdown (fun p => inl (Message p)) eq_refl
           ltac:(unfold kHeaderLen; lia) onMessage (@onMessage_ok _ buffer_source) msgs).
  - by apply delivers_messages.
  - rewrite Hc. f_equal. clear -Hm Hs. induction Hs as [|m b msgs bufs Hs _ IH]; [done|].
    inversion Hm; subst. cbn. f_equal; [|by apply IH].
    pose proof (send_ok m ltac:(done)) as Hok. rewrite Hs in Hok. apply Hok.
  - done.
Qed.

(** "hi" and "x", delivered as 3 + 5 + 3 bytes. *)
Lemma length_codec_stream_witness : exists bufs,
  Forall2 (fun m b => send m = Ret b) [lit "hi"; lit "x"] bufs /\
  returns (b ← Buffer.Buffer;
           feed onMessage [[x00; x00; x00]; [x02; x68; x69; x00; x00]; [x00; x01; x78]] b)
    (fun '(b', evs) => evs = map Message [lit "hi"; lit "x"] /\ Buffer.contents b' = []).
Proof.
  destruct (send (lit "hi")) as [b1|] eqn:E1; [|discriminate].
  destruct (send (lit "x")) as [b2|] eqn:E2; [|discriminate].
  exists [b1; b2]. split; [by repeat constructor|].
  apply (length_codec_stream [lit "hi"; lit "x"] _ [b1; b2]).
  - repeat constructor; vm_compute; discriminate.
  - by repeat constructor.
  - vm_compute in E1, E2. injection E1 as <-. injection E2 as <-. vm_compute. reflexivity.
  - vm_compute. discriminate.
Defined.

(** C4: a stream whose next length field is negative or above 64 KiB is
    rejected: the messages before it are delivered, [shutdown] is called once,
    and nothing from the bad header on is consumed. *)
Theorem length_codec_rejects `{ByteSource B} (b : B) msgs bad :
  bs_wf b -> Forall (fun m => zlen m <= 65536) msgs ->
  bs_contents b = concat (map frame msgs) ++ bad ->
  4 <= zlen bad -> length_field bad < 0 \/ 65536 < length_field bad ->
  returns (onMessage b) (fun '(b', evs) =>
    evs = map Message msgs ++ [Shutdown] /\ bs_contents b' = bad).
Proof.
  intros Hw Hm Hc H4 Hbad. eapply returns_mono; [|by apply onMessage_ok].
  intros [b' evs] (_ & _ & stop & Hf). rewrite Hc in Hf.
  assert (reads (concat (map frame msgs) ++ bad) (map Message msgs ++ [Shutdown]) bad true) as Hg.
  { apply framing_frames; [by apply delivers_messages | by apply framing_invalid]. }
  by destruct (framing_det kHeaderLen 0 65536 Shutdown (fun p => inl (Message p)) eq_refl
    ltac:(unfold kHeaderLen; lia) _ _ _ _ Hg _ _ _ Hf) as (-> & -> & _).
Qed.

(** A message followed by a header announcing 2^31 bytes. *)
Lemma length_codec_rejects_witness :
  returns (onMessage (Buffer.mk (frame (lit "hi") ++ [x80; x00; x00; x00]) 0 10))
    (fun '(b', evs) =>
       evs = map Message [lit "hi"] ++ [Shutdown] /\
       bs_contents b' = [x80; x00; x00; x00]).
Proof.
  apply (length_codec_rejects
    (Buffer.mk (frame (lit "hi") ++ [x80; x00; x00; x00]) 0 10) [lit "hi"] [x80; x00; x00; x00]).
  - split; vm_compute; discriminate.
  - repeat constructor; vm_compute; discriminate.
  - vm_compute. reflexivity.
  - vm_compute. discriminate.
  - left. vm_compute. reflexivity.
Defined.

End LengthHeaderCodec.
