(* ===== verification/ProtobufCodec.v ===== *)
(** * excercises/chatServer/codec: the protobuf wire format and dispatcher

    [Module ProtobufCodec] models codec.h and codec.cc: [fillEmptyBuffer], [parse],
    the receive loop [onMessage], [createMessage] and the error callback; and
    [Module ProtobufDispatcher] models dispatcher.h.  The protobuf runtime, the
    generated message classes and zlib are not part of the repository: class
    [Protobuf] collects the calls the code makes, [ProtobufLaws] the documented
    facts the round trip relies on.  The loop runs on any [ByteSource] and its
    calls of [messageCallback_] and [errorCallback_] are the trace it returns. *)

From S2P Require Import Prelude Endian NetBuffer Framing.

(** ** The protobuf runtime and zlib *)

Class Protobuf := {
  Msg : Type;                                   (* google::protobuf::Message *)
  Descriptor : Type;
  descriptor_eq_dec :: EqDecision Descriptor;
  descriptor_countable :: Countable Descriptor;
  GetDescriptor : Msg -> Descriptor;
  GetTypeName : Msg -> bytes;
  IsInitialized : Msg -> bool;
  ByteSize : Msg -> Z;
  SerializeWithCachedSizesToArray : Msg -> bytes;
  FindMessageTypeByName : bytes -> option Descriptor;
  GetPrototype : Descriptor -> option Msg;
  New : Msg -> Msg;
  ParseFromArray : Msg -> bytes -> bool * Msg;
  adler32 : Z -> bytes -> Z
}.

Class ProtobufLaws `{Protobuf} : Prop := {
  (* the serializer writes as many bytes as ByteSize announces *)
  pb_size m : ByteSize m = zlen (SerializeWithCachedSizesToArray m);
  (* generated types are in the generated pool under their full name *)
  pb_find m : FindMessageTypeByName (GetTypeName m) = Some (GetDescriptor m);
  pb_prototype m : exists p, GetPrototype (GetDescriptor m) = Some p;
  (* a message type has a non-empty name *)
  pb_name m : GetTypeName m <> [];
  (* parsing what an initialized message serialized to gives the message back *)
  pb_parse m p :
    IsInitialized m = true -> GetPrototype (GetDescriptor m) = Some p ->
    ParseFromArray (New p) (SerializeWithCachedSizesToArray m) = (true, m)
}.

Module ProtobufCodec.

Definition kHeaderLen : Z := 4.
Definition kMinMessageLen : Z := 2 * kHeaderLen + 2.
Definition kMaxMessageLen : Z := 64 * 1024 * 1024.

Inductive ErrorCode :=
| kNoError
| kInvalidLength
| kCheckSumError
| kInvalidNameLen
| kUnknownMessageType
| kParseError.

#[export] Instance ErrorCode_eq_dec : EqDecision ErrorCode.
Proof. solve_decision. Defined.

Definition errorCodeToString (errorCode : ErrorCode) : bytes :=
  match errorCode with
  | kNoError => lit "NoError"
  | kInvalidLength => lit "InvalidLength"
  | kCheckSumError => lit "CheckSumError"
  | kInvalidNameLen => lit "InvalidNameLen"
  | kUnknownMessageType => lit "UnknownMessageType"
  | kParseError => lit "ParseError"
  end.

(** [defaultErrorCallback]: the line it logs and whether it shuts the connection
    down; [conn] is [None] for a null pointer, else [conn->connected()]. *)
Definition defaultErrorCallback (conn : option bool) (errorCode : ErrorCode) : bytes * bool :=
  (lit "ProtobufCodec::defaultErrorCallback - " ++ errorCodeToString errorCode,
   match conn with Some connected => connected | None => false end).

(** [asInt32(buf)] on the memory at [off]. *)
Definition asInt32 (off : Z) (mem : bytes) : outcome Z :=
  m ← load off 4 mem;
  let be32 := s32 (le_value m) in
  Ret (s32 (networkToHost32 (u32 be32))).

Section Codec.
Context `{Protobuf}.

Definition fillEmptyBuffer (buf : Buffer.t) (message : Msg) : outcome Buffer.t :=
  _ ← check (Buffer.readableBytes buf =? 0);
  let typeName := GetTypeName message in
  let nameLen := s32 (zlen typeName + 1) in
  buf ← Buffer.appendInt32 nameLen buf;
  (* c_str() with the terminating NUL *)
  buf ← Buffer.append (typeName ++ [x00]) buf;
  _ ← (if IsInitialized message then Ret tt else Crash FatalLog);
  let byte_size := ByteSize message in
  buf ← Buffer.ensureWritableBytes byte_size buf;
  let out := SerializeWithCachedSizesToArray message in
  mem ← store (Buffer.beginWrite buf) out (Buffer.buffer_ buf);
  _ ← (if zlen out =? byte_size then Ret tt else Crash FatalLog);
  let buf := Buffer.hasWritten byte_size
               (Buffer.mk mem (Buffer.readerIndex_ buf) (Buffer.writerIndex_ buf)) in
  sum_range ← load (Buffer.peek buf) (Buffer.readableBytes buf) (Buffer.buffer_ buf);
  let checkSum := s32 (adler32 1 sum_range) in
  buf ← Buffer.appendInt32 checkSum buf;
  _ ← check (Buffer.readableBytes buf =? 4 + nameLen + byte_size + 4);
  let len := s32 (hostToNetwork32 (u32 (s32 (Buffer.readableBytes buf)))) in
  Buffer.prepend (le_bytes 4 len) buf.

Definition createMessage (typeName : bytes) : option Msg :=
  match FindMessageTypeByName typeName with
  | Some descriptor =>
      match GetPrototype descriptor with
      | Some prototype => Some (New prototype)
      | None => None
      end
  | None => None
  end.

(** [parse(buf, len, &error)]: [buf] is the memory from the pointer on. *)
Definition parse (buf : bytes) (len : Z) : outcome (option Msg * ErrorCode) :=
  expectedCheckSum ← asInt32 (len - kHeaderLen) buf;
  summed ← load 0 (len - kHeaderLen) buf;
  let checkSum := s32 (adler32 1 summed) in
  if checkSum =? expectedCheckSum then
    nameLen ← asInt32 0 buf;
    if (2 <=? nameLen) && (nameLen <=? len - 2 * kHeaderLen) then
      typeName ← load kHeaderLen (nameLen - 1) buf;
      match createMessage typeName with
      | Some message =>
          let dataLen := len - nameLen - 2 * kHeaderLen in
          data ← load (kHeaderLen + nameLen) dataLen buf;
          let '(ok, message') := ParseFromArray message data in
          Ret (Some message', if ok then kNoError else kParseError)
      | None => Ret (None, kUnknownMessageType)
      end
    else Ret (None, kInvalidNameLen)
  else Ret (None, kCheckSumError).

Inductive event :=
| Message (m : Msg)           (* messageCallback_(conn, message, receiveTime) *)
| Error (e : ErrorCode).      (* errorCallback_(conn, buf, receiveTime, e) *)

Section OnMessage.
Context `{ByteSource B}.

Definition onMessage_body (s : B * list event) :
    outcome ((B * list event) + (B * list event)) :=
  let '(buf, tr) := s in
  if kMinMessageLen + kHeaderLen <=? bs_readableBytes buf then
    len ← bs_peekInt32 buf;
    if (kMaxMessageLen <? len) || (len <? kMinMessageLen) then
      Ret (inr (buf, tr ++ [Error kInvalidLength]))
    else if u64 (len + kHeaderLen) <=? bs_readableBytes buf then
      mem ← bs_load kHeaderLen len buf;
      '(message, errorCode) ← parse mem len;
      match message, errorCode with
      | Some m, kNoError =>
          buf' ← bs_retrieve (kHeaderLen + len) buf;
          Ret (inl (buf', tr ++ [Message m]))
      | _, _ => Ret (inr (buf, tr ++ [Error errorCode]))
      end
    else Ret (inr (buf, tr))
  else Ret (inr (buf, tr)).

(** Every iteration that continues consumes at least 14 bytes. *)
Definition onMessage (buf : B) : outcome (B * list event) :=
  while (S (Z.to_nat (bs_readableBytes buf))) onMessage_body (buf, []).

End OnMessage.

(** [send]: the buffer handed to [conn->send(&buf)]. *)
Definition send (message : Msg) : outcome Buffer.t :=
  buf ← Buffer.Buffer;
  fillEmptyBuffer buf message.

(** ** Specification *)

(** The bytes a frame's checksum covers, and the whole frame payload
    (ProtobufTransportFormat in codec.h, after [len]). *)
Definition summed_part (m : Msg) : bytes :=
  be_bytes 4 (zlen (GetTypeName m) + 1) ++ GetTypeName m ++ [x00] ++
  SerializeWithCachedSizesToArray m.
Definition transport (m : Msg) : bytes :=
  summed_part m ++ be_bytes 4 (s32 (adler32 1 (summed_part m))).

Definition payload (p : bytes) : event + event :=
  match parse p (zlen p) with
  | Ret (Some m, kNoError) => inl (Message m)
  | Ret (_, e) => inr (Error e)
  | Crash _ => inr (Error kNoError)
  end.

Definition reads : bytes -> list event -> bytes -> bool -> Prop :=
  framing (kMinMessageLen + kHeaderLen) kMinMessageLen kMaxMessageLen
    (Error kInvalidLength) payload.

(** Messages whose frame the receiver accepts. *)
Definition sendable (m : Msg) : Prop :=
  IsInitialized m = true /\ zlen (transport m) <= kMaxMessageLen.

(** ** Lemmas *)

Lemma asInt32_ok off mem :
  0 <= off -> off + 4 <= zlen mem ->
  asInt32 off mem = Ret (s32 (be_value (slice off 4 mem))).
Proof.
  intros. unfold asInt32. rewrite load_ok by lia. cbn. do 2 f_equal.
  assert (zlen (slice off 4 mem) = 4) as E by (apply zlen_slice; lia).
  apply bswap_mem; [unfold zlen in E; lia|]. change (256 ^ Z.of_nat 4) with (2 ^ 32).
  fold (u32 (u32 (s32 (le_value (slice off 4 mem))))) (u32 (le_value (slice off 4 mem))).
  rewrite u32_s32. by apply Z.mod_mod.
Qed.

(** [parse] reads only the frame: it returns on every input of an accepted length. *)
Lemma parse_total p :
  kMinMessageLen <= zlen p ->
  returns (parse p (zlen p)) (fun '(m, e) => e = kNoError -> is_Some m).
Proof.
  unfold kMinMessageLen, kHeaderLen. intros Hp. unfold parse, kHeaderLen.
  rewrite (asInt32_ok (zlen p - 4)), bind_Ret by lia.
  rewrite (load_ok 0), bind_Ret by lia.
  destruct (_ =? _); [|done]. rewrite asInt32_ok, bind_Ret by lia.
  destruct (_ && _) eqn:E; [|done]. bools. rewrite (load_ok 4), bind_Ret by lia.
  destruct (createMessage _); [|done]. rewrite load_ok, bind_Ret by lia.
  destruct (ParseFromArray _ _) as [ok m']. cbn. eauto.
Qed.

Section OnMessageProof.
Context `{ByteSource B}.

Lemma pb_onMessage_loop fuel (b : B) tr :
  bs_wf b -> (Z.to_nat (zlen (bs_contents b)) < fuel)%nat ->
  returns (while fuel onMessage_body (b, tr)) (fun '(b', tr') =>
    bs_wf b' /\ bs_capacity b' = bs_capacity b /\
    exists evs stop, tr' = tr ++ evs /\ reads (bs_contents b) evs (bs_contents b') stop).
Proof.
  revert b tr. induction fuel as [|fuel IH]; intros b tr Hw Hf; [lia|].
  rewrite while_S. unfold onMessage_body at 1. rewrite bs_readable_law by done.
  pose proof (zlen_nonneg (bs_contents b)). unfold kMaxMessageLen.
  destruct (_ <=? _) eqn:E4; bools.
  2:{ cbn. split_and!; [done..|]. exists [], false. rewrite app_nil_r.
      split; [done | by constructor]. }
  rewrite bs_peekInt32_law, bind_Ret by (done || unfold kMinMessageLen, kHeaderLen in *; lia).
  fold (length_field (bs_contents b)).
  destruct (_ || _) eqn:Ebad; bools.
  { cbn. split_and!; [done..|]. exists [Error kInvalidLength], true. split; [done|].
    apply framing_invalid; [done|]. unfold kMaxMessageLen. destruct Ebad; bools; lia. }
  unfold kMinMessageLen, kHeaderLen in *. rewrite u64_id by lia.
  destruct (_ <=? _) eqn:Ele; bools.
  2:{ cbn. split_and!; [done..|]. exists [], false. rewrite app_nil_r.
      split; [done|]. apply framing_partial; unfold kMinMessageLen, kMaxMessageLen, kHeaderLen; lia. }
  destruct (split_frame (bs_contents b)) as [El Ez]; [lia|lia|].
  set (n := length_field (bs_contents b)) in *.
  rewrite bs_load_law, bind_Ret by done || lia. rewrite <- Ez at 2.
  set (p := slice 4 n (bs_contents b)) in *.
  pose proof (parse_total p ltac:(unfold kMinMessageLen, kHeaderLen; lia))
    as [[m e] [Hp Hme]]%returns_Ret.
  rewrite Hp, bind_Ret.
  assert (kMinMessageLen <= zlen p <= kMaxMessageLen) as Hrange
    by (unfold kMinMessageLen, kMaxMessageLen, kHeaderLen; lia).
  assert (payload p = match m, e with Some m, kNoError => inl (Message m) | _, _ => inr (Error e) end)
    as Epay by (unfold payload; rewrite Hp; by destruct m, e).
  destruct m as [m|], e.
  2-12: cbn; split_and!; [done..|]; eexists _, true; split; [reflexivity|];
    rewrite El; by apply framing_refuse.
  pose proof (bs_retrieve_law b (4 + n) Hw ltac:(lia)) as [b1 [-> (Hw1 & Hc1 & Hk1)]]%returns_Ret.
  rewrite bind_Ret.
  eapply returns_mono; [|apply IH; [done|rewrite Hc1, zlen_drop; lia]].
  intros [b' tr'] (Hw' & Hk' & evs & stop & -> & Hfr). split_and!; [done|congruence|].
  exists (Message m :: evs), stop. rewrite <- app_assoc. split; [done|].
  rewrite El. apply framing_deliver; [done..|].
  rewrite Hc1 in Hfr. by rewrite (Z.add_comm n 4).
Qed.

Lemma pb_onMessage_ok (b : B) :
  bs_wf b ->
  returns (onMessage b) (fun '(b', evs) =>
    bs_wf b' /\ bs_capacity b' = bs_capacity b /\
    exists stop, reads (bs_contents b) evs (bs_contents b') stop).
Proof.
  intros Hw. unfold onMessage. rewrite bs_readable_law by done.
  eapply returns_mono; [|apply pb_onMessage_loop; [done | lia]].
  intros [b' tr'] (? & ? & evs & stop & -> & ?). eauto.
Qed.

End OnMessageProof.

(** ** Integrity *)

Definition checksum_ok (p : bytes) : Prop :=
  s32 (adler32 1 (slice 0 (zlen p - 4) p)) = s32 (be_value (slice (zlen p - 4) 4 p)).

(** The message [m] is what the payload [p] encodes: the checksum matches, the
    name field fits, the named type is registered and its parser accepted the
    data between name and checksum. *)
Definition encodes (p : bytes) (m : Msg) : Prop :=
  checksum_ok p /\
  let nameLen := s32 (be_value (slice 0 4 p)) in
  2 <= nameLen <= zlen p - 8 /\
  exists fresh, createMessage (slice 4 (nameLen - 1) p) = Some fresh /\
    ParseFromArray fresh (slice (4 + nameLen) (zlen p - nameLen - 8) p) = (true, m).

Lemma parse_encodes p m :
  kMinMessageLen <= zlen p -> parse p (zlen p) = Ret (Some m, kNoError) -> encodes p m.
Proof.
  unfold kMinMessageLen, kHeaderLen, encodes, checksum_ok. intros Hp.
  unfold parse, kHeaderLen.
  rewrite (asInt32_ok (zlen p - 4)), bind_Ret by lia.
  rewrite (load_ok 0), bind_Ret by lia.
  destruct (_ =? _) eqn:Esum; [|done]. rewrite asInt32_ok, bind_Ret by lia.
  destruct (_ && _) eqn:E; [|done]. bools. rewrite (load_ok 4), bind_Ret by lia.
  destruct (createMessage _) as [fresh|] eqn:Ef; [|done]. rewrite load_ok, bind_Ret by lia.
  destruct (ParseFromArray _ _) as [ok m'] eqn:Epar. intros [= -> Eok].
  destruct ok; [|done]. split_and!; [done|lia|lia|]. eauto.
Qed.

Lemma reads_integrity l evs rest stop :
  reads l evs rest stop ->
  (exists consumed, l = consumed ++ rest) /\
  (forall m, Message m ∈ evs -> exists pre p post,
     l = pre ++ frame p ++ post /\ kMinMessageLen <= zlen p <= kMaxMessageLen /\ encodes p m).
Proof.
  induction 1 as [l|l|p e l evs rest stop Hm Hp Hf [[c ->] IH]|p e l Hm Hp|l].
  1,2,5: split; [by exists [] | set_solver].
  2:{ split; [by exists []|]. intros m <-%list_elem_of_singleton.
      unfold payload in Hp. by destruct (parse p (zlen p)) as [[[?|] []]|]. }
  split; [exists (frame p ++ c); by rewrite app_assoc|].
  intros m [<-|Hin]%elem_of_cons.
  - exists [], p, (c ++ rest). split_and!; [done|lia|lia|]. apply parse_encodes; [lia|].
    unfold payload in Hp. destruct (parse p (zlen p)) as [[[?|] []]|]; naive_solver.
  - destruct (IH m Hin) as (pre & q & post & E & ?). exists (frame p ++ pre), q, post.
    by rewrite E, <- app_assoc.
Qed.

(** C6: safety on hostile input.  On any input buffer whatever its bytes, and for
    any behaviour of the protobuf runtime and zlib, the receive loop terminates,
    never reads outside the buffer and never fails an [assert]; it only consumes
    bytes from the front; and every message it hands to the callback is the
    decoding of a frame of the input whose checksum matched, whose type is
    registered and whose data the type's parser accepted. *)
Theorem protobuf_onMessage_safe `{ByteSource B} (b : B) :
  bs_wf b ->
  returns (onMessage b) (fun '(b', evs) =>
    bs_wf b' /\
    (exists consumed, bs_contents b = consumed ++ bs_contents b') /\
    (forall m, Message m ∈ evs -> exists pre p post,
       bs_contents b = pre ++ frame p ++ post /\
       kMinMessageLen <= zlen p <= kMaxMessageLen /\ encodes p m)).
Proof.
  intros Hw. eapply returns_mono; [|by apply pb_onMessage_ok].
  intros [b' evs] (? & _ & stop & Hr). split; [done|]. by eapply reads_integrity.
Qed.

(** ** Round trip *)

Section RoundTrip.
Context `{!ProtobufLaws}.

Lemma zlen_summed m :
  zlen (summed_part m) = 4 + (zlen (GetTypeName m) + 1) + zlen (SerializeWithCachedSizesToArray m).
Proof.
  unfold summed_part. rewrite !zlen_app, zlen_be_bytes. cbn [zlen length]. unfold zlen. cbn. lia.
Qed.

Lemma zlen_transport m : zlen (transport m) = zlen (summed_part m) + 4.
Proof. unfold transport. by rewrite zlen_app, zlen_be_bytes. Qed.

Lemma zlen_name m : 1 <= zlen (GetTypeName m).
Proof.
  pose proof (pb_name m). pose proof (zlen_nonneg (GetTypeName m)).
  destruct (decide (zlen (GetTypeName m) = 0)) as [E|]; [|lia].
  by apply zlen_nil_inv in E.
Qed.

(** Sizes of an acceptable message, for [lia]. *)
Lemma sendable_sizes m : sendable m ->
  1 <= zlen (GetTypeName m) /\ 0 <= zlen (SerializeWithCachedSizesToArray m) /\
  zlen (GetTypeName m) + zlen (SerializeWithCachedSizesToArray m) + 9 <= kMaxMessageLen.
Proof.
  intros [_ Hs]. rewrite zlen_transport, zlen_summed in Hs.
  pose proof (zlen_name m). pose proof (zlen_nonneg (SerializeWithCachedSizesToArray m)). lia.
Qed.

Lemma fillEmptyBuffer_ok m b :
  sendable m -> Buffer.refines Buffer.empty_queue b ->
  returns (fillEmptyBuffer b m) (fun b' => Buffer.wf b' /\ Buffer.contents b' = frame (transport m)).
Proof.
  intros Hs [Hw Hb Hr Hc Hv]. pose proof (sendable_sizes m Hs) as (Hn & Hd & Hmax).
  unfold Buffer.empty_queue, kMaxMessageLen in *.
  cbn [Buffer.q_bytes Buffer.q_room Buffer.q_vol] in *.
  set (name := GetTypeName m) in *. set (out := SerializeWithCachedSizesToArray m) in *.
  unfold fillEmptyBuffer. fold name out.
  rewrite Buffer.readable_contents, Hb by done. rewrite check_true, bind_Ret by done.
  rewrite (s32_id (zlen name + 1)) by lia. rewrite Buffer.appendInt32_bytes.
  apply returns_bind. eapply returns_mono;
    [|apply Buffer.append_ok; [done | rewrite zlen_be_bytes; Buffer.wf_lia]].
  rewrite zlen_be_bytes. intros b1 (Hw1 & Hc1 & Hr1 & Hz1).
  assert (zlen (name ++ [x00]) = zlen name + 1) as En by (rewrite zlen_app; done).
  apply returns_bind. eapply returns_mono;
    [|apply Buffer.append_ok; [done | rewrite En; Buffer.wf_lia]].
  rewrite En. intros b2 (Hw2 & Hc2 & Hr2 & Hz2).
  rewrite (proj1 Hs), bind_Ret, pb_size. fold out.
  apply returns_bind. eapply returns_mono;
    [|apply Buffer.ensureWritableBytes_ok; [done | done | Buffer.wf_lia]].
  intros b3 [Hw3 Hc3 Hsp Hr3 Hz3].
  destruct (Buffer.write_ok out b3 Hw3 Hsp) as (mem & -> & Hw4 & Hc4 & Hr4 & Hz4).
  rewrite bind_Ret, Z.eqb_refl, bind_Ret. set (b4 := Buffer.hasWritten _ _) in *.
  rewrite Hc3, Hc2, Hc1, Hb, <- !app_assoc in Hc4. cbn [app] in Hc4.
  change (Buffer.contents b4 = summed_part m) in Hc4.
  rewrite Buffer.readable_contents by done.
  replace (Buffer.peek b4) with (Buffer.peek b4 + 0) by lia.
  rewrite Buffer.load_readable, bind_Ret, slice_all by (done || apply zlen_nonneg || lia).
  rewrite Hc4, Buffer.appendInt32_bytes.
  apply returns_bind. eapply returns_mono;
    [|apply Buffer.append_ok; [done | rewrite zlen_be_bytes; Buffer.wf_lia]].
  rewrite zlen_be_bytes, Hc4. fold (transport m). intros b5 (Hw5 & Hc5 & Hr5 & _).
  rewrite Buffer.readable_contents, Hc5 by done.
  pose proof (zlen_transport m) as Et. rewrite zlen_summed in Et. fold name out in Et.
  rewrite check_true, bind_Ret by (apply Z.eqb_eq; lia).
  rewrite net32_bytes, (s32_id (zlen (transport m))) by lia.
  eapply returns_mono; [|apply Buffer.prepend_ok; [done | rewrite zlen_be_bytes; Buffer.wf_lia]].
  intros b6 (? & Hc6 & _). by rewrite Hc6, Hc5.
Qed.

Lemma pb_send_ok m : sendable m ->
  returns (send m) (fun b' => Buffer.wf b' /\ Buffer.contents b' = frame (transport m)).
Proof.
  intros. unfold send. apply returns_bind. eapply returns_mono; [|apply Buffer.Buffer_ok].
  intros. by apply fillEmptyBuffer_ok.
Qed.

(** The receiver accepts a transmitted payload and gets the message back. *)
Lemma payload_transport m : sendable m -> payload (transport m) = inl (Message m).
Proof.
  intros Hs. pose proof (sendable_sizes m Hs) as (Hn & Hd & Hmax). unfold kMaxMessageLen in *.
  pose proof (zlen_transport m) as Et. pose proof (zlen_summed m) as Es.
  unfold payload, parse, kHeaderLen.
  rewrite (asInt32_ok (zlen (transport m) - 4)), bind_Ret by lia.
  rewrite (load_ok 0), bind_Ret by lia.
  replace (zlen (transport m) - 4) with (zlen (summed_part m)) by lia.
  assert (slice 0 (zlen (summed_part m)) (transport m) = summed_part m) as ->.
  { unfold transport. rewrite slice_app_l by lia. apply slice_all. }
  assert (slice (zlen (summed_part m)) 4 (transport m)
          = be_bytes 4 (s32 (adler32 1 (summed_part m)))) as ->.
  { unfold transport, slice. rewrite drop_app_length' by (unfold zlen; lia).
    apply take_ge. rewrite length_be_bytes. lia. }
  rewrite s32_be_value_bytes, (s32_id (s32 _)), Z.eqb_refl by apply s32_range.
  assert (transport m = be_bytes 4 (zlen (GetTypeName m) + 1) ++ GetTypeName m ++ [x00] ++
    SerializeWithCachedSizesToArray m ++ be_bytes 4 (s32 (adler32 1 (summed_part m)))) as El.
  { unfold transport. unfold summed_part at 1. by rewrite <- !app_assoc. }
  rewrite asInt32_ok, bind_Ret by lia.
  assert (slice 0 4 (transport m) = be_bytes 4 (zlen (GetTypeName m) + 1)) as ->.
  { rewrite El. rewrite slice_app_l by (rewrite ?zlen_be_bytes; lia).
    unfold slice. change (Z.to_nat 0) with 0%nat. rewrite drop_0. apply take_ge. by rewrite length_be_bytes. }
  rewrite s32_be_value_bytes, s32_id by lia.
  rewrite (proj2 (andb_true_iff _ _)) by (split; apply Z.leb_le; lia).
  rewrite (load_ok 4), bind_Ret by lia.
  assert (slice 4 (zlen (GetTypeName m) + 1 - 1) (transport m) = GetTypeName m) as ->.
  { rewrite El. unfold slice. rewrite drop_app_length' by (by rewrite length_be_bytes).
    apply take_app_length'. unfold zlen. lia. }
  unfold createMessage. rewrite pb_find. destruct (pb_prototype m) as [p Hp]. rewrite Hp.
  rewrite load_ok, bind_Ret by lia.
  assert (slice (4 + (zlen (GetTypeName m) + 1))
    (zlen (transport m) - (zlen (GetTypeName m) + 1) - 2 * 4) (transport m)
    = SerializeWithCachedSizesToArray m) as ->.
  { rewrite El at 2. rewrite !app_assoc, <- (app_assoc _ (SerializeWithCachedSizesToArray m)).
    unfold slice. rewrite drop_app_length'.
    - apply take_app_length'. unfold zlen in *. lia.
    - rewrite !length_app, length_be_bytes. unfold zlen. cbn. lia. }
  rewrite (pb_parse m p (proj1 Hs) Hp). done.
Qed.

(** C5: wire round trip under arbitrary fragmentation.  Whatever the sizes of the
    pieces in which TCP delivers the bytes [send] produced for a list of
    initialized messages (of frames up to 64 MiB), the dispatcher callback runs
    exactly once per message, in order, with an equal message; no error is
    reported and the input buffer ends empty.  No property of adler32 is used. *)
Theorem protobuf_codec_stream (msgs : list Msg) (chunks : list bytes) (bufs : list Buffer.t) :
  Forall sendable msgs ->
  Forall2 (fun m b => send m = Ret b) msgs bufs ->
  concat chunks = concat (map Buffer.contents bufs) ->
  zlen (concat chunks) <= 2 ^ 62 ->
  returns (b ← Buffer.Buffer; feed onMessage chunks b) (fun '(b', evs) =>
    evs = map Message msgs /\ Buffer.contents b' = []).
Proof.
  intros Hm Hs Hc Hz.
  apply (feed_fresh (kMinMessageLen + kHeaderLen) kMinMessageLen kMaxMessageLen
           (Error kInvalidLength) payload eq_refl
           ltac:(unfold kMinMessageLen, kHeaderLen; lia)
           onMessage (@pb_onMessage_ok _ buffer_source) (map transport msgs)); [| |done].
  - clear Hs. induction Hm as [|m msgs Hm _ IH]; constructor; [|exact IH].
    split; [|by apply payload_transport]. destruct Hm as [? Hm]. split; [|done].
    rewrite zlen_transport, zlen_summed. pose proof (zlen_name m).
    pose proof (zlen_nonneg (SerializeWithCachedSizesToArray m)).
    unfold kMinMessageLen, kHeaderLen. lia.
  - rewrite Hc, map_map. f_equal. clear -Hm Hs H0.
    induction Hs as [|m b msgs bufs Hs _ IH]; [done|].
    inversion Hm; subst. cbn. f_equal; [|by apply IH].
    pose proof (pb_send_ok m ltac:(done)) as Hok. rewrite Hs in Hok. apply Hok.
Qed.

End RoundTrip.

End Codec.

(** ** Witnesses

    A runtime with one message type, [im.Success], whose data is a byte string
    starting with [!], and the Adler-32 of RFC 1950. *)

Definition adler32_rfc (init : Z) (l : bytes) : Z :=
  let '(a, b) := fold_left (fun '(a, b) x =>
      let a' := (a + b2Z x) mod 65521 in (a', (b + a') mod 65521)) l
    (init mod 65536, init / 65536) in
  b * 65536 + a.

Definition demo_name : bytes := lit "im.Success".

Definition demo : Protobuf := {|
  Msg := bytes;
  Descriptor := unit;
  GetDescriptor _ := tt;
  GetTypeName _ := demo_name;
  IsInitialized m := match m with x21 :: _ => true | _ => false end;
  ByteSize m := zlen m;
  SerializeWithCachedSizesToArray m := m;
  FindMessageTypeByName n := if decide (n = demo_name) then Some tt else None;
  GetPrototype _ := Some [];
  New p := p;
  ParseFromArray _ d := (match d with x21 :: _ => true | _ => false end, d);
  adler32 := adler32_rfc
|}.

Lemma demo_laws : @ProtobufLaws demo.
Proof.
  split; cbn; try done.
  - eauto.
  - intros m p Hi _. by rewrite Hi.
Qed.

Lemma protobuf_onMessage_safe_witness :
  returns (onMessage (H := demo) (Buffer.mk (replicate 40 x00) 8 40)) (fun '(b', evs) =>
    bs_wf b' /\
    (exists consumed, bs_contents (Buffer.mk (replicate 40 x00) 8 40)
       = consumed ++ bs_contents b') /\
    (forall m, Message (H := demo) m ∈ evs -> exists pre p post,
       bs_contents (Buffer.mk (replicate 40 x00) 8 40) = pre ++ frame p ++ post /\
       kMinMessageLen <= zlen p <= kMaxMessageLen /\ encodes (H := demo) p m)).
Proof.
  apply (protobuf_onMessage_safe (H := demo) (Buffer.mk (replicate 40 x00) 8 40)).
  split; vm_compute; discriminate.
Defined.

(** Two messages, delivered as one byte, then all but the last byte, then it. *)
Lemma protobuf_codec_stream_witness : exists bufs c1 c2 c3,
  Forall2 (fun m b => send (H := demo) m = Ret b) [[x21]; [x21; x41]] bufs /\
  returns (b ← Buffer.Buffer; feed (onMessage (H := demo)) [c1; c2; c3] b) (fun '(b', evs) =>
    evs = map (Message (H := demo)) [[x21]; [x21; x41]] /\ Buffer.contents b' = []).
Proof.
  destruct (send (H := demo) [x21]) as [b1|] eqn:E1; [|discriminate].
  destruct (send (H := demo) [x21; x41]) as [b2|] eqn:E2; [|discriminate].
  set (s := Buffer.contents b1 ++ Buffer.contents b2).
  exists [b1; b2], (take 1 s), (take (length s - 2) (drop 1 s)), (drop (length s - 1) s).
  split; [by repeat constructor|].
  apply (protobuf_codec_stream (H := demo) (H0 := demo_laws)
           [[x21]; [x21; x41]] _ [b1; b2]); subst s.
  - repeat constructor; vm_compute; discriminate.
  - by repeat constructor.
  - vm_compute in E1, E2. injection E1 as <-. injection E2 as <-. vm_compute. reflexivity.
  - vm_compute in E1, E2. injection E1 as <-. injection E2 as <-. vm_compute. discriminate.
Defined.

End ProtobufCodec.

(** ** dispatcher.h *)

Module ProtobufDispatcher.
Section Dispatcher.
Context `{Protobuf}.
(** Callbacks act on the server's state [St]; [Conn] is a [TcpConnectionPtr]. *)
Context {Conn St : Type}.

Definition ProtobufMessageCallback : Type := Conn -> Msg -> St -> outcome St.

(** [CallbackT<T>]: the message type it was registered for and its callback. *)
Record CallbackT := { cb_type : Descriptor; callback_ : ProtobufMessageCallback }.

(** [CallbackT<T>::onMessage]: [down_pointer_cast] asserts the dynamic type. *)
Definition CallbackT_onMessage (cb : CallbackT) (conn : Conn) (message : Msg) (s : St) :
    outcome St :=
  _ ← check (bool_decide (GetDescriptor message = cb_type cb));
  callback_ cb conn message s.

Record t := mk { callbacks_ : gmap Descriptor CallbackT; defaultCallback_ : ProtobufMessageCallback }.

Definition new (defaultCb : ProtobufMessageCallback) : t := mk ∅ defaultCb.

(** [registerMessageCallback<T>]: [d] is [T::descriptor()]. *)
Definition registerMessageCallback (d : Descriptor) (callback : ProtobufMessageCallback) (disp : t) : t :=
  mk (<[d := {| cb_type := d; callback_ := callback |}]> (callbacks_ disp)) (defaultCallback_ disp).

Definition onProtobufMessage (disp : t) (conn : Conn) (message : Msg) (s : St) : outcome St :=
  match callbacks_ disp !! GetDescriptor message with
  | Some cb => CallbackT_onMessage cb conn message s
  | None => defaultCallback_ disp conn message s
  end.

(** The registrations of a server's constructor, in order. *)
Definition register_all (regs : list (Descriptor * ProtobufMessageCallback)) (disp : t) : t :=
  fold_left (fun disp '(d, cb) => registerMessageCallback d cb disp) regs disp.

(** The last registration for a type wins. *)
Fixpoint last_for (d : Descriptor) (regs : list (Descriptor * ProtobufMessageCallback))
    (dflt : ProtobufMessageCallback) : ProtobufMessageCallback :=
  match regs with
  | [] => dflt
  | (d', cb) :: regs' => last_for d regs' (if decide (d' = d) then cb else dflt)
  end.

Lemma register_all_lookup regs disp conn message s :
  (forall d cb, callbacks_ disp !! d = Some cb -> cb_type cb = d) ->
  onProtobufMessage (register_all regs disp) conn message s =
  last_for (GetDescriptor message) regs
    (match callbacks_ disp !! GetDescriptor message with
     | Some cb => callback_ cb | None => defaultCallback_ disp end) conn message s.
Proof.
  revert disp. induction regs as [|[d cb] regs IH]; intros disp Ht; cbn [register_all fold_left last_for].
  - unfold onProtobufMessage. destruct (callbacks_ disp !! _) as [cb|] eqn:E; [|done].
    unfold CallbackT_onMessage. by rewrite (Ht _ _ E), bool_decide_true.
  - fold (register_all regs (registerMessageCallback d cb disp)). rewrite IH.
    + cbn [callbacks_ registerMessageCallback defaultCallback_]. rewrite lookup_insert.
      by destruct (decide (d = GetDescriptor message)).
    + cbn [callbacks_ registerMessageCallback]. intros d' cb'. rewrite lookup_insert.
      case_decide; [by intros [= <-]; subst | apply Ht].
Qed.

(** Dispatch is by message type.  After any sequence of registrations, a
    message is handled by the callback registered last for its type, or by the
    default callback when there is none, and the down-cast assertion of
    [CallbackT::onMessage] never fails. *)
Theorem dispatch_by_type regs dflt conn message s :
  onProtobufMessage (register_all regs (new dflt)) conn message s =
  last_for (GetDescriptor message) regs dflt conn message s.
Proof. rewrite register_all_lookup; [|done]. cbn. by rewrite lookup_empty. Qed.

End Dispatcher.
End ProtobufDispatcher.
