(* ===== verification/Poller.v ===== *)
(** * Channel.h/.cc and Poller.h/.cc: the poll(2) registry

    Channels are objects shared by their owners, the event loop and the poller,
    so they live in a heap ([gmap] from addresses); [Channel.t] is the object,
    [Poller.t] the poller's own state, and [world] the two together.
    [Channel.update] and [Channel.remove] go through [EventLoop::updateChannel] and
    [EventLoop::removeChannel], which only forward to the poller.

    The specification is a registry: each channel with its descriptor, the
    events it asked for, and whether poll(2) is told about it. *)

From S2P Require Import Prelude.

(** poll.h *)
Definition POLLIN : Z := 1.
Definition POLLPRI : Z := 2.
Definition POLLOUT : Z := 4.
Definition POLLERR : Z := 8.
Definition POLLHUP : Z := 16.
Definition POLLNVAL : Z := 32.
Definition POLLRDHUP : Z := 8192.

(** [x & y] as a C++ condition. *)
Definition has (x y : Z) : bool := negb (Z.land x y =? 0).

Abbreviation addr := positive (only parsing).

Module Channel.

Definition kNoneEvent : Z := 0.
Definition kReadEvent : Z := Z.lor POLLIN POLLPRI.
Definition kWriteEvent : Z := POLLOUT.

(** The callbacks are present or empty [boost::function]s. *)
Record t := mk {
  fd_ : Z;
  events_ : Z;
  revents_ : Z;
  index_ : Z;
  eventHandling_ : bool;
  addedToLoop_ : bool;
  readCallback_ : bool;
  writeCallback_ : bool;
  errorCallback_ : bool;
  closeCallback_ : bool
}.

Definition Channel (fdArg : Z) : t := mk fdArg 0 0 (-1) false false false false false false.

Definition set_revents (revt : Z) (c : t) : t :=
  mk (fd_ c) (events_ c) revt (index_ c) (eventHandling_ c) (addedToLoop_ c)
    (readCallback_ c) (writeCallback_ c) (errorCallback_ c) (closeCallback_ c).
Definition set_index (idx : Z) (c : t) : t :=
  mk (fd_ c) (events_ c) (revents_ c) idx (eventHandling_ c) (addedToLoop_ c)
    (readCallback_ c) (writeCallback_ c) (errorCallback_ c) (closeCallback_ c).
Definition set_events (ev : Z) (c : t) : t :=
  mk (fd_ c) ev (revents_ c) (index_ c) (eventHandling_ c) (addedToLoop_ c)
    (readCallback_ c) (writeCallback_ c) (errorCallback_ c) (closeCallback_ c).
Definition set_added (b : bool) (c : t) : t :=
  mk (fd_ c) (events_ c) (revents_ c) (index_ c) (eventHandling_ c) b
    (readCallback_ c) (writeCallback_ c) (errorCallback_ c) (closeCallback_ c).

Definition isNoneEvent (c : t) : bool := events_ c =? kNoneEvent.
Definition isWriting (c : t) : bool := has (events_ c) kWriteEvent.

(** The new value of [events_] in the four interest operations. *)
Definition enableReading_ev (ev : Z) : Z := Z.lor ev kReadEvent.
Definition enableWriting_ev (ev : Z) : Z := Z.lor ev kWriteEvent.
Definition disableWriting_ev (ev : Z) : Z := Z.land ev (Z.lnot kWriteEvent).
Definition disableAll_ev (ev : Z) : Z := kNoneEvent.

Inductive callback := ReadCb | WriteCb | ErrorCb | CloseCb.

#[export] Instance callback_eq_dec : EqDecision callback.
Proof. solve_decision. Defined.

(** [handleEvent]: the callbacks it invokes, in order. *)
Definition handleEvent (c : t) : list callback :=
  let revents := revents_ c in
  (if has revents POLLHUP && negb (has revents POLLIN)
   then (if closeCallback_ c then [CloseCb] else []) else []) ++
  (if has revents (Z.lor POLLERR POLLNVAL)
   then (if errorCallback_ c then [ErrorCb] else []) else []) ++
  (if has revents (Z.lor (Z.lor POLLIN POLLPRI) POLLRDHUP)
   then (if readCallback_ c then [ReadCb] else []) else []) ++
  (if has revents POLLOUT
   then (if writeCallback_ c then [WriteCb] else []) else []).

End Channel.

Module Poller.

Record pollfd := mkpfd { pfd_fd : Z; pfd_events : Z; pfd_revents : Z }.

Record t := mk {
  ownerThread : Z;                (* ownerLoop_->threadId_ *)
  pollfds_ : list pollfd;
  channels_ : gmap Z addr
}.

(** The heap of channels and the poller. *)
Record world := mkw { heap : gmap addr Channel.t; poller : t }.

Definition Poller (owner : Z) : t := mk owner [] ∅.

(** A channel pointer is dereferenced. *)
Definition deref (a : addr) (w : world) : outcome Channel.t :=
  match heap w !! a with Some c => Ret c | None => Crash UseAfterFree end.

Definition assertInLoopThread (cur : Z) (p : t) : outcome unit :=
  if cur =? ownerThread p then Ret tt else Crash FatalLog.

Definition with_pollfds (l : list pollfd) (p : t) : t := mk (ownerThread p) l (channels_ p).
Definition with_channels (m : gmap Z addr) (p : t) : t := mk (ownerThread p) (pollfds_ p) m.

(** [std::vector::pop_back]. *)
Definition pop_back (l : list pollfd) : list pollfd := take (length l - 1) l.

(** [static_cast<short>]. *)
Definition s16 (x : Z) : Z := (x + 2 ^ 15) mod 2 ^ 16 - 2 ^ 15.

Definition updateChannel (cur : Z) (channel : addr) (w : world) : outcome world :=
  let p := poller w in
  _ ← assertInLoopThread cur p;
  c ← deref channel w;
  if Channel.index_ c <? 0 then
    _ ← check (bool_decide (channels_ p !! Channel.fd_ c = None));
    let pfd := mkpfd (Channel.fd_ c) (s16 (Channel.events_ c)) 0 in
    let pollfds := pollfds_ p ++ [pfd] in
    let idx := s32 (zlen pollfds) - 1 in
    Ret (mkw (<[channel := Channel.set_index idx c]> (heap w))
             (mk (ownerThread p) pollfds (<[pfd_fd pfd := channel]> (channels_ p))))
  else
    _ ← check (bool_decide (is_Some (channels_ p !! Channel.fd_ c)));
    _ ← check (bool_decide (channels_ p !! Channel.fd_ c = Some channel));
    let idx := Channel.index_ c in
    _ ← check ((0 <=? idx) && (idx <? s32 (zlen (pollfds_ p))));
    match pollfds_ p !! Z.to_nat idx with
    | None => Crash OutOfRange
    | Some pfd =>
        _ ← check ((pfd_fd pfd =? Channel.fd_ c) || (pfd_fd pfd =? - Channel.fd_ c - 1));
        let pfd' := mkpfd (if Channel.isNoneEvent c then - Channel.fd_ c - 1 else pfd_fd pfd)
                          (s16 (Channel.events_ c)) 0 in
        Ret (mkw (heap w) (with_pollfds (<[Z.to_nat idx := pfd']> (pollfds_ p)) p))
    end.

Definition removeChannel (cur : Z) (channel : addr) (w : world) : outcome world :=
  let p := poller w in
  _ ← assertInLoopThread cur p;
  c ← deref channel w;
  _ ← check (bool_decide (is_Some (channels_ p !! Channel.fd_ c)));
  _ ← check (bool_decide (channels_ p !! Channel.fd_ c = Some channel));
  _ ← check (Channel.isNoneEvent c);
  let idx := Channel.index_ c in
  _ ← check ((0 <=? idx) && (idx <? s32 (zlen (pollfds_ p))));
  match pollfds_ p !! Z.to_nat idx with
  | None => Crash OutOfRange
  | Some pfd =>
      _ ← check ((pfd_fd pfd =? - Channel.fd_ c - 1) && (pfd_events pfd =? Channel.events_ c));
      let chans := delete (Channel.fd_ c) (channels_ p) in
      if idx =? zlen (pollfds_ p) - 1 then
        Ret (mkw (heap w) (mk (ownerThread p) (pop_back (pollfds_ p)) chans))
      else
        match pollfds_ p !! (length (pollfds_ p) - 1)%nat with
        | None => Crash OutOfRange
        | Some back =>
            (* iter_swap, then pop_back: the last entry takes the freed slot *)
            let pollfds := pop_back (<[Z.to_nat idx := back]> (pollfds_ p)) in
            let channelAtEnd := if pfd_fd back <? 0 then - pfd_fd back - 1 else pfd_fd back in
            match chans !! channelAtEnd with
            | None => Crash NullPointer
            | Some moved =>
                m ← deref moved w;
                Ret (mkw (<[moved := Channel.set_index idx m]> (heap w))
                         (mk (ownerThread p) pollfds chans))
            end
        end
  end.

(** [enableReading] and the other interest operations: set [events_], then
    [update()], that is [loop_->updateChannel(this)]. *)
Definition setInterest (f : Z -> Z) (cur : Z) (channel : addr) (w : world) : outcome world :=
  c ← deref channel w;
  updateChannel cur channel
    (mkw (<[channel := Channel.set_events (f (Channel.events_ c)) c]> (heap w)) (poller w)).

Definition enableReading := setInterest Channel.enableReading_ev.
Definition enableWriting := setInterest Channel.enableWriting_ev.
Definition disableWriting := setInterest Channel.disableWriting_ev.
Definition disableAll := setInterest Channel.disableAll_ev.

(** [Channel::remove]. *)
Definition remove (cur : Z) (channel : addr) (w : world) : outcome world :=
  c ← deref channel w;
  _ ← check (Channel.isNoneEvent c);
  removeChannel cur channel
    (mkw (<[channel := Channel.set_added false c]> (heap w)) (poller w)).

(** [fillActiveChannels]: the loop over [pollfds_] with the [numEvents] budget. *)
Fixpoint fillActiveChannels (numEvents : Z) (pfds : list pollfd) (w : world) :
    outcome (list addr * world) :=
  match pfds with
  | [] => Ret ([], w)
  | pfd :: pfds' =>
      if 0 <? numEvents then
        if 0 <? pfd_revents pfd then
          match channels_ (poller w) !! pfd_fd pfd with
          | None => Crash AssertFailed
          | Some ch =>
              c ← deref ch w;
              _ ← check (Channel.fd_ c =? pfd_fd pfd);
              let w' := mkw (<[ch := Channel.set_revents (pfd_revents pfd) c]> (heap w)) (poller w) in
              '(rest, w'') ← fillActiveChannels (numEvents - 1) pfds' w';
              Ret (ch :: rest, w'')
          end
        else fillActiveChannels numEvents pfds' w
      else Ret ([], w)
  end.

(** [poll]: the kernel fills in [revents] and answers [numEvents] (or -1). *)
Definition poll (numEvents : Z) (revents : list Z) (w : world) : outcome (list addr * world) :=
  let pfds := zip_with (fun pfd r => mkpfd (pfd_fd pfd) (pfd_events pfd) r)
                (pollfds_ (poller w)) revents in
  let w' := mkw (heap w) (with_pollfds pfds (poller w)) in
  if 0 <? numEvents then fillActiveChannels numEvents pfds w' else Ret ([], w').

(** ** The registry specification *)

(** [Fresh]: never registered.  [Polled]: poll(2) watches it.  [Muted]: it has an
    entry, but with the negative descriptor poll(2) ignores.  [Removed]. *)
Inductive status := Fresh | Polled | Muted | Removed.

Record view := mkv { v_fd : Z; v_events : Z; v_status : status }.

Definition registered (v : view) : bool :=
  match v_status v with Polled | Muted => true | _ => false end.

(** Is the descriptor taken by a registered channel? *)
Definition fd_used (fd : Z) (reg : gmap addr view) : bool :=
  existsb (fun '(_, v) => registered v && (v_fd v =? fd)) (map_to_list reg).

Inductive op :=
| EnableReading (a : addr)
| EnableWriting (a : addr)
| DisableWriting (a : addr)
| DisableAll (a : addr)
| Remove (a : addr).

Definition spec_interest (f : Z -> Z) (a : addr) (reg : gmap addr view) : option (gmap addr view) :=
  match reg !! a with
  | None => None
  | Some v =>
      let ev := f (v_events v) in
      match v_status v with
      | Fresh => if fd_used (v_fd v) reg then None else Some (<[a := mkv (v_fd v) ev Polled]> reg)
      | Polled => Some (<[a := mkv (v_fd v) ev (if ev =? 0 then Muted else Polled)]> reg)
      | Muted => Some (<[a := mkv (v_fd v) ev Muted]> reg)
      | Removed => None
      end
  end.

Definition spec (o : op) (reg : gmap addr view) : option (gmap addr view) :=
  match o with
  | EnableReading a => spec_interest Channel.enableReading_ev a reg
  | EnableWriting a => spec_interest Channel.enableWriting_ev a reg
  | DisableWriting a => spec_interest Channel.disableWriting_ev a reg
  | DisableAll a => spec_interest Channel.disableAll_ev a reg
  | Remove a =>
      match reg !! a with
      | Some (mkv fd 0 Muted) => Some (<[a := mkv fd 0 Removed]> reg)
      | _ => None
      end
  end.

Definition exec (cur : Z) (o : op) (w : world) : outcome world :=
  match o with
  | EnableReading a => enableReading cur a w
  | EnableWriting a => enableWriting cur a w
  | DisableWriting a => disableWriting cur a w
  | DisableAll a => disableAll cur a w
  | Remove a => remove cur a w
  end.

Fixpoint run (cur : Z) (ops : list op) (w : world) : outcome world :=
  match ops with
  | [] => Ret w
  | o :: ops' => w' ← exec cur o w; run cur ops' w'
  end.

Fixpoint run_spec (ops : list op) (reg : gmap addr view) : option (gmap addr view) :=
  match ops with
  | [] => Some reg
  | o :: ops' => reg' ← spec o reg; run_spec ops' reg'
  end.

(** The descriptor an entry stands for. *)
Definition real_fd (x : Z) : Z := if x <? 0 then - x - 1 else x.

(** What the entry of a registered channel looks like. *)
Definition entry_of (v : view) (pfd : pollfd) : Prop :=
  pfd_events pfd = v_events v /\
  pfd_fd pfd = (match v_status v with Muted => - v_fd v - 1 | _ => v_fd v end).

(** [events_] only ever holds the poll bits of [kReadEvent] and [kWriteEvent]. *)
Definition small_events (ev : Z) : Prop := 0 <= ev < 8.

(** A registered channel: the map finds it and its slot is its own. *)
Definition placed (w : world) (a : addr) (v : view) (c : Channel.t) : Prop :=
  0 <= Channel.index_ c /\ channels_ (poller w) !! v_fd v = Some a /\
  exists pfd, pollfds_ (poller w) !! Z.to_nat (Channel.index_ c) = Some pfd /\ entry_of v pfd.

Record refines (reg : gmap addr view) (w : world) : Prop := {
  (* every channel object is as the registry says *)
  rf_obj a v : reg !! a = Some v -> exists c, heap w !! a = Some c /\
    Channel.fd_ c = v_fd v /\ Channel.events_ c = v_events v /\
    0 <= v_fd v /\ small_events (v_events v) /\
    (v_status v = Fresh -> Channel.index_ c < 0) /\
    (registered v = true -> placed w a v c);
  (* channels_ holds exactly the registered ones *)
  rf_map fd a : channels_ (poller w) !! fd = Some a ->
    exists v, reg !! a = Some v /\ v_fd v = fd /\ registered v = true;
  (* and every pollfd belongs to the channel that knows its position *)
  rf_slot i pfd : pollfds_ (poller w) !! i = Some pfd ->
    exists a c, channels_ (poller w) !! real_fd (pfd_fd pfd) = Some a /\
      heap w !! a = Some c /\ Channel.index_ c = Z.of_nat i;
  rf_size : length (pollfds_ (poller w)) = size (channels_ (poller w))
}.

(** ** Lemmas *)

Lemma has_true x y : has x y = true <-> Z.land x y <> 0.
Proof. unfold has. rewrite negb_true_iff, Z.eqb_neq. done. Qed.

Lemma s16_id x : small_events x -> s16 x = x.
Proof. unfold small_events, s16. intros. rewrite Z.mod_small; lia. Qed.

Lemma small_events_cases ev : small_events ev ->
  ev = 0 \/ ev = 1 \/ ev = 2 \/ ev = 3 \/ ev = 4 \/ ev = 5 \/ ev = 6 \/ ev = 7.
Proof. unfold small_events. lia. Qed.

Lemma interest_small f ev :
  f ∈ [Channel.enableReading_ev; Channel.enableWriting_ev; Channel.disableWriting_ev;
       Channel.disableAll_ev] -> small_events ev -> small_events (f ev).
Proof.
  intros Hf Hev. apply small_events_cases in Hev. unfold small_events.
  repeat (apply elem_of_cons in Hf as [->|Hf]); [..|set_solver];
    (repeat destruct Hev as [->|Hev]; [..|subst]); vm_compute; by split.
Qed.

Lemma fd_used_false fd reg :
  fd_used fd reg = false ->
  forall a v, reg !! a = Some v -> registered v = true -> v_fd v <> fd.
Proof.
  unfold fd_used. intros H a v Ha Hr E.
  assert (existsb (fun '(_, v) => registered v && (v_fd v =? fd)) (map_to_list reg) = true) as Ht.
  { apply existsb_exists. exists (a, v). split.
    - apply list_elem_of_In, elem_of_map_to_list, Ha.
    - rewrite Hr. cbn. by apply Z.eqb_eq. }
  congruence.
Qed.

Lemma real_fd_entry v pfd : 0 <= v_fd v -> entry_of v pfd -> real_fd (pfd_fd pfd) = v_fd v.
Proof.
  intros H [_ E]. unfold real_fd. destruct (v_status v); destruct (_ <? _) eqn:Hs; bools; lia.
Qed.

(** There are no more entries than channels. *)
Lemma size_list_to_set_le (l : list Z) : (size (list_to_set l : gset Z) <= length l)%nat.
Proof.
  induction l as [|x l IH]; cbn; [by rewrite size_empty|].
  destruct (decide (x ∈ (list_to_set l : gset Z))) as [H|H].
  - rewrite subseteq_union_1_L by set_solver. lia.
  - rewrite size_union, size_singleton by set_solver. lia.
Qed.

Lemma refines_size reg w : refines reg w ->
  (length (pollfds_ (poller w)) <= size reg)%nat.
Proof.
  intros R. rewrite (rf_size _ _ R), <- (size_dom (D := gset Z)).
  assert (dom (channels_ (poller w)) ⊆
          (list_to_set (map (fun '(_, v) => v_fd v) (map_to_list reg)) : gset Z)) as Hs.
  { intros fd [a Ha]%elem_of_dom. destruct (rf_map _ _ R _ _ Ha) as (v & Hv & <- & _).
    apply elem_of_list_to_set, list_elem_of_In, in_map_iff. exists (a, v). split; [done|].
    by apply list_elem_of_In, elem_of_map_to_list. }
  etrans; [by apply subseteq_size|]. etrans; [apply size_list_to_set_le|].
  rewrite length_map. by rewrite length_map_to_list.
Qed.

(** The slot numbers of two registered channels differ. *)
Lemma refines_slot_inj reg w a b va vb ca cb :
  refines reg w -> reg !! a = Some va -> reg !! b = Some vb ->
  placed w a va ca -> placed w b vb cb ->
  Channel.index_ ca = Channel.index_ cb -> a = b.
Proof.
  intros R Ha Hb (_ & Ea & p & Hp & Ep) (_ & Eb & q & Hq & Eq) E.
  destruct (rf_obj _ _ R a va Ha) as (? & _ & _ & _ & Hfa & _).
  destruct (rf_obj _ _ R b vb Hb) as (? & _ & _ & _ & Hfb & _).
  rewrite E in Hp. assert (p = q) as -> by congruence.
  apply real_fd_entry in Ep; [|done]. apply real_fd_entry in Eq; [|done]. congruence.
Qed.

(** Registering a fresh channel appends its entry. *)
Lemma setInterest_fresh f cur reg w a v :
  refines reg w -> cur = ownerThread (poller w) -> Z.of_nat (size reg) < 2 ^ 31 - 1 ->
  reg !! a = Some v -> v_status v = Fresh -> fd_used (v_fd v) reg = false ->
  small_events (f (v_events v)) ->
  returns (setInterest f cur a w) (fun w' =>
    refines (<[a := mkv (v_fd v) (f (v_events v)) Polled]> reg) w' /\
    ownerThread (poller w') = ownerThread (poller w)).
Proof.
  intros R -> Hsz Ha Hst Hu Hf. pose proof (refines_size _ _ R) as Hlen.
  destruct (rf_obj _ _ R a v Ha) as (c & Hc & Efd & Eev & Hfd & Hsm & Hidx & _).
  assert (channels_ (poller w) !! v_fd v = None) as Hnone.
  { destruct (channels_ (poller w) !! v_fd v) as [b|] eqn:E; [|done].
    destruct (rf_map _ _ R _ _ E) as (vb & Hb & Eb & Rb).
    by apply (fd_used_false _ _ Hu b vb) in Hb. }
  unfold setInterest, deref. rewrite Hc, bind_Ret. unfold updateChannel, assertInLoopThread.
  cbn [poller heap]. rewrite Z.eqb_refl, bind_Ret. unfold deref. cbn [heap].
  rewrite lookup_insert_eq, bind_Ret. cbn [Channel.index_ Channel.set_events Channel.fd_ Channel.events_].
  rewrite (proj2 (Z.ltb_lt _ _)) by auto. rewrite Efd, Eev.
  rewrite check_bind by (by apply bool_decide_eq_true).
  rewrite s16_id by done. set (n := length (pollfds_ (poller w))) in *.
  rewrite zlen_app. change (zlen [_]) with 1. rewrite s32_id by (unfold zlen; lia).
  replace (zlen (pollfds_ (poller w)) + 1 - 1) with (Z.of_nat n) by (unfold zlen; lia).
  cbn [returns poller ownerThread]. split; [|done]. cbn [pfd_fd].
  split; cbn [heap poller pollfds_ channels_].
  - intros b vb. rewrite lookup_insert. case_decide as E; [intros [= <-]; subst b|].
    + eexists. rewrite lookup_insert_eq. split; [done|].
      cbn [v_fd v_events v_status Channel.fd_ Channel.events_ Channel.index_ Channel.set_index Channel.set_events].
      split_and!; [done..| |]; [done|]. intros _. unfold placed.
      cbn [Channel.index_ Channel.set_index v_fd poller channels_ pollfds_].
      split; [lia|]. rewrite lookup_insert_eq. split; [done|].
      eexists. rewrite Nat2Z.id, lookup_app_r, Nat.sub_diag by done. split; [done|]. done.
    + intros Hb. destruct (rf_obj _ _ R b vb Hb) as (cb & Hcb & ? & ? & ? & ? & ? & Hpl).
      exists cb. rewrite !lookup_insert_ne by done. split_and!; [done..|].
      intros Hr. destruct (Hpl Hr) as (? & Hm & pfd & Hp & Hent). unfold placed.
      cbn [poller channels_ pollfds_]. split; [done|].
      rewrite lookup_insert_ne by (intros E'; rewrite <- E' in Hm; congruence). split; [done|].
      exists pfd. split; [|done]. rewrite lookup_app_l; [done|]. by eapply lookup_lt_Some.
  - intros fd b. rewrite lookup_insert. case_decide as E.
    + intros [= <-]. eexists. rewrite lookup_insert_eq. split; [done|]. done.
    + intros Hb. destruct (rf_map _ _ R _ _ Hb) as (vb & Hvb & Efb & Rb). exists vb.
      rewrite lookup_insert_ne; [done|]. intros <-. assert (vb = v) as -> by congruence.
      unfold registered in Rb. by rewrite Hst in Rb.
  - intros i pfd. rewrite lookup_app_Some. intros [Hi|[Hge Hi]].
    + destruct (rf_slot _ _ R _ _ Hi) as (b & cb & Hb & Hcb & Eb).
      assert (a <> b) as Hab.
      { intros <-. destruct (rf_map _ _ R _ _ Hb) as (vb & Hvb & Efb & Rb).
        assert (vb = v) as -> by congruence. unfold registered in Rb. by rewrite Hst in Rb. }
      exists b, cb.
      rewrite lookup_insert_ne by (intros E'; rewrite <- E' in Hb; congruence).
      rewrite !lookup_insert_ne by done. done.
    + apply list_lookup_singleton_Some in Hi as [Hi <-]. cbn [pfd_fd].
      assert (real_fd (v_fd v) = v_fd v) as ->
        by (unfold real_fd; destruct (_ <? _) eqn:?; bools; lia).
      eexists a, _. rewrite !lookup_insert_eq. split; [done|]. split; [done|].
      cbn [Channel.index_ Channel.set_index]. f_equal. lia.
  - rewrite length_app, map_size_insert_None by done. rewrite (rf_size _ _ R). cbn. lia.
Qed.

(** Rewriting the entry of a registered channel in place. *)
Lemma refines_update reg w a v v' c c' pfd' :
  refines reg w -> reg !! a = Some v -> registered v = true -> heap w !! a = Some c ->
  v_fd v' = v_fd v -> registered v' = true -> small_events (v_events v') -> entry_of v' pfd' ->
  Channel.fd_ c' = v_fd v' -> Channel.events_ c' = v_events v' ->
  Channel.index_ c' = Channel.index_ c ->
  refines (<[a := v']> reg)
    (mkw (<[a := c']> (heap w))
         (with_pollfds (<[Z.to_nat (Channel.index_ c) := pfd']> (pollfds_ (poller w))) (poller w))).
Proof.
  intros R Ha Hr Hc Efd Hr' Hsm Hent Ec1 Ec2 Ec3.
  destruct (rf_obj _ _ R a v Ha) as (c0 & Hc0 & _ & _ & Hfd & _ & _ & Hpl).
  assert (c0 = c) as -> by congruence. specialize (Hpl Hr).
  pose proof Hpl as (Hi0 & Hm & pfd & Hp & Hent0).
  pose proof (lookup_lt_Some _ _ _ Hp) as Hlt.
  split; cbn [heap poller pollfds_ channels_ with_pollfds].
  - intros b vb. rewrite lookup_insert. case_decide as E; [intros [= <-]; subst b|].
    + exists c'. rewrite lookup_insert_eq. split_and!; try done; [lia|..].
      * intros Hs. unfold registered in Hr'. by rewrite Hs in Hr'.
      * intros _. unfold placed. cbn [poller channels_ pollfds_ with_pollfds]. rewrite Ec3, Efd.
        split; [done|]. split; [done|]. exists pfd'. by rewrite list_lookup_insert_eq.
    + intros Hb. destruct (rf_obj _ _ R b vb Hb) as (cb & Hcb & ? & ? & ? & ? & ? & Hplb).
      exists cb. rewrite lookup_insert_ne by done. split_and!; [done..|].
      intros Hrb. specialize (Hplb Hrb). pose proof Hplb as (? & ? & q & Hq & ?).
      split; [done|]. split; [done|]. exists q. split; [|done].
      cbn [poller pollfds_ with_pollfds]. rewrite list_lookup_insert_ne; [done|].
      intros E2. apply E. eapply (refines_slot_inj reg w a b); eauto. lia.
  - intros fd b Hb. destruct (rf_map _ _ R _ _ Hb) as (vb & Hvb & Ef & Rb).
    rewrite lookup_insert. case_decide as E; [|by exists vb]. subst b.
    exists v'. split; [done|]. split; [|done]. congruence.
  - intros i q Hq. apply list_lookup_insert_Some in Hq as [(<- & <- & _)|[Hne Hq]].
    + exists a, c'. rewrite lookup_insert_eq. split; [|split; [done|lia]].
      rewrite (real_fd_entry v') by (try done; lia). by rewrite Efd.
    + destruct (rf_slot _ _ R _ _ Hq) as (b & cb & Hb & Hcb & Eb). exists b, cb.
      split; [done|]. rewrite lookup_insert_ne; [done|]. intros <-.
      assert (cb = c) as -> by congruence. lia.
  - rewrite length_insert. apply (rf_size _ _ R).
Qed.

(** Changing the interest of a registered channel rewrites its entry. *)
Lemma setInterest_registered f cur reg w a v :
  refines reg w -> cur = ownerThread (poller w) -> Z.of_nat (size reg) < 2 ^ 31 - 1 ->
  reg !! a = Some v -> registered v = true -> small_events (f (v_events v)) ->
  returns (setInterest f cur a w) (fun w' =>
    refines (<[a := mkv (v_fd v) (f (v_events v))
                      (if f (v_events v) =? 0 then Muted else v_status v)]> reg) w' /\
    ownerThread (poller w') = ownerThread (poller w)).
Proof.
  intros R -> Hsz Ha Hr Hf. pose proof (refines_size _ _ R) as Hlen.
  destruct (rf_obj _ _ R a v Ha) as (c & Hc & Efd & Eev & Hfd & Hsm & _ & Hpl).
  destruct (Hpl Hr) as (Hi & Hm & pfd & Hp & Hev & Hpf).
  pose proof (lookup_lt_Some _ _ _ Hp) as Hlt.
  unfold setInterest, deref. rewrite Hc, bind_Ret. unfold updateChannel, assertInLoopThread.
  cbn [poller heap]. rewrite Z.eqb_refl, bind_Ret. unfold deref. cbn [heap].
  rewrite lookup_insert_eq, bind_Ret. cbn [Channel.index_ Channel.set_events Channel.fd_ Channel.events_].
  rewrite (proj2 (Z.ltb_ge _ _)) by lia. rewrite Efd, Eev, Hm.
  rewrite check_bind by (apply bool_decide_eq_true; eauto).
  rewrite check_bind by (by apply bool_decide_eq_true).
  rewrite s32_id by (unfold zlen; lia).
  rewrite check_bind by (unfold zlen; bools; lia).
  rewrite Hp, check_bind by (rewrite Hpf; bools; destruct (v_status v); lia).
  rewrite s16_id by done. cbn [returns poller ownerThread with_pollfds]. split; [|done].
  eapply (refines_update reg w a v); eauto; cbn [v_fd v_status v_events Channel.fd_ Channel.events_ Channel.set_events Channel.index_].
  - unfold registered in *. cbn [v_status]. by destruct (_ =? _).
  - split; cbn [pfd_events v_events pfd_fd v_status v_fd]; [done|]. unfold Channel.isNoneEvent, Channel.kNoneEvent.
    cbn [Channel.events_ Channel.set_events]. rewrite Hpf. by destruct (_ =? 0).
Qed.

Lemma pop_back_lookup l i x :
  pop_back l !! i = Some x <-> l !! i = Some x /\ (i < length l - 1)%nat.
Proof. unfold pop_back. apply lookup_take_Some. Qed.

(** What is left of the map when the descriptor of [a] is erased. *)
Lemma refines_erase reg w a v : refines reg w -> reg !! a = Some v -> registered v = true ->
  forall fd b, delete (v_fd v) (channels_ (poller w)) !! fd = Some b <->
    channels_ (poller w) !! fd = Some b /\ b <> a.
Proof.
  intros R Ha Hr fd b. destruct (rf_obj _ _ R a v Ha) as (c & _ & _ & _ & _ & _ & _ & Hpl).
  destruct (Hpl Hr) as (_ & Hm & _). rewrite lookup_delete_Some. split.
  - intros [Hne Hb]. split; [done|]. intros ->.
    destruct (rf_map _ _ R _ _ Hb) as (v' & Hv' & E & _). congruence.
  - intros [Hb Hne]. split; [|done]. intros E. rewrite <- E in Hb. congruence.
Qed.

(** Removing a channel: the other channels keep an entry, at the slot [move]
    sends theirs to. *)
Lemma refines_remove reg w a v h' l' :
  refines reg w -> reg !! a = Some v -> registered v = true ->
  (exists c, h' !! a = Some c /\ Channel.fd_ c = v_fd v /\ Channel.events_ c = v_events v) ->
  (forall b cb, b <> a -> heap w !! b = Some cb -> exists cb', h' !! b = Some cb' /\
     Channel.fd_ cb' = Channel.fd_ cb /\ Channel.events_ cb' = Channel.events_ cb /\
     (Channel.index_ cb < 0 -> Channel.index_ cb' < 0) /\
     (0 <= Channel.index_ cb -> 0 <= Channel.index_ cb' /\ forall p,
       pollfds_ (poller w) !! Z.to_nat (Channel.index_ cb) = Some p ->
       channels_ (poller w) !! real_fd (pfd_fd p) = Some b ->
       l' !! Z.to_nat (Channel.index_ cb') = Some p)) ->
  (forall i p, l' !! i = Some p -> exists b c, b <> a /\
     channels_ (poller w) !! real_fd (pfd_fd p) = Some b /\
     h' !! b = Some c /\ Channel.index_ c = Z.of_nat i) ->
  length l' = (length (pollfds_ (poller w)) - 1)%nat ->
  refines (<[a := mkv (v_fd v) (v_events v) Removed]> reg)
    (mkw h' (mk (ownerThread (poller w)) l' (delete (v_fd v) (channels_ (poller w))))).
Proof.
  intros R Ha Hr (ca & Hca & Ec1 & Ec2) Hkeep Hslot Hlen.
  pose proof (refines_erase _ _ _ _ R Ha Hr) as Her.
  destruct (rf_obj _ _ R a v Ha) as (c & Hc & _ & _ & Hfd & Hsm & _ & Hpl).
  split; cbn [heap poller pollfds_ channels_].
  - intros b vb. rewrite lookup_insert. case_decide as E; [intros [= <-]; subst b|].
    + exists ca. by split_and!.
    + intros Hb. destruct (rf_obj _ _ R b vb Hb) as (cb & Hcb & ? & ? & Hfb & ? & Hfr & Hplb).
      destruct (Hkeep b cb) as (cb' & Hcb' & ? & ? & Hneg & Hpos); [done..|].
      exists cb'. split_and!; [done|congruence|congruence|done|done|auto|].
      intros Hrb. destruct (Hplb Hrb) as (Hi & Hm & p & Hp & Hent).
      destruct (Hpos Hi) as [Hi' Hmove]. split; [done|]. cbn [poller channels_ pollfds_].
      split; [by apply Her|]. exists p. split; [|done].
      apply Hmove; [done|]. by rewrite (real_fd_entry vb).
  - intros fd b [Hb Hne]%Her. destruct (rf_map _ _ R _ _ Hb) as (vb & Hvb & ? & ?).
    exists vb. by rewrite lookup_insert_ne.
  - intros i p Hp. destruct (Hslot i p Hp) as (b & cb & Hne & Hm & Hcb & Ei).
    exists b, cb. split; [by apply Her|done].
  - destruct (Hpl Hr) as (_ & Hm & _). rewrite map_size_delete_Some by eauto. rewrite Hlen.
    rewrite (rf_size _ _ R). lia.
Qed.

(** Every entry is held by one channel: an entry at another slot than [a]'s
    belongs to another channel. *)
Lemma refines_slot_owner reg w a c i p : refines reg w -> heap w !! a = Some c ->
  pollfds_ (poller w) !! i = Some p -> Channel.index_ c <> Z.of_nat i ->
  exists b cb, b <> a /\ channels_ (poller w) !! real_fd (pfd_fd p) = Some b /\
    heap w !! b = Some cb /\ Channel.index_ cb = Z.of_nat i.
Proof.
  intros R Hc Hp Hne. destruct (rf_slot _ _ R i p Hp) as (b & cb & ? & ? & ?).
  exists b, cb. split_and!; [|done..]. intros ->. congruence.
Qed.

Lemma refines_other_slot w a v c b i p : placed w a v c -> 0 <= v_fd v ->
  pollfds_ (poller w) !! i = Some p -> channels_ (poller w) !! real_fd (pfd_fd p) = Some b ->
  b <> a -> i <> Z.to_nat (Channel.index_ c).
Proof.
  intros (_ & Hm & pfd & Hp & Hent) Hfd Hpi Hb Hne ->. apply Hne.
  assert (p = pfd) as -> by congruence. rewrite (real_fd_entry v) in Hb by done. congruence.
Qed.

Lemma remove_ok cur reg w a fd :
  refines reg w -> cur = ownerThread (poller w) -> Z.of_nat (size reg) < 2 ^ 31 - 1 ->
  reg !! a = Some (mkv fd 0 Muted) ->
  returns (remove cur a w) (fun w' =>
    refines (<[a := mkv fd 0 Removed]> reg) w' /\
    ownerThread (poller w') = ownerThread (poller w)).
Proof.
  intros R -> Hsz Ha. pose proof (refines_size _ _ R) as Hlen.
  destruct (rf_obj _ _ R a _ Ha) as (c & Hc & Efd & Eev & Hfd & _ & _ & Hpl).
  destruct (Hpl eq_refl) as (Hi & Hm & pfd & Hp & Hev & Hpf).
  cbn [v_fd v_events v_status] in *. pose proof (lookup_lt_Some _ _ _ Hp) as Hlt.
  unfold remove, deref. rewrite Hc, bind_Ret.
  unfold Channel.isNoneEvent. rewrite Eev. rewrite check_bind by done.
  unfold removeChannel, assertInLoopThread.
  cbn [poller heap]. rewrite Z.eqb_refl, bind_Ret. unfold deref. cbn [heap].
  rewrite lookup_insert_eq, bind_Ret. unfold Channel.isNoneEvent.
  cbn [Channel.index_ Channel.set_added Channel.fd_ Channel.events_].
  rewrite Efd, Eev, Hm. rewrite check_bind by (apply bool_decide_eq_true; eauto).
  rewrite check_bind by (by apply bool_decide_eq_true). rewrite check_bind by done.
  rewrite s32_id by (unfold zlen; lia).
  rewrite check_bind by (unfold zlen; bools; lia).
  rewrite Hp, check_bind by (rewrite Hpf, Hev; bools; lia).
  destruct (_ =? _ - 1) eqn:Hlast.
  - apply Z.eqb_eq in Hlast. unfold zlen in Hlast. cbn [returns poller ownerThread]. split; [|done].
    eapply (refines_remove reg w a (mkv fd 0 Muted)); [done..| | | |].
    + eexists. rewrite lookup_insert_eq. by split.
    + intros b cb Hne Hcb. exists cb. rewrite lookup_insert_ne by done. split_and!; [done..|].
      intros Hb. split; [done|]. intros p Hpb Hmb. apply pop_back_lookup. split; [done|].
      pose proof (refines_other_slot _ a _ c b _ p (Hpl eq_refl) Hfd Hpb Hmb Hne).
      pose proof (lookup_lt_Some _ _ _ Hpb). lia.
    + intros i p [Hpi Hi']%pop_back_lookup.
      destruct (refines_slot_owner _ _ a c _ _ R Hc Hpi) as (b & cb & ? & ? & ? & ?); [lia|].
      exists b, cb. by rewrite lookup_insert_ne.
    + unfold pop_back. rewrite length_take. lia.
  - apply Z.eqb_neq in Hlast. unfold zlen in Hlast.
    destruct (lookup_lt_is_Some_2 (pollfds_ (poller w)) (length (pollfds_ (poller w)) - 1)) as [back Hb];
      [lia|].
    rewrite Hb. destruct (refines_slot_owner _ _ a c _ _ R Hc Hb) as (b & cb & Hne & Hmb & Hcb & Eb); [lia|].
    fold (real_fd (pfd_fd back)).
    assert (delete fd (channels_ (poller w)) !! real_fd (pfd_fd back) = Some b) as ->
      by exact (proj2 (refines_erase _ _ _ _ R Ha eq_refl _ _) (conj Hmb Hne)).
    rewrite lookup_insert_ne, Hcb, bind_Ret by done. cbn [returns poller ownerThread]. split; [|done].
    eapply (refines_remove reg w a (mkv fd 0 Muted)); [done..| | | |].
    + eexists. rewrite lookup_insert_ne, lookup_insert_eq by done. by split.
    + intros b' cb' Hne' Hcb'. rewrite lookup_insert. case_decide as E.
      * subst b'. assert (cb' = cb) as -> by congruence. eexists. split_and!; [done..|lia|].
        intros _. split; [done|]. intros p Hpb _. apply pop_back_lookup.
        cbn [Channel.index_ Channel.set_index]. rewrite length_insert, list_lookup_insert_eq by lia.
        rewrite Eb, Nat2Z.id in Hpb. split; [congruence|lia].
      * exists cb'. rewrite lookup_insert_ne by done. split_and!; [done..|].
        intros Hi'. split; [done|]. intros p Hpb Hmb'. apply pop_back_lookup.
        pose proof (refines_other_slot _ a _ c b' _ p (Hpl eq_refl) Hfd Hpb Hmb' Hne').
        rewrite length_insert, list_lookup_insert_ne by done. split; [done|].
        pose proof (lookup_lt_Some _ _ _ Hpb).
        assert (Z.to_nat (Channel.index_ cb') <> length (pollfds_ (poller w)) - 1)%nat; [|lia].
        intros E2. rewrite E2, Hb in Hpb. injection Hpb as <-. congruence.
    + intros i p [Hpi Hi']%pop_back_lookup. rewrite length_insert in Hi'.
      apply list_lookup_insert_Some in Hpi as [(<- & <- & _)|[Hni Hpi]].
      * eexists b, _. rewrite lookup_insert_eq. split_and!; [done..|]. cbn [Channel.index_ Channel.set_index]. lia.
      * destruct (refines_slot_owner _ _ a c _ _ R Hc Hpi) as (b' & cb' & ? & ? & ? & ?); [lia|].
        exists b', cb'. rewrite !lookup_insert_ne; [done|done|]. intros ->. 
        assert (cb' = cb) as -> by congruence. lia.
    + unfold pop_back. rewrite length_take, length_insert. lia.
Qed.

Lemma spec_interest_ok f cur reg reg' w a :
  f ∈ [Channel.enableReading_ev; Channel.enableWriting_ev; Channel.disableWriting_ev;
       Channel.disableAll_ev] ->
  refines reg w -> cur = ownerThread (poller w) -> Z.of_nat (size reg) < 2 ^ 31 - 1 ->
  spec_interest f a reg = Some reg' ->
  returns (setInterest f cur a w) (fun w' => refines reg' w' /\
    ownerThread (poller w') = ownerThread (poller w)).
Proof.
  intros Hin R Hcur Hsz. unfold spec_interest. destruct (reg !! a) as [v|] eqn:Ha; [|done].
  assert (small_events (f (v_events v))) as Hf.
  { apply interest_small; [done|]. by destruct (rf_obj _ _ R a v Ha) as (? & _ & _ & _ & _ & ? & _). }
  destruct (v_status v) eqn:Hst; [|intros [= <-]..|done].
  - destruct (fd_used _ _) eqn:Hu; [done|intros [= <-]]. by apply setInterest_fresh.
  - rewrite <- Hst. apply setInterest_registered; try done. unfold registered. by rewrite Hst.
  - replace Muted with (if f (v_events v) =? 0 then Muted else v_status v) by (rewrite Hst; by destruct (_ =? _)).
    apply setInterest_registered; try done. unfold registered. by rewrite Hst.
Qed.

Lemma registry_exec_refines cur o reg reg' w :
  refines reg w -> cur = ownerThread (poller w) -> Z.of_nat (size reg) < 2 ^ 31 - 1 ->
  spec o reg = Some reg' ->
  returns (exec cur o w) (fun w' => refines reg' w' /\
    ownerThread (poller w') = ownerThread (poller w)).
Proof.
  intros R Hcur Hsz. destruct o; cbn [spec exec]; try (apply spec_interest_ok; [set_solver|done..]).
  destruct (reg !! a) as [[fd ev st]|] eqn:Ha; [|done]. destruct ev, st; try done.
  intros [= <-]. by apply remove_ok.
Qed.

Lemma spec_size o reg reg' : spec o reg = Some reg' -> size reg' = size reg.
Proof.
  assert (forall a v v', reg !! a = Some v -> size (<[a := v']> reg) = size reg) as H
    by (intros; rewrite map_size_insert_Some; eauto).
  assert (forall f a, spec_interest f a reg = Some reg' -> size reg' = size reg) as Hi.
  { intros f a. unfold spec_interest. destruct (reg !! a) as [v|] eqn:Ha; [|done].
    destruct (v_status v); [destruct (fd_used _ _)|..]; intros E; try done; injection E as <-; eauto. }
  destruct o; cbn; eauto. destruct (reg !! a) as [[fd [] []]|] eqn:Ha; try done. intros [= <-]. eauto.
Qed.

Lemma run_refines cur ops : forall reg reg' w,
  refines reg w -> cur = ownerThread (poller w) -> Z.of_nat (size reg) < 2 ^ 31 - 1 ->
  run_spec ops reg = Some reg' ->
  returns (run cur ops w) (fun w' => refines reg' w').
Proof.
  induction ops as [|o ops IH]; intros reg reg' w R Hcur Hsz; cbn [run run_spec].
  - by intros [= <-].
  - intros H. apply bind_Some in H as (reg1 & Ho & Hr).
    eapply returns_seq; [by eapply registry_exec_refines|]. intros w1 [R1 E1].
    eapply IH; [done|congruence| |done]. by rewrite (spec_size _ _ _ Ho).
Qed.

(** Constructed channels, not yet registered. *)
Definition fresh_view (fd : Z) : view := mkv fd 0 Fresh.

Lemma refines_initial (fds : gmap addr Z) owner : map_Forall (fun _ fd => 0 <= fd) fds ->
  refines (fresh_view <$> fds) (mkw (Channel.Channel <$> fds) (Poller owner)).
Proof.
  intros Hfd. split; cbn [heap poller pollfds_ channels_ Poller].
  - intros a v. rewrite !lookup_fmap. intros (fd & Ha & ->)%fmap_Some. rewrite Ha.
    eexists. split; [done|]. split_and!; try done. by apply (Hfd a).
  - intros fd a. by rewrite lookup_empty.
  - intros i p. by rewrite lookup_nil.
  - done.
Qed.

(** The entry of a watched channel is the one poll(2) may report. *)
Definition reported (chans : gmap Z addr) (p : pollfd) : option addr :=
  if 0 <? pfd_revents p then chans !! pfd_fd p else None.

Definition events_ready (pfds : list pollfd) : Z :=
  zlen (List.filter (fun p => 0 <? pfd_revents p) pfds).

Lemma events_ready_0 chans pfds : events_ready pfds = 0 -> omap (reported chans) pfds = [].
Proof.
  induction pfds as [|p pfds IH]; [done|]. unfold events_ready, reported in *. cbn.
  destruct (0 <? pfd_revents p)%Z; [unfold zlen; cbn; lia|apply IH].
Qed.

Lemma fillActiveChannels_ok pfds : forall n w,
  n = events_ready pfds -> NoDup (map pfd_fd pfds) ->
  (forall p, p ∈ pfds -> 0 < pfd_revents p -> exists ch c,
     channels_ (poller w) !! pfd_fd p = Some ch /\ heap w !! ch = Some c /\
     Channel.fd_ c = pfd_fd p) ->
  returns (fillActiveChannels n pfds w) (fun '(active, w') =>
    active = omap (reported (channels_ (poller w))) pfds /\ NoDup active /\ poller w' = poller w /\
    (forall a, a ∉ active -> heap w' !! a = heap w !! a) /\
    (forall a p, p ∈ pfds -> reported (channels_ (poller w)) p = Some a ->
       heap w' !! a = Channel.set_revents (pfd_revents p) <$> heap w !! a)).
Proof.
  induction pfds as [|p pfds IH]; intros n w Hn Hnd Hch.
  - cbn. split_and!; try done; [constructor|]. intros a p Hp. by apply elem_of_nil in Hp.
  - cbn [map] in Hnd. apply list.NoDup_cons in Hnd as [Hnew Hnd].
    assert (events_ready (p :: pfds) = (if (0 <? pfd_revents p)%Z then 1 else 0) + events_ready pfds) as E.
    { unfold events_ready. cbn [List.filter]. destruct (0 <? _)%Z; [by rewrite zlen_cons|lia]. }
    assert (0 <= events_ready pfds) as Hpos by (unfold events_ready, zlen; lia).
    cbn [fillActiveChannels omap list_omap]. unfold reported at 1 3. rewrite E in Hn. clear E.
    destruct (0 <? pfd_revents p)%Z eqn:Hr.
    + rewrite (proj2 (Z.ltb_lt 0 n)) by lia. apply Z.ltb_lt in Hr.
      destruct (Hch p) as (ch & c & Hm & Hc & Efd); [set_solver|done|].
      rewrite Hm. unfold deref. rewrite Hc, bind_Ret, check_bind by (by apply Z.eqb_eq).
      set (w1 := mkw _ _).
      eapply returns_seq; [apply (IH (n - 1) w1); [lia|done|]|].
      * intros q Hq Hqr. destruct (Hch q) as (ch' & c' & Hm' & Hc' & Efd'); [set_solver|done|].
        exists ch', c'. cbn [poller heap w1]. split; [done|]. rewrite lookup_insert_ne; [done|].
        intros <-. apply Hnew, list_elem_of_In, in_map_iff. exists q.
        split; [congruence|by apply list_elem_of_In].
      * intros [active w'] (-> & Hndr & Ep & Hother & Hset). cbn [poller w1] in *. cbn [returns].
        assert (ch ∉ omap (reported (channels_ (poller w))) pfds) as Hni.
        { rewrite list_elem_of_omap. intros (q & Hq & Hrq). unfold reported in Hrq.
          destruct (0 <? pfd_revents q) eqn:Hqr; [|done]. apply Z.ltb_lt in Hqr.
          destruct (Hch q) as (ch' & c' & Hm' & Hc' & Efd'); [set_solver|done|].
          apply Hnew, list_elem_of_In, in_map_iff. exists q. split; [congruence|by apply list_elem_of_In]. }
        split_and!; [done|by constructor|done| |].
        -- intros a Ha. rewrite Hother by set_solver. apply lookup_insert_ne. set_solver.
        -- intros a q Hq Hrep. apply elem_of_cons in Hq as [->|Hq].
           ++ unfold reported in Hrep. rewrite (proj2 (Z.ltb_lt _ _)) in Hrep by done.
              assert (a = ch) as -> by congruence. rewrite Hother by done. cbn [heap w1].
              by rewrite lookup_insert_eq, Hc.
           ++ rewrite (Hset a q) by done. cbn [heap w1]. rewrite lookup_insert_ne; [done|].
              intros <-. apply Hni, list_elem_of_omap. eauto.
    + assert (forall q a, q ∈ p :: pfds -> reported (channels_ (poller w)) q = Some a -> q ∈ pfds) as Hin.
      { intros q a Hq Hrep. apply elem_of_cons in Hq as [->|Hq]; [|done].
        unfold reported in Hrep. by rewrite Hr in Hrep. }
      destruct (0 <? n)%Z eqn:Hn0.
      * eapply returns_mono; [|apply (IH n w); [lia|done|]].
        { intros [active w'] (-> & Hndr & Ep & Hother & Hset). split_and!; try done. eauto. }
        { intros q Hq. apply Hch. set_solver. }
      * cbn [returns]. apply Z.ltb_ge in Hn0. assert (events_ready pfds = 0) as E0 by lia.
        split_and!; [|constructor|done|done|].
        -- symmetry. exact (events_ready_0 _ _ E0).
        -- intros a q Hq Hrep. apply (Hin _ _ Hq) in Hrep as Hq'. exfalso.
           assert (a ∈ omap (reported (channels_ (poller w))) pfds) as Ha by (apply list_elem_of_omap; eauto).
           rewrite events_ready_0 in Ha by done. by apply elem_of_nil in Ha.
Qed.

(** poll(2): one answer per entry, none for an entry with a negative descriptor,
    and the number of entries that have something to report. *)
Record kernel_poll (pfds : list pollfd) (numEvents : Z) (revents : list Z) : Prop := {
  kp_len : length revents = length pfds;
  kp_count : numEvents = zlen (List.filter (fun r => 0 <? r) revents);
  kp_ignored i p : pfds !! i = Some p -> pfd_fd p < 0 -> revents !! i = Some 0
}.

Definition answer (pfd : pollfd) (r : Z) : pollfd := mkpfd (pfd_fd pfd) (pfd_events pfd) r.

Lemma refines_fds_nodup reg w : refines reg w -> NoDup (map pfd_fd (pollfds_ (poller w))).
Proof.
  intros R. apply NoDup_alt. intros i j fd. change (map pfd_fd (pollfds_ (poller w))) with (pfd_fd <$> pollfds_ (poller w)).
  rewrite !list_lookup_fmap. intros (p & Hp & ->)%fmap_Some (q & Hq & E)%fmap_Some.
  destruct (rf_slot _ _ R _ _ Hp) as (a & ca & Ha & Hca & Ei).
  destruct (rf_slot _ _ R _ _ Hq) as (b & cb & Hb & Hcb & Ej).
  rewrite E in Ha. assert (a = b) as -> by congruence. assert (ca = cb) as -> by congruence. lia.
Qed.

Lemma map_fd_answer pfds revents : length revents = length pfds ->
  map pfd_fd (zip_with answer pfds revents) = map pfd_fd pfds.
Proof.
  revert revents. induction pfds as [|p pfds IH]; intros [|r rs]; cbn; intros; try done.
  f_equal. apply IH. lia.
Qed.

Lemma events_ready_answer pfds revents : length revents = length pfds ->
  events_ready (zip_with answer pfds revents) = zlen (List.filter (fun r => 0 <? r) revents).
Proof.
  unfold events_ready. revert revents.
  induction pfds as [|p pfds IH]; intros [|r rs]; cbn; intros; try done.
  destruct (0 <? r); [rewrite !zlen_cons|]; rewrite IH by lia; done.
Qed.

Lemma elem_of_answer pfds revents p : p ∈ zip_with answer pfds revents <->
  exists i q r, pfds !! i = Some q /\ revents !! i = Some r /\ p = answer q r.
Proof.
  rewrite list_elem_of_lookup. setoid_rewrite lookup_zip_with_Some. naive_solver.
Qed.

(** poll(2) answers keep the registry. *)
Lemma refines_answer reg w revents : refines reg w ->
  length revents = length (pollfds_ (poller w)) ->
  refines reg (mkw (heap w) (with_pollfds (zip_with answer (pollfds_ (poller w)) revents) (poller w))).
Proof.
  intros R Hlen. split; cbn [heap poller pollfds_ channels_ with_pollfds].
  - intros a v Ha. destruct (rf_obj _ _ R a v Ha) as (c & Hc & ? & ? & ? & ? & ? & Hpl).
    exists c. split_and!; try done. intros Hr. destruct (Hpl Hr) as (? & ? & p & Hp & Hent).
    split; [done|]. split; [done|]. cbn [poller pollfds_ with_pollfds].
    destruct (lookup_lt_is_Some_2 revents (Z.to_nat (Channel.index_ c))) as [r Hr'].
    { rewrite Hlen. by eapply lookup_lt_Some. }
    exists (answer p r). rewrite lookup_zip_with, Hp. cbn. by rewrite Hr'.
  - apply (rf_map _ _ R).
  - intros i p. rewrite lookup_zip_with_Some. intros (q & r & -> & Hq & _). apply (rf_slot _ _ R _ _ Hq).
  - rewrite length_zip_with, Hlen, Nat.min_id. apply (rf_size _ _ R).
Qed.

(** Only [revents_] changes in the channels. *)
Lemma refines_revents reg w h' : refines reg w ->
  (forall a c, heap w !! a = Some c -> exists r, h' !! a = Some (Channel.set_revents r c)) ->
  refines reg (mkw h' (poller w)).
Proof.
  intros R Hh. split; cbn [heap poller].
  - intros a v Ha. destruct (rf_obj _ _ R a v Ha) as (c & Hc & ? & ? & ? & ? & ? & Hpl).
    destruct (Hh a c Hc) as [r Hr]. exists (Channel.set_revents r c). by split_and!.
  - apply (rf_map _ _ R).
  - intros i p Hp. destruct (rf_slot _ _ R i p Hp) as (a & c & Ha & Hc & E).
    destruct (Hh a c Hc) as [r Hr]. by exists a, (Channel.set_revents r c).
  - apply (rf_size _ _ R).
Qed.

Lemma poll_fill n revents w : poll n revents w =
  fillActiveChannels n (zip_with answer (pollfds_ (poller w)) revents)
    (mkw (heap w) (with_pollfds (zip_with answer (pollfds_ (poller w)) revents) (poller w))).
Proof.
  unfold poll. fold answer. set (l := zip_with _ _ _). destruct (0 <? n) eqn:E; [done|].
  destruct l; cbn; by rewrite ?E.
Qed.

(** An entry with something to report belongs to a watched channel. *)
Lemma refines_reported reg w n revents i p r :
  refines reg w -> kernel_poll (pollfds_ (poller w)) n revents ->
  pollfds_ (poller w) !! i = Some p -> revents !! i = Some r -> 0 < r ->
  exists a v c, reg !! a = Some v /\ v_status v = Polled /\ heap w !! a = Some c /\
    Channel.index_ c = Z.of_nat i /\ Channel.fd_ c = pfd_fd p /\
    channels_ (poller w) !! pfd_fd p = Some a.
Proof.
  intros R K Hp Hr Hpos.
  assert (0 <= pfd_fd p) as Hge.
  { destruct (Z.lt_ge_cases (pfd_fd p) 0) as [Hneg|]; [|done].
    pose proof (kp_ignored _ _ _ K _ _ Hp Hneg). assert (r = 0) by congruence. lia. }
  destruct (rf_slot _ _ R _ _ Hp) as (a & c & Ha & Hc & Ei).
  unfold real_fd in Ha. rewrite (proj2 (Z.ltb_ge _ _)) in Ha by done.
  destruct (rf_map _ _ R _ _ Ha) as (v & Hv & Efd & Hreg). exists a, v, c.
  destruct (rf_obj _ _ R _ _ Hv) as (c' & Hc' & Ec & _ & Hfd & _ & _ & Hpl).
  assert (c' = c) as -> by congruence. destruct (Hpl Hreg) as (_ & _ & q & Hq & _ & Eq).
  rewrite Ei, Nat2Z.id, Hp in Hq. injection Hq as <-.
  split_and!; try done; [|congruence]. unfold registered in Hreg. destruct (v_status v); try done. lia.
Qed.

Lemma reported_answer chans pfds revents a :
  a ∈ omap (reported chans) (zip_with answer pfds revents) <->
  exists i q r, pfds !! i = Some q /\ revents !! i = Some r /\ 0 < r /\ chans !! pfd_fd q = Some a.
Proof.
  rewrite list_elem_of_omap. setoid_rewrite elem_of_answer. unfold reported. split.
  - intros (? & (i & q & r & Hq & Hr & ->) & Hrep). cbn [pfd_revents answer pfd_fd] in Hrep.
    destruct (0 <? r) eqn:Hpos; [|done]. bools. naive_solver.
  - intros (i & q & r & Hq & Hr & Hpos & Ha). exists (answer q r). split; [naive_solver|].
    cbn. by rewrite (proj2 (Z.ltb_lt _ _)).
Qed.

(** C8. The poll(2) registry is implemented faithfully.  Start from any set of
    constructed channels with distinct addresses and an empty [Poller], and perform
    any sequence of [enableReading], [enableWriting], [disableWriting], [disableAll]
    and [remove] the registry specification allows: no assertion of
    [Poller::updateChannel] or [Poller::removeChannel] fails, and afterwards
    [pollfds_], [channels_] and the channels' [index_] represent exactly the
    registry, whatever slots the swaps of [removeChannel] moved the entries to. *)
Theorem poller_registry (fds : gmap addr Z) (owner : Z) (ops : list op) (reg : gmap addr view)
    (Hfd : map_Forall (fun _ fd => 0 <= fd) fds)
    (Hsize : Z.of_nat (size fds) < 2 ^ 31 - 1)
    (Hspec : run_spec ops (fresh_view <$> fds) = Some reg) :
  returns (run owner ops (mkw (Channel.Channel <$> fds) (Poller owner))) (fun w => refines reg w).
Proof.
  eapply run_refines; [by apply refines_initial|done| |done]. by rewrite map_size_fmap.
Qed.

Definition demo_fds : gmap addr Z := {[ 1%positive := 5; 2%positive := 7; 3%positive := 9 ]}.
Definition demo_ops : list op :=
  [EnableReading 1; EnableReading 2; EnableReading 3; EnableWriting 3; DisableAll 1; Remove 1;
   DisableWriting 3].
Definition demo_reg : gmap addr view :=
  {[ 1%positive := mkv 5 0 Removed; 2%positive := mkv 7 3 Polled; 3%positive := mkv 9 3 Polled ]}.

Lemma poller_registry_witness :
  returns (run 1 demo_ops (mkw (Channel.Channel <$> demo_fds) (Poller 1)))
    (fun w => refines demo_reg w).
Proof.
  apply (poller_registry demo_fds 1 demo_ops demo_reg).
  - apply (bool_decide_unpack _). vm_compute. exact I.
  - vm_compute. done.
  - vm_compute. done.
Defined.

(** [Poller::poll] reports exactly the channels that are watched and ready.
    Whenever the registry is represented and the kernel answers as poll(2) does
    (no answer for a negative descriptor, and the count of non-zero answers as its
    result), no assertion of [fillActiveChannels] fails, the budget [numEvents]
    never cuts a ready channel off, each ready channel is in [activeChannels] once
    with its [revents_] set, and nothing else changes. *)
Theorem poll_reports (reg : gmap addr view) (w : world) (numEvents : Z) (revents : list Z)
    (R : refines reg w) (K : kernel_poll (pollfds_ (poller w)) numEvents revents) :
  returns (poll numEvents revents w) (fun '(active, w') =>
    refines reg w' /\ NoDup active /\
    (forall a, a ∈ active <-> exists v c r, reg !! a = Some v /\ v_status v = Polled /\
       heap w !! a = Some c /\ revents !! Z.to_nat (Channel.index_ c) = Some r /\ 0 < r /\
       heap w' !! a = Some (Channel.set_revents r c)) /\
    (forall a, a ∉ active -> heap w' !! a = heap w !! a)).
Proof.
  rewrite poll_fill. pose proof (kp_len _ _ _ K) as Hlen. set (pfds := zip_with _ _ _).
  eapply returns_mono; [|apply (fillActiveChannels_ok pfds)]; cbn [poller heap channels_ with_pollfds].
  2: by rewrite (kp_count _ _ _ K), <- (events_ready_answer (pollfds_ (poller w))).
  2: unfold pfds; rewrite map_fd_answer by done; by apply (refines_fds_nodup reg).
  2: { intros p Hp Hpos. apply elem_of_answer in Hp as (i & q & r & Hq & Hr & ->).
       destruct (refines_reported _ _ _ _ _ _ _ R K Hq Hr Hpos) as (a & v & c & ?). naive_solver. }
  intros [active w'] (Hact & Hnd & Ep & Hother & Hset).
  pose proof (reported_answer (channels_ (poller w)) (pollfds_ (poller w)) revents) as Hin.
  fold pfds in Hin. rewrite <- Hact in Hin.
  assert (forall a i q r, pollfds_ (poller w) !! i = Some q -> revents !! i = Some r -> 0 < r ->
    channels_ (poller w) !! pfd_fd q = Some a -> heap w' !! a = Channel.set_revents r <$> heap w !! a) as Hset'.
  { intros a i q r Hq Hr Hpos Ha. apply (Hset a (answer q r)).
    - apply elem_of_answer. eauto 6.
    - unfold reported. cbn. by rewrite (proj2 (Z.ltb_lt _ _)). }
  split_and!; [|done| |done].
  - destruct w' as [h' p']. cbn [poller heap] in *. subst p'.
    eapply (refines_revents reg (mkw _ _)); [by eapply refines_answer|]. cbn [heap]. intros a c Hc.
    destruct (decide (a ∈ active)) as [(i & q & r & Hq & Hr & Hpos & Ha)%Hin|Hna].
    + exists r. by rewrite (Hset' a i q r), Hc.
    + exists (Channel.revents_ c). rewrite Hother, Hc by done. by destruct c.
  - intros a. rewrite Hin. split.
    + intros (i & q & r & Hq & Hr & Hpos & Ha).
      destruct (refines_reported _ _ _ _ _ _ _ R K Hq Hr Hpos) as (a' & v & c & Hv & Hs & Hc & Ei & _ & Ha').
      assert (a' = a) as -> by congruence. exists v, c, r. rewrite Ei, Nat2Z.id.
      split_and!; try done. by rewrite (Hset' a i q r), Hc.
    + intros (v & c & r & Hv & Hs & Hc & Hr & Hpos & _).
      destruct (rf_obj _ _ R _ _ Hv) as (c' & Hc' & _ & _ & _ & _ & _ & Hpl).
      assert (c' = c) as -> by congruence. unfold registered in Hpl. rewrite Hs in Hpl.
      destruct (Hpl eq_refl) as (_ & Hm & q & Hq & _ & Eq). rewrite Hs in Eq.
      eexists _, q, r. split_and!; try done. by rewrite Eq.
Qed.

Definition demo_world : world :=
  match run 1 demo_ops (mkw (Channel.Channel <$> demo_fds) (Poller 1)) with
  | Ret w => w | Crash _ => mkw ∅ (Poller 1)
  end.

Lemma demo_refines : refines demo_reg demo_world.
Proof.
  assert (refines (fresh_view <$> demo_fds) (mkw (Channel.Channel <$> demo_fds) (Poller 1))) as R0.
  { apply refines_initial. apply (bool_decide_unpack _). vm_compute. exact I. }
  assert (run_spec demo_ops (fresh_view <$> demo_fds) = Some demo_reg) as Hs by (vm_compute; done).
  assert (Z.of_nat (size (fresh_view <$> demo_fds)) < 2 ^ 31 - 1) as Hz by (vm_compute; done).
  pose proof (run_refines 1 demo_ops _ _ _ R0 eq_refl Hz Hs) as H.
  unfold demo_world. by destruct (run _ _ _).
Qed.

Lemma poll_reports_witness :
  returns (poll 1 [0; 1] demo_world) (fun '(active, w') =>
    refines demo_reg w' /\ NoDup active /\
    (forall a, a ∈ active <-> exists v c r, demo_reg !! a = Some v /\ v_status v = Polled /\
       heap demo_world !! a = Some c /\ [0; 1] !! Z.to_nat (Channel.index_ c) = Some r /\ 0 < r /\
       heap w' !! a = Some (Channel.set_revents r c)) /\
    (forall a, a ∉ active -> heap w' !! a = heap demo_world !! a)).
Proof.
  apply (poll_reports demo_reg demo_world 1 [0; 1]).
  - exact demo_refines.
  - split; [vm_compute; done..|]. intros i p Hp Hneg. exfalso.
    assert (pollfds_ (poller demo_world) = [mkpfd 9 3 0; mkpfd 7 3 0]) as E by (vm_compute; reflexivity).
    rewrite E in Hp. clear E. destruct i as [|[|i]]; cbn in Hp; [injection Hp as <-|injection Hp as <-|discriminate Hp];
      discriminate Hneg.
Defined.

(** [updateChannel] never puts the descriptor back: a channel that asks for events
    again after [disableAll] keeps its negative entry, which poll(2) ignores. *)
Lemma reenabled_channel_stays_muted :
  returns (run 1 [EnableReading 1; DisableAll 1; EnableReading 1]
             (mkw (Channel.Channel <$> demo_fds) (Poller 1)))
    (fun w => pollfds_ (poller w) = [mkpfd (-6) 3 0]).
Proof. vm_compute. done. Qed.

(** A channel whose first registration is [disableAll] (what ~Acceptor does when
    [listen] was never called) has an entry that is not muted, and [remove] asserts. *)
Lemma disableAll_first_breaks_remove :
  run 1 [DisableAll 1; Remove 1] (mkw (Channel.Channel <$> demo_fds) (Poller 1)) = Crash AssertFailed.
Proof. vm_compute. done. Qed.

End Poller.
