(* ===== verification/Calendar.v ===== *)
(** * Date.h/.cc: dates of the Gregorian calendar as Julian day numbers

    [getJulianDayNumber] and [getYearMonthDay] are the two closed formulas of the
    source, in 32-bit [int] arithmetic.  The reference is the calendar itself:
    the lengths of months, the leap rule, and the day after a date. *)

From S2P Require Import Prelude.

Module Date.

Record YearMonthDay := ymd { year : Z; month : Z; day : Z }.

#[export] Instance YearMonthDay_eq_dec : EqDecision YearMonthDay.
Proof. solve_decision. Defined.

Definition kDaysPerWeek : Z := 7.

Definition getJulianDayNumber (year month day : Z) : outcome Z :=
  a ←ᵢ ((14 - month) / 12);
  y ←ᵢ (year + 4800 - a);
  m ←ᵢ (month + 12 * a - 3);
  int_eval (day + (153 * m + 2) / 5 + y * 365 + y / 4 - y / 100 + y / 400 - 32045).

Definition getYearMonthDay (julianDayNumber : Z) : outcome YearMonthDay :=
  a ←ᵢ (julianDayNumber + 32044);
  b ←ᵢ ((4 * a + 3) / 146097);
  c ←ᵢ (a - ((b * 146097) / 4));
  d ←ᵢ ((4 * c + 3) / 1461);
  e ←ᵢ (c - ((1461 * d) / 4));
  m ←ᵢ ((5 * e + 2) / 153);
  day ←ᵢ (e - ((153 * m + 2) / 5) + 1);
  month ←ᵢ (m + 3 - 12 * (m / 10));
  year ←ᵢ (b * 100 + d - 4800 + (m / 10));
  Ret (ymd year month day).

(** The class keeps the day number only. *)
Record t := Date { julianDayNumber_ : Z }.

Definition Date_invalid : t := Date 0.
Definition Date_of_ymd (y m d : Z) : outcome t :=
  j ← getJulianDayNumber y m d; Ret (Date j).
Definition valid (d : t) : bool := 0 <? julianDayNumber_ d.
Definition yearMonthDay (d : t) : outcome YearMonthDay := getYearMonthDay (julianDayNumber_ d).
Definition weekDay (d : t) : outcome Z := int_eval ((julianDayNumber_ d + 1) mod kDaysPerWeek).
Definition lt (x y : t) : bool := julianDayNumber_ x <? julianDayNumber_ y.

(** ** The calendar *)

Definition leap (y : Z) : bool :=
  (y mod 4 =? 0) && (negb (y mod 100 =? 0) || (y mod 400 =? 0)).

Definition days_in_month (y m : Z) : Z :=
  if m =? 2 then (if leap y then 29 else 28)
  else if (m =? 4) || (m =? 6) || (m =? 9) || (m =? 11) then 30 else 31.

Definition calendar_date (d : YearMonthDay) : Prop :=
  1 <= month d <= 12 /\ 1 <= day d <= days_in_month (year d) (month d).

Definition next_day (d : YearMonthDay) : YearMonthDay :=
  if day d <? days_in_month (year d) (month d) then ymd (year d) (month d) (day d + 1)
  else if month d <? 12 then ymd (year d) (month d + 1) 1
  else ymd (year d + 1) 1 1.

(** The years for which no intermediate [int] overflows and no division meets a
    negative number. *)
Definition supported (d : YearMonthDay) : Prop := -4799 <= year d <= 1400000.

(** The formula without overflow, and with flooring divisions. *)
Definition jdn (d : YearMonthDay) : Z :=
  let a := (14 - month d) / 12 in
  let y := year d + 4800 - a in
  let m := month d + 12 * a - 3 in
  day d + (153 * m + 2) / 5 + y * 365 + y / 4 - y / 100 + y / 400 - 32045.

(** ** Lemmas *)

Lemma quot_div x k : 0 <= x -> 0 < k -> Z.quot x k = x / k.
Proof. intros. apply Z.quot_div_nonneg; lia. Qed.

Lemma month_cases m : 1 <= m <= 12 ->
  m = 1 \/ m = 2 \/ m = 3 \/ m = 4 \/ m = 5 \/ m = 6 \/ m = 7 \/ m = 8 \/ m = 9 \/ m = 10 \/
  m = 11 \/ m = 12.
Proof. lia. Qed.

Lemma div_bounds x k : 0 < k -> k * (x / k) <= x < k * (x / k) + k.
Proof. intros. pose proof (Z.div_mod x k). pose proof (Z.mod_pos_bound x k). lia. Qed.

(** Evaluation of an [int] expression whose value is known to fit. *)
Ltac fits :=
  cbn [int_fits int_val]; unfold fits32;
  repeat match goal with |- _ /\ _ => split end; try lia.

Lemma month_shift m : 1 <= m <= 12 ->
  Z.quot (14 - m) 12 = (14 - m) / 12 /\ 0 <= (14 - m) / 12 <= 1 /\
  0 <= m + 12 * ((14 - m) / 12) - 3 <= 11.
Proof. intros H. apply month_cases in H. repeat destruct H as [->|H]; [..|subst]; vm_compute; repeat split; discriminate. Qed.

Lemma getJulianDayNumber_jdn d : 1 <= month d <= 12 -> 1 <= day d <= 31 -> supported d ->
  getJulianDayNumber (year d) (month d) (day d) = Ret (jdn d).
Proof.
  destruct d as [y m d]. unfold supported, getJulianDayNumber, jdn. cbn [year month day]. intros Hm Hd Hy.
  destruct (month_shift m Hm) as (Eq & Ha & Hs).
  rewrite int_bind by (fits; rewrite ?Eq; lia). cbn [int_val]. rewrite Eq.
  set (a := (14 - m) / 12) in *. clearbody a.
  rewrite int_bind by fits. cbn [int_val].
  rewrite int_bind by fits. cbn [int_val].
  set (y' := y + 4800 - a). set (m' := m + 12 * a - 3) in *.
  assert (0 <= y' <= 1404800) as Hy' by lia. clearbody y' m'.
  assert (forall k, 0 < k -> Z.quot y' k = y' / k /\ 0 <= y' / k <= 1404800) as Hq.
  { intros k Hk. rewrite quot_div by lia. split; [done|]. pose proof (div_bounds y' k Hk). nia. }
  destruct (Hq 4) as [E4 B4]; [lia|]. destruct (Hq 100) as [E100 B100]; [lia|].
  destruct (Hq 400) as [E400 B400]; [lia|].
  pose proof (quot_div (153 * m' + 2) 5) as E5. pose proof (div_bounds (153 * m' + 2) 5).
  rewrite int_eval_ok; cbn [int_val].
  - rewrite E4, E100, E400, E5 by lia. done.
  - fits; rewrite ?E4, ?E100, ?E400, ?E5 by lia; lia.
Qed.

(** In the year that starts in March, day [e] of year [y] of the 400-year scale. *)
Definition scale (y e : Z) : Z := y * 365 + y / 4 - y / 100 + y / 400 + e.

(** A day number has one position on the scale. *)
Lemma scale_inverse y e : 0 <= y -> 0 <= e <= 365 -> (e = 365 -> leap (y + 1) = true) ->
  let a := scale y e in
  let b := (4 * a + 3) / 146097 in
  let c := a - b * 146097 / 4 in
  let d := (4 * c + 3) / 1461 in
  b = y / 100 /\ 0 <= c <= 36524 /\ d = y mod 100 /\ c - 1461 * d / 4 = e.
Proof.
  intros Hy He Hleap. cbn zeta.
  assert (exists q r, y = 100 * q + r /\ 0 <= r < 100 /\ y / 100 = q /\ y mod 100 = r) as (q & r & Ey & Hr & Eq & Er).
  { exists (y / 100), (y mod 100). pose proof (Z.div_mod y 100). pose proof (Z.mod_pos_bound y 100). lia. }
  assert (exists k s, q = 4 * k + s /\ 0 <= s < 4 /\ q / 4 = k) as (k & s & Ek & Hs & Eqk).
  { exists (q / 4), (q mod 4). pose proof (Z.div_mod q 4). pose proof (Z.mod_pos_bound q 4). lia. }
  assert (exists u v, r = 4 * u + v /\ 0 <= v < 4 /\ r / 4 = u) as (u & v & Eu & Hv & Eru).
  { exists (r / 4), (r mod 4). pose proof (Z.div_mod r 4). pose proof (Z.mod_pos_bound r 4). lia. }
  assert (y / 4 = 25 * q + u) as E4 by (symmetry; apply (Z.div_unique y 4 _ v); lia).
  assert (y / 400 = k) as E400 by (symmetry; apply (Z.div_unique y 400 _ (100 * s + r)); lia).
  assert (e = 365 -> v = 3 /\ (r = 99 -> s = 3)) as Hl.
  { intros E. specialize (Hleap E). unfold leap in Hleap.
    rewrite !andb_true_iff, orb_true_iff, negb_true_iff, !Z.eqb_eq, Z.eqb_neq in Hleap.
    destruct Hleap as [H4 H100]. apply Z.mod_divide in H4 as [w Hw]; [|lia].
    split; [lia|]. intros ->. destruct H100 as [H100|H400].
    - exfalso. apply H100. apply Z.mod_divide; [lia|]. exists (q + 1). lia.
    - apply Z.mod_divide in H400 as [x Hx]; lia. }
  unfold scale. rewrite E4, E400, Eq.
  set (c := 365 * r + u + e).
  assert (0 <= c <= 36524 /\ (c = 36524 -> s = 3)) as [Hc Hc3] by (unfold c; lia).
  replace (y * 365 + (25 * q + u) - q + k + e) with (36524 * q + k + c) by (unfold c; lia).
  assert ((4 * (36524 * q + k + c) + 3) / 146097 = q) as ->.
  { symmetry. apply (Z.div_unique _ _ _ (4 * c + 3 - s)); lia. }
  assert (q * 146097 / 4 = 36524 * q + k) as ->.
  { symmetry. apply (Z.div_unique _ _ _ s); lia. }
  replace (36524 * q + k + c - (36524 * q + k)) with c by lia.
  assert ((4 * c + 3) / 1461 = r) as ->.
  { symmetry. apply (Z.div_unique _ _ _ (4 * e + 3 - v)); unfold c; lia. }
  assert (1461 * r / 4 = 365 * r + u) as ->.
  { symmetry. apply (Z.div_unique _ _ _ v); lia. }
  repeat split; lia.
Qed.

(** The March-based year, month and day of the year of a date. *)
Definition year' (d : YearMonthDay) : Z := year d + 4800 - (14 - month d) / 12.
Definition month' (d : YearMonthDay) : Z := month d + 12 * ((14 - month d) / 12) - 3.
Definition day' (d : YearMonthDay) : Z := (153 * month' d + 2) / 5 + day d - 1.

Lemma jdn_scale d : jdn d = scale (year' d) (day' d) - 32044.
Proof. unfold jdn, scale, day', year', month'. cbv zeta. lia. Qed.

Lemma calendar_date_scale d : calendar_date d ->
  0 <= day' d <= 365 /\ (day' d = 365 -> leap (year' d + 1) = true) /\
  (5 * day' d + 2) / 153 = month' d /\ 0 <= month' d <= 11 /\
  day' d - (153 * month' d + 2) / 5 + 1 = day d /\
  month' d + 3 - 12 * (month' d / 10) = month d /\
  year' d - 4800 + month' d / 10 = year d.
Proof.
  destruct d as [y m d]. unfold calendar_date, day', year', month', days_in_month. cbn [year month day].
  intros [Hm Hd]. apply month_cases in Hm.
  assert (leap (y + 4800) = leap y) as El.
  { unfold leap. by rewrite (Z.add_mod y 4800 4), (Z.add_mod y 4800 100), (Z.add_mod y 4800 400),
      !Z.add_0_r, !Z.mod_mod by lia. }
  repeat destruct Hm as [->|Hm]; [..|subst m];
    cbn -[Z.mul Z.add Z.sub Z.div leap] in Hd |- *;
    change ((14 - 1) / 12) with 1; change ((14 - 2) / 12) with 1;
    try (replace (y + 4800 - 1 + 1) with (y + 4800) by lia; rewrite El);
    try destruct (leap y);
    (repeat split; try (intros; done); try lazymatch goal with |- _ = 365 -> _ => intros; exfalso end;
     Z.to_euclidean_division_equations; lia).
Qed.

Lemma scale_bounds y e : 0 <= y <= 1404800 -> 0 <= e <= 365 -> 0 <= scale y e <= 514000000.
Proof.
  intros Hy He. unfold scale. pose proof (div_bounds y 4). pose proof (div_bounds y 100).
  pose proof (div_bounds y 400). lia.
Qed.

(** The days from 1970 to the end of 9999 have a year of at most four digits. *)
Lemma year_four_digits d : calendar_date d -> 2440588 <= jdn d <= 5373484 -> 0 <= year d <= 9999.
Proof.
  intros Hc Hj. rewrite jdn_scale in Hj. destruct (calendar_date_scale d Hc) as (He & _ & Em & Hm & _ & _ & Ey).
  unfold scale in Hj. pose proof (div_bounds (year' d) 4). pose proof (div_bounds (year' d) 100).
  pose proof (div_bounds (year' d) 400). pose proof (div_bounds (5 * day' d + 2) 153). pose proof (div_bounds (month' d) 10).
  assert (year' d <= 14799) by lia. assert (4800 <= year' d) by lia. split; [lia|].
  destruct (Z.eq_dec (year' d) 14799) as [E|]; [|lia]. rewrite E in *.
  change (14799 / 4) with 3699 in *. change (14799 / 100) with 147 in *. change (14799 / 400) with 36 in *. lia.
Qed.

Lemma year'_range d : calendar_date d -> supported d -> 0 <= year' d <= 1404800.
Proof.
  intros [Hm _] Hy. unfold supported, year' in *. pose proof (month_shift _ Hm). lia.
Qed.

Lemma getYearMonthDay_jdn d : calendar_date d -> supported d -> getYearMonthDay (jdn d) = Ret d.
Proof.
  intros Hc Hs. pose proof (year'_range d Hc Hs) as Hy. rewrite jdn_scale.
  destruct (calendar_date_scale d Hc) as (He & Hl & Em & Hm & Eday & Emon & Eyear).
  pose proof (scale_bounds _ _ Hy He) as Ha.
  pose proof (scale_inverse (year' d) (day' d) (proj1 Hy) He Hl) as Hinv. cbv zeta in Hinv.
  pose proof (div_bounds (year' d) 100) as Hb. pose proof (Z.mod_pos_bound (year' d) 100) as Hr.
  pose proof (Z.div_mod (year' d) 100) as Hdm.
  unfold getYearMonthDay. rewrite int_bind by fits. cbn [int_val].
  replace (scale _ _ - 32044 + 32044) with (scale (year' d) (day' d)) by lia.
  set (a := scale (year' d) (day' d)) in *. clearbody a.
  rewrite int_bind by (fits; rewrite ?quot_div by lia; lia). cbn [int_val]. rewrite quot_div by lia.
  set (b := (4 * a + 3) / 146097) in *. clearbody b. destruct Hinv as (-> & Hcr & Hd & Hday).
  set (b := year' d / 100) in *.
  rewrite int_bind by (fits; rewrite ?quot_div by lia; lia). cbn [int_val]. rewrite quot_div by lia.
  set (c := a - b * 146097 / 4) in *.
  rewrite int_bind by (fits; rewrite ?quot_div by lia; lia). cbn [int_val]. rewrite quot_div by lia.
  rewrite Hd in *. set (r := year' d mod 100) in *.
  rewrite int_bind by (fits; rewrite ?quot_div by lia; lia). cbn [int_val]. rewrite quot_div by lia.
  rewrite Hday. rewrite int_bind by (fits; rewrite ?quot_div by lia; lia). cbn [int_val].
  rewrite quot_div, Em by lia.
  assert (0 <= month' d / 10 <= 1) by (pose proof (div_bounds (month' d) 10); lia).
  assert (0 <= (153 * month' d + 2) / 5 <= 400) by (pose proof (div_bounds (153 * month' d + 2) 5); lia).
  do 3 (rewrite int_bind by (fits; rewrite ?quot_div by lia; lia); cbn [int_val]).
  rewrite !quot_div by lia. rewrite Eday, Emon. destruct d as [y m dd]. cbn [year month day] in *.
  do 2 f_equal. lia.
Qed.

(** The day after a date has the next number. *)
Lemma jdn_next_day d : calendar_date d -> jdn (next_day d) = jdn d + 1.
Proof.
  destruct d as [y m d]. unfold calendar_date, next_day. cbn [year month day]. intros [Hm Hd].
  destruct (d <? _) eqn:E1; bools; [unfold jdn; cbn [year month day]; cbv zeta; lia|].
  assert (d = days_in_month y m) as -> by lia. clear Hd E1. unfold days_in_month.
  apply month_cases in Hm. unfold leap.
  repeat destruct Hm as [->|Hm]; [..|subst m]; cbn -[Z.mul Z.add Z.sub Z.div Z.modulo jdn];
    unfold jdn; cbn [year month day]; cbv zeta;
    (repeat match goal with |- context [if ?b then _ else _] => destruct b eqn:? end); bools;
    Z.to_euclidean_division_equations; lia.
Qed.

Lemma days_in_month_pos y m : 28 <= days_in_month y m.
Proof. unfold days_in_month. split_tests; lia. Qed.

Lemma next_day_calendar d : calendar_date d -> calendar_date (next_day d).
Proof.
  destruct d as [y m d]. unfold calendar_date, next_day. cbn [year month day]. intros [Hm Hd].
  pose proof (days_in_month_pos y (m + 1)). pose proof (days_in_month_pos (y + 1) 1).
  split_tests; cbn [year month day]; lia.
Qed.

(** Every day number from 0 on is the number of a calendar date. *)
Lemma jdn_onto (j : Z) : 0 <= j -> exists d, calendar_date d /\ jdn d = j.
Proof.
  intros Hj. pattern j. apply natlike_ind; [|clear j Hj; intros j _ (d & Hd & E)|done].
  - exists (ymd (-4713) 11 24). split; [|done]. unfold calendar_date. cbn. lia.
  - exists (next_day d). split; [by apply next_day_calendar|]. rewrite jdn_next_day by done. lia.
Qed.

(** The years of the dates with small numbers. *)
Lemma jdn_supported d : calendar_date d -> 0 <= jdn d <= 500000000 -> supported d.
Proof.
  intros Hc Hj. destruct (calendar_date_scale d Hc) as (He & _ & _ & Hm & _ & _ & Ey).
  rewrite jdn_scale in Hj. unfold scale in Hj. unfold supported.
  pose proof (div_bounds (year' d) 4). pose proof (div_bounds (year' d) 100).
  pose proof (div_bounds (year' d) 400). pose proof (div_bounds (month' d) 10). lia.
Qed.

Lemma calendar_day_31 d : calendar_date d -> 1 <= day d <= 31.
Proof. intros [_ H]. unfold days_in_month in H. revert H. split_tests; lia. Qed.

Lemma date_days d : calendar_date d -> supported d ->
  getJulianDayNumber (year d) (month d) (day d) = Ret (jdn d).
Proof. intros Hc Hs. apply getJulianDayNumber_jdn; [apply Hc|by apply calendar_day_31|done]. Qed.

(** [getJulianDayNumber] counts the days of the Gregorian calendar: consecutive
    dates have consecutive numbers, 1970-01-01 is day 2440588, no [int] overflows, and
    [getYearMonthDay] is its inverse on every calendar date of the supported years. *)
Theorem julian_day_number_counts_days (d : YearMonthDay)
    (Hd : calendar_date d) (Hs : supported d) (Hn : supported (next_day d)) :
  exists j,
    getJulianDayNumber (year d) (month d) (day d) = Ret j /\
    getJulianDayNumber (year (next_day d)) (month (next_day d)) (day (next_day d)) = Ret (j + 1) /\
    getYearMonthDay j = Ret d /\
    getJulianDayNumber 1970 1 1 = Ret 2440588.
Proof.
  exists (jdn d). rewrite !date_days, jdn_next_day by (try done; by apply next_day_calendar).
  by rewrite getYearMonthDay_jdn.
Qed.

Lemma julian_day_number_counts_days_witness :
  exists j,
    getJulianDayNumber 2000 2 28 = Ret j /\ getJulianDayNumber 2000 2 29 = Ret (j + 1) /\
    getYearMonthDay j = Ret (ymd 2000 2 28) /\ getJulianDayNumber 1970 1 1 = Ret 2440588.
Proof.
  apply (julian_day_number_counts_days (ymd 2000 2 28)).
  - unfold calendar_date. vm_compute. repeat split; discriminate.
  - unfold supported. cbn. lia.
  - unfold supported. vm_compute. split; discriminate.
Defined.

(** Every day number the class can hold for the supported years is a date:
    [yearMonthDay] answers a date of the calendar whose number is the given one,
    and [weekDay] steps by one modulo seven (Thursday for 1970-01-01). *)
Theorem year_month_day_total (j : Z) (Hj : 0 <= j <= 500000000) :
  exists d, yearMonthDay (Date j) = Ret d /\ calendar_date d /\
    Date_of_ymd (year d) (month d) (day d) = Ret (Date j) /\
    weekDay (Date j) = Ret ((j + 1) mod 7) /\ weekDay (Date 2440588) = Ret 4.
Proof.
  destruct (jdn_onto j) as (d & Hc & E); [lia|]. exists d.
  pose proof (jdn_supported d Hc ltac:(lia)) as Hs. unfold yearMonthDay, Date_of_ymd, weekDay.
  cbn [julianDayNumber_]. rewrite <- E, getYearMonthDay_jdn, date_days, bind_Ret by done.
  split_and!; try done. unfold kDaysPerWeek. rewrite int_eval_ok; cbn [int_val]; [by rewrite Z.rem_mod_nonneg by lia|].
  fits; pose proof (Z.rem_bound_pos (jdn d + 1) 7); lia.
Qed.

Lemma year_month_day_total_witness :
  exists d, yearMonthDay (Date 2457000) = Ret d /\ calendar_date d /\
    Date_of_ymd (year d) (month d) (day d) = Ret (Date 2457000) /\
    weekDay (Date 2457000) = Ret ((2457000 + 1) mod 7) /\ weekDay (Date 2440588) = Ret 4.
Proof. apply (year_month_day_total 2457000). lia. Defined.

End Date.
