(* ===== verification/Format.v ===== *)
(** * Numbers as text: the decimal and hexadecimal conversions of printf(3)

    [show] is the reference every conversion routine of the sources is compared
    with; [read] is its inverse, so an equation with [show] is a round trip.
    [pad0] and [pads] are the [%0Nd] and [%Nd] conversions. *)

From S2P Require Import Prelude.

(** The digits of [n >= 0], least significant first. *)
Fixpoint digits_lsd (base : Z) (fuel : nat) (n : Z) : list Z :=
  match fuel with
  | O => []
  | S fuel' => n mod base :: (if n / base =? 0 then [] else digits_lsd base fuel' (n / base))
  end.

Definition digits_fuel (n : Z) : nat := S (Z.to_nat (Z.log2 n)).

Definition digits (base n : Z) : list Z := rev (digits_lsd base (digits_fuel n) n).

Definition dec_char (d : Z) : byte := Z2b (48 + d).
Definition hex_char (d : Z) : byte := if d <? 10 then Z2b (48 + d) else Z2b (55 + d).

(** [%u], [%d] and [%X]. *)
Definition show_nonneg (n : Z) : bytes := map dec_char (digits 10 n).
Definition show (n : Z) : bytes := if n <? 0 then lit "-" ++ show_nonneg (- n) else show_nonneg n.
Definition show_hex (n : Z) : bytes := map hex_char (digits 16 n).

(** [%0wd] and [%wd]. *)
Definition pad0 (w n : Z) : bytes :=
  let d := show_nonneg (Z.abs n) in
  let sign := if n <? 0 then lit "-" else [] in
  sign ++ replicate (Z.to_nat (w - zlen sign - zlen d)) "0"%byte ++ d.
Definition pads (w n : Z) : bytes :=
  replicate (Z.to_nat (w - zlen (show n))) " "%byte ++ show n.

(** [snprintf(buf, size, ...)] for a text: the bytes left in [buf] before the
    terminator (the result of the call is the length of the whole text). *)
Definition snprintf (size : Z) (text : bytes) : bytes := take (Z.to_nat (size - 1)) text.

(** Reading a number back. *)
Definition value_of (base : Z) (ds : list Z) : Z := fold_left (fun v d => v * base + d) ds 0.
Definition dec_digit (b : byte) : option Z :=
  let z := b2Z b in if (48 <=? z) && (z <=? 57) then Some (z - 48) else None.
Definition hex_digit (b : byte) : option Z :=
  let z := b2Z b in
  if (48 <=? z) && (z <=? 57) then Some (z - 48)
  else if (65 <=? z) && (z <=? 70) then Some (z - 55) else None.
Definition read_nonneg (s : bytes) : option Z :=
  match s with [] => None | _ => value_of 10 <$> mapM dec_digit s end.
Definition read (s : bytes) : option Z :=
  match s with
  | "-"%byte :: s' => Z.opp <$> read_nonneg s'
  | _ => read_nonneg s
  end.
Definition read_hex (s : bytes) : option Z :=
  match s with [] => None | _ => value_of 16 <$> mapM hex_digit s end.

(** ** Lemmas *)

Lemma digits_lsd_stable base : 2 <= base -> forall f1 f2 n,
  0 <= n -> (digits_fuel n <= f1)%nat -> (digits_fuel n <= f2)%nat ->
  digits_lsd base f1 n = digits_lsd base f2 n.
Proof.
  intros Hb. induction f1 as [|f1 IH]; intros [|f2] n Hn H1 H2; cbn; try (unfold digits_fuel in *; lia).
  f_equal. destruct (n / base =? 0) eqn:E; [done|]. bools.
  assert (0 < n / base) by (pose proof (Z.div_pos n base); lia).
  assert (0 < n) by (pose proof (Z.mul_div_le n base); nia).
  assert (Z.log2 (n / base) < Z.log2 n) as Hl.
  { assert (n / base <= n / 2) by (apply Z.div_le_compat_l; lia).
    apply Z.le_lt_trans with (Z.log2 (n / 2)); [by apply Z.log2_le_mono|].
    replace (n / 2) with (Z.shiftr n 1) by (by rewrite Z.shiftr_div_pow2 by lia).
    rewrite Z.log2_shiftr by lia.
    assert (1 <= Z.log2 n); [|lia]. apply Z.log2_le_pow2; [lia|].
    pose proof (Z.mul_div_le n base). nia. }
  pose proof (Z.log2_nonneg (n / base)). apply IH; [lia|unfold digits_fuel in *..]; lia.
Qed.

Lemma digits_lsd_step base n : 2 <= base -> 0 <= n ->
  digits_lsd base (digits_fuel n) n =
  n mod base :: (if n / base =? 0 then [] else digits_lsd base (digits_fuel (n / base)) (n / base)).
Proof.
  intros Hb Hn. rewrite (digits_lsd_stable base Hb _ (S (digits_fuel n))) by lia.
  remember (digits_fuel n) as f eqn:Ef. cbn [digits_lsd]. f_equal.
  destruct (n / base =? 0) eqn:E; [done|]. bools.
  apply digits_lsd_stable; try done; [by apply Z.div_pos; lia|]. subst f.
  unfold digits_fuel. apply le_n_S, Z2Nat.inj_le; [apply Z.log2_nonneg..|].
  apply Z.log2_le_mono, Z.div_le_upper_bound; nia.
Qed.

(** Induction along the digits of a number. *)
Lemma digits_ind base (P : Z -> Prop) : 2 <= base ->
  (forall n, 0 <= n -> (n / base <> 0 -> P (n / base)) -> P n) -> forall n, 0 <= n -> P n.
Proof.
  intros Hb Hstep. apply (Zlt_0_ind (fun n => P n)). intros n IH Hn. apply Hstep; [done|].
  intros Hne. apply IH. split; [apply Z.div_pos; lia|].
  destruct (Z.eq_dec n 0) as [->|]; [by rewrite Z.div_0_l in Hne by lia|]. apply Z.div_lt; lia.
Qed.

Lemma digits_nonempty base n : digits base n <> [].
Proof.
  unfold digits, digits_fuel. cbn [digits_lsd]. intros E%(f_equal (@length Z)).
  rewrite length_rev in E. cbn in E. lia.
Qed.

Lemma digits_range base n : 2 <= base -> 0 <= n -> Forall (fun d => 0 <= d < base) (digits base n).
Proof.
  intros Hb. revert n. apply (digits_ind base); [done|]. intros n Hn IH. unfold digits in *.
  rewrite digits_lsd_step by done. cbn [rev]. apply Forall_app. split.
  - destruct (n / base =? 0) eqn:E; [constructor|]. bools. auto.
  - constructor; [apply Z.mod_pos_bound; lia|constructor].
Qed.

Lemma value_of_snoc base ds d : value_of base (ds ++ [d]) = value_of base ds * base + d.
Proof. unfold value_of. by rewrite fold_left_app. Qed.

Lemma value_of_digits base n : 2 <= base -> 0 <= n -> value_of base (digits base n) = n.
Proof.
  intros Hb. revert n. apply (digits_ind base); [done|]. intros n Hn IH. unfold digits in *.
  rewrite digits_lsd_step by done. cbn [rev]. rewrite value_of_snoc.
  pose proof (Z.div_mod n base). destruct (n / base =? 0) eqn:E; bools.
  - cbn. lia.
  - rewrite IH by done. lia.
Qed.

(** [n < base ^ k] has at most [k] digits. *)
Lemma digits_length base k : 2 <= base -> 1 <= k -> forall n, 0 <= n < base ^ k ->
  zlen (digits base n) <= k.
Proof.
  intros Hb Hk. pattern k. apply (Zlt_lower_bound_ind _ 1); [|done]. clear k Hk. intros k IH Hk n Hn.
  unfold digits in *. rewrite digits_lsd_step by lia. cbn [rev]. rewrite zlen_app.
  destruct (n / base =? 0) eqn:E; bools; [unfold zlen; cbn; lia|].
  change (zlen [_]) with 1. destruct (Z.eq_dec k 1) as [->|].
  - rewrite Z.pow_1_r in Hn. rewrite Z.div_small in E by lia. lia.
  - specialize (IH (k - 1) ltac:(lia) (n / base)). 
    assert (0 <= n / base < base ^ (k - 1)); [|lia]. split; [apply Z.div_pos; lia|].
    apply Z.div_lt_upper_bound; [lia|]. rewrite <- Z.pow_succ_r by lia.
    replace (Z.succ (k - 1)) with k by lia. lia.
Qed.

Lemma b2Z_Z2b_small z : 0 <= z < 256 -> b2Z (Z2b z) = z.
Proof. intros Hz. rewrite b2Z_Z2b. by apply Z.mod_small. Qed.

Lemma dec_digit_char d : 0 <= d < 10 -> dec_digit (dec_char d) = Some d.
Proof.
  intros Hd. unfold dec_digit, dec_char. rewrite b2Z_Z2b_small by lia.
  rewrite (proj2 (Z.leb_le _ _)), (proj2 (Z.leb_le _ _)) by lia. cbn. f_equal. lia.
Qed.

Lemma hex_digit_char d : 0 <= d < 16 -> hex_digit (hex_char d) = Some d.
Proof.
  intros Hd. unfold hex_digit, hex_char. destruct (d <? 10) eqn:E; bools; rewrite b2Z_Z2b_small by lia.
  - rewrite (proj2 (Z.leb_le _ _)), (proj2 (Z.leb_le _ _)) by lia. cbn. f_equal. lia.
  - destruct ((48 <=? 55 + d) && (55 + d <=? 57)) eqn:E1; bools; [lia|].
    rewrite (proj2 (Z.leb_le _ _)), (proj2 (Z.leb_le _ _)) by lia. cbn. f_equal. lia.
Qed.

Lemma mapM_digits (f : byte -> option Z) (g : Z -> byte) base ds :
  (forall d, 0 <= d < base -> f (g d) = Some d) -> Forall (fun d => 0 <= d < base) ds ->
  mapM f (map g ds) = Some ds.
Proof.
  intros Hfg. induction 1 as [|d ds Hd _ IH]; [done|]. cbn. rewrite Hfg by done. cbn.
  by rewrite IH.
Qed.

Lemma read_show_nonneg n : 0 <= n -> read_nonneg (show_nonneg n) = Some n.
Proof.
  intros Hn. unfold read_nonneg, show_nonneg.
  pose proof (digits_nonempty 10 n) as Hne. destruct (map _ _) eqn:E.
  { by destruct (digits 10 n). }
  rewrite <- E, (mapM_digits _ _ 10) by (try apply dec_digit_char; apply digits_range; lia).
  apply (f_equal Some), value_of_digits; lia.
Qed.

Lemma read_hex_show n : 0 <= n -> read_hex (show_hex n) = Some n.
Proof.
  intros Hn. unfold read_hex, show_hex.
  pose proof (digits_nonempty 16 n) as Hne. destruct (map _ _) eqn:E.
  { by destruct (digits 16 n). }
  rewrite <- E, (mapM_digits _ _ 16) by (try apply hex_digit_char; apply digits_range; lia).
  apply (f_equal Some), value_of_digits; lia.
Qed.

Lemma show_nonneg_not_minus n b s : 0 <= n -> show_nonneg n = b :: s -> b <> "-"%byte.
Proof.
  intros Hn E ->. unfold show_nonneg in E.
  pose proof (digits_range 10 n ltac:(lia) Hn) as Hr. destruct (digits 10 n) as [|d ds]; [done|].
  cbn in E. injection E as E _. inversion Hr as [|? ? Hd _]; subst.
  apply dec_digit_char in Hd. rewrite E in Hd. done.
Qed.

Lemma read_show n : read (show n) = Some n.
Proof.
  unfold show. destruct (n <? 0) eqn:E; bools.
  - change (Z.opp <$> read_nonneg (show_nonneg (- n)) = Some n).
    rewrite read_show_nonneg by lia. cbn. f_equal. lia.
  - unfold read. destruct (show_nonneg n) as [|b s] eqn:Es.
    + by rewrite <- Es, read_show_nonneg by lia.
    + pose proof (show_nonneg_not_minus _ _ _ E Es) as Hb. rewrite <- Es.
      rewrite <- (read_show_nonneg n) by done. rewrite Es. by destruct b.
Qed.

Lemma zlen_show_nonneg n k : 1 <= k -> 0 <= n < 10 ^ k -> 1 <= zlen (show_nonneg n) <= k.
Proof.
  intros Hk Hn. unfold show_nonneg, zlen. rewrite length_map. pose proof (digits_length 10 k).
  pose proof (digits_nonempty 10 n). destruct (digits 10 n) eqn:E; [done|].
  rewrite <- E in *. unfold zlen in *. specialize (H ltac:(lia) Hk n Hn). rewrite E in *. cbn in *. lia.
Qed.

Lemma zlen_show_hex n k : 1 <= k -> 0 <= n < 16 ^ k -> 1 <= zlen (show_hex n) <= k.
Proof.
  intros Hk Hn. unfold show_hex, zlen. rewrite length_map. pose proof (digits_length 16 k).
  pose proof (digits_nonempty 16 n). destruct (digits 16 n) eqn:E; [done|].
  rewrite <- E in *. unfold zlen in *. specialize (H ltac:(lia) Hk n Hn). rewrite E in *. cbn in *. lia.
Qed.

(** A number of at most [w] digits is padded to exactly [w]. *)
Lemma pad0_width w n : 1 <= w -> 0 <= n < 10 ^ w -> zlen (pad0 w n) = w.
Proof.
  intros Hw Hn. unfold pad0. rewrite (proj2 (Z.ltb_ge n 0)), Z.abs_eq by lia. cbn [app].
  pose proof (zlen_show_nonneg n w Hw Hn). rewrite zlen_app. unfold zlen in *. rewrite length_replicate.
  cbn [length]. lia.
Qed.

Lemma value_of_zeros base k ds : value_of base (replicate k 0 ++ ds) = value_of base ds.
Proof.
  unfold value_of. rewrite fold_left_app. f_equal. induction k as [|k IH]; [done|]. exact IH.
Qed.

Lemma read_pad0 w n : 0 <= n -> read_nonneg (pad0 w n) = Some n.
Proof.
  intros Hn. unfold pad0. rewrite (proj2 (Z.ltb_ge n 0)), Z.abs_eq by lia. cbn [app].
  set (k := Z.to_nat _). unfold show_nonneg.
  assert (replicate k "0"%byte = map dec_char (replicate k 0)) as ->
    by (clear; induction k as [|k IH]; cbn; [done|by rewrite IH]).
  rewrite <- map_app. unfold read_nonneg. destruct (map _ _) eqn:E.
  { destruct k; [|done]. by pose proof (digits_nonempty 10 n); destruct (digits 10 n). }
  rewrite <- E, (mapM_digits _ _ 10); [|apply dec_digit_char|].
  - apply (f_equal Some). rewrite value_of_zeros. apply value_of_digits; lia.
  - apply Forall_app. split; [apply Forall_replicate; lia|apply digits_range; lia].
Qed.

(** ** atoi and atol *)

Definition is_space (b : byte) : bool := let z := b2Z b in ((9 <=? z) && (z <=? 13)) || (z =? 32).

Fixpoint skip_space (s : bytes) : bytes :=
  match s with b :: s' => if is_space b then skip_space s' else s | [] => [] end.

Fixpoint leading_digits (s : bytes) : list Z :=
  match s with b :: s' => match dec_digit b with Some d => d :: leading_digits s' | None => [] end | [] => [] end.

(** The number that a text begins with. *)
Definition strtol (s : bytes) : Z :=
  match skip_space s with
  | "-"%byte :: s' => - value_of 10 (leading_digits s')
  | "+"%byte :: s' => value_of 10 (leading_digits s')
  | s' => value_of 10 (leading_digits s')
  end.

(** A value that does not fit is undefined. *)
Definition atoi (s : bytes) : outcome Z := i32 (strtol s).
Definition atol (s : bytes) : outcome Z := i64 (strtol s).

Definition stops (s : bytes) : Prop := match s with [] => True | b :: _ => dec_digit b = None end.

Lemma dec_digits_range s ds : mapM dec_digit s = Some ds -> forall b, b ∈ s -> 48 <= b2Z b <= 57.
Proof.
  intros H%mapM_Some_1 b Hb. apply list_elem_of_lookup in Hb as [i Hi]. apply (Forall2_lookup_l _ _ _ _ _ H) in Hi as (d & _ & Hd).
  unfold dec_digit in Hd. destruct ((48 <=? b2Z b) && (b2Z b <=? 57)) eqn:E; [lia | done].
Qed.

Lemma leading_digits_app s ds rest : mapM dec_digit s = Some ds -> stops rest -> leading_digits (s ++ rest) = ds.
Proof.
  revert ds. induction s as [|b s IH]; intros ds H Hc; cbn in H |- *.
  { injection H as <-. destruct rest as [|c rest]; [done |]. cbn in Hc |- *. by rewrite Hc. }
  destruct (dec_digit b) as [d|]; [|done]. cbn in H. destruct (mapM dec_digit s) as [ds'|]; [|done]. injection H as <-. by rewrite (IH ds').
Qed.

(** A text that begins with digits, up to something else. *)
Lemma strtol_digits s ds rest : mapM dec_digit s = Some ds -> s <> [] -> stops rest -> strtol (s ++ rest) = value_of 10 ds.
Proof.
  intros Hm Hne Hr. destruct s as [|b s]; [done |]. pose proof (dec_digits_range _ _ Hm b ltac:(left)) as Hb. unfold strtol. cbn [app skip_space].
  assert (is_space b = false) as -> by (unfold is_space; lia).
  assert (match b :: s ++ rest with
          | "-"%byte :: s' => - value_of 10 (leading_digits s')
          | "+"%byte :: s' => value_of 10 (leading_digits s')
          | s' => value_of 10 (leading_digits s')
          end = value_of 10 (leading_digits (b :: s ++ rest))) as ->.
  { destruct b; try reflexivity; vm_compute in Hb; destruct Hb as [H1 H2]; exfalso; by (apply H1 || apply H2). }
  change (b :: s ++ rest) with ((b :: s) ++ rest). by rewrite (leading_digits_app _ ds).
Qed.

Lemma show_nonneg_digits n : 0 <= n -> exists ds, mapM dec_digit (show_nonneg n) = Some ds /\ value_of 10 ds = n /\ show_nonneg n <> [].
Proof.
  intros Hn. pose proof (read_show_nonneg n Hn) as H. unfold read_nonneg in H. destruct (show_nonneg n); [done |].
  destruct (mapM dec_digit _) as [ds|]; [|done]. exists ds. by injection H as H.
Qed.

(** What was printed is read back. *)
Lemma strtol_show n : strtol (show n) = n.
Proof.
  unfold show. destruct (n <? 0) eqn:E; bools.
  - destruct (show_nonneg_digits (- n)) as (ds & Hm & Hv & Hne); [lia |]. change (strtol (lit "-" ++ show_nonneg (- n))) with (- value_of 10 (leading_digits (show_nonneg (- n)))).
    rewrite <-(app_nil_r (show_nonneg (- n))), (leading_digits_app _ ds) by done. lia.
  - destruct (show_nonneg_digits n) as (ds & Hm & Hv & Hne); [lia |]. rewrite <-(app_nil_r (show_nonneg n)). by rewrite (strtol_digits _ ds).
Qed.

Lemma atoi_show n : - 2 ^ 31 <= n < 2 ^ 31 -> atoi (show n) = Ret n.
Proof. intros H. unfold atoi. rewrite strtol_show. by apply i32_ok. Qed.

Lemma atol_show n : - 2 ^ 63 <= n < 2 ^ 63 -> atol (show n) = Ret n.
Proof. intros H. unfold atol. rewrite strtol_show. by apply i64_ok. Qed.
