(* ===== verification/LogStream.v ===== *)
(** * LogStream.h/.cc and StringPiece.h: formatting into a fixed buffer

    [FixedBuffer] is the array and the cursor; every write goes through [store], so a
    write outside the array is visible.  [convert] and [convertHex] are the digit
    loops of the source.  A [<<] either puts the whole text of its argument in the
    buffer or nothing. *)

From S2P Require Import Prelude Format.

Module StringPiece.

(** The bytes from [ptr_] on, and the length of the piece. *)
Record t := StringPiece { ptr_ : bytes; length_ : Z }.

Definition of_string (s : bytes) : t := StringPiece s (s32 (zlen s)).
Definition contents (p : t) : bytes := slice 0 (length_ p) (ptr_ p).

(** memcmp(3): the sign of the first difference, bytes as unsigned char. *)
Fixpoint memcmp (a b : bytes) (n : nat) : Z :=
  match n, a, b with
  | S n', x :: a', y :: b' => if b2Z x =? b2Z y then memcmp a' b' n' else b2Z x - b2Z y
  | _, _, _ => 0
  end.

Definition empty (p : t) : bool := length_ p =? 0.
Definition set (buffer : bytes) (len : Z) (p : t) : t := StringPiece buffer len.
Definition remove_prefix (n : Z) (p : t) : t :=
  StringPiece (drop (Z.to_nat n) (ptr_ p)) (length_ p - n).
Definition remove_suffix (n : Z) (p : t) : t := StringPiece (ptr_ p) (length_ p - n).

Definition min_length (p x : t) : nat :=
  Z.to_nat (if length_ p <? length_ x then length_ p else length_ x).

Definition eq (p x : t) : bool :=
  (length_ p =? length_ x) && (memcmp (ptr_ p) (ptr_ x) (Z.to_nat (length_ p)) =? 0).
Definition neq (p x : t) : bool := negb (eq p x).
Definition lt (p x : t) : bool :=
  let r := memcmp (ptr_ p) (ptr_ x) (min_length p x) in
  (r <? 0) || ((r =? 0) && (length_ p <? length_ x)).
Definition le (p x : t) : bool :=
  let r := memcmp (ptr_ p) (ptr_ x) (min_length p x) in
  (r <? 0) || ((r =? 0) && (length_ p <=? length_ x)).
Definition ge (p x : t) : bool :=
  let r := memcmp (ptr_ p) (ptr_ x) (min_length p x) in
  (0 <? r) || ((r =? 0) && (length_ x <=? length_ p)).
Definition gt (p x : t) : bool :=
  let r := memcmp (ptr_ p) (ptr_ x) (min_length p x) in
  (0 <? r) || ((r =? 0) && (length_ x <? length_ p)).

Definition compare (p x : t) : Z :=
  let r := memcmp (ptr_ p) (ptr_ x) (min_length p x) in
  if r =? 0 then
    if length_ p <? length_ x then -1 else if length_ x <? length_ p then 1 else r
  else r.

Definition starts_with (p x : t) : bool :=
  (length_ x <=? length_ p) && (memcmp (ptr_ p) (ptr_ x) (Z.to_nat (length_ x)) =? 0).

(** The lexicographic order on byte strings. *)
Fixpoint lex (a b : bytes) : comparison :=
  match a, b with
  | [], [] => Eq
  | [], _ :: _ => Lt
  | _ :: _, [] => Gt
  | x :: a', y :: b' => match b2Z x ?= b2Z y with Eq => lex a' b' | c => c end
  end.

(** A piece whose bytes are all there. *)
Definition wf (p : t) : Prop := 0 <= length_ p <= zlen (ptr_ p).

Lemma memcmp_lex (a b : bytes) (m n : nat) : (m <= length a)%nat -> (n <= length b)%nat ->
  lex (take m a) (take n b) =
  (let r := memcmp a b (min m n) in
   if r =? 0 then Nat.compare m n else Z.compare r 0).
Proof.
  revert b m n. induction a as [|x a IH]; intros [|y b] [|m] [|n] Hm Hn; cbn in *; try lia; try done.
  destruct (b2Z x =? b2Z y) eqn:E; bools.
  - rewrite E, Z.compare_refl. rewrite IH by lia. done.
  - destruct (b2Z x - b2Z y =? 0) eqn:E'; bools; [lia|].
    destruct (Z.compare_spec (b2Z x) (b2Z y)) as [|H|H]; [lia|..]; symmetry.
    + apply Z.compare_lt_iff. lia.
    + apply Z.compare_gt_iff. lia.
Qed.

Lemma lex_contents p x : wf p -> wf x ->
  lex (contents p) (contents x) =
  (let r := memcmp (ptr_ p) (ptr_ x) (min_length p x) in
   if r =? 0 then length_ p ?= length_ x else r ?= 0).
Proof.
  unfold wf, contents, slice, min_length, zlen. intros Hp Hx. change (Z.to_nat 0) with 0%nat.
  rewrite !drop_0, memcmp_lex by lia.
  replace (Z.to_nat (length_ p) `min` Z.to_nat (length_ x))%nat
    with (Z.to_nat (if length_ p <? length_ x then length_ p else length_ x))
    by (destruct (_ <? _) eqn:?; bools; lia).
  cbv zeta. destruct (_ =? 0); [|done]. rewrite <- Z2Nat.inj_compare by lia. done.
Qed.

Lemma lex_Eq a b : lex a b = Eq <-> a = b.
Proof.
  revert b. induction a as [|x a IH]; intros [|y b]; cbn; try done.
  destruct (b2Z x ?= b2Z y) eqn:C.
  - apply Z.compare_eq, b2Z_inj in C. rewrite IH. split; [congruence|by intros [= _ ->]].
  - split; [done|]. intros [= -> ->]. by rewrite Z.compare_refl in C.
  - split; [done|]. intros [= -> ->]. by rewrite Z.compare_refl in C.
Qed.

(** Case analysis on the integer tests of the goal. *)
Ltac comparisons :=
  repeat match goal with
  | |- context [?a <? ?b] => destruct (Z.ltb_spec a b)
  | |- context [?a <=? ?b] => destruct (Z.leb_spec a b)
  | |- context [?a =? ?b] => destruct (Z.eqb_spec a b)
  | |- context [?a ?= ?b] => destruct (Z.compare_spec a b)
  end; try lia; try done.

Lemma memcmp_prefix a b n : (n <= length a)%nat -> (n <= length b)%nat ->
  memcmp a b n = 0 <-> take n a = take n b.
Proof.
  revert b n. induction a as [|x a IH]; intros [|y b] [|n] Ha Hb; cbn in *; try lia; try done.
  destruct (b2Z x =? b2Z y) eqn:E; bools.
  - apply b2Z_inj in E as ->. rewrite IH by lia. split; [congruence|by intros [= ->]].
  - split; [lia|]. by intros [= -> _].
Qed.

(** The comparison operators of [StringPiece] are the lexicographic order of
    the bytes they denote (as unsigned char, shorter first), [compare] agrees with
    them, [==] is equality of contents and [starts_with] is the prefix relation. *)
Theorem string_piece_order (p x : t) (Hp : wf p) (Hx : wf x) :
  lt p x = bool_decide (lex (contents p) (contents x) = Lt) /\
  le p x = negb (gt p x) /\ ge p x = negb (lt p x) /\
  gt p x = bool_decide (lex (contents p) (contents x) = Gt) /\
  Z.compare (compare p x) 0 = lex (contents p) (contents x) /\
  (eq p x = true <-> contents p = contents x) /\
  (starts_with p x = true <-> contents x `prefix_of` contents p).
Proof.
  rewrite lex_contents by done. unfold lt, le, gt, ge, compare. set (r := memcmp _ _ (min_length p x)).
  split_and!.
  - comparisons; by case_bool_decide.
  - comparisons.
  - comparisons.
  - comparisons; by case_bool_decide.
  - comparisons.
  - unfold eq. rewrite andb_true_iff, !Z.eqb_eq. unfold wf, contents, slice, zlen in *.
    change (Z.to_nat 0) with 0%nat. rewrite !drop_0. split.
    + intros [E H]. rewrite <- E in *. apply memcmp_prefix in H; [done|lia..].
    + intros E. assert (length_ p = length_ x) as El.
      { apply (f_equal length) in E. rewrite !length_take in E. lia. }
      split; [done|]. apply memcmp_prefix; [lia..|]. by rewrite El at 2.
  - unfold starts_with. rewrite andb_true_iff, Z.leb_le, Z.eqb_eq. unfold wf, contents, slice, zlen in *.
    change (Z.to_nat 0) with 0%nat. rewrite !drop_0. split.
    + intros [E H]. apply memcmp_prefix in H; [|lia..]. rewrite <- H.
      replace (take (Z.to_nat (length_ x)) (ptr_ p))
        with (take (Z.to_nat (length_ x)) (take (Z.to_nat (length_ p)) (ptr_ p)))
        by (rewrite take_take; f_equal; lia).
      apply prefix_take.
    + intros Hpre. pose proof (prefix_length _ _ Hpre) as Hl. rewrite !length_take in Hl.
      split; [lia|]. apply memcmp_prefix; [lia..|]. destruct Hpre as [k E].
      apply (f_equal (take (Z.to_nat (length_ x)))) in E.
      rewrite take_app_le, !take_take in E by (rewrite length_take; lia).
      rewrite !Nat.min_l in E by lia. done.
Qed.

Lemma string_piece_order_witness :
  let p := of_string (lit "chat") in let x := of_string (lit "ch") in
  lt p x = bool_decide (lex (contents p) (contents x) = Lt) /\
  le p x = negb (gt p x) /\ ge p x = negb (lt p x) /\
  gt p x = bool_decide (lex (contents p) (contents x) = Gt) /\
  Z.compare (compare p x) 0 = lex (contents p) (contents x) /\
  (eq p x = true <-> contents p = contents x) /\
  (starts_with p x = true <-> contents x `prefix_of` contents p).
Proof. apply string_piece_order; vm_compute; split; discriminate. Defined.

End StringPiece.

(** ** Integer to text *)

(** [digits] and [zero], which points into its middle. *)
Definition digits_table : bytes := lit "9876543210123456789".
Definition digitsHex : bytes := lit "0123456789ABCDEF".

Definition at_table (table : bytes) (i : Z) : outcome byte :=
  if (0 <=? i) && (i <? zlen table)
  then match table !! Z.to_nat i with Some c => Ret c | None => Crash OutOfRange end
  else Crash OutOfRange.
Definition zero (lsd : Z) : outcome byte := at_table digits_table (9 + lsd).

(** The do-while loop of [convert]: the characters in the order they are stored. *)
Fixpoint convert_loop (fuel : nat) (i : Z) : outcome bytes :=
  match fuel with
  | O => Crash OutOfFuel
  | S fuel' =>
      let lsd := Z.rem i 10 in
      let i' := Z.quot i 10 in
      c ← zero lsd;
      rest ← (if i' =? 0 then Ret [] else convert_loop fuel' i');
      Ret (c :: rest)
  end.

(** What [convert] leaves in [buf], before the terminating NUL. *)
Definition convert (value : Z) : outcome bytes :=
  p ← convert_loop (digits_fuel (Z.abs value)) value;
  Ret (rev (p ++ (if value <? 0 then lit "-" else []))).

Fixpoint convertHex_loop (fuel : nat) (i : Z) : outcome bytes :=
  match fuel with
  | O => Crash OutOfFuel
  | S fuel' =>
      let lsd := i mod 16 in
      let i' := i / 16 in
      c ← at_table digitsHex lsd;
      rest ← (if i' =? 0 then Ret [] else convertHex_loop fuel' i');
      Ret (c :: rest)
  end.

Definition convertHex (value : Z) : outcome bytes :=
  p ← convertHex_loop (digits_fuel value) value; Ret (rev p).

Lemma zero_ok d : 0 <= d < 10 -> zero d = Ret (dec_char d) /\ zero (- d) = Ret (dec_char d).
Proof.
  intros Hd. assert (d = 0 \/ d = 1 \/ d = 2 \/ d = 3 \/ d = 4 \/ d = 5 \/ d = 6 \/ d = 7 \/ d = 8 \/ d = 9)
    as H by lia.
  repeat destruct H as [->|H]; [..|subst]; by vm_compute.
Qed.

Lemma digitsHex_ok d : 0 <= d < 16 -> at_table digitsHex d = Ret (hex_char d).
Proof.
  intros Hd. assert (d = 0 \/ d = 1 \/ d = 2 \/ d = 3 \/ d = 4 \/ d = 5 \/ d = 6 \/ d = 7 \/ d = 8 \/
    d = 9 \/ d = 10 \/ d = 11 \/ d = 12 \/ d = 13 \/ d = 14 \/ d = 15) as H by lia.
  repeat destruct H as [->|H]; [..|subst]; by vm_compute.
Qed.

(** The loop on [n] and on [-n] stores the same digits. *)
Lemma convert_loop_ok fuel : forall n i, 0 <= n -> (i = n \/ i = - n) ->
  (digits_fuel n <= fuel)%nat ->
  convert_loop fuel i = Ret (map dec_char (digits_lsd 10 fuel n)).
Proof.
  induction fuel as [|fuel IH]; intros n i Hn Hi Hf; [unfold digits_fuel in Hf; lia|].
  cbn [convert_loop digits_lsd map].
  assert (zero (Z.rem i 10) = Ret (dec_char (n mod 10))) as ->.
  { pose proof (Z.mod_pos_bound n 10). destruct (zero_ok (n mod 10)) as [H1 H2]; [lia|].
    destruct Hi as [->| ->]; [|rewrite Z.rem_opp_l by lia]; rewrite Z.rem_mod_nonneg by lia; done. }
  assert (Z.quot i 10 = n / 10 \/ Z.quot i 10 = - (n / 10)) as Hq.
  { destruct Hi as [->| ->]; [left|right; rewrite Z.quot_opp_l by lia];
      rewrite Z.quot_div_nonneg by lia; done. }
  rewrite bind_Ret. replace (Z.quot i 10 =? 0) with (n / 10 =? 0)
    by (destruct (Z.eqb_spec (n / 10) 0), (Z.eqb_spec (Z.quot i 10) 0); lia || done).
  destruct (n / 10 =? 0) eqn:E; [done|]. bools.
  rewrite (IH (n / 10)); [done|apply Z.div_pos; lia|done|].
  assert (0 < n / 10) by (pose proof (Z.div_pos n 10); lia).
  assert (Z.log2 (n / 10) < Z.log2 n) as Hl.
  { assert (2 * (n / 10) <= n) by (pose proof (Z.mul_div_le n 10); lia).
    pose proof (Z.log2_double (n / 10)). pose proof (Z.log2_le_mono (2 * (n / 10)) n). lia. }
  unfold digits_fuel in *. pose proof (Z.log2_nonneg (n / 10)). lia.
Qed.

Lemma convert_show value : convert value = Ret (show value).
Proof.
  unfold convert, show, show_nonneg, digits.
  rewrite (convert_loop_ok _ (Z.abs value)) by lia. rewrite bind_Ret, rev_app_distr.
  destruct (value <? 0) eqn:E; bools.
  - rewrite Z.abs_neq, map_rev by lia. done.
  - rewrite Z.abs_eq, map_rev by lia. done.
Qed.

Lemma convertHex_loop_ok fuel : forall n, 0 <= n -> (digits_fuel n <= fuel)%nat ->
  convertHex_loop fuel n = Ret (map hex_char (digits_lsd 16 fuel n)).
Proof.
  induction fuel as [|fuel IH]; intros n Hn Hf; [unfold digits_fuel in Hf; lia|].
  cbn [convertHex_loop digits_lsd map]. rewrite digitsHex_ok, bind_Ret by (apply Z.mod_pos_bound; lia).
  destruct (n / 16 =? 0) eqn:E; [done|]. bools.
  rewrite IH; [done|apply Z.div_pos; lia|].
  assert (0 < n / 16) by (pose proof (Z.div_pos n 16); lia).
  assert (Z.log2 (n / 16) < Z.log2 n) as Hl.
  { assert (2 * (n / 16) <= n) by (pose proof (Z.mul_div_le n 16); lia).
    pose proof (Z.log2_double (n / 16)). pose proof (Z.log2_le_mono (2 * (n / 16)) n). lia. }
  unfold digits_fuel in *. pose proof (Z.log2_nonneg (n / 16)). lia.
Qed.

Lemma convertHex_show value : 0 <= value -> convertHex value = Ret (show_hex value).
Proof.
  intros Hv. unfold convertHex, show_hex, digits. rewrite convertHex_loop_ok, bind_Ret, map_rev by done. done.
Qed.

(** [convert] and [convertHex] print every value of the 64-bit types, the most
    negative one included, as printf(3) does and so that it reads back; with the
    terminating NUL (and the 0x of a pointer) they never write more than
    [kMaxNumericSize] = 32 bytes. *)
Theorem convert_round_trip (value : Z) (Hrange : - 2 ^ 63 <= value < 2 ^ 64) :
  exists text, convert value = Ret text /\ read text = Some value /\ zlen text + 1 <= 32 /\
    (0 <= value -> exists hex, convertHex value = Ret hex /\ read_hex hex = Some value /\
       2 + zlen hex + 1 <= 32).
Proof.
  exists (show value). rewrite convert_show, read_show. split_and!; [done..| |].
  - unfold show. destruct (value <? 0) eqn:E; bools.
    + pose proof (zlen_show_nonneg (- value) 20). rewrite zlen_app. change (zlen (lit "-")) with 1. lia.
    + pose proof (zlen_show_nonneg value 20). lia.
  - intros Hv. exists (show_hex value). rewrite convertHex_show, read_hex_show by done.
    pose proof (zlen_show_hex value 16). split_and!; try done. lia.
Qed.

Lemma convert_round_trip_witness :
  exists text, convert (- 2 ^ 63) = Ret text /\ read text = Some (- 2 ^ 63) /\ zlen text + 1 <= 32 /\
    (0 <= - 2 ^ 63 -> exists hex, convertHex (- 2 ^ 63) = Ret hex /\ read_hex hex = Some (- 2 ^ 63) /\
       2 + zlen hex + 1 <= 32).
Proof. apply (convert_round_trip (- 2 ^ 63)). lia. Defined.

Module FixedBuffer.

(** [data_] of [SIZE] bytes and [cur_] as an offset into it. *)
Record t := mk { data_ : bytes; cur_ : Z }.

Section size.
Variable SIZE : Z.

Definition FixedBuffer (uninitialised : bytes) : t := mk uninitialised 0.
Definition length_of (b : t) : Z := s32 (cur_ b).
Definition avail (b : t) : Z := s32 (SIZE - cur_ b).
Definition add (len : Z) (b : t) : t := mk (data_ b) (cur_ b + len).
Definition reset (b : t) : t := mk (data_ b) 0.
Definition bzero (b : t) : t := mk (replicate (Z.to_nat SIZE) x00) (cur_ b).

Definition append (buf : bytes) (b : t) : outcome t :=
  if zlen buf <? u64 (avail b) then
    d ← store (cur_ b) buf (data_ b);
    Ret (mk d (cur_ b + zlen buf))
  else Ret b.

Definition debugString (b : t) : outcome t :=
  d ← store (cur_ b) [x00] (data_ b); Ret (mk d (cur_ b)).

Definition toString (b : t) : bytes := slice 0 (length_of b) (data_ b).

(** The text so far. *)
Definition text (b : t) : bytes := slice 0 (cur_ b) (data_ b).

(** There is always room for the NUL of [debugString]. *)
Definition wf (b : t) : Prop := zlen (data_ b) = SIZE /\ 0 <= cur_ b < SIZE.

Hypothesis small : 0 < SIZE < 2 ^ 31.

Lemma slice_store off d e (l : bytes) : 0 <= off -> off + zlen (d ++ e) <= zlen l ->
  slice 0 (off + zlen d) (splice off (d ++ e) l) = slice 0 off l ++ d.
Proof.
  intros Ho Hl. pose proof (zlen_nonneg d). pose proof (zlen_nonneg e). rewrite zlen_app in Hl.
  rewrite slice_split, slice_splice_before by lia. f_equal. rewrite Z.add_0_l.
  assert (slice off (zlen d) (splice off (d ++ e) l) ++ slice (off + zlen d) (zlen e) (splice off (d ++ e) l)
          = d ++ e) as E.
  { rewrite <- slice_split, <- zlen_app by lia. apply slice_splice_eq; lia. }
  apply app_inj_1 in E as [E _]; [done|].
  assert (zlen (splice off (d ++ e) l) = zlen l) by (apply zlen_splice; rewrite ?zlen_app; lia).
  pose proof (zlen_slice off (zlen d) (splice off (d ++ e) l)). unfold zlen in *. lia.
Qed.

Lemma avail_ok b : wf b -> avail b = SIZE - cur_ b.
Proof. intros [_ H]. unfold avail. apply s32_id. lia. Qed.

Lemma fixed_append_ok buf b : wf b -> returns (append buf b) (fun b' => wf b' /\
  text b' = if zlen buf <? SIZE - zlen (text b) then text b ++ buf else text b).
Proof.
  intros W. pose proof W as [Hd Hc].
  assert (zlen (text b) = cur_ b) as El.
  { unfold text, slice, zlen in *. change (Z.to_nat 0) with 0%nat. rewrite drop_0, length_take. lia. }
  unfold append. rewrite avail_ok, u64_id, El by (done || lia).
  destruct (_ <? _) eqn:E; bools; [|done]. assert (0 <= zlen buf) by (unfold zlen; lia).
  rewrite store_ok, bind_Ret by lia. cbn [returns]. unfold wf, text. cbn [data_ cur_]. split.
  - split; [rewrite zlen_splice by lia|]; lia.
  - rewrite <- (app_nil_r buf) at 2. apply slice_store; rewrite ?app_nil_r; lia.
Qed.

(** Writing a text and its NUL at [current()], then [add]. *)
Lemma write_current_ok s b : wf b -> 32 <= SIZE - cur_ b -> zlen s + 1 <= 32 ->
  returns (d ← store (cur_ b) (s ++ [x00]) (data_ b); Ret (add (zlen s) (mk d (cur_ b))))
    (fun b' => wf b' /\ text b' = text b ++ s).
Proof.
  intros [Hd Hc] Ha Hs. assert (0 <= zlen s) by (unfold zlen; lia).
  assert (zlen (s ++ [x00]) = zlen s + 1) as E by (by rewrite zlen_app).
  rewrite store_ok, bind_Ret by lia. cbn [returns]. unfold wf, text, add. cbn [data_ cur_]. split.
  - split; [rewrite zlen_splice by lia|]; lia.
  - apply slice_store; lia.
Qed.

End size.

End FixedBuffer.

Module LogStream.
Import FixedBuffer.

Definition kSmallBuffer : Z := 4000.
Definition kMaxNumericSize : Z := 32.

(** The argument of a [<<].  [IInt] is any of the integer types, [ICStr None] a null
    [const char*]. *)
Inductive item :=
| IBool (v : bool)
| IInt (v : Z)
| IPointer (p : Z)
| IChar (v : byte)
| ICStr (str : option bytes)
| IString (v : bytes).

(** [LogStream::formatInteger]. *)
Definition formatInteger (v : Z) (b : t) : outcome t :=
  if kMaxNumericSize <=? avail kSmallBuffer b then
    s ← convert v;
    d ← store (cur_ b) (s ++ [x00]) (data_ b);
    Ret (add (zlen s) (mk d (cur_ b)))
  else Ret b.

(** [operator<<] for pointers. *)
Definition insert_pointer (v : Z) (b : t) : outcome t :=
  if kMaxNumericSize <=? avail kSmallBuffer b then
    h ← convertHex v;
    let s := lit "0x" ++ h in
    d ← store (cur_ b) (s ++ [x00]) (data_ b);
    Ret (add (zlen s) (mk d (cur_ b)))
  else Ret b.

Definition insert (i : item) (b : t) : outcome t :=
  match i with
  | IBool v => append kSmallBuffer (if v then lit "1" else lit "0") b
  | IInt v => formatInteger v b
  | IPointer p => insert_pointer p b
  | IChar v => append kSmallBuffer [v] b
  | ICStr (Some str) => append kSmallBuffer str b
  | ICStr None => append kSmallBuffer (lit "(null)") b
  | IString v => append kSmallBuffer v b
  end.

Fixpoint insert_all (l : list item) (b : t) : outcome t :=
  match l with
  | [] => Ret b
  | i :: l' => b' ← insert i b; insert_all l' b'
  end.

(** ** Specification *)

Definition show_item (i : item) : bytes :=
  match i with
  | IBool v => if v then lit "1" else lit "0"
  | IInt v => show v
  | IPointer p => lit "0x" ++ show_hex p
  | IChar v => [v]
  | ICStr (Some str) => str
  | ICStr None => lit "(null)"
  | IString v => v
  end.

Definition numeric (i : item) : bool :=
  match i with IInt _ | IPointer _ => true | _ => false end.

(** Does the item fit after [n] bytes? *)
Definition item_fits (n : Z) (i : item) : bool :=
  if numeric i then kMaxNumericSize <=? kSmallBuffer - n else zlen (show_item i) <? kSmallBuffer - n.

Fixpoint spec_all (l : list item) (acc : bytes) : bytes :=
  match l with
  | [] => acc
  | i :: l' => spec_all l' (if item_fits (zlen acc) i then acc ++ show_item i else acc)
  end.

(** The value of an argument is one of its C++ type. *)
Definition item_ok (i : item) : Prop :=
  match i with
  | IInt v => - 2 ^ 63 <= v < 2 ^ 64
  | IPointer p => 0 <= p < 2 ^ 64
  | _ => True
  end.

Lemma zlen_show v : - 2 ^ 63 <= v < 2 ^ 64 -> zlen (show v) + 1 <= 32.
Proof.
  intros H. unfold show. destruct (v <? 0) eqn:E; bools.
  - pose proof (zlen_show_nonneg (- v) 20). rewrite zlen_app. change (zlen (lit "-")) with 1. lia.
  - pose proof (zlen_show_nonneg v 20). lia.
Qed.

Lemma zlen_text b : wf kSmallBuffer b -> zlen (text b) = cur_ b.
Proof.
  intros [Hd Hc]. unfold text, slice, zlen in *. change (Z.to_nat 0) with 0%nat.
  rewrite drop_0, length_take. lia.
Qed.

Lemma stream_insert_ok i b : wf kSmallBuffer b -> item_ok i -> returns (insert i b) (fun b' =>
  wf kSmallBuffer b' /\
  text b' = if item_fits (zlen (text b)) i then text b ++ show_item i else text b).
Proof.
  intros W Hi. assert (0 < kSmallBuffer < 2 ^ 31) as Hs by (unfold kSmallBuffer; lia).
  unfold item_fits. destruct i as [v|v|p|c|[s|]|s]; cbn [insert numeric show_item];
    try (by apply fixed_append_ok).
  - unfold formatInteger. rewrite avail_ok, zlen_text by done. destruct (_ <=? _) eqn:E; [|done].
    rewrite convert_show, bind_Ret. bools. unfold kMaxNumericSize in *.
    apply (write_current_ok kSmallBuffer); [done|lia|by apply zlen_show].
  - unfold insert_pointer. rewrite avail_ok, zlen_text by done. destruct (_ <=? _) eqn:E; [|done].
    cbn in Hi. rewrite convertHex_show, bind_Ret by lia. bools. unfold kMaxNumericSize in *.
    apply (write_current_ok kSmallBuffer); [done|lia|]. rewrite zlen_app.
    change (zlen (lit "0x")) with 2. pose proof (zlen_show_hex p 16). lia.
Qed.

Lemma insert_all_ok l : forall b, wf kSmallBuffer b -> Forall item_ok l ->
  returns (insert_all l b) (fun b' => wf kSmallBuffer b' /\ text b' = spec_all l (text b)).
Proof.
  induction l as [|i l IH]; intros b W Hl; cbn [insert_all spec_all]; [done|].
  inversion Hl as [|? ? Hi Hl']; subst. eapply returns_seq; [by apply stream_insert_ok|].
  intros b' [W' <-]. by apply IH.
Qed.

(** When everything fits nothing is dropped. *)
Lemma spec_all_fits l : forall acc,
  zlen acc + zlen (concat (map show_item l)) + kMaxNumericSize <= kSmallBuffer ->
  spec_all l acc = acc ++ concat (map show_item l).
Proof.
  induction l as [|i l IH]; intros acc H; cbn [spec_all map concat] in *; [by rewrite app_nil_r|].
  rewrite zlen_app in H. assert (0 <= zlen (show_item i)) by (unfold zlen; lia).
  assert (0 <= zlen (concat (map show_item l))) by (unfold zlen; lia).
  assert (item_fits (zlen acc) i = true) as ->
    by (unfold item_fits, kMaxNumericSize in *; destruct (numeric i); bools; lia).
  rewrite IH by (rewrite zlen_app; lia). by rewrite app_assoc.
Qed.

(** C14. A log line is a sequence of [<<] on a fresh 4000-byte buffer.  Whatever the
    arguments, no byte is written outside the buffer and one byte is always left for
    the NUL; the text is the concatenation of the arguments that fitted, in order,
    each complete; and when the whole text leaves [kMaxNumericSize] bytes free,
    nothing is lost. *)
Theorem log_stream_text (uninitialised : bytes) (l : list item)
    (Hsize : zlen uninitialised = kSmallBuffer) (Hitems : Forall item_ok l) :
  returns (insert_all l (FixedBuffer uninitialised)) (fun b =>
    wf kSmallBuffer b /\ toString b = spec_all l [] /\
    returns (debugString b) (fun b' => toString b' = spec_all l []) /\
    (zlen (concat (map show_item l)) + kMaxNumericSize <= kSmallBuffer ->
     toString b = concat (map show_item l))).
Proof.
  assert (wf kSmallBuffer (FixedBuffer uninitialised)) as W by (unfold wf, kSmallBuffer in *; cbn; lia).
  eapply returns_mono; [|by apply insert_all_ok]. intros b [Wb E]. pose proof Wb as [Hd Hc].
  change (text (FixedBuffer uninitialised)) with (@nil byte) in E.
  assert (toString b = text b) as Et.
  { unfold toString, length_of, text. rewrite s32_id by (unfold kSmallBuffer in *; lia). done. }
  rewrite Et, E. split_and!; [done..| |].
  - unfold debugString. rewrite store_ok, bind_Ret by (change (zlen [x00]) with 1; lia). cbn [returns].
    unfold toString, length_of. cbn [cur_ data_]. rewrite s32_id by (unfold kSmallBuffer in *; lia).
    rewrite <- E. unfold text.
    pose proof (slice_store (cur_ b) [] [x00] (data_ b)) as Hst. change (zlen []) with 0 in Hst.
    rewrite Z.add_0_r, app_nil_r in Hst. apply Hst; [lia|]. change (zlen ([] ++ [x00])) with 1. lia.
  - intros Hfit. apply (spec_all_fits l []). done.
Qed.

Lemma log_stream_text_witness :
  let l := [IChar "n"%byte; IInt (-42); ICStr None; IPointer 255; IString (lit "ok")] in
  returns (insert_all l (FixedBuffer (replicate 4000 x00))) (fun b =>
    wf kSmallBuffer b /\ toString b = spec_all l [] /\
    returns (debugString b) (fun b' => toString b' = spec_all l []) /\
    (zlen (concat (map show_item l)) + kMaxNumericSize <= kSmallBuffer ->
     toString b = concat (map show_item l))).
Proof.
  apply (log_stream_text (replicate 4000 x00)).
  - vm_compute. reflexivity.
  - repeat constructor; cbn; lia.
Defined.

End LogStream.
