(* ===== verification/TimeZone.v ===== *)
(** * Timestamp.h/.cc and TimeZone.h/.cc: instants, UTC and local time

    gmtime_r(3) and timegm(3) of the C library appear as the Gregorian calendar of
    [Calendar]; [toUtcTime] and [fromUtcTime] are the repository's own versions of
    them and are proved to agree with it.  A zone file is a list of transitions;
    [findLocaltime] searches it with std::lower_bound, modelled as the bisection the
    C++ library performs. *)

From S2P Require Import Prelude Endian Format Calendar.
From Stdlib Require Import SpecFloat.

Module Timestamp.

Definition kMicroSecondsPerSecond : Z := 1000 * 1000.

(** [microSecondsSinceEpoch_] *)
Record t := Timestamp { microSecondsSinceEpoch_ : Z }.

#[export] Instance Timestamp_eq_dec : EqDecision t.
Proof. solve_decision. Defined.

Definition invalid : t := Timestamp 0.
Definition valid (x : t) : bool := 0 <? microSecondsSinceEpoch_ x.
Definition lt (x y : t) : bool := microSecondsSinceEpoch_ x <? microSecondsSinceEpoch_ y.
Definition secondsSinceEpoch (x : t) : Z := Z.quot (microSecondsSinceEpoch_ x) kMicroSecondsPerSecond.
Definition fromUnixTime (s microseconds : Z) : outcome t :=
  m ← i64 (s * kMicroSecondsPerSecond); u ← i64 (m + microseconds); Ret (Timestamp u).

Definition toString (x : t) : bytes :=
  let seconds := Z.quot (microSecondsSinceEpoch_ x) kMicroSecondsPerSecond in
  let microseconds := Z.rem (microSecondsSinceEpoch_ x) kMicroSecondsPerSecond in
  snprintf 31 (show seconds ++ lit "." ++ pad0 6 microseconds).

(** IEEE double precision. *)
Definition double := spec_float.
Definition double_of_Z (z : Z) : double := binary_normalize 53 1024 z 0 false.
Definition double_mul (x y : double) : double := SFmul 53 1024 x y.
Definition double_div (x y : double) : double := SFdiv 53 1024 x y.

(** [static_cast<int64_t>] of a double: truncation, undefined when out of range. *)
Definition int64_of_double (x : double) : outcome Z :=
  match x with
  | S754_zero _ => Ret 0
  | S754_finite s m e =>
      let a := if 0 <=? e then Z.pos m * 2 ^ e else Z.pos m / 2 ^ (- e) in
      i64 (if s then - a else a)
  | _ => Crash IntOverflow
  end.

Definition timeDifference (high low : t) : outcome double :=
  diff ← i64 (microSecondsSinceEpoch_ high - microSecondsSinceEpoch_ low);
  Ret (double_div (double_of_Z diff) (double_of_Z kMicroSecondsPerSecond)).

Definition addTime (timestamp : t) (seconds : double) : outcome t :=
  delta ← int64_of_double (double_mul seconds (double_of_Z kMicroSecondsPerSecond));
  u ← i64 (microSecondsSinceEpoch_ timestamp + delta);
  Ret (Timestamp u).

End Timestamp.

(** [struct tm] *)
Record tm := mktm {
  tm_sec : Z; tm_min : Z; tm_hour : Z; tm_mday : Z; tm_mon : Z; tm_year : Z;
  tm_wday : Z; tm_yday : Z; tm_isdst : bool; tm_gmtoff : Z; tm_zone : bytes
}.

(** gmtime_r(3): the broken-down time in the Gregorian calendar, days as
    flooring divisions. *)
Definition civil (j : Z) : Date.YearMonthDay :=
  let a := j + 32044 in
  let b := (4 * a + 3) / 146097 in
  let c := a - b * 146097 / 4 in
  let d := (4 * c + 3) / 1461 in
  let e := c - 1461 * d / 4 in
  let m := (5 * e + 2) / 153 in
  Date.ymd (b * 100 + d - 4800 + m / 10) (m + 3 - 12 * (m / 10)) (e - (153 * m + 2) / 5 + 1).

Definition gmtime_r (s : Z) : tm :=
  let j := s / 86400 + 2440588 in
  let secs := s mod 86400 in
  let d := civil j in
  mktm (secs mod 60) (secs / 60 mod 60) (secs / 3600)
    (Date.day d) (Date.month d - 1) (Date.year d - 1900)
    ((j + 1) mod 7) (j - Date.jdn (Date.ymd (Date.year d) 1 1)) false 0 (lit "GMT").

(** timegm(3) *)
Definition timegm (t : tm) : Z :=
  (Date.jdn (Date.ymd (tm_year t + 1900) (tm_mon t + 1) (tm_mday t)) - 2440588) * 86400
  + tm_hour t * 3600 + tm_min t * 60 + tm_sec t.

Module TimeZone.

Definition kSecondsPerDay : Z := 24 * 60 * 60.
Definition kJulianDayOf1970_01_01 : Z :=
  match Date.getJulianDayNumber 1970 1 1 with Ret j => j | Crash _ => 0 end.

Record Transition := mkTransition { gmttime : Z; localtime : Z; localtimeIdx : Z }.
Record Localtime := mkLocaltime { gmtOffset : Z; isDst : bool; arrbIdx : Z }.

(** [TimeZone::Data] ([names] is never filled). *)
Record Data := mkData {
  transitions : list Transition; localtimes : list Localtime; abbreviation : bytes
}.

(** [Comp(compareGmt)] and its [equal]. *)
Definition Comp (compareGmt : bool) (lhs rhs : Transition) : bool :=
  if compareGmt then gmttime lhs <? gmttime rhs else localtime lhs <? localtime rhs.
Definition Comp_equal (compareGmt : bool) (lhs rhs : Transition) : bool :=
  if compareGmt then gmttime lhs =? gmttime rhs else localtime lhs =? localtime rhs.

(** [fillHMS]: hour, minute, second. *)
Definition fillHMS (seconds : Z) : Z * Z * Z :=
  let s := seconds mod 60 in
  let minutes := seconds / 60 in
  (minutes / 60, minutes mod 60, s).

(** std::lower_bound: the bisection over [first, first + len). *)
Fixpoint lower_bound_loop (fuel : nat) (comp : Transition -> Transition -> bool)
    (l : list Transition) (val : Transition) (first len : nat) : outcome nat :=
  match fuel with
  | O => Crash OutOfFuel
  | S fuel' =>
      if (len =? 0)%nat then Ret first
      else
        let half := Nat.div2 len in
        let middle := (first + half)%nat in
        match l !! middle with
        | None => Crash OutOfRange
        | Some x =>
            if comp x val then lower_bound_loop fuel' comp l val (S middle) (len - half - 1)
            else lower_bound_loop fuel' comp l val first half
        end
  end.
Definition lower_bound (comp : Transition -> Transition -> bool) (l : list Transition)
    (val : Transition) : outcome nat :=
  lower_bound_loop (S (length l)) comp l val 0 (length l).

(** [v[i]] and [v.front()] of a vector. *)
Definition at_ {A} (l : list A) (i : Z) : outcome A :=
  if (0 <=? i) && (i <? zlen l)
  then match l !! Z.to_nat i with Some x => Ret x | None => Crash OutOfRange end
  else Crash OutOfRange.

Definition findLocaltime (data : Data) (sentry : Transition) (compareGmt : bool) : outcome Localtime :=
  let comp := Comp compareGmt in
  match transitions data with
  | [] => at_ (localtimes data) 0
  | front :: _ =>
      if comp sentry front then at_ (localtimes data) 0
      else
        i ← lower_bound comp (transitions data) sentry;
        match transitions data !! i with
        | Some transI =>
            if negb (Comp_equal compareGmt sentry transI) then
              _ ← check (negb (i =? 0)%nat);
              match transitions data !! (i - 1)%nat with
              | Some prev => at_ (localtimes data) (localtimeIdx prev)
              | None => Crash OutOfRange
              end
            else at_ (localtimes data) (localtimeIdx transI)
        | None =>
            match transitions data !! (length (transitions data) - 1)%nat with
            | Some back => at_ (localtimes data) (localtimeIdx back)
            | None => Crash OutOfRange
            end
        end
  end.

(** The fixed zone of the constructor [TimeZone(eastOfUtc, name)]. *)
Definition TimeZone_fixed (eastOfUtc : Z) (name : bytes) : Data :=
  mkData [] [mkLocaltime eastOfUtc false 0] name.

(** [&abbreviation[i]] as a C string. *)
Definition c_string (s : bytes) : bytes :=
  match find_byte x00 s with Some n => take n s | None => s end.
Definition zone_name (abbr : bytes) (i : Z) : outcome bytes :=
  if (0 <=? i) && (i <=? zlen abbr) then Ret (c_string (drop (Z.to_nat i) abbr)) else Crash OutOfRange.

Definition toLocalTime (data_ : option Data) (seconds : Z) : outcome tm :=
  match data_ with
  | None => Crash AssertFailed
  | Some data =>
      local ← findLocaltime data (mkTransition seconds 0 0) true;
      localSeconds ← i64 (seconds + gmtOffset local);
      let t := gmtime_r localSeconds in
      zone ← zone_name (abbreviation data) (arrbIdx local);
      Ret (mktm (tm_sec t) (tm_min t) (tm_hour t) (tm_mday t) (tm_mon t) (tm_year t)
             (tm_wday t) (tm_yday t) (isDst local) (gmtOffset local) zone)
  end.

Definition fromLocalTime (data_ : option Data) (localTm : tm) : outcome Z :=
  match data_ with
  | None => Crash AssertFailed
  | Some data =>
      let seconds := timegm localTm in
      local ← findLocaltime data (mkTransition 0 seconds 0) false;
      seconds' ←
        (if tm_isdst localTm then
           s ← i64 (seconds - gmtOffset local);
           tryTm ← toLocalTime data_ s;
           if negb (tm_isdst tryTm) && (tm_hour tryTm =? tm_hour localTm)
              && (tm_min tryTm =? tm_min localTm)
           then i64 (seconds - 3600) else Ret seconds
         else Ret seconds);
      i64 (seconds' - gmtOffset local)
  end.

(** The first lines of [toUtcTime]: seconds of the day and days. *)
Definition utc_split (secondsSinceEpoch : Z) : outcome (Z * Z) :=
  let seconds := s32 (Z.rem secondsSinceEpoch kSecondsPerDay) in
  let days := s32 (Z.quot secondsSinceEpoch kSecondsPerDay) in
  if seconds <? 0 then
    s ←ᵢ seconds + kSecondsPerDay; d ←ᵢ days - 1; Ret (s, d)
  else Ret (seconds, days).

Definition toUtcTime (secondsSinceEpoch : Z) (yday : bool) : outcome tm :=
  sd ← utc_split secondsSinceEpoch;
  let hms := fillHMS (u32 (fst sd)) in
  let days : Z := snd sd in
  j ←ᵢ days + kJulianDayOf1970_01_01;
  let date := Date.Date j in
  ymd ← Date.yearMonthDay date;
  year ←ᵢ Date.year ymd - 1900;
  mon ←ᵢ Date.month ymd - 1;
  wday ← Date.weekDay date;
  yd ← (if yday then
          startOfYear ← Date.Date_of_ymd (Date.year ymd) 1 1;
          int_eval (Date.julianDayNumber_ date - Date.julianDayNumber_ startOfYear)
        else Ret 0);
  Ret (mktm (snd hms) (snd (fst hms)) (fst (fst hms)) (Date.day ymd) mon year wday yd false 0 (lit "GMT")).

Definition fromUtcTime_ymd (year month day hour minute seconds : Z) : outcome Z :=
  date ← Date.Date_of_ymd year month day;
  secondsInDay ←ᵢ hour * 3600 + minute * 60 + seconds;
  days ←ᵢ Date.julianDayNumber_ date - kJulianDayOf1970_01_01;
  m ← i64 (days * kSecondsPerDay);
  i64 (m + secondsInDay).

Definition fromUtcTime (utc : tm) : outcome Z :=
  y ←ᵢ tm_year utc + 1900;
  m ←ᵢ tm_mon utc + 1;
  fromUtcTime_ymd y m (tm_mday utc) (tm_hour utc) (tm_min utc) (tm_sec utc).

(** ** UTC *)

Lemma civil_ok j : 0 <= j <= 500000000 ->
  Date.calendar_date (civil j) /\ Date.supported (civil j) /\ Date.jdn (civil j) = j /\
  Date.getYearMonthDay j = Ret (civil j).
Proof.
  intros Hj. destruct (Date.jdn_onto j) as (d & Hc & E); [lia|].
  pose proof (Date.jdn_supported d Hc ltac:(lia)) as Hs.
  assert (civil j = d) as ->.
  { destruct (Date.calendar_date_scale d Hc) as (He & Hl & Em & Hm & Ed & Emo & Ey).
    pose proof (Date.year'_range d Hc Hs) as Hy.
    pose proof (Date.scale_inverse _ _ (proj1 Hy) He Hl) as (Hb & _ & Hd & Hday).
    rewrite Date.jdn_scale in E. unfold civil. cbv zeta.
    replace (j + 32044) with (Date.scale (Date.year' d) (Date.day' d)) by lia.
    rewrite Hday, Em, Ed, Emo, Hd, Hb. destruct d as [y m dd]. cbn in *. f_equal.
    pose proof (Z.div_mod (Date.year' (Date.ymd y m dd)) 100). lia. }
  split_and!; try done. by rewrite <- E, Date.getYearMonthDay_jdn.
Qed.

Lemma kJulianDay_eq : kJulianDayOf1970_01_01 = 2440588.
Proof. reflexivity. Qed.

(** Truncating division with the correction is flooring division. *)
Lemma trunc_floor s k : 0 < k ->
  (Z.rem s k < 0 -> s mod k = Z.rem s k + k /\ s / k = Z.quot s k - 1) /\
  (0 <= Z.rem s k -> s mod k = Z.rem s k /\ s / k = Z.quot s k).
Proof.
  intros Hk. pose proof (Z.quot_rem s k) as E. pose proof (Z.rem_bound_abs s k) as B.
  split; intros H.
  - assert (s / k = Z.quot s k - 1) by (symmetry; apply (Z.div_unique_pos _ _ _ (Z.rem s k + k)); lia).
    pose proof (Z.div_mod s k). split; lia.
  - assert (s / k = Z.quot s k) by (symmetry; apply (Z.div_unique_pos _ _ _ (Z.rem s k)); lia).
    pose proof (Z.div_mod s k). split; lia.
Qed.

(** The instants whose day number is a supported one. *)
Definition utc_range (s : Z) : Prop := 0 <= s / 86400 + 2440588 <= 500000000.

Lemma fillHMS_ok s : 0 <= s < 86400 ->
  fillHMS (u32 s) = (s / 3600, s / 60 mod 60, s mod 60).
Proof.
  intros Hs. unfold fillHMS, u32. rewrite (Z.mod_small s (2 ^ 32)) by lia.
  rewrite Z.div_div by lia. done.
Qed.

(** The start of the year is a date of the same year. *)
Lemma start_of_year d : Date.calendar_date d -> Date.supported d ->
  Date.Date_of_ymd (Date.year d) 1 1 = Ret (Date.Date (Date.jdn (Date.ymd (Date.year d) 1 1))).
Proof.
  intros Hc Hs. unfold Date.Date_of_ymd.
  pose proof (Date.getJulianDayNumber_jdn (Date.ymd (Date.year d) 1 1)) as E.
  cbn [Date.year Date.month Date.day] in E. rewrite E by (done || lia). done.
Qed.

Lemma year_day_range d : Date.calendar_date d ->
  0 <= Date.jdn d - Date.jdn (Date.ymd (Date.year d) 1 1) <= 365.
Proof.
  destruct d as [y m d]. unfold Date.calendar_date, Date.jdn, Date.days_in_month, Date.leap.
  cbn [Date.year Date.month Date.day]. intros [Hm Hd]. apply Date.month_cases in Hm.
  repeat destruct Hm as [->|Hm]; [..|subst m]; cbv zeta;
    cbn -[Z.mul Z.add Z.sub Z.div Z.modulo] in *;
    try (destruct ((y mod 4 =? 0) && (negb (y mod 100 =? 0) || (y mod 400 =? 0))) eqn:E; bools);
    Z.to_euclidean_division_equations; lia.
Qed.

Lemma utc_split_ok s : utc_range s -> utc_split s = Ret (s mod 86400, s / 86400).
Proof.
  intros Hr. destruct (trunc_floor s 86400) as [Hneg Hpos]; [lia|]. unfold utc_range in Hr.
  assert (- 86400 < Z.rem s 86400 < 86400) as Hrem by (pose proof (Z.rem_bound_abs s 86400); lia).
  unfold utc_split. change kSecondsPerDay with 86400. rewrite (s32_id (Z.rem s 86400)) by lia.
  assert (- 2440588 <= Z.quot s 86400 <= 500000000) as Hq.
  { destruct (Z.lt_ge_cases (Z.rem s 86400) 0) as [H|H].
    - destruct (Hneg H). lia.
    - destruct (Hpos H). lia. }
  rewrite (s32_id (Z.quot s 86400)) by lia. destruct (_ <? 0) eqn:E; bools.
  - destruct (Hneg E) as [-> ->]. rewrite !int_bind by Date.fits. done.
  - destruct (Hpos E) as [-> ->]. done.
Qed.

Lemma toUtcTime_ok s yday : utc_range s ->
  toUtcTime s yday = Ret (let t := gmtime_r s in
    mktm (tm_sec t) (tm_min t) (tm_hour t) (tm_mday t) (tm_mon t) (tm_year t) (tm_wday t)
      (if yday then tm_yday t else 0) false 0 (lit "GMT")).
Proof.
  intros Hr. assert (0 <= s mod 86400 < 86400) as Hmod by (apply Z.mod_pos_bound; lia).
  unfold toUtcTime. rewrite utc_split_ok by done. unfold utc_range in Hr.
  rewrite bind_Ret. cbn [fst snd]. rewrite fillHMS_ok by done. cbn [fst snd].
  change kJulianDayOf1970_01_01 with 2440588. rewrite int_bind by Date.fits. cbn [int_val].
  set (j := s / 86400 + 2440588) in *. destruct (civil_ok j Hr) as (Hc & Hs & Ej & Eg).
  unfold Date.yearMonthDay. cbn [Date.julianDayNumber_]. rewrite Eg, bind_Ret.
  pose proof (Date.calendar_day_31 _ Hc) as Hday. pose proof Hc as [Hmon _]. pose proof Hs as Hyear.
  unfold Date.supported in Hyear.
  rewrite int_bind by Date.fits. cbn [int_val]. rewrite int_bind by Date.fits. cbn [int_val].
  unfold Date.weekDay, Date.kDaysPerWeek. cbn [Date.julianDayNumber_].
  assert (int_eval ((j + 1) mod 7) = Ret ((j + 1) mod 7)%Z) as ->.
  { rewrite int_eval_ok; cbn [int_val]; [by rewrite Z.rem_mod_nonneg by lia|].
    Date.fits; pose proof (Z.rem_bound_pos (j + 1) 7); lia. }
  rewrite bind_Ret. pose proof (year_day_range _ Hc) as Hyd. rewrite Ej in Hyd.
  destruct yday.
  - rewrite start_of_year, bind_Ret by done. cbn [Date.julianDayNumber_].
    rewrite int_bind by (Date.fits). cbn [int_val]. done.
  - done.
Qed.

Lemma hms_sum s : 0 <= s -> s / 3600 * 3600 + s / 60 mod 60 * 60 + s mod 60 = s.
Proof.
  intros Hs. replace (s / 3600) with (s / 60 / 60) by (by rewrite Z.div_div by lia).
  pose proof (Z.div_mod s 60). pose proof (Z.div_mod (s / 60) 60). lia.
Qed.

Lemma timegm_gmtime s : utc_range s -> timegm (gmtime_r s) = s.
Proof.
  intros Hr. destruct (civil_ok _ Hr) as (_ & _ & Ej & _). unfold timegm, gmtime_r. cbv zeta.
  cbn [tm_year tm_mon tm_mday tm_hour tm_min tm_sec].
  rewrite !Z.sub_add. destruct (civil (s / 86400 + 2440588)) as [y m d].
  cbn [Date.year Date.month Date.day] in *. rewrite Ej.
  pose proof (hms_sum (s mod 86400)). pose proof (Z.mod_pos_bound s 86400).
  pose proof (Z.div_mod s 86400). lia.
Qed.

Lemma fromUtcTime_ok s t : utc_range s ->
  tm_sec t = tm_sec (gmtime_r s) -> tm_min t = tm_min (gmtime_r s) -> tm_hour t = tm_hour (gmtime_r s) ->
  tm_mday t = tm_mday (gmtime_r s) -> tm_mon t = tm_mon (gmtime_r s) -> tm_year t = tm_year (gmtime_r s) ->
  fromUtcTime t = Ret s.
Proof.
  intros Hr. destruct (civil_ok _ Hr) as (Hc & Hs & Ej & _).
  unfold gmtime_r. cbv zeta. cbn [tm_year tm_mon tm_mday tm_hour tm_min tm_sec].
  set (d := civil (s / 86400 + 2440588)) in *. intros E1 E2 E3 E4 E5 E6.
  pose proof (Date.calendar_day_31 _ Hc) as Hday. pose proof Hc as [Hmon _]. pose proof Hs as Hyear.
  unfold Date.supported in Hyear. unfold utc_range in Hr.
  assert (0 <= s mod 86400 < 86400) as Hmod by (apply Z.mod_pos_bound; lia).
  pose proof (hms_sum (s mod 86400) (proj1 Hmod)) as Hsum.
  pose proof (Z.mod_pos_bound (s mod 86400) 60). pose proof (Z.mod_pos_bound (s mod 86400 / 60) 60).
  pose proof (Z.div_mod s 86400).
  unfold fromUtcTime. rewrite E1, E2, E3, E4, E5, E6.
  rewrite int_bind by Date.fits. cbn [int_val]. rewrite int_bind by Date.fits. cbn [int_val].
  rewrite !Z.sub_add. unfold fromUtcTime_ymd, Date.Date_of_ymd.
  rewrite Date.date_days, !bind_Ret by done. cbn [Date.julianDayNumber_].
  rewrite int_bind by Date.fits. cbn [int_val]. change kJulianDayOf1970_01_01 with 2440588.
  rewrite int_bind by Date.fits. cbn [int_val]. change kSecondsPerDay with 86400.
  rewrite Ej. rewrite i64_bind, i64_ok by lia. f_equal. lia.
Qed.

Lemma gmtime_calendar s : utc_range s ->
  Date.calendar_date (Date.ymd (tm_year (gmtime_r s) + 1900) (tm_mon (gmtime_r s) + 1)
    (tm_mday (gmtime_r s))).
Proof.
  intros Hs. destruct (civil_ok _ Hs) as (Hc & _). unfold gmtime_r. cbv zeta.
  cbn [tm_year tm_mon tm_mday]. rewrite !Z.sub_add. by destruct (civil _).
Qed.

(** C15. [TimeZone::toUtcTime] is gmtime(3) and [fromUtcTime] is timegm(3): for every
    instant whose day number is a supported one (before and after the epoch) the
    broken-down time is the one of the Gregorian calendar, with the day of the year
    on request, and converting back gives the instant. *)
Theorem utc_time_round_trip (s : Z) (yday : bool) (Hs : utc_range s) :
  exists t, toUtcTime s yday = Ret t /\ fromUtcTime t = Ret s /\ timegm t = s /\
    tm_year t = tm_year (gmtime_r s) /\ tm_mon t = tm_mon (gmtime_r s) /\
    tm_mday t = tm_mday (gmtime_r s) /\ tm_hour t = tm_hour (gmtime_r s) /\
    tm_min t = tm_min (gmtime_r s) /\ tm_sec t = tm_sec (gmtime_r s) /\
    tm_wday t = tm_wday (gmtime_r s) /\ (yday = true -> tm_yday t = tm_yday (gmtime_r s)) /\
    Date.calendar_date (Date.ymd (tm_year t + 1900) (tm_mon t + 1) (tm_mday t)).
Proof.
  pose proof (toUtcTime_ok s yday Hs) as E. pose proof (gmtime_calendar s Hs) as Hcal.
  pose proof (timegm_gmtime s Hs) as Ht. pose proof (fun t => fromUtcTime_ok s t Hs) as Hf.
  revert E Hcal Ht Hf. generalize (gmtime_r s). intros t E Hcal Ht Hf.
  eexists. split; [exact E|].
  split; [apply Hf; reflexivity|]. split; [exact Ht|]. split_and!; try reflexivity; [|exact Hcal].
  by intros ->.
Qed.

Lemma utc_time_round_trip_witness :
  exists t, toUtcTime (-1) true = Ret t /\ fromUtcTime t = Ret (-1) /\ timegm t = -1 /\
    tm_year t = tm_year (gmtime_r (-1)) /\ tm_mon t = tm_mon (gmtime_r (-1)) /\
    tm_mday t = tm_mday (gmtime_r (-1)) /\ tm_hour t = tm_hour (gmtime_r (-1)) /\
    tm_min t = tm_min (gmtime_r (-1)) /\ tm_sec t = tm_sec (gmtime_r (-1)) /\
    tm_wday t = tm_wday (gmtime_r (-1)) /\ (true = true -> tm_yday t = tm_yday (gmtime_r (-1))) /\
    Date.calendar_date (Date.ymd (tm_year t + 1900) (tm_mon t + 1) (tm_mday t)).
Proof. apply (utc_time_round_trip (-1) true). vm_compute. split; discriminate. Defined.

(** ** Local time *)

Definition key (compareGmt : bool) (t : Transition) : Z :=
  if compareGmt then gmttime t else localtime t.

(** The transitions are in strictly increasing order. *)
Definition increasing (gmt : bool) (l : list Transition) : Prop :=
  forall i j x y, (i < j)%nat -> l !! i = Some x -> l !! j = Some y -> key gmt x < key gmt y.

(** The local time type in force at an instant: the one of the last transition
    that is not after it, and the first type before all transitions. *)
Fixpoint in_force (gmt : bool) (l : list Transition) (s : Z) : option Z :=
  match l with
  | [] => None
  | t :: l' =>
      if key gmt t <=? s
      then Some (match in_force gmt l' s with Some i => i | None => localtimeIdx t end)
      else None
  end.
Definition local_type (gmt : bool) (data : Data) (s : Z) : Z :=
  match in_force gmt (transitions data) s with Some i => i | None => 0 end.

Lemma increasing_tail gmt t l : increasing gmt (t :: l) -> increasing gmt l.
Proof. intros H i j x y Hij Hx Hy. apply (H (S i) (S j) x y); [lia|done..]. Qed.

Lemma in_force_at gmt l s n : increasing gmt l ->
  (forall k x, (k < n)%nat -> l !! k = Some x -> key gmt x <= s) ->
  (forall k x, (n <= k)%nat -> l !! k = Some x -> s < key gmt x) -> (n <= length l)%nat ->
  in_force gmt l s = match n with O => None | S m => localtimeIdx <$> l !! m end.
Proof.
  revert n. induction l as [|t l IH]; intros n Hinc Hlo Hhi Hn; cbn [in_force].
  { destruct n; [done|]. cbn in Hn. lia. }
  destruct n as [|n].
  - rewrite (proj2 (Z.leb_gt _ _)); [done|]. apply (Hhi 0%nat); [lia|done].
  - rewrite (proj2 (Z.leb_le _ _)) by (apply (Hlo 0%nat); [lia|done]).
    rewrite (IH n).
    + destruct n as [|n]; [done|]. change ((t :: l) !! S n) with (l !! n).
      destruct (lookup_lt_is_Some_2 l n) as [x Hx]; [cbn in Hn; lia|]. by rewrite Hx.
    + by eapply increasing_tail.
    + intros k x Hk Hx. apply (Hlo (S k)); [lia|done].
    + intros k x Hk Hx. apply (Hhi (S k)); [lia|done].
    + cbn in Hn. lia.
Qed.

Lemma Comp_key gmt x y : Comp gmt x y = (key gmt x <? key gmt y).
Proof. by destruct gmt. Qed.
Lemma Comp_equal_key gmt x y : Comp_equal gmt x y = (key gmt x =? key gmt y).
Proof. by destruct gmt. Qed.

(** The bisection finds the partition point. *)
Lemma lower_bound_loop_ok gmt l val fuel : increasing gmt l -> forall first len,
  (len < fuel)%nat -> (first + len <= length l)%nat ->
  (forall k x, (k < first)%nat -> l !! k = Some x -> key gmt x < key gmt val) ->
  (forall k x, (first + len <= k)%nat -> l !! k = Some x -> key gmt val <= key gmt x) ->
  exists i, lower_bound_loop fuel (Comp gmt) l val first len = Ret i /\ (i <= length l)%nat /\
    (forall k x, (k < i)%nat -> l !! k = Some x -> key gmt x < key gmt val) /\
    (forall k x, (i <= k)%nat -> l !! k = Some x -> key gmt val <= key gmt x).
Proof.
  intros Hinc. induction fuel as [|fuel IH]; intros first len Hf Hl Hlo Hhi; [lia|].
  cbn [lower_bound_loop]. destruct (len =? 0)%nat eqn:E.
  { apply Nat.eqb_eq in E. subst len. rewrite Nat.add_0_r in *. by exists first. }
  apply Nat.eqb_neq in E. pose proof (Nat.lt_div2 len) as Hd. set (half := Nat.div2 len) in *.
  destruct (lookup_lt_is_Some_2 l (first + half)) as [x Hx]; [lia|]. rewrite Hx.
  rewrite Comp_key. destruct (key gmt x <? key gmt val) eqn:C; bools.
  - apply IH; [lia|lia| |].
    + intros k y Hk Hy. destruct (Nat.eq_dec k (first + half)) as [->|]; [by simplify_eq|].
      pose proof (Hinc k (first + half)%nat y x ltac:(lia) Hy Hx). lia.
    + intros k y Hk. apply Hhi. lia.
  - apply IH; [lia|lia|done|]. intros k y Hk Hy.
    destruct (Nat.eq_dec k (first + half)) as [->|]; [by simplify_eq|].
    pose proof (Hinc (first + half)%nat k x y ltac:(lia) Hx Hy). lia.
Qed.

Lemma lower_bound_ok gmt l val : increasing gmt l ->
  exists i, lower_bound (Comp gmt) l val = Ret i /\ (i <= length l)%nat /\
    (forall k x, (k < i)%nat -> l !! k = Some x -> key gmt x < key gmt val) /\
    (forall k x, (i <= k)%nat -> l !! k = Some x -> key gmt val <= key gmt x).
Proof.
  intros Hinc. apply lower_bound_loop_ok; [done|lia|lia| |].
  - intros k x Hk. lia.
  - intros k x Hk Hx. apply lookup_lt_Some in Hx. lia.
Qed.

Lemma findLocaltime_ok data sentry gmt : increasing gmt (transitions data) ->
  findLocaltime data sentry gmt = at_ (localtimes data) (local_type gmt data (key gmt sentry)).
Proof.
  intros Hinc. unfold findLocaltime, local_type. set (s := key gmt sentry).
  destruct (transitions data) as [|front l] eqn:El; [done|]. rewrite <- El in *.
  rewrite Comp_key. fold s. destruct (s <? key gmt front) eqn:C; bools.
  { rewrite (in_force_at gmt _ s 0); [done|done|lia| |lia]. intros [|k] x _ Hx; rewrite El in Hx.
    - injection Hx as <-. done.
    - pose proof (Hinc 0%nat (S k) front x ltac:(lia)) as H. rewrite El in H. specialize (H eq_refl Hx). lia. }
  destruct (lower_bound_ok gmt (transitions data) sentry Hinc) as (i & -> & Hi & Hlo & Hhi).
  rewrite bind_Ret. fold s in Hlo, Hhi. destruct (transitions data !! i) as [x|] eqn:Hx.
  - rewrite Comp_equal_key. fold s. destruct (s =? key gmt x) eqn:E; bools; cbn [negb].
    + rewrite (in_force_at gmt _ s (S i)); [by rewrite Hx|done| | |apply lookup_lt_Some in Hx; lia].
      * intros k y Hk Hy. destruct (Nat.eq_dec k i) as [->|]; [simplify_eq; lia|].
        pose proof (Hlo k y ltac:(lia) Hy). lia.
      * intros k y Hk Hy. pose proof (Hinc i k x y ltac:(lia) Hx Hy). lia.
    + assert (i <> 0%nat) as Hi0.
      { intros ->. rewrite El in Hx. injection Hx as <-. pose proof (Hhi 0%nat front (le_n _)) as H.
        rewrite El in H. specialize (H eq_refl). lia. }
      rewrite check_bind by (by apply negb_true_iff, Nat.eqb_neq).
      destruct i as [|m]; [done|]. replace (S m - 1)%nat with m by lia.
      rewrite (in_force_at gmt _ s (S m)); [|done| | |lia].
      * destruct (lookup_lt_is_Some_2 (transitions data) m) as [y Hy]; [lia|]. by rewrite Hy.
      * intros k y Hk Hy. pose proof (Hlo k y Hk Hy). lia.
      * intros k y Hk Hy. pose proof (Hhi k y Hk Hy). destruct (Nat.eq_dec k (S m)) as [->|]; [simplify_eq; lia|].
        pose proof (Hinc (S m) k x y ltac:(lia) Hx Hy). pose proof (Hhi (S m) x (le_n _) Hx). lia.
  - assert (i = length (transitions data)) as -> by (apply lookup_ge_None in Hx; lia).
    rewrite El at 1. cbn [length]. destruct (lookup_lt_is_Some_2 (transitions data) (length l)) as [y Hy].
    { rewrite El. cbn. lia. }
    replace (S (length l) - 1)%nat with (length l) by lia. rewrite Hy.
    rewrite (in_force_at gmt _ s (S (length l))); [by rewrite Hy|done| | |rewrite El; cbn; lia].
    + intros k z Hk Hz. rewrite El in Hlo. pose proof (Hlo k z) as H. cbn [length] in H.
      rewrite El in Hz. specialize (H ltac:(lia) Hz). lia.
    + intros k z Hk Hz. apply lookup_lt_Some in Hz. rewrite El in Hz. cbn in Hz. lia.
Qed.

(** The type in force at [s] and its entry. *)
Definition zone_at (data : Data) (s : Z) (local : Localtime) : Prop :=
  0 <= local_type true data s /\
  localtimes data !! Z.to_nat (local_type true data s) = Some local /\
  0 <= arrbIdx local <= zlen (abbreviation data).

Lemma at_ok {A} (l : list A) i x : 0 <= i -> l !! Z.to_nat i = Some x -> at_ l i = Ret x.
Proof.
  intros Hi Hx. unfold at_. pose proof (lookup_lt_Some _ _ _ Hx).
  rewrite (proj2 (Z.leb_le _ _)), (proj2 (Z.ltb_lt _ _)), Hx by (unfold zlen; lia). done.
Qed.

Definition local_tm (data : Data) (s : Z) (local : Localtime) : tm :=
  let t := gmtime_r (s + gmtOffset local) in
  mktm (tm_sec t) (tm_min t) (tm_hour t) (tm_mday t) (tm_mon t) (tm_year t) (tm_wday t) (tm_yday t)
    (isDst local) (gmtOffset local) (c_string (drop (Z.to_nat (arrbIdx local)) (abbreviation data))).

Lemma toLocalTime_ok data s local : increasing true (transitions data) -> zone_at data s local ->
  - 2 ^ 63 <= s + gmtOffset local < 2 ^ 63 ->
  toLocalTime (Some data) s = Ret (local_tm data s local).
Proof.
  intros Hinc (Hi & Hl & Ha) Hs. unfold toLocalTime. rewrite findLocaltime_ok by done.
  cbn [key gmttime]. rewrite (at_ok _ _ local), bind_Ret by done. rewrite i64_bind by done.
  unfold zone_name. rewrite (proj2 (Z.leb_le _ _)), (proj2 (Z.leb_le _ _)) by lia. done.
Qed.

(** timegm(3) does not read the other fields. *)
Lemma timegm_fields t wday yday dst off zone :
  timegm (mktm (tm_sec t) (tm_min t) (tm_hour t) (tm_mday t) (tm_mon t) (tm_year t) wday yday dst off zone)
  = timegm t.
Proof. by destruct t. Qed.

Lemma timegm_local_tm data s local : utc_range (s + gmtOffset local) ->
  timegm (local_tm data s local) = s + gmtOffset local.
Proof. intros H. unfold local_tm. cbv zeta. rewrite timegm_fields. by apply timegm_gmtime. Qed.

(** C16. Local time: for a zone whose transitions are in order, [toLocalTime] is the
    UTC calendar shifted by the offset of the type in force at that instant (the
    bisection of [findLocaltime] never leaves the table and its assertion holds), and
    [fromLocalTime] takes the result back to the instant whenever that local time is
    not ambiguous, daylight saving or not. *)
Theorem local_time_round_trip (data : Data) (s : Z) (local : Localtime)
    (Hgmt : increasing true (transitions data)) (Hloc : increasing false (transitions data))
    (Hzone : zone_at data s local) (Hrange : utc_range (s + gmtOffset local)) (Hs : utc_range s)
    (Hunambiguous : local_type false data (s + gmtOffset local) = local_type true data s) :
  toLocalTime (Some data) s = Ret (local_tm data s local) /\
  fromLocalTime (Some data) (local_tm data s local) = Ret s.
Proof.
  assert (forall x, utc_range x -> - 2 ^ 63 <= x < 2 ^ 63) as Hb.
  { intros x Hx. unfold utc_range in Hx. pose proof (Date.div_bounds x 86400). lia. }
  pose proof (Hb _ Hrange) as Hb1. pose proof (Hb _ Hs) as Hb2.
  pose proof (toLocalTime_ok data s local Hgmt Hzone Hb1) as El. split; [exact El|].
  destruct Hzone as (Hi & Hl & Ha). unfold fromLocalTime. rewrite timegm_local_tm by done.
  rewrite findLocaltime_ok by done. cbn [key localtime]. rewrite Hunambiguous, (at_ok _ _ local), bind_Ret by done.
  replace (s + gmtOffset local - gmtOffset local) with s by lia.
  assert (forall t, t = local_tm data s local -> tm_isdst t = isDst local) as Hd by (intros t ->; reflexivity).
  rewrite (Hd _ eq_refl). destruct (isDst local) eqn:Hdst.
  - rewrite i64_bind, El, bind_Ret by done. rewrite (Hd _ eq_refl). cbn [negb andb].
    rewrite bind_Ret. replace (s + gmtOffset local - gmtOffset local) with s by lia. by apply i64_ok.
  - rewrite bind_Ret. replace (s + gmtOffset local - gmtOffset local) with s by lia. by apply i64_ok.
Qed.

(** Two transitions, an hour of daylight saving between them. *)
Definition demo_zone : Data :=
  mkData [mkTransition 1000000 1007200 1; mkTransition 2000000 2003600 0]
    [mkLocaltime 3600 false 0; mkLocaltime 7200 true 4] (lit "CET" ++ [x00] ++ lit "CEST" ++ [x00]).

Lemma local_time_round_trip_witness :
  toLocalTime (Some demo_zone) 1500000 = Ret (local_tm demo_zone 1500000 (mkLocaltime 7200 true 4)) /\
  fromLocalTime (Some demo_zone) (local_tm demo_zone 1500000 (mkLocaltime 7200 true 4)) = Ret 1500000.
Proof.
  apply (local_time_round_trip demo_zone 1500000 (mkLocaltime 7200 true 4)).
  - intros [|[|i]] [|[|j]] x y Hij Hx Hy; try lia; try discriminate. by simplify_eq/=.
  - intros [|[|i]] [|[|j]] x y Hij Hx Hy; try lia; try discriminate. by simplify_eq/=.
  - split_and!; vm_compute; try reflexivity; discriminate.
  - vm_compute. split; discriminate.
  - vm_compute. split; discriminate.
  - vm_compute. reflexivity.
Defined.

(** ** Zone files

    A reading operation on the unread part of the file and the [Data] being filled:
    it may throw a [logic_error], which keeps what was stored so far. *)

Definition reader (A : Type) : Type := bytes -> Data -> outcome (option (A * bytes) * Data).

Definition rret {A} (x : A) : reader A := fun f d => Ret (Some (x, f), d).
Definition throw {A} : reader A := fun f d => Ret (None, d).
Definition rbind {A B} (m : reader A) (k : A -> reader B) : reader B := fun f d =>
  match m f d with
  | Crash e => Crash e
  | Ret (None, d') => Ret (None, d')
  | Ret (Some (x, f'), d') => k x f' d'
  end.
Local Notation "'let*' x := m 'in' k" := (rbind m (fun x => k))
  (at level 10, x name, m at level 100, k at level 200).

(** [File::readBytes] ([char buf[n]] needs [n >= 0]), [readInt32], [readUInt8]. *)
Definition readBytes (n : Z) : reader bytes := fun f d =>
  if n <? 0 then Crash OutOfRange
  else if zlen f <? n then throw f d
  else rret (slice 0 n f) (drop (Z.to_nat n) f) d.
Definition readInt32 : reader Z := fun f d =>
  if zlen f <? 4 then throw f d
  else rret (s32 (networkToHost32 (le_value (slice 0 4 f)))) (drop 4 f) d.
Definition readUInt8 : reader Z := fun f d =>
  match f with [] => throw f d | b :: f' => rret (b2Z b) f' d end.

(** [for (int i = 0; i < n; ++i) v.push_back(m)] *)
Fixpoint repeat_read {A} (n : nat) (m : reader A) : reader (list A) :=
  match n with
  | O => rret []
  | S n' => let* x := m in let* l := repeat_read n' m in rret (x :: l)
  end.

Definition push_localtime (l : Localtime) : reader unit := fun f d =>
  rret tt f (mkData (transitions d) (localtimes d ++ [l]) (abbreviation d)).

Fixpoint read_types (n : nat) : reader unit :=
  match n with
  | O => rret tt
  | S n' =>
      let* gmtoff := readInt32 in
      let* isdst := readUInt8 in
      let* abbrind := readUInt8 in
      let* _ := push_localtime (mkLocaltime gmtoff (negb (isdst =? 0)) abbrind) in
      read_types n'
  end.

(** The loop that joins the transition times with their types. *)
Fixpoint push_transitions (trans idx : list Z) : reader unit :=
  match trans, idx with
  | t :: trans', i :: idx' => fun f d =>
      match at_ (localtimes d) i with
      | Crash e => Crash e
      | Ret local =>
          push_transitions trans' idx' f
            (mkData (transitions d ++ [mkTransition t (t + gmtOffset local) i]) (localtimes d)
               (abbreviation d))
      end
  | _, _ => rret tt
  end.

Definition set_abbreviation (s : bytes) : reader unit := fun f d =>
  rret tt f (mkData (transitions d) (localtimes d) s).

Definition read_zone : reader unit :=
  let* head := readBytes 4 in
  if negb (bool_decide (head = lit "TZif")) then throw
  else
    let* version := readBytes 1 in
    let* _ := readBytes 15 in
    let* isgmtcnt := readInt32 in
    let* isstdcnt := readInt32 in
    let* leapcnt := readInt32 in
    let* timecnt := readInt32 in
    let* typecnt := readInt32 in
    let* charcnt := readInt32 in
    (* trans.reserve: a negative count is a huge size, std::length_error *)
    if timecnt <? 0 then throw
    else
      let* trans := repeat_read (Z.to_nat timecnt) readInt32 in
      let* idx := repeat_read (Z.to_nat timecnt) readUInt8 in
      let* _ := read_types (Z.to_nat typecnt) in
      let* _ := push_transitions trans idx in
      let* abbr := readBytes charcnt in
      set_abbreviation abbr.

Definition Data_empty : Data := mkData [] [] [].

(** [readTimeZoneFile]: the bytes of the file, or [None] when it cannot be opened.
    Exceptions are caught and printed; the result is always true. *)
Definition readTimeZoneFile (file : option bytes) (data : Data) : outcome (bool * Data) :=
  match file with
  | None => Ret (true, data)
  | Some f => '(_, d) ← read_zone f data; Ret (true, d)
  end.

(** The constructor from a zone file: [data_]. *)
Definition TimeZone_file (file : option bytes) : outcome (option Data) :=
  r ← readTimeZoneFile file Data_empty;
  Ret (if fst r : bool then Some (snd r) else None).

(** The TZif format, version 1: what tzfile(5) describes. *)
Definition tzif (trans : list (Z * Z)) (types : list Localtime) (abbr : bytes) (trailer : bytes)
    (isgmtcnt isstdcnt leapcnt : Z) : bytes :=
  lit "TZif" ++ [x00] ++ replicate 15 x00 ++
  be_bytes 4 isgmtcnt ++ be_bytes 4 isstdcnt ++ be_bytes 4 leapcnt ++
  be_bytes 4 (zlen trans) ++ be_bytes 4 (zlen types) ++ be_bytes 4 (zlen abbr) ++
  concat (map (fun x => be_bytes 4 (fst x)) trans) ++
  map (fun x => Z2b (snd x)) trans ++
  concat (map (fun l => be_bytes 4 (gmtOffset l) ++ [Z2b (Z.b2z (isDst l)); Z2b (arrbIdx l)]) types) ++
  abbr ++ trailer.

Lemma rbind_ok {A B} (m : reader A) (k : A -> reader B) f d x f' d' :
  m f d = Ret (Some (x, f'), d') -> rbind m k f d = k x f' d'.
Proof. unfold rbind. by intros ->. Qed.

Lemma readInt32_ok x rest d : - 2 ^ 31 <= x < 2 ^ 31 ->
  readInt32 (be_bytes 4 x ++ rest) d = Ret (Some (x, rest), d).
Proof.
  intros Hx. unfold readInt32. pose proof (length_be_bytes 4 x) as Hl.
  rewrite zlen_app, (proj2 (Z.ltb_ge _ _)) by (unfold zlen; lia). unfold rret, slice.
  change (Z.to_nat 0) with 0%nat. change (Z.to_nat 4) with 4%nat.
  rewrite drop_0, take_app_le, take_ge, drop_app_ge, Hl by lia. cbn [Nat.sub]. rewrite drop_0.
  unfold networkToHost32. rewrite (bswap_mem 4 (be_bytes 4 x)) by done.
  by rewrite s32_be_value_bytes, s32_id by lia.
Qed.

Lemma readBytes_ok s rest n d : zlen s = n -> readBytes n (s ++ rest) d = Ret (Some (s, rest), d).
Proof.
  intros <-. unfold readBytes. pose proof (zlen_nonneg s). pose proof (zlen_nonneg rest).
  rewrite zlen_app, !(proj2 (Z.ltb_ge _ _)) by lia. unfold rret, slice.
  change (Z.to_nat 0) with 0%nat. unfold zlen. rewrite Nat2Z.id, drop_0, take_app_le, take_ge by lia.
  by rewrite drop_app_length.
Qed.

Lemma readUInt8_ok x rest d : 0 <= x < 256 -> readUInt8 (Z2b x :: rest) d = Ret (Some (x, rest), d).
Proof. intros Hx. unfold readUInt8. by rewrite b2Z_Z2b_small. Qed.

Lemma repeat_read_ok {A} (m : reader A) (enc : A -> bytes) (l : list A) rest d :
  (forall x rest, x ∈ l -> m (enc x ++ rest) d = Ret (Some (x, rest), d)) ->
  repeat_read (length l) m (concat (map enc l) ++ rest) d = Ret (Some (l, rest), d).
Proof.
  induction l as [|x l IH]; intros Hm; cbn [length repeat_read map concat]; [done|].
  rewrite <- app_assoc. erewrite rbind_ok by (apply Hm; set_solver).
  erewrite rbind_ok by (apply IH; intros; apply Hm; set_solver). done.
Qed.

Definition type_ok (l : Localtime) : Prop :=
  - 2 ^ 31 <= gmtOffset l < 2 ^ 31 /\ 0 <= arrbIdx l < 256.

Lemma read_types_ok types rest d : Forall type_ok types ->
  read_types (length types)
    (concat (map (fun l => be_bytes 4 (gmtOffset l) ++ [Z2b (Z.b2z (isDst l)); Z2b (arrbIdx l)]) types) ++ rest) d
  = Ret (Some (tt, rest), mkData (transitions d) (localtimes d ++ types) (abbreviation d)).
Proof.
  intros Ht. revert d. induction Ht as [|l types [Ho Ha] _ IH]; intros d; cbn [length read_types map concat].
  { rewrite app_nil_r. by destruct d. }
  rewrite <- !app_assoc. erewrite rbind_ok by (by apply readInt32_ok). cbn [app].
  erewrite rbind_ok by (apply readUInt8_ok; destruct (isDst l); cbn; lia).
  erewrite rbind_ok by (by apply readUInt8_ok). erewrite rbind_ok by done.
  rewrite IH. cbn [transitions localtimes abbreviation]. rewrite <- app_assoc. cbn [app].
  destruct l as [o b i]. by destruct b.
Qed.

(** A transition of the file, with the offset of its type added. *)
Definition transition_of (types : list Localtime) (x : Z * Z) : Transition :=
  mkTransition (fst x)
    (fst x + match types !! Z.to_nat (snd x) with Some l => gmtOffset l | None => 0 end) (snd x).

Lemma push_transitions_ok trans rest d :
  Forall (fun x => 0 <= snd x < zlen (localtimes d)) trans ->
  push_transitions (map fst trans) (map snd trans) rest d =
  Ret (Some (tt, rest), mkData (transitions d ++ map (transition_of (localtimes d)) trans)
                          (localtimes d) (abbreviation d)).
Proof.
  revert d. induction trans as [|[t i] trans IH]; intros d Ht; cbn [map push_transitions].
  { rewrite app_nil_r. by destruct d. }
  inversion Ht as [|? ? Hi Ht']; subst. cbn [fst snd] in *.
  destruct (lookup_lt_is_Some_2 (localtimes d) (Z.to_nat i)) as [l Hl]; [unfold zlen in Hi; lia|].
  rewrite (at_ok _ _ l) by (done || lia). rewrite IH by done. cbn [transitions localtimes abbreviation].
  assert (transition_of (localtimes d) (t, i) = mkTransition t (t + gmtOffset l) i) as ->
    by (unfold transition_of; cbn [fst snd]; by rewrite Hl).
  by rewrite <- app_assoc.
Qed.

(** C17. A version 1 TZif file is read back exactly: the transitions with their local
    times computed from the types they name, the types and the abbreviations, whatever
    follows in the file; no exception, no access outside the tables. *)
Theorem zone_file_round_trip (trans : list (Z * Z)) (types : list Localtime) (abbr trailer : bytes)
    (isgmtcnt isstdcnt leapcnt : Z)
    (Htrans : Forall (fun x => - 2 ^ 31 <= fst x < 2 ^ 31 /\ 0 <= snd x < 256 /\ snd x < zlen types) trans)
    (Htypes : Forall type_ok types)
    (Hcounts : Forall (fun c => - 2 ^ 31 <= c < 2 ^ 31)
                 [isgmtcnt; isstdcnt; leapcnt; zlen trans; zlen types; zlen abbr]) :
  TimeZone_file (Some (tzif trans types abbr trailer isgmtcnt isstdcnt leapcnt)) =
  Ret (Some (mkData (map (transition_of types) trans) types abbr)).
Proof.
  repeat (apply Forall_cons_1 in Hcounts as [? Hcounts]). clear Hcounts.
  pose proof (zlen_nonneg trans). unfold TimeZone_file, readTimeZoneFile, read_zone, tzif.
  erewrite rbind_ok by (by apply readBytes_ok). rewrite bool_decide_eq_true_2 by done. cbn [negb].
  erewrite rbind_ok by (by apply (readBytes_ok [x00])). erewrite rbind_ok by (by apply readBytes_ok).
  do 6 (erewrite rbind_ok by (by apply readInt32_ok)). rewrite (proj2 (Z.ltb_ge _ _)) by done.
  unfold zlen at 1 2 3. rewrite !Nat2Z.id.
  replace (length trans) with (length (map fst trans)) at 1 by apply length_map.
  replace (concat (map (fun x => be_bytes 4 (fst x)) trans)) with (concat (map (be_bytes 4) (map fst trans)))
    by (by rewrite map_map).
  erewrite rbind_ok.
  2: { apply repeat_read_ok. intros x rest Hx. apply readInt32_ok. apply list_elem_of_In, in_map_iff in Hx as (y & <- & Hy).
       rewrite Forall_forall in Htrans. apply Htrans in Hy. lia. }
  replace (length trans) with (length (map snd trans)) by apply length_map.
  replace (map (fun x => Z2b (snd x)) trans) with (concat (map (fun x => [Z2b x]) (map snd trans)))
    by (rewrite map_map; clear; induction trans as [|? ? IH]; cbn; [done|by rewrite IH]).
  erewrite rbind_ok.
  2: { apply (repeat_read_ok _ (fun x => [Z2b x])). intros x rest Hx. apply readUInt8_ok.
       apply list_elem_of_In, in_map_iff in Hx as (y & <- & Hy).
       rewrite Forall_forall in Htrans. apply Htrans in Hy. lia. }
  erewrite rbind_ok by (by apply read_types_ok). cbn [transitions localtimes abbreviation Data_empty app].
  erewrite rbind_ok.
  2: { apply push_transitions_ok. cbn [localtimes]. eapply Forall_impl; [|exact Htrans]. intros x Hx. cbn beta in Hx |- *. cbn [localtimes]. lia. }
  erewrite rbind_ok by (by apply readBytes_ok). done.
Qed.

Lemma zone_file_round_trip_witness :
  TimeZone_file (Some (tzif [(-5, 1); (100, 0)] [mkLocaltime 3600 false 0; mkLocaltime 7200 true 4]
                         (lit "CET") (lit "tail") 0 0 0)) =
  Ret (Some (mkData (map (transition_of [mkLocaltime 3600 false 0; mkLocaltime 7200 true 4]) [(-5, 1); (100, 0)])
               [mkLocaltime 3600 false 0; mkLocaltime 7200 true 4] (lit "CET"))).
Proof.
  apply (zone_file_round_trip [(-5, 1); (100, 0)] [mkLocaltime 3600 false 0; mkLocaltime 7200 true 4]).
  - apply (bool_decide_unpack _). vm_compute. exact I.
  - unfold type_ok. apply (bool_decide_unpack _). vm_compute. exact I.
  - apply (bool_decide_unpack _). vm_compute. exact I.
Defined.

(** A missing or damaged file still makes a valid zone, one without local time
    types: [toLocalTime] then reads the front of an empty vector. *)
Lemma missing_zone_file_is_valid :
  TimeZone_file None = Ret (Some Data_empty) /\ TimeZone_file (Some (lit "oops")) = Ret (Some Data_empty) /\
  toLocalTime (Some Data_empty) 0 = Crash OutOfRange.
Proof. by vm_compute. Qed.

End TimeZone.
