(* ===== verification/InetAddress.v ===== *)
(** * InetAddress.h, InetAddress.cc, SocketsOps.cc: socket addresses

    An address is the memory of a [sockaddr_in6]: the union of the class, the casts between the
    structures of IPv4 and IPv6 and the byte order are those of the bytes.  The conversions of
    the C library between addresses and text are modelled as they are documented.  It is proved
    that an address made from a text shows that text again. *)

From S2P Require Import Prelude Endian Format TimeZone.

(** ** Text of addresses: inet_pton and inet_ntop *)
Module Inet.

Definition dot : byte := "."%byte.

(** [inet_pton(AF_INET, ...)]: four numbers up to 255 without leading zeros.  [done] has the
    octets before the current one, [cur], of which a digit was read if [saw]. *)
Fixpoint pton4_loop (src : bytes) (done : list Z) (cur : Z) (saw : bool) : option (list Z) :=
  match src with
  | [] => if saw && (length done =? 3)%nat then Some (done ++ [cur]) else None
  | ch :: src' =>
      match dec_digit ch with
      | Some d =>
          let new := cur * 10 + d in
          if (saw && (cur =? 0)) || (255 <? new) || (3 <? length done)%nat then None else pton4_loop src' done new true
      | None =>
          if byte_eqb ch dot && saw then
            if (length done =? 3)%nat then None else pton4_loop src' (done ++ [cur]) 0 false
          else None
      end
  end.

Definition inet_pton4 (src : bytes) : option bytes := map Z2b <$> pton4_loop (TimeZone.c_string src) [] 0 false.

(** Octets with dots between them. *)
Fixpoint dotted (l : list Z) : bytes :=
  match l with [] => [] | [o] => show_nonneg o | o :: l' => show_nonneg o ++ [dot] ++ dotted l' end.

Definition inet_ntop4 (addr : bytes) : bytes := dotted (map b2Z addr).

(** [inet_ntop(AF_INET6, ...)]: eight groups in hexadecimal; the first longest run of two zero
    groups or more is left out; addresses that hold one of IPv4 end with its text. *)
Definition hex_lower (d : Z) : byte := if d <? 10 then Z2b (48 + d) else Z2b (87 + d).
Definition show_hex_lower (n : Z) : bytes := map hex_lower (digits 16 n).

Fixpoint groups (addr : bytes) : list Z :=
  match addr with a :: b :: rest => (b2Z a * 256 + b2Z b) :: groups rest | _ => [] end.

Fixpoint zeros (l : list Z) : nat := match l with 0 :: l' => S (zeros l') | _ => O end.

(** The first longest run, from group [i] on: where it begins and its length. *)
Fixpoint best_run (i : nat) (l : list Z) : nat * nat :=
  match l with
  | [] => (i, 0%nat)
  | x :: l' => let r := best_run (S i) l' in if (snd r <=? zeros l)%nat then (i, zeros l) else r
  end.

(** The text of the groups from number [i] on; the run to leave out is at [base], [len] long. *)
Fixpoint ntop6_loop (base len : nat) (words : list Z) (addr : bytes) (i : nat) (l : list Z) : bytes :=
  match l with
  | [] => []
  | w :: l' =>
      if (base <=? i)%nat && (i <? base + len)%nat then
        (if (i =? base)%nat then lit ":" else []) ++ ntop6_loop base len words addr (S i) l'
      else
        (if (i =? 0)%nat then [] else lit ":") ++
        (if (i =? 6)%nat && (base =? 0)%nat && ((len =? 6)%nat || ((len =? 5)%nat && (nth 5 words 0 =? 65535)))
         then inet_ntop4 (drop 12 addr)
         else show_hex_lower w ++ ntop6_loop base len words addr (S i) l')
  end.

Definition inet_ntop6 (addr : bytes) : bytes :=
  let words := groups addr in
  let '(base, len) := best_run 0 words in
  let '(base, len) := if (len <? 2)%nat then (9%nat, 0%nat) else (base, len) in
  ntop6_loop base len words addr 0 words ++ (if (base + len =? 8)%nat then lit ":" else []).

(** *** The texts of IPv4 addresses *)

Lemma show_nonneg_step n : 10 <= n -> show_nonneg n = show_nonneg (n / 10) ++ [dec_char (n mod 10)].
Proof.
  intros Hn. unfold show_nonneg, digits. rewrite digits_lsd_step by lia. assert (1 <= n / 10) by (apply Z.div_le_lower_bound; lia).
  rewrite (proj2 (Z.eqb_neq _ _)) by lia. cbn [rev]. by rewrite map_app.
Qed.

Lemma show_nonneg_small n : 0 <= n < 10 -> show_nonneg n = [dec_char n].
Proof. intros Hn. unfold show_nonneg, digits. rewrite digits_lsd_step by lia. rewrite Z.div_small, Z.mod_small by lia. done. Qed.

Definition octets (l : list Z) : Prop := length l = 4%nat /\ Forall (fun o => 0 <= o <= 255) l.

(** What was read before the current octet. *)
Definition before (done : list Z) : bytes := concat (map (fun o => show_nonneg o ++ [dot]) done).

Lemma dotted_snoc done o : dotted (done ++ [o]) = before done ++ show_nonneg o.
Proof.
  induction done as [|x done IH]; [done |]. cbn [app]. change (before (x :: done)) with ((show_nonneg x ++ [dot]) ++ before done).
  rewrite <- !app_assoc, <-IH. by destruct done.
Qed.

Lemma dec_digit_Some b d : dec_digit b = Some d -> 0 <= d <= 9 /\ dec_char d = b.
Proof.
  unfold dec_digit. destruct (_ && _) eqn:E; bools; [|done]. intros [= <-]. split; [lia |]. unfold dec_char.
  replace (48 + (b2Z b - 48)) with (b2Z b) by lia. apply Z2b_b2Z.
Qed.

(** Only texts that are printed are accepted. *)
Lemma pton4_sound src : forall done cur saw l, pton4_loop src done cur saw = Some l -> (length done <= 3)%nat -> Forall (fun o => 0 <= o <= 255) done ->
  0 <= cur <= 255 -> (saw = false -> cur = 0) -> octets l /\ before done ++ (if saw then show_nonneg cur else []) ++ src = dotted l.
Proof.
  induction src as [|ch src IH]; intros done cur saw l H Hl Hd Hc Hs; cbn [pton4_loop] in H.
  { destruct saw; [|done]. cbn [andb] in H. destruct (_ =? _)%nat eqn:E; [|done]. apply Nat.eqb_eq in E. injection H as <-. rewrite app_nil_r, dotted_snoc. split; [|done].
    split; [rewrite length_app, E; done | apply Forall_app; split; [done | constructor; [done | constructor]]]. }
  destruct (dec_digit ch) as [d|] eqn:Ed.
  - apply dec_digit_Some in Ed as [Hd' <-]. destruct (_ || _ || _) eqn:E; [done |]. apply orb_false_iff in E as [[E1 E2]%orb_false_iff _]. apply Z.ltb_ge in E2.
    apply IH in H as [Ho Ht]; try done; try lia. split; [done |]. rewrite <-Ht. f_equal. destruct saw.
    + apply Z.eqb_neq in E1. rewrite (show_nonneg_step (cur * 10 + d)) by lia.
      replace ((cur * 10 + d) / 10) with cur by (apply (Z.div_unique_pos _ _ _ d); lia). replace ((cur * 10 + d) mod 10) with d by (apply (Z.mod_unique_pos _ _ cur); lia).
      by rewrite <-app_assoc.
    + rewrite Hs by done. rewrite show_nonneg_small by lia. by rewrite Z.mul_0_l, Z.add_0_l.
  - destruct (byte_eqb ch dot && saw) eqn:E; [|done]. apply andb_true_iff in E as [E ->]. apply Byte.byte_dec_bl in E as ->.
    destruct (_ =? _)%nat eqn:E; [done |]. apply Nat.eqb_neq in E.
    apply IH in H as [Ho Ht]; try done; [|rewrite length_app; cbn; lia | apply Forall_app; split; [done | constructor; [done | constructor]]].
    split; [done |]. rewrite <-Ht. unfold before. rewrite map_app, concat_app. cbn [map concat app]. by rewrite app_nil_r, <- !app_assoc.
Qed.

Lemma pton4_number n : 0 <= n -> n <= 255 -> forall rest done, (length done <= 3)%nat -> pton4_loop (show_nonneg n ++ rest) done 0 false = pton4_loop rest done n true.
Proof.
  revert n. apply (digits_ind 10 (fun n => n <= 255 -> forall rest done, (length done <= 3)%nat -> pton4_loop (show_nonneg n ++ rest) done 0 false = pton4_loop rest done n true)); [done |].
  intros n Hn IH Hm rest done Hl. assert (Hl' : (3 <? length done)%nat = false) by (by apply Nat.ltb_ge).
  destruct (Z.lt_ge_cases n 10) as [Hs|Hs].
  - rewrite show_nonneg_small by lia. cbn [app pton4_loop]. rewrite dec_digit_char by lia. rewrite Z.mul_0_l, Z.add_0_l.
    by rewrite (proj2 (Z.ltb_ge 255 n)), Hl' by lia.
  - assert (1 <= n / 10) by (apply Z.div_le_lower_bound; lia). pose proof (Z.mod_pos_bound n 10 ltac:(lia)). pose proof (Z.div_mod n 10 ltac:(lia)).
    rewrite show_nonneg_step, <-app_assoc, IH by (done || lia). cbn [app pton4_loop]. rewrite dec_digit_char by done.
    replace (n / 10 * 10 + n mod 10) with n by lia. by rewrite (proj2 (Z.eqb_neq (n / 10) 0)), (proj2 (Z.ltb_ge 255 n)), Hl' by lia.
Qed.

Lemma pton4_octet n rest done : 0 <= n <= 255 -> (length done <= 2)%nat ->
  pton4_loop (show_nonneg n ++ [dot] ++ rest) done 0 false = pton4_loop rest (done ++ [n]) 0 false.
Proof.
  intros Hn Hl. rewrite pton4_number by lia. cbn [app pton4_loop]. change (dec_digit dot) with (@None Z). change (byte_eqb dot dot) with true. cbn [andb].
  by rewrite (proj2 (Nat.eqb_neq (length done) 3)) by lia.
Qed.

(** [inet_pton] accepts exactly what [inet_ntop] prints. *)
Lemma pton4_iff src l : pton4_loop src [] 0 false = Some l <-> octets l /\ src = dotted l.
Proof.
  split.
  - intros H. apply pton4_sound in H as [Ho Ht]; [|cbn; lia|done|lia|done]. by split.
  - intros [[Hl Ho] ->]. destruct l as [|a [|b [|c [|d [|? ?]]]]]; try done. repeat (apply list.Forall_cons in Ho as [? Ho]).
    cbn [dotted]. rewrite !pton4_octet by (done || cbn; lia). rewrite <- (app_nil_r (show_nonneg d)), pton4_number by (cbn; lia). done.
Qed.

Lemma dotted_length l : octets l -> 7 <= zlen (dotted l) <= 15.
Proof.
  intros [Hl Ho]. destruct l as [|a [|b [|c [|d [|? ?]]]]]; try done. repeat (apply list.Forall_cons in Ho as [? Ho]). cbn [dotted].
  rewrite !zlen_app. change (zlen [dot]) with 1.
  pose proof (zlen_show_nonneg a 3 ltac:(lia) ltac:(lia)). pose proof (zlen_show_nonneg b 3 ltac:(lia) ltac:(lia)).
  pose proof (zlen_show_nonneg c 3 ltac:(lia) ltac:(lia)). pose proof (zlen_show_nonneg d 3 ltac:(lia) ltac:(lia)). lia.
Qed.

Lemma octets_of_bytes addr : length addr = 4%nat -> octets (map b2Z addr).
Proof.
  intros Hl. split; [by rewrite length_map |]. apply list.Forall_forall. intros o (b & -> & _)%list_elem_of_fmap. pose proof (b2Z_range b). lia.
Qed.

Lemma bytes_of_octets l : octets l -> map b2Z (map Z2b l) = l /\ length (map Z2b l) = 4%nat.
Proof.
  intros [Hl Ho]. split; [|by rewrite length_map]. clear Hl. induction Ho as [|o l Ho _ IH]; [done |]. cbn [map]. rewrite IH, b2Z_Z2b_small by lia. done.
Qed.

Lemma dotted_plain l : octets l -> x00 ∉ dotted l.
Proof.
  intros [Hl Ho] H. assert (Hs : forall o, 0 <= o -> x00 ∉ show_nonneg o).
  { intros o Hp Hin. destruct (show_nonneg_digits o Hp) as (ds & Hm & _). pose proof (dec_digits_range _ _ Hm x00 Hin) as Hb. vm_compute in Hb. by destruct Hb as [Hb _]; apply Hb. }
  clear Hl. induction l as [|o l IH]; [by apply elem_of_nil in H |]. apply list.Forall_cons in Ho as [Ho Hl]. destruct l as [|o' l]; [by apply (Hs o); [lia |] |].
  change (dotted (o :: o' :: l)) with (show_nonneg o ++ [dot] ++ dotted (o' :: l)) in H.
  rewrite !elem_of_app, list_elem_of_singleton in H. destruct H as [H | [H | H]]; [by apply (Hs o); [lia |] | done | by apply IH].
Qed.

(** *** The texts of IPv6 addresses fit into the buffer *)

Lemma show_hex_lower_length n : 0 <= n < 65536 -> zlen (show_hex_lower n) <= 4.
Proof. intros H. unfold show_hex_lower, zlen. rewrite length_map. pose proof (digits_length 16 4 ltac:(lia) ltac:(lia) n H). done. Qed.

Lemma ntop6_length base len words addr l : length addr = 16%nat -> Forall (fun w => 0 <= w < 65536) l -> forall i, (i + length l = 8)%nat ->
  zlen (ntop6_loop base len words addr i l) <= 6 + 5 * zlen l.
Proof.
  intros Ha. assert (H4 : zlen (inet_ntop4 (drop 12 addr)) <= 15) by (apply dotted_length, octets_of_bytes; rewrite length_drop; lia).
  induction 1 as [|w l Hw _ IH]; intros i Hi; cbn [ntop6_loop]; [change (zlen []) with 0; lia |].
  cbn [length] in Hi. specialize (IH (S i) ltac:(lia)). rewrite zlen_cons. pose proof (zlen_nonneg l). destruct (_ && _).
  - rewrite zlen_app. destruct (i =? base)%nat; change (zlen (lit ":")) with 1; change (zlen []) with 0; lia.
  - rewrite zlen_app. assert (zlen (if (i =? 0)%nat then [] else lit ":") <= 1) by (by destruct (i =? 0)%nat).
    destruct (i =? 6)%nat eqn:E6; cbn [andb].
    + apply Nat.eqb_eq in E6. assert (zlen l = 1) by (unfold zlen; lia). destruct (_ && _).
      * lia.
      * rewrite zlen_app. pose proof (show_hex_lower_length w Hw). lia.
    + rewrite zlen_app. pose proof (show_hex_lower_length w Hw). lia.
Qed.

Lemma groups_ok addr : forall n, length addr = (2 * n)%nat -> length (groups addr) = n /\ Forall (fun w => 0 <= w < 65536) (groups addr).
Proof.
  intros n. revert addr. induction n as [|n IH]; intros addr H; [destruct addr; [done | cbn in H; lia] |].
  destruct addr as [|a [|b addr]]; cbn in H; try lia. destruct (IH addr ltac:(lia)) as [H1 H2]. cbn [groups length]. split; [by rewrite H1 |].
  constructor; [|done]. pose proof (b2Z_range a). pose proof (b2Z_range b). lia.
Qed.

Lemma inet_ntop6_length addr : length addr = 16%nat -> zlen (inet_ntop6 addr) <= 47.
Proof.
  intros Ha. destruct (groups_ok addr 8 Ha) as [Hl Hg]. unfold inet_ntop6. destruct (best_run 0 (groups addr)) as [base len].
  destruct (if (len <? 2)%nat then _ else _) as [b k]. rewrite zlen_app.
  pose proof (ntop6_length b k (groups addr) addr (groups addr) Ha Hg 0%nat Hl). assert (zlen (groups addr) = 8) by (unfold zlen; by rewrite Hl).
  destruct (_ =? _)%nat; [change (zlen (lit ":")) with 1 | change (zlen []) with 0]; lia.
Qed.

Example ntop6_loopback : inet_ntop6 (replicate 15 x00 ++ [x01]) = lit "::1".
Proof. reflexivity. Qed.
Example ntop6_any : inet_ntop6 (replicate 16 x00) = lit "::".
Proof. reflexivity. Qed.
Example ntop6_mapped : inet_ntop6 (replicate 10 x00 ++ [xff; xff; x7f; x00; x00; x01]) = lit "::ffff:127.0.0.1".
Proof. reflexivity. Qed.
Example ntop6_middle : inet_ntop6 ([x20; x01; x0d; xb8] ++ replicate 10 x00 ++ [x00; x01]) = lit "2001:db8::1".
Proof. reflexivity. Qed.

End Inet.

(** ** SocketsOps.cc *)
Module Sockets.
Import Inet.

(** Where the fields of [sockaddr_in] and [sockaddr_in6] are. *)
Definition AF_INET : Z := 2.
Definition AF_INET6 : Z := 10.
Definition sizeof_sockaddr_in6 : Z := 28.
Definition zeroed : bytes := replicate (Z.to_nat sizeof_sockaddr_in6) x00.

Definition family (addr : bytes) : outcome Z := l ← load 0 2 addr; Ret (le_value l).
Definition sin_port (addr : bytes) : outcome Z := l ← load 2 2 addr; Ret (le_value l).
Definition sin_addr (addr : bytes) : outcome bytes := load 4 4 addr.
Definition sin6_addr (addr : bytes) : outcome bytes := load 8 16 addr.
Definition set_family (f : Z) (addr : bytes) : outcome bytes := store 0 (le_bytes 2 f) addr.
Definition set_sin_port (p : Z) (addr : bytes) : outcome bytes := store 2 (le_bytes 2 p) addr.
Definition set_sin_addr (a : bytes) (addr : bytes) : outcome bytes := store 4 a addr.
Definition set_sin6_addr (a : bytes) (addr : bytes) : outcome bytes := store 8 a addr.

(** A failed system call is fatal; [ret] is its answer. *)
Definition createNonblockingOrDie (ret : Z) : outcome Z := if ret <? 0 then Crash FatalLog else Ret ret.
Definition bindOrDie (ret : Z) : outcome unit := if ret <? 0 then Crash FatalLog else Ret tt.
Definition listenOrDie (ret : Z) : outcome unit := if ret <? 0 then Crash FatalLog else Ret tt.

(** The C library's answer is put into [buf], of [size] bytes, if it fits with the terminator.
    [buf] is represented by the text in it. *)
Definition inet_ntop (text : bytes) (size : Z) (buf : bytes) : bytes := if size <? zlen text + 1 then buf else text.

Definition toIp (buf : bytes) (size : Z) (addr : bytes) : outcome bytes :=
  f ← family addr;
  if f =? AF_INET then
    _ ← check (16 <=? size); a ← sin_addr addr; Ret (inet_ntop (inet_ntop4 a) size buf)
  else if f =? AF_INET6 then
    _ ← check (46 <=? size); a ← sin6_addr addr; Ret (inet_ntop (inet_ntop6 a) size buf)
  else Ret buf.

Definition toIpPort (buf : bytes) (size : Z) (addr : bytes) : outcome bytes :=
  buf1 ← toIp buf size addr;
  let end_ := zlen buf1 in
  p ← sin_port addr;
  let port := networkToHost16 p in
  _ ← check (end_ <? size);
  Ret (buf1 ++ snprintf (size - end_) (lit ":" ++ show_nonneg port)).

(** [fromIpPort] for the two structures; the flag tells whether the text was accepted, an error
    is logged otherwise.  The second asks for an address of IPv4 as well. *)
Definition fromIpPort (ip : bytes) (port : Z) (addr : bytes) : outcome (bool * bytes) :=
  a1 ← set_family AF_INET addr;
  a2 ← set_sin_port (hostToNetwork16 port) a1;
  match inet_pton4 ip with
  | Some a => a3 ← set_sin_addr a a2; Ret (true, a3)
  | None => Ret (false, a2)
  end.

Definition fromIpPort6 (ip : bytes) (port : Z) (addr : bytes) : outcome (bool * bytes) :=
  a1 ← set_family AF_INET6 addr;
  a2 ← set_sin_port (hostToNetwork16 port) a1;
  match inet_pton4 ip with
  | Some a => a3 ← set_sin6_addr a a2; Ret (true, a3)
  | None => Ret (false, a2)
  end.

(** [getsockopt] answers [ret] and [optval], or sets [errno]. *)
Definition getSocketError (ret optval errno : Z) : Z := if ret <? 0 then errno else optval.

(** [getsockname] and [getpeername] write an address, or fail. *)
Definition getLocalAddr (answer : option bytes) : outcome bytes :=
  match answer with Some a => store 0 a zeroed | None => Ret zeroed end.
Definition getPeerAddr (answer : option bytes) : outcome bytes :=
  match answer with Some a => store 0 a zeroed | None => Ret zeroed end.

Definition isSelfConnect (local peer : option bytes) : outcome bool :=
  localaddr ← getLocalAddr local;
  peeraddr ← getPeerAddr peer;
  f ← family localaddr;
  if f =? AF_INET then
    p1 ← sin_port localaddr; p2 ← sin_port peeraddr; a1 ← sin_addr localaddr; a2 ← sin_addr peeraddr;
    Ret ((p1 =? p2) && bool_decide (a1 = a2))
  else if f =? AF_INET6 then
    p1 ← sin_port localaddr; p2 ← sin_port peeraddr; a1 ← sin6_addr localaddr; a2 ← sin6_addr peeraddr;
    Ret ((p1 =? p2) && bool_decide (a1 = a2))
  else Ret false.

End Sockets.

(** ** InetAddress.cc *)
Module InetAddress.
Import Inet Sockets.

Definition kInaddrAny : Z := 0.
Definition kInaddrLoopback : Z := 0x7f000001.

Definition InetAddress_port (port : Z) (loopbackOnly ipv6 : bool) : outcome bytes :=
  if ipv6 then
    a1 ← set_family AF_INET6 zeroed;
    a2 ← set_sin6_addr (if loopbackOnly then replicate 15 x00 ++ [x01] else replicate 16 x00) a1;
    set_sin_port (hostToNetwork16 port) a2
  else
    a1 ← set_family AF_INET zeroed;
    a2 ← set_sin_addr (le_bytes 4 (hostToNetwork32 (if loopbackOnly then kInaddrLoopback else kInaddrAny))) a1;
    set_sin_port (hostToNetwork16 port) a2.

Definition InetAddress (ip : bytes) (port : Z) (ipv6 : bool) : outcome (bool * bytes) :=
  if ipv6 then fromIpPort6 ip port zeroed else fromIpPort ip port zeroed.

Definition toIpPort (addr : bytes) : outcome bytes := Sockets.toIpPort [] 64 addr.
Definition toIp (addr : bytes) : outcome bytes := Sockets.toIp [] 64 addr.

Definition ipNetEndian (addr : bytes) : outcome Z :=
  f ← family addr; _ ← check (f =? AF_INET); a ← sin_addr addr; Ret (le_value a).

Definition portNetEndian (addr : bytes) : outcome Z := sin_port addr.
Definition toPort (addr : bytes) : outcome Z := p ← portNetEndian addr; Ret (networkToHost16 p).

(** [gethostbyname_r] answers [ret] and the entry it found: type, length and address. *)
Definition resolve (ret : Z) (he : option (Z * Z * bytes)) (out : bytes) : outcome (bool * bytes) :=
  match he with
  | Some (h_addrtype, h_length, h_addr) =>
      if ret =? 0 then
        _ ← check ((h_addrtype =? AF_INET) && (h_length =? 4));
        a ← load 0 4 h_addr; out' ← set_sin_addr a out; Ret (true, out')
      else Ret (false, out)
  | None => Ret (false, out)
  end.

(** ** The layout *)

(** A [sockaddr_in6] seen as one of IPv4: its fields and the rest. *)
Definition layout (f port : Z) (a4 rest : bytes) : bytes := le_bytes 2 f ++ be_bytes 2 port ++ a4 ++ rest.

Section layout.
Variables (f port : Z) (a4 rest : bytes).
Hypothesis Hf : 0 <= f < 2 ^ 16.
Hypothesis Hp : 0 <= port < 2 ^ 16.
Hypothesis Ha : length a4 = 4%nat.
Hypothesis Hr : length rest = 20%nat.

Lemma layout_length : zlen (layout f port a4 rest) = 28.
Proof using Ha Hr. unfold layout, zlen. rewrite !length_app, length_le_bytes, length_be_bytes, Ha, Hr. done. Qed.

Lemma layout_family : family (layout f port a4 rest) = Ret f.
Proof using Ha Hr Hf.
  unfold family. rewrite load_ok by (rewrite ?layout_length; lia). rewrite bind_Ret. f_equal. unfold layout, slice. change (Z.to_nat 0) with 0%nat. rewrite drop_0.
  rewrite take_app_length' by (by rewrite length_le_bytes). rewrite le_value_bytes. by apply Z.mod_small.
Qed.

Lemma layout_port : sin_port (layout f port a4 rest) = Ret (hostToNetwork16 port).
Proof using Ha Hr.
  unfold sin_port. by rewrite load_ok by (rewrite ?layout_length; lia).
Qed.

Lemma layout_addr : sin_addr (layout f port a4 rest) = Ret a4.
Proof using Ha Hr.
  unfold sin_addr. rewrite load_ok by (rewrite ?layout_length; lia). f_equal. unfold layout, slice. rewrite app_assoc.
  rewrite drop_app_length' by (by rewrite length_app, length_le_bytes, length_be_bytes). by rewrite take_app_length' by (by rewrite Ha).
Qed.

Lemma layout_addr6 : sin6_addr (layout f port a4 rest) = Ret (take 16 rest).
Proof using Ha Hr.
  unfold sin6_addr. rewrite load_ok by (rewrite ?layout_length; lia). f_equal. unfold layout, slice. rewrite !app_assoc.
  by rewrite drop_app_length' by (by rewrite !length_app, length_le_bytes, length_be_bytes, Ha).
Qed.

Lemma layout_toPort : toPort (layout f port a4 rest) = Ret port.
Proof using Ha Hr Hp.
  unfold toPort, portNetEndian. rewrite layout_port, bind_Ret. f_equal. unfold networkToHost16, hostToNetwork16. rewrite bswap_involutive. by apply Z.mod_small.
Qed.

(** The whole text of an address fits into the 64 bytes. *)
Lemma layout_toIpPort : f = AF_INET \/ f = AF_INET6 -> exists ip, toIp (layout f port a4 rest) = Ret ip /\
  toIpPort (layout f port a4 rest) = Ret (ip ++ lit ":" ++ show_nonneg port) /\ (f = AF_INET -> ip = inet_ntop4 a4).
Proof using Ha Hr Hp Hf.
  intros Hfam. pose proof (dotted_length _ (octets_of_bytes a4 Ha)) as H4.
  pose proof (inet_ntop6_length (take 16 rest) ltac:(rewrite length_take; lia)) as H6.
  assert (Hip : exists ip, toIp (layout f port a4 rest) = Ret ip /\ zlen ip <= 47 /\ (f = AF_INET -> ip = inet_ntop4 a4)).
  { unfold toIp, Sockets.toIp. rewrite layout_family, bind_Ret. destruct Hfam as [Ef | Ef].
    - rewrite (proj2 (Z.eqb_eq f AF_INET) Ef), layout_addr. change (check (16 <=? 64)) with (Ret tt). rewrite !bind_Ret. exists (inet_ntop4 a4). unfold inet_ntop. rewrite (proj2 (Z.ltb_ge _ _)) by (unfold inet_ntop4; lia).
      split; [done |]. split; [unfold inet_ntop4; lia | done].
    - rewrite (proj2 (Z.eqb_neq f AF_INET)) by (by rewrite Ef). rewrite (proj2 (Z.eqb_eq f AF_INET6) Ef), layout_addr6. change (check (46 <=? 64)) with (Ret tt). rewrite !bind_Ret. exists (inet_ntop6 (take 16 rest)). unfold inet_ntop. rewrite (proj2 (Z.ltb_ge _ _)) by lia.
      split; [done |]. split; [done | by rewrite Ef]. }
  destruct Hip as (ip & E & Hl & Ht). exists ip. split; [done |]. split; [|done]. unfold toIp in E. unfold toIpPort, Sockets.toIpPort. rewrite E, bind_Ret, layout_port, bind_Ret.
  unfold networkToHost16, hostToNetwork16. rewrite bswap_involutive. rewrite Z.mod_small by (change (256 ^ Z.of_nat 2) with (2 ^ 16); lia).
  rewrite (proj2 (Z.ltb_lt _ _)) by lia. cbn [check]. rewrite bind_Ret. f_equal. f_equal. unfold snprintf.
  pose proof (zlen_show_nonneg port 5 ltac:(lia) ltac:(lia)). apply take_ge. rewrite length_app. change (length (lit ":")) with 1%nat. unfold zlen in *. lia.
Qed.

(** Writing a field leaves the others. *)
Lemma layout_set_addr a : length a = 4%nat -> set_sin_addr a (layout f port a4 rest) = Ret (layout f port a rest).
Proof using Ha Hr.
  intros Hla. assert (Hz : zlen a = 4) by (unfold zlen; by rewrite Hla). unfold set_sin_addr. rewrite store_ok by (rewrite ?layout_length, ?Hz; lia). f_equal.
  unfold splice, layout. rewrite Hz. change (4 + 4) with 8. rewrite (app_assoc (le_bytes 2 f)).
  rewrite take_app_length' by (by rewrite length_app, length_le_bytes, length_be_bytes).
  rewrite (app_assoc _ a4), drop_app_length' by (by rewrite !length_app, length_le_bytes, length_be_bytes, Ha). by rewrite <- !app_assoc.
Qed.
End layout.

Lemma fresh_layout f port : (a1 ← set_family f zeroed; set_sin_port (hostToNetwork16 port) a1) = Ret (layout f port (replicate 4 x00) (replicate 20 x00)).
Proof.
  unfold set_family, set_sin_port. rewrite store_ok, bind_Ret by (unfold zlen; rewrite ?length_le_bytes; done).
  assert (E : splice 0 (le_bytes 2 f) zeroed = le_bytes 2 f ++ replicate 26 x00) by (unfold splice, zlen; by rewrite length_le_bytes).
  rewrite E, store_ok by (unfold zlen; rewrite ?length_app, ?length_le_bytes; done). f_equal. unfold splice, layout, zlen. rewrite length_le_bytes.
  rewrite take_app_length' by (by rewrite length_le_bytes). rewrite drop_app_ge by (rewrite length_le_bytes; cbn; lia). rewrite length_le_bytes.
  unfold hostToNetwork16. by rewrite le_bytes_bswap.
Qed.

Lemma fromIpPort_layout ip port : fromIpPort ip port zeroed =
  match inet_pton4 ip with
  | Some a => a3 ← set_sin_addr a (layout AF_INET port (replicate 4 x00) (replicate 20 x00)); Ret (true, a3)
  | None => Ret (false, layout AF_INET port (replicate 4 x00) (replicate 20 x00))
  end.
Proof.
  unfold fromIpPort. pose proof (fresh_layout AF_INET port) as H. destruct (set_family AF_INET zeroed) as [a1|]; [|done]. rewrite bind_Ret in H. by rewrite bind_Ret, H, bind_Ret.
Qed.

Definition is_dotted (s : bytes) : Prop := exists l, octets l /\ s = dotted l.

Lemma inet_pton4_Some ip a : inet_pton4 ip = Some a -> length a = 4%nat /\ inet_ntop4 a = TimeZone.c_string ip /\ is_dotted (TimeZone.c_string ip).
Proof.
  unfold inet_pton4. destruct (pton4_loop _ _ _ _) as [l|] eqn:E; [|done]. intros [= <-]. apply pton4_iff in E as [Ho E].
  destruct (bytes_of_octets l Ho) as [H1 H2]. split_and!; [done | unfold inet_ntop4; by rewrite H1 | by exists l].
Qed.

Lemma inet_pton4_None ip : inet_pton4 ip = None -> ~ is_dotted (TimeZone.c_string ip).
Proof.
  unfold inet_pton4. intros H (l & Hl). apply pton4_iff in Hl. by rewrite Hl in H.
Qed.

(** C13. An address made from a text and a port: the text is accepted exactly if it is four
    numbers up to 255 with dots between them and no leading zeros, and then the address shows
    the same text; the address is 0.0.0.0 otherwise.  The port is kept and the text with the
    port is complete. *)
Theorem address_round_trip ip port : 0 <= port < 2 ^ 16 -> returns (InetAddress ip port false) (fun '(accepted, addr) =>
  (accepted = true <-> is_dotted (TimeZone.c_string ip)) /\ toPort addr = Ret port /\
  let shown := if accepted then TimeZone.c_string ip else lit "0.0.0.0" in
  toIp addr = Ret shown /\ toIpPort addr = Ret (shown ++ lit ":" ++ show_nonneg port)).
Proof.
  intros Hp. unfold InetAddress. rewrite fromIpPort_layout. assert (Hf : 0 <= AF_INET < 2 ^ 16) by done.
  destruct (inet_pton4 ip) as [a|] eqn:E.
  - destruct (inet_pton4_Some _ _ E) as (Hl & Ht & Hd). rewrite layout_set_addr, bind_Ret by done. cbn [returns].
    destruct (layout_toIpPort AF_INET port a (replicate 20 x00) Hf Hp Hl eq_refl) as (s & E1 & E2 & E3); [by left |]. rewrite E3, Ht in E1, E2 by done.
    split_and!; try done. by apply layout_toPort.
  - pose proof (inet_pton4_None _ E) as Hn. cbn [returns].
    destruct (layout_toIpPort AF_INET port (replicate 4 x00) (replicate 20 x00) Hf Hp eq_refl eq_refl) as (s & E1 & E2 & E3); [by left |].
    rewrite E3 in E1, E2 by done. split_and!; try done. by apply layout_toPort.
Qed.

Lemma address_round_trip_witness : returns (InetAddress (lit "127.0.0.1") 9981 false) (fun '(accepted, addr) =>
  (accepted = true <-> is_dotted (TimeZone.c_string (lit "127.0.0.1"))) /\ toPort addr = Ret 9981 /\
  let shown := if accepted then TimeZone.c_string (lit "127.0.0.1") else lit "0.0.0.0" in
  toIp addr = Ret shown /\ toIpPort addr = Ret (shown ++ lit ":" ++ show_nonneg 9981)).
Proof. apply (address_round_trip (lit "127.0.0.1") 9981). lia. Defined.

Example loopback_shown : (a ← InetAddress_port 80 true false; toIpPort a) = Ret (lit "127.0.0.1:80").
Proof. vm_compute. reflexivity. Qed.
Example loopback6_shown : (a ← InetAddress_port 80 true true; toIpPort a) = Ret (lit "::1:80").
Proof. vm_compute. reflexivity. Qed.

(** [resolve] changes neither port nor family. *)
Lemma resolve_keeps ret he f port a4 rest : 0 <= f < 2 ^ 16 -> 0 <= port < 2 ^ 16 -> length a4 = 4%nat -> length rest = 20%nat ->
  (forall t n h, he = Some (t, n, h) -> t = AF_INET /\ n = 4 /\ zlen h = 4) ->
  returns (resolve ret he (layout f port a4 rest)) (fun '(found, out) =>
    family out = Ret f /\ toPort out = Ret port /\
    (if found then exists h, he = Some (AF_INET, 4, h) /\ sin_addr out = Ret h else sin_addr out = Ret a4)).
Proof.
  intros Hf Hp Ha Hr Hhe. assert (H0 : family (layout f port a4 rest) = Ret f /\ toPort (layout f port a4 rest) = Ret port /\ sin_addr (layout f port a4 rest) = Ret a4)
    by (split_and!; [by apply layout_family | by apply layout_toPort | by apply layout_addr]).
  unfold resolve. destruct he as [[[t n] h]|]; [|done]. destruct (Hhe t n h eq_refl) as (-> & -> & Hh). destruct (ret =? 0); [|done]. cbn [Z.eqb andb check AF_INET Pos.eqb].
  rewrite bind_Ret, load_ok, bind_Ret by lia. rewrite <-Hh, slice_all. assert (Hl : length h = 4%nat) by (unfold zlen in Hh; lia).
  rewrite layout_set_addr, bind_Ret by done. cbn [returns]. split_and!; [by apply layout_family | by apply layout_toPort |]. exists h.
  split; [by rewrite Hh | by apply layout_addr].
Qed.

(** A connection to itself: both ends have the same address and port. *)
Lemma isSelfConnect_iff lport pport la pa lrest prest : length la = 4%nat -> length pa = 4%nat -> length lrest = 20%nat -> length prest = 20%nat ->
  0 <= lport < 2 ^ 16 -> 0 <= pport < 2 ^ 16 ->
  isSelfConnect (Some (layout AF_INET lport la lrest)) (Some (layout AF_INET pport pa prest)) = Ret (bool_decide (lport = pport /\ la = pa)).
Proof.
  intros H1 H2 H3 H4 H5 H6. assert (Hst : forall l, zlen l = 28 -> store 0 l zeroed = Ret l).
  { intros l Hl. rewrite store_ok by (rewrite ?Hl; done). f_equal. unfold splice. rewrite Hl. cbn. apply app_nil_r. }
  unfold isSelfConnect, getLocalAddr, getPeerAddr. rewrite !Hst, !bind_Ret by (by apply layout_length). rewrite layout_family, bind_Ret by done. cbn [Z.eqb AF_INET Pos.eqb].
  rewrite !layout_port, !layout_addr, !bind_Ret by done. f_equal.
  assert (Hi : (hostToNetwork16 lport =? hostToNetwork16 pport) = bool_decide (lport = pport)).
  { case_bool_decide as E; [by apply Z.eqb_eq; rewrite E |]. apply Z.eqb_neq. intros Hb. apply E. apply (f_equal (bswap 2)) in Hb.
    unfold hostToNetwork16 in Hb. rewrite !bswap_involutive in Hb. change (256 ^ Z.of_nat 2) with (2 ^ 16) in Hb. rewrite !Z.mod_small in Hb by done. done. }
  rewrite Hi. repeat case_bool_decide; naive_solver.
Qed.

(** A text of IPv6 is never accepted, and one of IPv4 ends up in the wrong bytes. *)
Lemma ipv6_text_rejected : exists addr, InetAddress (lit "::1") 80 true = Ret (false, addr) /\ toIp addr = Ret (lit "::").
Proof. eexists. split; [vm_compute; reflexivity | reflexivity]. Qed.

Lemma ipv4_text_misplaced : exists addr, InetAddress (lit "127.0.0.1") 80 true = Ret (true, addr) /\ toIp addr = Ret (lit "7f00:1::").
Proof. eexists. split; [vm_compute; reflexivity | reflexivity]. Qed.

End InetAddress.
