(* ===== verification/TimerQueue.v ===== *)
(** * Timer.h/.cc, TimerId.h and TimerQueue.h/.cc

    Timers are objects on the heap, created by [addTimer] and deleted by the queue.
    [timers_] is the [std::set] of (expiration, pointer) pairs, a strictly sorted
    list here; [activeTimers_] and [cancelingTimers_] are the sets of (pointer,
    sequence) pairs.  Callbacks may add and cancel timers: a callback is the list of
    the queue operations it performs.  An operation called from another thread is
    queued and runs when the loop takes its pending functors. *)

From S2P Require Import Prelude Calendar TimeZone.
From Stdlib Require Import SpecFloat Sorting.Sorted.
Import Timestamp.

Abbreviation addr := positive (only parsing).

(** [TimerId]: the pointer and the sequence number. *)
Definition TimerId : Type := addr * Z.

Module Timer.

Record t := mk {
  callback_ : nat;
  expiration_ : Z;              (* microseconds since the epoch *)
  interval_ : double;
  repeat_ : bool;
  sequence_ : Z
}.

(** The constructor; [sequence] is [s_numCreated_.incrementAndGet()]. *)
Definition Timer (cb : nat) (when : Z) (interval : double) (sequence : Z) : t :=
  mk cb when interval (SFltb (S754_zero false) interval) sequence.

Definition restart (now : Z) (x : t) : outcome t :=
  if repeat_ x then
    e ← addTime (Timestamp now) (interval_ x);
    Ret (mk (callback_ x) (microSecondsSinceEpoch_ e) (interval_ x) (repeat_ x) (sequence_ x))
  else Ret (mk (callback_ x) (microSecondsSinceEpoch_ invalid) (interval_ x) (repeat_ x) (sequence_ x)).

End Timer.

Module TimerQueue.
Import Timer.

(** [std::pair<Timestamp, Timer*>] and its order. *)
Definition Entry : Type := Z * addr.
Definition Entry_lt (x y : Entry) : bool :=
  (fst x <? fst y) || ((fst x =? fst y) && (Z.pos (snd x) <? Z.pos (snd y))).

(** The order against the sentry [(now, UINTPTR_MAX)], whose pointer is above the
    address of every object. *)
Definition below_UINTPTR_MAX (timer : addr) : bool := true.
Definition before_sentry (now : Z) (x : Entry) : bool :=
  (fst x <? now) || ((fst x =? now) && below_UINTPTR_MAX (snd x)).

(** What another thread's call leaves in [pendingFunctors_]. *)
Inductive task := AddInLoop (timer : addr) | CancelInLoop (timerId : TimerId).

Record t := mk {
  heap : gmap addr Timer.t;
  numCreated : Z;                      (* Timer::s_numCreated_ *)
  timers_ : list Entry;
  callingExpiredTimers_ : bool;
  activeTimers_ : gset (addr * Z);
  cancelingTimers_ : gset (addr * Z);
  armed : option Z;                    (* the expiration last given to timerfd_settime *)
  pending : list task;
  ran : list Z                         (* sequence numbers of the timers run, newest first *)
}.

Definition TimerQueue : t := mk ∅ 0 [] false ∅ ∅ None [] [].

Definition set_heap h q := mk h (numCreated q) (timers_ q) (callingExpiredTimers_ q) (activeTimers_ q) (cancelingTimers_ q) (armed q) (pending q) (ran q).
Definition set_timers l a q := mk (heap q) (numCreated q) l (callingExpiredTimers_ q) a (cancelingTimers_ q) (armed q) (pending q) (ran q).
Definition set_calling b c q := mk (heap q) (numCreated q) (timers_ q) b (activeTimers_ q) c (armed q) (pending q) (ran q).
Definition set_armed e q := mk (heap q) (numCreated q) (timers_ q) (callingExpiredTimers_ q) (activeTimers_ q) (cancelingTimers_ q) e (pending q) (ran q).
Definition set_pending p q := mk (heap q) (numCreated q) (timers_ q) (callingExpiredTimers_ q) (activeTimers_ q) (cancelingTimers_ q) (armed q) p (ran q).
Definition set_ran r q := mk (heap q) (numCreated q) (timers_ q) (callingExpiredTimers_ q) (activeTimers_ q) (cancelingTimers_ q) (armed q) (pending q) r.

(** A timer pointer is dereferenced. *)
Definition deref (a : addr) (q : t) : outcome Timer.t :=
  match heap q !! a with Some x => Ret x | None => Crash UseAfterFree end.

(** [std::set::insert]: the new set, and whether the element was new. *)
Fixpoint set_insert (e : Entry) (l : list Entry) : list Entry * bool :=
  match l with
  | [] => ([e], true)
  | x :: l' =>
      if Entry_lt e x then (e :: l, true)
      else if Entry_lt x e then let '(l'', b) := set_insert e l' in (x :: l'', b)
      else (l, false)
  end.

(** [std::set::erase]: the new set and the number of elements removed. *)
Fixpoint set_erase (e : Entry) (l : list Entry) : list Entry * nat :=
  match l with
  | [] => ([], 0%nat)
  | x :: l' =>
      if Entry_lt x e then let '(l'', n) := set_erase e l' in (x :: l'', n)
      else if Entry_lt e x then (l, 0%nat)
      else (l', 1%nat)
  end.

(** [lower_bound(sentry)]: what precedes it and what follows. *)
Fixpoint split_at (now : Z) (l : list Entry) : list Entry * list Entry :=
  match l with
  | [] => ([], [])
  | x :: l' => if before_sentry now x then let '(a, b) := split_at now l' in (x :: a, b) else ([], l)
  end.

Definition sizes_agree (q : t) : bool := (length (timers_ q) =? size (activeTimers_ q))%nat.

(** [insert]: whether the earliest expiration changed. *)
Definition insert (timer : addr) (q : t) : outcome (bool * t) :=
  _ ← check (sizes_agree q);
  x ← deref timer q;
  let when := expiration_ x in
  let earliestChanged :=
    match timers_ q with [] => true | it :: _ => when <? fst it end in
  let '(timers, fresh1) := set_insert (when, timer) (timers_ q) in
  _ ← check fresh1;
  _ ← check (negb (bool_decide ((timer, sequence_ x) ∈ activeTimers_ q)));
  let q' := set_timers timers ({[ (timer, sequence_ x) ]} ∪ activeTimers_ q) q in
  _ ← check (sizes_agree q');
  Ret (earliestChanged, q').

(** [resetTimerfd] *)
Definition resetTimerfd (expiration : Z) (q : t) : t := set_armed (Some expiration) q.

Definition addTimerInLoop (timer : addr) (q : t) : outcome t :=
  '(earliestChanged, q') ← insert timer q;
  if (earliestChanged : bool) then
    x ← deref timer q'; Ret (resetTimerfd (expiration_ x) q')
  else Ret q'.

Definition cancelInLoop (timerId : TimerId) (q : t) : outcome t :=
  _ ← check (sizes_agree q);
  q' ← (if bool_decide (timerId ∈ activeTimers_ q) then
          x ← deref (fst timerId) q;
          let '(timers, n) := set_erase (expiration_ x, fst timerId) (timers_ q) in
          _ ← check (n =? 1)%nat;
          Ret (set_timers timers (activeTimers_ q ∖ {[ timerId ]})
                 (set_heap (delete (fst timerId) (heap q)) q))
        else if callingExpiredTimers_ q
        then Ret (set_calling (callingExpiredTimers_ q) ({[ timerId ]} ∪ cancelingTimers_ q) q)
        else Ret q);
  _ ← check (sizes_agree q');
  Ret q'.

(** The erasing loop of [getExpired]. *)
Fixpoint erase_active (expired : list Entry) (q : t) : outcome t :=
  match expired with
  | [] => Ret q
  | e :: expired' =>
      x ← deref (snd e) q;
      _ ← check (bool_decide ((snd e, sequence_ x) ∈ activeTimers_ q));
      erase_active expired' (set_timers (timers_ q) (activeTimers_ q ∖ {[ (snd e, sequence_ x) ]}) q)
  end.

Definition getExpired (now : Z) (q : t) : outcome (list Entry * t) :=
  _ ← check (sizes_agree q);
  let '(expired, rest) := split_at now (timers_ q) in
  _ ← check (match rest with [] => true | it :: _ => now <? fst it end);
  q' ← erase_active expired (set_timers rest (activeTimers_ q) q);
  _ ← check (sizes_agree q');
  Ret (expired, q').

(** The loop of [reset]. *)
Fixpoint reset_loop (expired : list Entry) (now : Z) (q : t) : outcome t :=
  match expired with
  | [] => Ret q
  | e :: expired' =>
      x ← deref (snd e) q;
      if repeat_ x && negb (bool_decide ((snd e, sequence_ x) ∈ cancelingTimers_ q)) then
        x' ← restart now x;
        '(_, q') ← insert (snd e) (set_heap (<[snd e := x']> (heap q)) q);
        reset_loop expired' now q'
      else reset_loop expired' now (set_heap (delete (snd e) (heap q)) q)
  end.

Definition reset (expired : list Entry) (now : Z) (q : t) : outcome t :=
  q' ← reset_loop expired now q;
  match timers_ q' with
  | [] => Ret q'
  | e :: _ =>
      x ← deref (snd e) q';
      if 0 <? expiration_ x then Ret (resetTimerfd (expiration_ x) q') else Ret q'
  end.

(** What a callback, or a caller, does to the queue. *)
Inductive action :=
| Add (inLoop : bool) (cb : nat) (when : Z) (interval : double)
| Cancel (inLoop : bool) (timerId : TimerId).

Section queue.

(** operator new: an address that is not in use. *)
Variable alloc : gset addr -> addr.
(** The queue operations each callback performs. *)
Variable script : nat -> list action.

Definition addTimer (inLoop : bool) (cb : nat) (when : Z) (interval : double) (q : t) : outcome t :=
  let timer := alloc (dom (heap q)) in
  let seq := numCreated q + 1 in
  let q' := mk (<[timer := Timer cb when interval seq]> (heap q)) seq (timers_ q)
              (callingExpiredTimers_ q) (activeTimers_ q) (cancelingTimers_ q) (armed q) (pending q) (ran q) in
  if inLoop then addTimerInLoop timer q' else Ret (set_pending (pending q' ++ [AddInLoop timer]) q').

Definition cancel (inLoop : bool) (timerId : TimerId) (q : t) : outcome t :=
  if inLoop then cancelInLoop timerId q else Ret (set_pending (pending q ++ [CancelInLoop timerId]) q).

Definition act (a : action) (q : t) : outcome t :=
  match a with
  | Add inLoop cb when interval => addTimer inLoop cb when interval q
  | Cancel inLoop timerId => cancel inLoop timerId q
  end.

Fixpoint acts (l : list action) (q : t) : outcome t :=
  match l with [] => Ret q | a :: l' => q' ← act a q; acts l' q' end.

(** The calls of the expired timers' callbacks in [handleRead]. *)
Fixpoint run_expired (expired : list Entry) (q : t) : outcome t :=
  match expired with
  | [] => Ret q
  | e :: expired' =>
      x ← deref (snd e) q;
      q' ← acts (script (callback_ x)) (set_ran (sequence_ x :: ran q) q);
      run_expired expired' q'
  end.

(** The timerfd, one-shot, has fired and is read. *)
Definition readTimerfd (q : t) : t := set_armed None q.

Definition handleRead (now : Z) (q : t) : outcome t :=
  '(expired, q1) ← getExpired now (readTimerfd q);
  q2 ← run_expired expired (set_calling true ∅ q1);
  reset expired now (set_calling false (cancelingTimers_ q2) q2).

(** The loop takes the pending functors. *)
Fixpoint run_tasks (l : list task) (q : t) : outcome t :=
  match l with
  | [] => Ret q
  | AddInLoop a :: l' => q' ← addTimerInLoop a q; run_tasks l' q'
  | CancelInLoop i :: l' => q' ← cancelInLoop i q; run_tasks l' q'
  end.
Definition doPending (q : t) : outcome t := run_tasks (pending q) (set_pending [] q).

(** What happens to a queue: calls from the loop's thread or another one, the
    timerfd becoming readable, the pending functors. *)
Inductive event := Call (a : action) | Alarm (now : Z) | Pending.

Definition step (e : event) (q : t) : outcome t :=
  match e with
  | Call a => act a q
  | Alarm now => handleRead now q
  | Pending => doPending q
  end.

Fixpoint steps (l : list event) (q : t) : outcome t :=
  match l with [] => Ret q | e :: l' => q' ← step e q; steps l' q' end.

End queue.

(** ** The sorted list *)

Definition elt (x y : Entry) : Prop := Entry_lt x y = true.

Lemma elt_iff x y : elt x y <-> fst x < fst y \/ (fst x = fst y /\ Z.pos (snd x) < Z.pos (snd y)).
Proof.
  unfold elt, Entry_lt. rewrite orb_true_iff, andb_true_iff, !Z.ltb_lt, Z.eqb_eq. done.
Qed.

Lemma elt_false x y : Entry_lt x y = false <-> ~ elt x y.
Proof. unfold elt. destruct (Entry_lt x y); split; congruence. Qed.

Lemma elt_trans x y z : elt x y -> elt y z -> elt x z.
Proof. rewrite !elt_iff. lia. Qed.

Lemma elt_irrefl x : ~ elt x x.
Proof. rewrite elt_iff. lia. Qed.

Lemma elt_total x y : ~ elt x y -> ~ elt y x -> x = y.
Proof. rewrite !elt_iff. destruct x as [w a], y as [w' a']. cbn. intros. f_equal; [lia|]. lia. Qed.

Definition sorted (l : list Entry) : Prop := StronglySorted elt l.

Lemma sorted_cons x l : sorted (x :: l) <-> sorted l /\ forall y, y ∈ l -> elt x y.
Proof.
  split.
  - intros H. inversion H as [|? ? Hl Hx]; subst. split; [done|]. by rewrite list.Forall_forall in Hx.
  - intros [Hl Hx]. constructor; [done|]. by rewrite list.Forall_forall.
Qed.

Lemma sorted_not_elem x l : sorted (x :: l) -> x ∉ l.
Proof. intros [_ H]%sorted_cons Hin. apply (elt_irrefl x), H, Hin. Qed.

Lemma set_insert_ok e l : sorted l -> e ∉ l ->
  exists l', set_insert e l = (l', true) /\ sorted l' /\ length l' = S (length l) /\
    forall x, x ∈ l' <-> x = e \/ x ∈ l.
Proof.
  induction l as [|y l IH]; intros Hs He; cbn [set_insert].
  { exists [e]. split_and!; [done| |done|set_solver]. apply sorted_cons. split; [constructor|set_solver]. }
  pose proof (proj1 (sorted_cons _ _) Hs) as [Hl Hy]. destruct (Entry_lt e y) eqn:E1.
  { exists (e :: y :: l). split_and!; [done| |done|set_solver]. apply sorted_cons. split; [done|].
    intros z [->|Hz]%elem_of_cons; [done|]. eapply elt_trans; [exact E1|auto]. }
  destruct (Entry_lt y e) eqn:E2.
  - destruct IH as (l' & -> & Hs' & Hlen & Hin); [done|set_solver|]. exists (y :: l').
    split_and!; [done| |cbn; lia|set_solver]. apply sorted_cons. split; [done|].
    intros z [->|Hz]%Hin; [done|auto].
  - apply elt_false in E1, E2. assert (e = y) as -> by (by apply elt_total). set_solver.
Qed.

Lemma set_erase_ok e l : sorted l -> e ∈ l ->
  exists l', set_erase e l = (l', 1%nat) /\ sorted l' /\ length l = S (length l') /\
    forall x, x ∈ l' <-> x <> e /\ x ∈ l.
Proof.
  induction l as [|y l IH]; intros Hs He; cbn [set_erase]; [set_solver|].
  pose proof (proj1 (sorted_cons _ _) Hs) as [Hl Hy]. destruct (Entry_lt y e) eqn:E1.
  - apply elem_of_cons in He as [->|He]; [by apply elt_irrefl in E1|].
    destruct (IH Hl He) as (l' & -> & Hs' & Hlen & Hin). exists (y :: l').
    assert (y <> e) by (intros ->; by apply elt_irrefl in E1).
    split_and!; [done| |cbn; lia|set_solver]. apply sorted_cons. split; [done|]. intros z [_ Hz]%Hin. auto.
  - destruct (Entry_lt e y) eqn:E2.
    + exfalso. apply elem_of_cons in He as [->|He]; [by apply elt_irrefl in E2|].
      apply (elt_irrefl e). eapply elt_trans; [exact E2|auto].
    + apply elt_false in E1, E2. assert (e = y) as -> by (by apply elt_total). exists l.
      split_and!; [done|done|done|]. intros x. rewrite elem_of_cons.
      pose proof (sorted_not_elem _ _ Hs). split; [|naive_solver]. intros Hx. split; [|by right]. by intros ->.
Qed.

Lemma before_sentry_iff now x : before_sentry now x = true <-> fst x <= now.
Proof.
  unfold before_sentry, below_UINTPTR_MAX. rewrite orb_true_iff, andb_true_iff, Z.ltb_lt, Z.eqb_eq. lia.
Qed.

Lemma split_at_ok now l : sorted l ->
  exists a b, split_at now l = (a, b) /\ l = a ++ b /\ (forall x, x ∈ a -> fst x <= now) /\
    (forall x, x ∈ b -> now < fst x).
Proof.
  induction l as [|y l IH]; intros Hs; cbn [split_at].
  { exists [], []. split_and!; [done..|set_solver|set_solver]. }
  pose proof (proj1 (sorted_cons _ _) Hs) as [Hl Hy]. destruct (before_sentry now y) eqn:E.
  - apply before_sentry_iff in E. destruct (IH Hl) as (a & b & -> & -> & Ha & Hb). exists (y :: a), b.
    split_and!; [done..| |done]. intros x [->|Hx]%elem_of_cons; [done|auto].
  - assert (now < fst y) by (pose proof (before_sentry_iff now y) as H; rewrite E in H; destruct (Z.le_gt_cases (fst y) now); [naive_solver|lia]).
    exists [], (y :: l). split_and!; [done..|set_solver|].
    intros x [->|Hx]%elem_of_cons; [done|]. apply Hy, elt_iff in Hx. lia.
Qed.

Lemma sorted_app_r a b : sorted (a ++ b) -> sorted b.
Proof. induction a as [|x a IH]; [done|]. cbn. intros [H _]%sorted_cons. auto. Qed.

Lemma sorted_app_disjoint a b : sorted (a ++ b) -> forall x, x ∈ a -> x ∉ b.
Proof.
  induction a as [|y a IH]; cbn; [set_solver|]. intros [Hs Hy]%sorted_cons x [->|Hx]%elem_of_cons; [|auto].
  intros Hb. apply (elt_irrefl y), Hy. set_solver.
Qed.

Lemma sorted_nodup l : sorted l -> NoDup l.
Proof.
  induction l as [|x l IH]; intros Hs; constructor; [by apply sorted_not_elem|].
  apply IH. by apply sorted_cons in Hs as [? _].
Qed.

(** ** The invariant

    [D] are the timers that exist without being in the queue: the expired ones whose
    callbacks run, and the ones other threads have just created. *)

Record inv (q : t) (D : list addr) : Prop := {
  i_sorted : sorted (timers_ q);
  i_sizes : length (timers_ q) = size (activeTimers_ q);
  i_timers w a : (w, a) ∈ timers_ q -> exists x, heap q !! a = Some x /\ expiration_ x = w /\
    (a, sequence_ x) ∈ activeTimers_ q;
  i_active a s : (a, s) ∈ activeTimers_ q -> exists x, heap q !! a = Some x /\ sequence_ x = s /\
    (expiration_ x, a) ∈ timers_ q;
  i_heap a x : heap q !! a = Some x -> sequence_ x <= numCreated q;
  i_unique a b x y : heap q !! a = Some x -> heap q !! b = Some y -> sequence_ x = sequence_ y -> a = b;
  i_detached_nodup : NoDup D;
  i_detached a : a ∈ D -> exists x, heap q !! a = Some x /\ (a, sequence_ x) ∉ activeTimers_ q;
  i_owned a x : heap q !! a = Some x -> (a, sequence_ x) ∈ activeTimers_ q \/ a ∈ D
}.

(** What the in-loop operations leave alone. *)
Definition same (q q' : t) : Prop :=
  pending q' = pending q /\ callingExpiredTimers_ q' = callingExpiredTimers_ q /\
  ran q' = ran q /\ numCreated q' = numCreated q.

Lemma inv_perm q D D' : D ≡ₚ D' -> inv q D -> inv q D'.
Proof.
  intros E [? ? ? ? ? ? Hn Hd Ho]. split; try done.
  - by rewrite <- E.
  - intros a Ha. apply Hd. by rewrite E.
  - intros a x Hx. destruct (Ho a x Hx) as [?|Ha]; [by left|right]. by rewrite <- E.
Qed.

Lemma sizes_agree_true q : length (timers_ q) = size (activeTimers_ q) -> sizes_agree q = true.
Proof. intros H. unfold sizes_agree. by apply Nat.eqb_eq. Qed.

(** Putting a detached timer in the queue. *)
Lemma insert_ok q a D : inv q (a :: D) ->
  returns (insert a q) (fun '(_, q') => inv q' D /\ same q q' /\ heap q' = heap q /\
    cancelingTimers_ q' = cancelingTimers_ q /\ armed q' = armed q /\
    forall e, e ∈ timers_ q' <->
      (exists x, heap q !! a = Some x /\ e = (expiration_ x, a)) \/ e ∈ timers_ q).
Proof.
  intros I. destruct I as [Hs Hz Ht Ha Hh Hu Hn Hd Ho]. destruct (Hd a) as (x & Hx & Hnew); [set_solver|].
  unfold insert, deref. rewrite check_bind by (by apply sizes_agree_true). rewrite Hx, bind_Ret.
  destruct (set_insert_ok (expiration_ x, a) (timers_ q) Hs) as (l & -> & Hsl & Hlen & Hin).
  { intros Hin. destruct (Ht _ _ Hin) as (y & Hy & _ & Hact). congruence. }
  rewrite check_bind by done. rewrite check_bind by (by apply negb_true_iff, bool_decide_eq_false).
  assert (length l = size ({[(a, sequence_ x)]} ∪ activeTimers_ q)) as Hz'.
  { rewrite size_union, size_singleton by set_solver. lia. }
  rewrite check_bind by (by apply sizes_agree_true). cbn [returns].
  apply list.NoDup_cons in Hn as [Hna Hn].
  split; [split; cbn [timers_ activeTimers_ heap numCreated set_timers]; try done|].
  - intros w b [[= -> ->]|Hb]%Hin; [exists x; set_solver|].
    destruct (Ht _ _ Hb) as (y & ? & ? & ?). exists y. set_solver.
  - intros b s [[= -> ->]%elem_of_singleton|Hb]%elem_of_union.
    + exists x. split_and!; try done. apply Hin. by left.
    + destruct (Ha _ _ Hb) as (y & ? & ? & ?). exists y. split_and!; try done. apply Hin. by right.
  - intros b Hb. destruct (Hd b) as (y & Hy & Hny); [set_solver|]. exists y. split; [done|].
    intros [[= -> _]%elem_of_singleton|?]%elem_of_union; [done|done].
  - intros b y Hy. destruct (Ho b y Hy) as [?|[->|?]%elem_of_cons]; [set_solver| |by right].
    left. assert (y = x) as -> by congruence. set_solver.
  - split_and!; try done. intros e. rewrite Hin. split; [|naive_solver].
    intros [->|?]; [left; eauto|by right].
Qed.

Lemma addTimerInLoop_ok q a D : inv q (a :: D) ->
  returns (addTimerInLoop a q) (fun q' => inv q' D /\ same q q' /\ heap q' = heap q /\
    cancelingTimers_ q' = cancelingTimers_ q /\
    forall e, e ∈ timers_ q' <->
      (exists x, heap q !! a = Some x /\ e = (expiration_ x, a)) \/ e ∈ timers_ q).
Proof.
  intros I. destruct (i_detached _ _ I a) as (x & Hx & _); [set_solver|].
  unfold addTimerInLoop. eapply returns_seq; [by apply insert_ok|].
  intros [b q'] (I' & Hsame & Eh & Ec & Ea & Hin). destruct b; [|done].
  assert (deref a q' = Ret x) as -> by (unfold deref; by rewrite Eh, Hx). rewrite bind_Ret. cbn [returns].
  split; [destruct I'; by split|]. split; [exact Hsame|]. split; [exact Eh|]. split; [exact Ec|exact Hin].
Qed.

(** Cancelling: a queued timer leaves the queue and the heap; otherwise the request
    is remembered while callbacks run. *)
Lemma cancelInLoop_ok q i D : inv q D ->
  returns (cancelInLoop i q) (fun q' => inv q' D /\ same q q' /\ armed q' = armed q /\ (i ∉ activeTimers_ q') /\
    (((i ∈ activeTimers_ q) /\ heap q' = delete (fst i) (heap q) /\
      activeTimers_ q' = (activeTimers_ q ∖ {[i]}) /\ (forall e, e ∈ timers_ q' -> e ∈ timers_ q) /\ cancelingTimers_ q' = cancelingTimers_ q) \/
     ((i ∉ activeTimers_ q) /\ heap q' = heap q /\ activeTimers_ q' = activeTimers_ q /\
      timers_ q' = timers_ q /\
      cancelingTimers_ q' = (if callingExpiredTimers_ q then {[i]} ∪ cancelingTimers_ q else cancelingTimers_ q)))).
Proof.
  intros I. pose proof I as [Hs Hz Ht Ha Hh Hu Hn Hd Ho]. unfold cancelInLoop.
  rewrite check_bind by (by apply sizes_agree_true). case_bool_decide as Hi.
  - destruct i as [a s]. destruct (Ha _ _ Hi) as (x & Hx & Es & Hin). cbn [fst]. unfold deref. rewrite Hx, bind_Ret.
    destruct (set_erase_ok _ _ Hs Hin) as (l & -> & Hsl & Hlen & Hl). rewrite check_bind by done. rewrite bind_Ret.
    assert (length l = size (activeTimers_ q ∖ {[(a, s)]})) as Hz'.
    { rewrite size_difference, size_singleton by set_solver. lia. }
    rewrite check_bind by (by apply sizes_agree_true). cbn [returns].
    split; [split; cbn [timers_ activeTimers_ heap numCreated set_timers set_heap]; try done|].
    + intros w b [Hne Hb]%Hl. destruct (Ht _ _ Hb) as (y & Hy & Ew & Hact). exists y.
      assert (b <> a) as Hba by (intros ->; assert (y = x) as -> by congruence; by subst).
      rewrite lookup_delete_ne by done. set_solver.
    + intros b s' [Hb Hne]%elem_of_difference. destruct (Ha _ _ Hb) as (y & Hy & Ey & Hyin). exists y.
      assert (b <> a) as Hba by (intros ->; assert (y = x) as -> by congruence; set_solver).
      rewrite lookup_delete_ne by done. split_and!; try done. apply Hl. split; [congruence|done].
    + intros b y [_ Hy]%lookup_delete_Some. by apply (Hh b).
    + intros b c y z [_ Hy]%lookup_delete_Some [_ Hz0]%lookup_delete_Some. by apply (Hu b c y z).
    + intros b Hb. destruct (Hd b Hb) as (y & Hy & Hny). exists y.
      assert (b <> a) as Hba by (intros ->; assert (y = x) as -> by congruence; by subst).
      rewrite lookup_delete_ne by done. set_solver.
    + intros b y [Hba Hy]%lookup_delete_Some. destruct (Ho b y Hy) as [?|?]; [left|by right]. set_solver.
    + split_and!; try done; [cbn; set_solver|]. left. split_and!; try done. intros e [_ ?]%Hl. done.
  - destruct (callingExpiredTimers_ q) eqn:Ec; rewrite bind_Ret, check_bind by (by apply sizes_agree_true);
      cbn [returns]; rewrite ?Ec; (split; [by split|]); split_and!; try done; right; by split_and!.
Qed.

(** ** Histories

    Every timer of a later state is an earlier one with the same sequence number, or
    was created since; the callbacks run since are of such timers. *)
Definition known (q : t) (s : Z) : Prop :=
  (exists a x, heap q !! a = Some x /\ sequence_ x = s) \/ numCreated q < s.

Record evolves (q q' : t) : Prop := {
  e_created : numCreated q <= numCreated q';
  e_heap a x : heap q' !! a = Some x -> known q (sequence_ x);
  e_ran : exists l, ran q' = l ++ ran q /\ Forall (known q) l
}.

Lemma evolves_known q q' s : evolves q q' -> known q' s -> known q s.
Proof.
  intros [Hc Hh _] [(a & x & Hx & <-)|Hs]; [by apply (Hh a)|]. right. lia.
Qed.

Lemma evolves_trans q q' q'' : evolves q q' -> evolves q' q'' -> evolves q q''.
Proof.
  intros E1 E2. pose proof E1 as [? ? (l & Er & Hl)]. destruct E2 as [? Hh (l' & Er' & Hl')]. split; [lia| |].
  - intros a x Hx. eapply evolves_known; [done|]. by apply (Hh a).
  - exists (l' ++ l). rewrite Er', Er, app_assoc. split; [done|]. apply Forall_app. split; [|done].
    eapply Forall_impl; [|done]. intros s. by apply evolves_known.
Qed.

(** Steps that only delete timers or change their expiration. *)
Lemma evolves_shrink q q' : numCreated q' = numCreated q -> ran q' = ran q ->
  (forall a x, heap q' !! a = Some x -> exists y, heap q !! a = Some y /\ sequence_ y = sequence_ x) ->
  evolves q q'.
Proof.
  intros Ec Er Hh. split; [lia| |].
  - intros a x Hx. destruct (Hh a x Hx) as (y & Hy & E). left. eauto.
  - exists []. by rewrite Er.
Qed.

(** A sequence number that no timer has any more. *)
Definition dead (s : Z) (q : t) : Prop :=
  s <= numCreated q /\ forall a x, heap q !! a = Some x -> sequence_ x <> s.

Lemma dead_unknown s q : dead s q <-> ~ known q s.
Proof.
  unfold dead, known. split.
  - intros [Hs Hd] [(a & x & Hx & E)|?]; [by apply (Hd a x)|lia].
  - intros H. split; [|naive_solver]. destruct (Z.le_gt_cases s (numCreated q)); [done|]. naive_solver.
Qed.

Lemma dead_evolves s q q' : dead s q -> evolves q q' -> dead s q' /\ exists l, ran q' = l ++ ran q /\ s ∉ l.
Proof.
  rewrite !dead_unknown. intros Hd E. split.
  - intros H. by apply Hd, (evolves_known q q').
  - destruct E as [_ _ (l & El & Hl)]. exists l. split; [done|]. intros Hs. apply Hd.
    rewrite list.Forall_forall in Hl. by apply Hl.
Qed.

(** ** Whole operations *)

Definition adds (l : list task) : list addr :=
  omap (fun k => match k with AddInLoop a => Some a | CancelInLoop _ => None end) l.

(** The microseconds of a repeating timer's interval do not overflow. *)
Definition interval_ok (i : double) : Prop :=
  SFltb (S754_zero false) i = true ->
  exists d, int64_of_double (double_mul i (double_of_Z kMicroSecondsPerSecond)) = Ret d /\ 0 <= d < 2 ^ 62.

Definition timer_ok (x : Timer.t) : Prop :=
  0 < expiration_ x /\ (repeat_ x = true -> SFltb (S754_zero false) (interval_ x) = true) /\
  interval_ok (interval_ x).

(** The state between operations, [D] being the expired timers in callbacks. *)
Definition Inv (q : t) (D : list addr) : Prop :=
  inv q (adds (pending q) ++ D) /\ forall a x, heap q !! a = Some x -> timer_ok x.

(** The timerfd is set for no later than the first timer. *)
Definition wake (q : t) : Prop :=
  timers_ q = [] \/ exists e, armed q = Some e /\ forall w a, (w, a) ∈ timers_ q -> e <= w.

Definition action_ok (a : action) : Prop :=
  match a with Add _ _ when interval => 0 < when /\ interval_ok interval | Cancel _ _ => True end.

Lemma addTimerInLoop_wake q a D : inv q (a :: D) -> wake q ->
  returns (addTimerInLoop a q) wake.
Proof.
  intros I W. pose proof I as [Hs _ _ _ _ _ _ Hd _]. destruct (Hd a) as (x & Hx & _); [set_solver|].
  pose proof (insert_ok q a D I) as Hins. unfold addTimerInLoop.
  destruct (insert a q) as [[b q']|] eqn:E; [|done]. destruct Hins as (I' & _ & Eh & _ & Ea & Hin).
  assert (b = match timers_ q with [] => true | it :: _ => expiration_ x <? fst it end) as Hb.
  { unfold insert, deref in E. apply bind_Ret_inv in E as (u & _ & E). rewrite Hx, bind_Ret in E.
    destruct (set_insert _ _) as [l f]. apply bind_Ret_inv in E as (u1 & _ & E).
    apply bind_Ret_inv in E as (u2 & _ & E). apply bind_Ret_inv in E as (u3 & _ & E). by simplify_eq. }
  rewrite bind_Ret. destruct b.
  - assert (deref a q' = Ret x) as -> by (unfold deref; by rewrite Eh, Hx). rewrite bind_Ret. cbn [returns].
    right. exists (expiration_ x). split; [done|]. intros w c [(y & Hy & [= -> ->])|Hc]%Hin.
    + assert (y = x) as -> by congruence. lia.
    + destruct (timers_ q) as [|it l]; [set_solver|]. symmetry in Hb. apply Z.ltb_lt in Hb.
      apply sorted_cons in Hs as [_ Hs]. apply elem_of_cons in Hc as [<-|Hc]; [cbn in Hb; lia|].
      apply Hs, elt_iff in Hc. cbn in Hc. lia.
  - cbn [returns]. destruct (timers_ q) as [|it l] eqn:Et; [done|]. symmetry in Hb. apply Z.ltb_ge in Hb.
    destruct W as [W|(e & Ee & We)]; [congruence|]. right. exists e. split; [congruence|].
    rewrite Et in We. intros w c [(y & Hy & [= -> ->])|Hc]%Hin; [|by apply (We w c)].
    assert (y = x) as -> by congruence. pose proof (We (fst it) (snd it)) as H. destruct it. cbn in *.
    specialize (H ltac:(set_solver)). lia.
Qed.

Lemma wake_subset q q' : wake q -> armed q' = armed q -> (forall e, e ∈ timers_ q' -> e ∈ timers_ q) -> wake q'.
Proof.
  intros [E|(e & Ee & W)] Ea Hsub.
  - left. rewrite E in Hsub. destruct (timers_ q') as [|x l]; [done|]. specialize (Hsub x). set_solver.
  - right. exists e. split; [congruence|]. intros w a Ha. by apply (W w a), Hsub.
Qed.

Section proofs.
Variable alloc : gset addr -> addr.
Variable script : nat -> list action.
Hypothesis alloc_fresh : forall X, alloc X ∉ X.
Hypothesis script_ok : forall cb, Forall action_ok (script cb).

(** The facts every operation of the loop preserves while the timers [D] are in
    callbacks. *)
Definition keeps (q q' : t) (D : list addr) : Prop :=
  Inv q' D /\ evolves q q' /\ (wake q -> wake q') /\
  callingExpiredTimers_ q' = callingExpiredTimers_ q /\ ran q' = ran q /\
  (forall a, a ∈ D -> heap q' !! a = heap q !! a) /\
  (forall i, i ∈ cancelingTimers_ q -> i ∈ cancelingTimers_ q').

Lemma keeps_trans q q' q'' D : keeps q q' D -> keeps q' q'' D -> keeps q q'' D.
Proof.
  intros (I1 & E1 & W1 & C1 & R1 & H1 & K1) (I2 & E2 & W2 & C2 & R2 & H2 & K2).
  split_and!; try done; [by eapply evolves_trans|auto|congruence|congruence| |auto].
  intros a Ha. rewrite H2 by done. auto.
Qed.

(** A new timer, not yet in the queue. *)
Lemma new_timer_ok q D cb when interval : inv q D -> (forall a x, heap q !! a = Some x -> timer_ok x) ->
  0 < when -> interval_ok interval ->
  let timer := alloc (dom (heap q)) in
  let seq := numCreated q + 1 in
  let q' := mk (<[timer := Timer cb when interval seq]> (heap q)) seq (timers_ q)
              (callingExpiredTimers_ q) (activeTimers_ q) (cancelingTimers_ q) (armed q) (pending q) (ran q) in
  inv q' (timer :: D) /\ (forall a x, heap q' !! a = Some x -> timer_ok x) /\ evolves q q' /\
  (timer ∉ D).
Proof.
  intros [Hs Hz Ht Ha Hh Hu Hn Hd Ho] Hok Hw Hi. cbv zeta. set (a := alloc (dom (heap q))).
  assert (heap q !! a = None) as Hnone by (apply not_elem_of_dom, alloc_fresh).
  assert (a ∉ D) as HaD by (intros Hin; destruct (Hd a Hin) as (x & Hx & _); congruence).
  assert (forall b x, heap q !! b = Some x -> b <> a) as Hne by (intros b x Hx ->; congruence).
  split_and!; try done.
  - split; cbn [timers_ activeTimers_ heap numCreated]; try done.
    + intros w b Hb. destruct (Ht _ _ Hb) as (x & Hx & ? & ?). exists x.
      rewrite lookup_insert_ne by (symmetry; by eapply Hne). done.
    + intros b s Hb. destruct (Ha _ _ Hb) as (x & Hx & ? & ?). exists x.
      rewrite lookup_insert_ne by (symmetry; by eapply Hne). done.
    + intros b x [[<- <-]|[_ Hx]]%lookup_insert_Some.
      * cbn. lia.
      * pose proof (Hh b x Hx). lia.
    + intros b c x y [[<- <-]|[Hb Hx]]%lookup_insert_Some [[<- <-]|[Hc Hy]]%lookup_insert_Some E; try done.
      * pose proof (Hh c y Hy). cbn in E. lia.
      * pose proof (Hh b x Hx). cbn in E. lia.
      * by apply (Hu b c x y).
    + by constructor.
    + intros b [->|Hb]%elem_of_cons.
      * eexists. rewrite lookup_insert_eq. split; [done|]. intros Hin. destruct (Ha _ _ Hin) as (x & Hx & _). congruence.
      * destruct (Hd b Hb) as (x & Hx & Hnx). exists x. rewrite lookup_insert_ne by (symmetry; by eapply Hne). done.
    + intros b x [[<- <-]|[_ Hx]]%lookup_insert_Some; [right; set_solver|].
      destruct (Ho b x Hx) as [?|?]; [by left|right; set_solver].
  - cbn [heap]. intros b x [[<- <-]|[_ Hx]]%lookup_insert_Some; [|by apply (Hok b)].
    unfold timer_ok, Timer. cbn. done.
  - split; cbn [numCreated heap ran]; [lia| |by exists []].
    intros b x [[<- <-]|[_ Hx]]%lookup_insert_Some; [right; cbn; lia|left; eauto].
Qed.

Lemma evolves_same_heap q q' : heap q' = heap q -> same q q' -> evolves q q'.
Proof. intros Eh (_ & _ & Er & En). apply evolves_shrink; [done..|]. rewrite Eh. eauto. Qed.

Lemma addTimer_keeps q D inLoop cb when interval : Inv q D -> 0 < when -> interval_ok interval ->
  returns (addTimer alloc inLoop cb when interval q) (fun q' => keeps q q' D).
Proof.
  intros [I Hok] Hw Hi. unfold addTimer.
  destruct (new_timer_ok q (adds (pending q) ++ D) cb when interval I Hok Hw Hi) as (I' & Hok' & Ev & Hnew).
  set (a := alloc _) in *. set (q1 := mk _ _ _ _ _ _ _ _ _) in *.
  assert (forall b, b ∈ D -> heap q1 !! b = heap q !! b) as Hold.
  { intros b Hb. apply lookup_insert_ne. intros <-. set_solver. }
  destruct inLoop.
  - pose proof (addTimerInLoop_wake q1 a _ I') as Hwake. pose proof (addTimerInLoop_ok q1 a _ I') as H.
    destruct (addTimerInLoop a q1) as [q2|]; [|done]. cbn [returns] in *.
    destruct H as (I2 & S2 & Eh & Ec & _). pose proof S2 as (Ep & Ecal & Er & En).
    split_and!.
    + split; [by rewrite Ep|by rewrite Eh].
    + eapply evolves_trans; [exact Ev|]. by apply evolves_same_heap.
    + exact Hwake.
    + by rewrite Ecal.
    + by rewrite Er.
    + intros b Hb. rewrite Eh. auto.
    + intros i Hin. by rewrite Ec.
  - cbn [returns]. split_and!; try done; [|eapply evolves_trans; [exact Ev|by apply evolves_shrink; eauto]].
    split; [|done]. eapply (inv_perm (set_pending _ q1)); [|destruct I'; by split].
    cbn [pending set_pending q1]. unfold adds. rewrite omap_app. cbn. solve_Permutation.
Qed.

Lemma evolves_delete q q' a : heap q' = delete a (heap q) -> same q q' -> evolves q q'.
Proof.
  intros Eh (_ & _ & Er & En). apply evolves_shrink; [done..|]. rewrite Eh.
  intros b x [_ Hx]%lookup_delete_Some. eauto.
Qed.

Lemma cancelInLoop_keeps q D i : Inv q D ->
  returns (cancelInLoop i q) (fun q' => keeps q q' D /\ pending q' = pending q).
Proof.
  intros [I Hok]. pose proof (cancelInLoop_ok q i _ I) as H. destruct (cancelInLoop i q) as [q'|]; [|done].
  cbn [returns] in *. destruct H as (I' & Hsame & Ea & _ & H). pose proof Hsame as (Ep & Ecal & Er & En).
  split; [|done]. destruct H as [(Hi & Eh & _ & Hsub & Ec)|(Hi & Eh & _ & Et & Ec)].
  - split_and!; try done.
    + split; [by rewrite Ep|]. rewrite Eh. intros a x [_ Hx]%lookup_delete_Some. by apply (Hok a).
    + by eapply evolves_delete.
    + intros W. by eapply wake_subset.
    + intros b Hb. rewrite Eh. apply lookup_delete_ne. intros <-.
      destruct (i_detached _ _ I (fst i)) as (x & Hx & Hn); [set_solver|].
      destruct i as [a s]. destruct (i_active _ _ I a s Hi) as (y & Hy & <- & _). cbn in *. congruence.
    + intros j Hj. by rewrite Ec.
  - split_and!; try done.
    + split; [by rewrite Ep|by rewrite Eh].
    + by apply evolves_same_heap.
    + intros W. eapply wake_subset; [done..|]. by rewrite Et.
    + intros b _. by rewrite Eh.
    + intros j Hj. rewrite Ec. destruct (callingExpiredTimers_ q); set_solver.
Qed.

Lemma act_keeps q D a : Inv q D -> action_ok a -> returns (act alloc a q) (fun q' => keeps q q' D).
Proof.
  intros I Ha. destruct a as [inLoop cb when interval|inLoop i]; cbn [act].
  - destruct Ha. by apply addTimer_keeps.
  - unfold cancel. destruct inLoop.
    + eapply returns_mono; [|by apply cancelInLoop_keeps]. by intros q' [? _].
    + cbn [returns]. destruct I as [I Hok]. split_and!; try done.
      * split; [|done]. cbn [pending set_pending]. unfold adds. rewrite omap_app. cbn. rewrite app_nil_r.
        destruct I; by split.
      * apply evolves_shrink; eauto.
Qed.

Lemma keeps_refl q D : Inv q D -> keeps q q D.
Proof. intros I. split_and!; try done. by apply evolves_same_heap. Qed.

Lemma acts_keeps l : forall q D, Inv q D -> Forall action_ok l ->
  returns (acts alloc l q) (fun q' => keeps q q' D).
Proof.
  induction l as [|a l IH]; intros q D I Hl; cbn [acts]; [cbn [returns]; by apply keeps_refl|].
  inversion Hl as [|? ? Ha Hl']; subst. eapply returns_seq; [by apply act_keeps|]. intros q' K.
  eapply returns_mono; [|apply (IH q' D); [apply K|done]]. intros q'' K'. exact (keeps_trans _ _ _ _ K K').
Qed.

(** While callbacks run, a timer in a callback is in [cancelingTimers_] exactly when a callback
    has cancelled it. *)
Definition cancels (i : TimerId) (a : action) : bool :=
  match a with Cancel true j => bool_decide (j = i) | _ => false end.

Lemma detached_inactive q D i : inv q D -> fst i ∈ D -> i ∉ activeTimers_ q.
Proof.
  intros I Hi Ha. destruct i as [a n]. destruct (i_detached _ _ I a Hi) as (x & Hx & Hn). destruct (i_active _ _ I a n Ha) as (y & Hy & <- & _).
  cbn in *. congruence.
Qed.

Lemma act_canceling q D a i : Inv q D -> action_ok a -> callingExpiredTimers_ q = true -> fst i ∈ D ->
  returns (act alloc a q) (fun q' => keeps q q' D /\ (i ∈ cancelingTimers_ q' <-> i ∈ cancelingTimers_ q \/ cancels i a = true)).
Proof.
  intros I Ha Hc Hi. pose proof (act_keeps q D a I Ha) as HK. destruct a as [inLoop cb when interval|inLoop j]; cbn [act cancels] in *.
  - destruct I as [I Hok], Ha as [Hw Hint]. unfold addTimer in *.
    destruct (new_timer_ok q (adds (pending q) ++ D) cb when interval I Hok Hw Hint) as (I' & _). destruct inLoop.
    + pose proof (addTimerInLoop_ok _ _ _ I') as H. destruct (addTimerInLoop _ _) as [q'|]; [|done]. cbn [returns] in *.
      split; [done|]. destruct H as (_ & _ & _ & -> & _). cbn. naive_solver.
    + cbn [returns] in *. split; [done|]. cbn. naive_solver.
  - unfold cancel in *. destruct inLoop; [|cbn [returns] in *; split; [done|]; cbn; naive_solver]. destruct I as [I _].
    pose proof (cancelInLoop_ok q j _ I) as H. destruct (cancelInLoop j q) as [q'|]; [|done]. cbn [returns] in *. split; [done|].
    assert (Hd : fst i ∈ adds (pending q) ++ D) by (apply elem_of_app; by right). pose proof (detached_inactive q _ i I Hd) as Hn.
    rewrite bool_decide_eq_true. destruct H as (_ & _ & _ & _ & [(Hj & _ & _ & _ & ->)|(_ & _ & _ & _ & ->)]).
    + split; [by left|]. intros [? | ->]; done.
    + rewrite Hc, elem_of_union, elem_of_singleton. naive_solver.
Qed.

Lemma acts_canceling l i : forall q D, Inv q D -> Forall action_ok l -> callingExpiredTimers_ q = true -> fst i ∈ D ->
  returns (acts alloc l q) (fun q' => keeps q q' D /\ (i ∈ cancelingTimers_ q' <-> i ∈ cancelingTimers_ q \/ existsb (cancels i) l = true)).
Proof.
  induction l as [|a l IH]; intros q D I Hl Hc Hi; cbn [acts existsb]; [split; [by apply keeps_refl|]; naive_solver|].
  inversion Hl as [|? ? Ha Hl']; subst. eapply returns_seq; [by apply act_canceling|]. intros q1 [K1 C1].
  pose proof K1 as (I1 & _ & _ & E1 & _). eapply returns_mono; [|apply (IH q1 D I1 Hl'); [congruence|done]].
  intros q2 [K2 C2]. split; [exact (keeps_trans _ _ _ _ K1 K2)|]. rewrite C2, C1, orb_true_iff. tauto.
Qed.

(** [getExpired] takes out exactly the timers that are due. *)
Lemma erase_active_ok expired : forall q D, sorted (timers_ q) ->
  inv (set_timers (expired ++ timers_ q) (activeTimers_ q) q) D ->
  (forall e, e ∈ expired -> e ∉ timers_ q) -> NoDup expired ->
  returns (erase_active expired q) (fun q' => inv q' (map snd expired ++ D) /\ same q q' /\
    heap q' = heap q /\ timers_ q' = timers_ q /\ armed q' = armed q /\ cancelingTimers_ q' = cancelingTimers_ q).
Proof.
  induction expired as [|[w a] expired IH]; intros q D Hsr I Hdis Hnd; cbn [erase_active map].
  { cbn [returns]. destruct I. by split_and!. }
  pose proof I as [Hs Hz Ht Ha Hh Hu Hn Hd Ho]. cbn [timers_ activeTimers_ heap set_timers] in *.
  destruct (Ht w a) as (x & Hx & Ew & Hact); [set_solver|]. cbn [snd]. unfold deref. rewrite Hx, bind_Ret.
  rewrite check_bind by (by apply bool_decide_eq_true). apply list.NoDup_cons in Hnd as [Hna Hnd].
  set (q1 := set_timers _ _ q).
  assert (a ∉ D) as HaD.
  { intros Hin. destruct (Hd a Hin) as (y & Hy & Hny). congruence. }
  pose proof (IH q1 (a :: D)) as Hrec. 
  assert (inv (set_timers (expired ++ timers_ q1) (activeTimers_ q1) q1) (a :: D)) as I1.
  { cbn [app] in Hs. apply sorted_cons in Hs as [Hs' Hlt].
    split; cbn [timers_ activeTimers_ heap numCreated set_timers q1]; try done.
    - rewrite size_difference, size_singleton by set_solver. cbn in Hz. lia.
    - intros w' b Hb. destruct (Ht w' b) as (y & Hy & Ey & Hyact); [set_solver|]. exists y. split_and!; try done.
      apply elem_of_difference. split; [done|]. intros [= -> _]%elem_of_singleton.
      assert (y = x) as -> by congruence. subst w'. rewrite Ew in Hb. by apply (elt_irrefl (w, a)), Hlt.
    - intros b s [Hb Hne]%elem_of_difference. destruct (Ha b s Hb) as (y & Hy & Es & Hin). exists y.
      split_and!; try done. apply elem_of_cons in Hin as [[= E1 E2]|Hin]; [|done]. subst b.
      assert (y = x) as -> by congruence. subst s. set_solver.
    - by constructor.
    - intros b [->|Hb]%elem_of_cons; [exists x; set_solver|].
      destruct (Hd b Hb) as (y & Hy & Hny). exists y. set_solver.
    - intros b y Hy. destruct (Ho b y Hy) as [Hb|Hb]; [|right; set_solver].
      destruct (decide (b = a)) as [->|]; [right; set_solver|]. left. set_solver. }
  eapply returns_mono; [|apply Hrec; [done|exact I1| |done]].
  - intros q' (I' & Hsame & Eh & Et & Ea & Ec). split_and!; try done.
    eapply inv_perm; [|exact I']. solve_Permutation.
  - intros e He. apply Hdis. set_solver.
Qed.

Lemma getExpired_ok now q D : inv q D ->
  returns (getExpired now q) (fun '(expired, q') =>
    inv q' (map snd expired ++ D) /\ same q q' /\ heap q' = heap q /\
    armed q' = armed q /\ cancelingTimers_ q' = cancelingTimers_ q /\
    timers_ q = expired ++ timers_ q' /\ NoDup (map snd expired) /\
    (forall w a, (w, a) ∈ expired -> w <= now) /\ (forall w a, (w, a) ∈ timers_ q' -> now < w)).
Proof.
  intros I. pose proof I as [Hs Hz Ht Ha Hh Hu Hn Hd Ho]. unfold getExpired.
  rewrite check_bind by (by apply sizes_agree_true).
  destruct (split_at_ok now (timers_ q) Hs) as (a & b & -> & El & Hlo & Hhi).
  assert (forall w c, (w, c) ∈ b -> now < w) as Hb by (intros w c Hc; apply (Hhi _ Hc)).
  rewrite check_bind.
  2: { destruct b as [|[w c] b]; [done|]. apply Z.ltb_lt, (Hb w c). set_solver. }
  rewrite El in Hs. pose proof (sorted_app_disjoint _ _ Hs) as Hdis. pose proof (sorted_nodup _ Hs) as Hnd.
  apply list.NoDup_app in Hnd as (Hnda & _ & _).
  pose proof (erase_active_ok a (set_timers b (activeTimers_ q) q) D) as H.
  cbn [timers_ activeTimers_ heap set_timers] in H. rewrite <- El in H.
  eapply returns_seq; [apply H; [by eapply sorted_app_r|destruct I; by split|done|done]|].
  intros q' (I' & Hsame & Eh & Et & Ea & Ec).
  rewrite check_bind by (apply sizes_agree_true, (i_sizes _ _ I')). cbn [returns].
  cbn [timers_ set_timers] in Et. rewrite Et.
  split_and!; [exact I'|exact Hsame|exact Eh|exact Ea|exact Ec|exact El| | |exact Hb].
  - pose proof (i_detached_nodup _ _ I') as Hn'. by apply list.NoDup_app in Hn' as (? & _ & _).
  - intros w c Hc. apply (Hlo _ Hc).
Qed.

Definition seq_of (q : t) (e : Entry) : Z :=
  match heap q !! snd e with Some x => sequence_ x | None => 0 end.

(** The callbacks run in order, one per expired timer. *)
Lemma run_expired_ok expired : forall q D, Inv q D -> (forall e, e ∈ expired -> snd e ∈ D) ->
  returns (run_expired alloc script expired q) (fun q' =>
    Inv q' D /\ evolves q q' /\ callingExpiredTimers_ q' = callingExpiredTimers_ q /\
    (forall a, a ∈ D -> heap q' !! a = heap q !! a) /\
    (forall i, i ∈ cancelingTimers_ q -> i ∈ cancelingTimers_ q') /\
    ran q' = rev (map (seq_of q) expired) ++ ran q).
Proof.
  induction expired as [|e expired IH]; intros q D I Hin; cbn [run_expired map rev].
  { cbn [returns]. split_and!; try done. apply evolves_shrink; eauto. }
  pose proof I as [I0 Hok]. destruct (i_detached _ _ I0 (snd e)) as (x & Hx & _); [set_solver|].
  unfold deref. rewrite Hx, bind_Ret. set (q1 := set_ran _ q).
  assert (Inv q1 D) as I1 by (split; [destruct I0; by split|done]).
  assert (evolves q q1) as E1.
  { split; [cbn; lia|intros a y Hy; left; eauto|]. exists [sequence_ x]. split; [done|].
    constructor; [|constructor]. left. eauto. }
  eapply returns_seq; [by apply acts_keeps|]. intros q2 (I2 & E2 & _ & C2 & R2 & H2 & K2).
  eapply returns_mono; [|apply (IH q2 D I2); set_solver].
  intros q' (I' & E' & C' & H' & K' & R'). split_and!; try done.
  - eapply evolves_trans; [exact E1|]. by eapply evolves_trans.
  - by rewrite C', C2.
  - intros a Ha. rewrite H', H2 by done. done.
  - intros i Hi. by apply K', K2.
  - rewrite R', R2. cbn [ran set_ran q1]. rewrite <- app_assoc. cbn [app].
    assert (map (seq_of q2) expired = map (seq_of q) expired) as ->.
    { apply map_ext_in. intros e' He'. unfold seq_of. rewrite H2; [done|]. apply Hin.
      apply list_elem_of_In in He'. set_solver. }
    assert (seq_of q e = sequence_ x) as -> by (unfold seq_of; by rewrite Hx). done.
Qed.

(** A callback of one of the timers [es] cancels timer [i], in the loop's thread. *)
Definition cancelled_by (es : list Entry) (q : t) (i : TimerId) : bool :=
  existsb (fun e => match heap q !! snd e with Some x => existsb (cancels i) (script (callback_ x)) | None => false end) es.

Lemma run_expired_canceling expired i : forall q D, Inv q D -> (forall e, e ∈ expired -> snd e ∈ D) -> callingExpiredTimers_ q = true -> fst i ∈ D ->
  returns (run_expired alloc script expired q) (fun q' => i ∈ cancelingTimers_ q' <-> i ∈ cancelingTimers_ q \/ cancelled_by expired q i = true).
Proof.
  unfold cancelled_by. induction expired as [|e expired IH]; intros q D I Hin Hc Hi; cbn [run_expired existsb]; [naive_solver|].
  pose proof I as [I0 Hok]. destruct (i_detached _ _ I0 (snd e)) as (x & Hx & _); [set_solver|].
  unfold deref. rewrite Hx, bind_Ret. set (q1 := set_ran _ q).
  assert (Inv q1 D) as I1 by (split; [destruct I0; by split|done]).
  eapply returns_seq; [by apply (acts_canceling _ i q1 D)|]. intros q2 [(I2 & _ & _ & C2 & _ & H2 & _) K2].
  eapply returns_mono; [|apply (IH q2 D I2); [set_solver|by rewrite C2|done]]. intros q' ->. rewrite K2, orb_true_iff.
  assert (forall es, (forall e', e' ∈ es -> snd e' ∈ D) -> existsb (fun e => match heap q2 !! snd e with Some x => existsb (cancels i) (script (callback_ x)) | None => false end) es =
    existsb (fun e => match heap q !! snd e with Some x => existsb (cancels i) (script (callback_ x)) | None => false end) es) as ->; [|cbn; tauto|set_solver].
  induction es as [|e' es IHes]; intros He; cbn [existsb]; [done|]. rewrite H2 by set_solver. rewrite IHes by set_solver. done.
Qed.

(** A timer outside the queue may get a new expiration or be deleted. *)
Lemma detached_update q a x x' D : inv q (a :: D) -> heap q !! a = Some x ->
  sequence_ x' = sequence_ x -> inv (set_heap (<[a := x']> (heap q)) q) (a :: D).
Proof.
  intros [Hs Hz Ht Ha Hh Hu Hn Hd Ho] Hx Es. destruct (Hd a) as (y & Hy & Hna); [set_solver|].
  assert (y = x) as -> by congruence. clear Hy.
  assert (forall b s, (b, s) ∈ activeTimers_ q -> b <> a) as Hne.
  { intros b s Hb ->. destruct (Ha _ _ Hb) as (y & Hy & <- & _). congruence. }
  split; cbn [timers_ activeTimers_ heap numCreated set_heap]; try done.
  - intros w b Hb. destruct (Ht _ _ Hb) as (y & Hy & ? & Hact). exists y.
    rewrite lookup_insert_ne by (symmetry; by eapply Hne). done.
  - intros b s Hb. destruct (Ha _ _ Hb) as (y & Hy & ? & Hact). exists y.
    rewrite lookup_insert_ne by (symmetry; by eapply Hne). done.
  - intros b y [[<- <-]|[_ Hy]]%lookup_insert_Some; [rewrite Es|]; by eapply Hh.
  - intros b c y z [[<- <-]|[Hb Hy]]%lookup_insert_Some [[<- <-]|[Hc Hw]]%lookup_insert_Some E; try done.
    + rewrite Es in E. by apply (Hu a c x z).
    + rewrite Es in E. by apply (Hu b a y x).
    + by apply (Hu b c y z).
  - intros b Hb. destruct (decide (b = a)) as [->|].
    + exists x'. rewrite lookup_insert_eq, Es. done.
    + destruct (Hd b Hb) as (y & ? & ?). exists y. by rewrite lookup_insert_ne.
  - intros b y [[<- <-]|[_ Hy]]%lookup_insert_Some; [right; set_solver|by apply Ho].
Qed.

Lemma detached_delete q a D : inv q (a :: D) -> inv (set_heap (delete a (heap q)) q) D.
Proof.
  intros [Hs Hz Ht Ha Hh Hu Hn Hd Ho]. destruct (Hd a) as (x & Hx & Hna); [set_solver|].
  apply list.NoDup_cons in Hn as [HaD Hn].
  assert (forall b s, (b, s) ∈ activeTimers_ q -> b <> a) as Hne.
  { intros b s Hb ->. destruct (Ha _ _ Hb) as (y & Hy & <- & _). congruence. }
  split; cbn [timers_ activeTimers_ heap numCreated set_heap]; try done.
  - intros w b Hb. destruct (Ht _ _ Hb) as (y & Hy & ? & Hact). exists y.
    rewrite lookup_delete_ne by (symmetry; by eapply Hne). done.
  - intros b s Hb. destruct (Ha _ _ Hb) as (y & Hy & ? & Hact). exists y.
    rewrite lookup_delete_ne by (symmetry; by eapply Hne). done.
  - intros b y [_ Hy]%lookup_delete_Some. by apply (Hh b).
  - intros b c y z [_ Hy]%lookup_delete_Some [_ Hz0]%lookup_delete_Some. by apply (Hu b c y z).
  - intros b Hb. destruct (Hd b) as (y & Hy & ?); [set_solver|]. exists y.
    rewrite lookup_delete_ne by (intros <-; done). done.
  - intros b y [Hb Hy]%lookup_delete_Some. destruct (Ho b y Hy) as [?|?]; [by left|right; set_solver].
Qed.

Lemma restart_ok now x : timer_ok x -> 0 < now < 2 ^ 62 -> repeat_ x = true ->
  exists x', restart now x = Ret x' /\ timer_ok x' /\ sequence_ x' = sequence_ x /\ now <= expiration_ x' /\
    repeat_ x' = true.
Proof.
  intros (He & Hr & Hi) Hn Hrep. unfold restart. rewrite Hrep. destruct (Hi (Hr Hrep)) as (d & Hd & Hrange).
  unfold addTime. rewrite Hd, bind_Ret. rewrite i64_bind by (cbn; lia). rewrite bind_Ret.
  eexists. split; [done|]. cbn. split_and!; try done; [|lia]. unfold timer_ok. cbn. split; [lia|]. auto.
Qed.

(** What becomes of an expired timer. *)
Definition after_expiry (now : Z) (q q' : t) (a : addr) : Prop :=
  forall x, heap q !! a = Some x ->
    if repeat_ x && negb (bool_decide ((a, sequence_ x) ∈ cancelingTimers_ q))
    then exists x', restart now x = Ret x' /\ heap q' !! a = Some x' /\ (expiration_ x', a) ∈ timers_ q'
    else heap q' !! a = None.

Definition frame (q q' : t) : Prop :=
  callingExpiredTimers_ q' = callingExpiredTimers_ q /\ ran q' = ran q /\ pending q' = pending q /\
  cancelingTimers_ q' = cancelingTimers_ q.

Lemma reset_loop_ok now expired : 0 < now < 2 ^ 62 -> forall q, Inv q (map snd expired) ->
  returns (reset_loop expired now q) (fun q' =>
    Inv q' [] /\ evolves q q' /\ frame q q' /\
    (forall e, e ∈ timers_ q -> e ∈ timers_ q') /\
    (forall a, a ∉ map snd expired -> heap q' !! a = heap q !! a) /\
    (forall a, a ∈ map snd expired -> after_expiry now q q' a)).
Proof.
  intros Hnow. induction expired as [|[w a] expired IH]; intros q [I Hok]; cbn [reset_loop map snd] in *.
  { cbn [returns]. split_and!; try done; [apply evolves_shrink; eauto|]. intros a Ha. by apply elem_of_nil in Ha. }
  assert (inv q (a :: adds (pending q) ++ map snd expired)) as Ia by (eapply inv_perm; [|exact I]; solve_Permutation).
  destruct (i_detached _ _ Ia a) as (x & Hx & _); [set_solver|]. unfold deref. rewrite Hx, bind_Ret.
  pose proof (i_detached_nodup _ _ Ia) as [Hna _]%list.NoDup_cons.
  assert (a ∉ map snd expired) as Hna' by set_solver.
  destruct (repeat_ x && _) eqn:Hre.
  - apply andb_true_iff in Hre as [Hrep Hcan].
    destruct (restart_ok now x (Hok a x Hx) Hnow Hrep) as (x' & Hx' & Hok' & Es & _ & _).
    rewrite Hx', bind_Ret. pose proof (detached_update q a x x' _ Ia Hx Es) as I1.
    set (q1 := set_heap _ q) in *. eapply returns_seq; [by apply insert_ok|].
    intros [b q2] (I2 & (Ep & Ecal & Er & En) & Eh & Ec & _ & Hin).
    assert (frame q q2) as (G1 & G2 & G3 & G4) by (split_and!; done).
    assert (Inv q2 (map snd expired)) as J2.
    { split; [by rewrite Ep|]. rewrite Eh. cbn [heap set_heap q1]. intros c y [[<- <-]|[_ Hy]]%lookup_insert_Some; [done|by apply (Hok c)]. }
    assert (evolves q q2) as E2.
    { apply evolves_shrink; [done|done|]. rewrite Eh. cbn [heap set_heap q1]. intros c y [[<- <-]|[_ Hy]]%lookup_insert_Some; [|eauto].
      by exists x. }
    eapply returns_mono; [|exact (IH q2 J2)]. intros q' (I' & E' & (F1 & F2 & F3 & F4) & T' & H' & A').
    split_and!; try done; [by eapply evolves_trans|clear Ep Ecal Er En Ec; split_and!; congruence| | |].
    + intros e He. apply T', Hin. by right.
    + intros c Hc. rewrite H', Eh by set_solver. apply lookup_insert_ne. set_solver.
    + intros c [->|Hc]%elem_of_cons.
      * intros y Hy. assert (y = x) as -> by congruence. rewrite Hrep, Hcan. cbn [andb]. exists x'.
        split; [done|]. split; [rewrite H', Eh by done; apply lookup_insert_eq|].
        apply T', Hin. left. exists x'. split; [apply lookup_insert_eq|done].
      * intros y Hy. specialize (A' c Hc y). rewrite G4 in A'. apply A'. rewrite Eh. cbn [heap set_heap q1].
        rewrite lookup_insert_ne by (intros <-; done). done.
  - pose proof (detached_delete q a _ Ia) as I1. set (q1 := set_heap _ q) in *.
    assert (Inv q1 (map snd expired)) as J1.
    { split; [done|]. cbn [heap set_heap q1]. intros c y [_ Hy]%lookup_delete_Some. by apply (Hok c). }
    assert (evolves q q1) as E1.
    { apply evolves_shrink; [done|done|]. cbn [heap set_heap q1]. intros c y [_ Hy]%lookup_delete_Some. eauto. }
    eapply returns_mono; [|exact (IH q1 J1)]. intros q' (I' & E' & F & T' & H' & A').
    split_and!; try done; [by eapply evolves_trans| |].
    + intros c Hc. rewrite H' by set_solver. apply lookup_delete_ne. set_solver.
    + intros c [->|Hc]%elem_of_cons.
      * intros y Hy. assert (y = x) as -> by congruence. rewrite Hre. rewrite H' by done. apply lookup_delete_eq.
      * intros y Hy. apply (A' c Hc y). cbn [heap q1 set_heap]. rewrite lookup_delete_ne by (intros <-; done). done.
Qed.

Lemma inv_armed q D e : inv q D -> inv (set_armed e q) D.
Proof. intros I. destruct I. by split. Qed.

Lemma reset_ok now expired q : 0 < now < 2 ^ 62 -> Inv q (map snd expired) ->
  returns (reset expired now q) (fun q' =>
    Inv q' [] /\ evolves q q' /\ frame q q' /\ wake q' /\
    (forall e, e ∈ timers_ q -> e ∈ timers_ q') /\
    (forall a, a ∉ map snd expired -> heap q' !! a = heap q !! a) /\
    (forall a, a ∈ map snd expired -> after_expiry now q q' a)).
Proof.
  intros Hnow I. unfold reset. eapply returns_seq; [by apply reset_loop_ok|].
  intros q1 (I1 & E1 & F1 & T1 & H1 & A1). pose proof I1 as [J1 Hok1].
  destruct (timers_ q1) as [|[w a] l] eqn:Et.
  { cbn [returns]. split_and!; try done; [by left|]. by rewrite Et. }
  destruct (i_timers _ _ J1 w a) as (x & Hx & Ew & _); [rewrite Et; set_solver|].
  cbn [snd]. unfold deref. rewrite Hx, bind_Ret. destruct (Hok1 a x Hx) as (Hpos & _).
  rewrite (proj2 (Z.ltb_lt _ _)) by done. cbn [returns].
  split_and!; [|destruct E1; by split|exact F1| | |exact H1|exact A1].
  - split; [|done]. apply inv_armed. exact J1.
  - right. exists (expiration_ x). split; [done|]. cbn [timers_ resetTimerfd set_armed]. intros w' b Hb.
    pose proof (i_sorted _ _ J1) as Hs. rewrite Et in Hs, Hb. apply sorted_cons in Hs as [_ Hs].
    apply elem_of_cons in Hb as [[= -> ->]|Hb]; [lia|]. apply Hs, elt_iff in Hb. cbn in Hb. lia.
  - intros e He. cbn. rewrite Et. by apply T1.
Qed.

(** The timers that are due, in the order of the set. *)
Definition due (now : Z) (q : t) : list Entry := List.filter (fun e => fst e <=? now) (timers_ q).

Lemma filter_due now (l l' : list Entry) : (forall w a, (w, a) ∈ l -> w <= now) ->
  (forall w a, (w, a) ∈ l' -> now < w) -> List.filter (fun e => fst e <=? now) (l ++ l') = l.
Proof.
  intros Hl Hl'. induction l as [|[w a] l IH]; cbn.
  - induction l' as [|[w a] l' IH]; [done|]. cbn. rewrite (proj2 (Z.leb_gt _ _)) by (apply (Hl' w a); set_solver).
    apply IH. intros w' a' H. apply (Hl' w' a'). set_solver.
  - rewrite (proj2 (Z.leb_le _ _)) by (apply (Hl w a); set_solver). f_equal. apply IH. intros w' a' H.
    apply (Hl w' a'). set_solver.
Qed.

(** Between two iterations of the loop. *)
Definition idle (q : t) : Prop := Inv q [] /\ wake q /\ callingExpiredTimers_ q = false.

Lemma handleRead_ok now q : 0 < now < 2 ^ 62 -> Inv q [] ->
  returns (handleRead alloc script now q) (fun q' =>
    idle q' /\ evolves q q' /\ ran q' = rev (map (seq_of q) (due now q)) ++ ran q /\
    forall w a x, (w, a) ∈ due now q -> heap q !! a = Some x ->
      if repeat_ x && negb (cancelled_by (due now q) q (a, sequence_ x))
      then exists x', restart now x = Ret x' /\ heap q' !! a = Some x' /\ (expiration_ x', a) ∈ timers_ q'
      else heap q' !! a = None).
Proof.
  intros Hnow [I Hok]. rewrite app_nil_r in I. unfold handleRead.
  eapply returns_seq; [apply getExpired_ok; by apply inv_armed|].
  intros [expired q1] (I1 & (Ep & Ecal & Er & En) & Eh & _ & Ec & Et & Hnd & Hlo & Hhi).
  assert (due now q = expired) as Hdue.
  { unfold due. change (timers_ q) with (timers_ (readTimerfd q)). rewrite Et. by apply filter_due. }
  cbn [pending readTimerfd set_armed heap ran numCreated timers_ callingExpiredTimers_] in *.
  set (q1' := set_calling true ∅ q1).
  assert (Inv q1' (map snd expired)) as J1.
  { split; [|cbn [heap set_calling q1']; by rewrite Eh]. cbn [pending set_calling q1']. rewrite Ep.
    eapply (inv_perm _ (map snd expired ++ adds (pending q))); [solve_Permutation|]. destruct I1. by split. }
  assert (Hsnd : forall e, e ∈ expired -> snd e ∈ map snd expired) by (intros e He; apply list_elem_of_In, in_map, list_elem_of_In, He).
  pose proof (fun i => run_expired_canceling expired i q1' (map snd expired) J1 Hsnd eq_refl) as HC.
  pose proof (run_expired_ok expired q1' (map snd expired) J1 Hsnd) as HR. destruct (run_expired alloc script expired q1') as [q2|]; [|done].
  cbn [returns] in HC, HR. rewrite bind_Ret. destruct HR as (I2 & E2 & C2 & H2 & K2 & R2). set (q2' := set_calling false _ q2).
  assert (Inv q2' (map snd expired)) as J2 by (destruct I2 as [I2 Hok2]; split; [destruct I2; by split|done]).
  eapply returns_mono; [|by apply reset_ok]. intros q' (I' & E' & (F1 & F2 & F3 & F4) & W' & T' & H' & A').
  split_and!.
  - split_and!; done.
  - apply (evolves_trans _ q1'); [apply evolves_shrink; [done|done|]; cbn [heap set_calling q1']; rewrite Eh; eauto|].
    apply (evolves_trans _ q2); [exact E2|]. destruct E' as [? ? ?]. by split.
  - rewrite F2, Hdue. cbn [ran set_calling q2']. rewrite R2. cbn [ran set_calling q1']. rewrite Er.
    f_equal. f_equal. apply map_ext. intros e. unfold seq_of. cbn [heap set_calling q1']. by rewrite Eh.
  - rewrite Hdue. intros w a x Ha Hx.
    assert (a ∈ map snd expired) as Hin by (apply list_elem_of_In, in_map_iff; exists (w, a); split; [done|by apply list_elem_of_In]).
    assert (heap q2' !! a = Some x) as Hx2 by (cbn [heap set_calling q2']; rewrite H2 by done; cbn [heap set_calling q1']; by rewrite Eh).
    specialize (A' a Hin x Hx2). replace (cancelled_by expired q (a, sequence_ x)) with (bool_decide ((a, sequence_ x) ∈ cancelingTimers_ q2)); [exact A'|].
    apply Bool.eq_iff_eq_true. rewrite bool_decide_eq_true, (HC (a, sequence_ x) Hin). unfold cancelled_by. cbn [heap set_calling q1' cancelingTimers_].
    rewrite Eh. set_solver.
Qed.

(** The pending functors of other threads. *)
Lemma run_tasks_ok l : forall q, pending q = [] -> inv q (adds l) -> wake q ->
  (forall a x, heap q !! a = Some x -> timer_ok x) ->
  returns (run_tasks l q) (fun q' => Inv q' [] /\ wake q' /\ evolves q q' /\
    callingExpiredTimers_ q' = callingExpiredTimers_ q /\ ran q' = ran q).
Proof.
  induction l as [|[a|i] l IH]; intros q Hp I W Hok; cbn [run_tasks].
  - cbn [returns]. split_and!; try done; [split; [rewrite Hp|]; done|apply evolves_shrink; eauto].
  - change (adds (AddInLoop a :: l)) with (a :: adds l) in I.
    pose proof (addTimerInLoop_wake q a _ I W) as W1. pose proof (addTimerInLoop_ok q a _ I) as H1.
    destruct (addTimerInLoop a q) as [q1|]; [|done]. cbn [returns] in W1, H1.
    destruct H1 as (I1 & Hs1 & Eh & _ & _). pose proof Hs1 as (Ep & Ecal & Er & En). rewrite bind_Ret.
    eapply returns_mono; [|apply (IH q1); [congruence|done|done|by rewrite Eh]].
    intros q' (I' & W' & E' & C' & R'). split_and!; try done; [|congruence|congruence].
    eapply evolves_trans; [|exact E']. by apply evolves_same_heap.
  - change (adds (CancelInLoop i :: l)) with (adds l) in I.
    pose proof (cancelInLoop_ok q i _ I) as H1. destruct (cancelInLoop i q) as [q1|]; [|done].
    cbn [returns] in H1. destruct H1 as (I1 & Hs1 & Ea & _ & H1). pose proof Hs1 as (Ep & Ecal & Er & En).
    rewrite bind_Ret.
    assert (wake q1 /\ evolves q q1 /\ forall a x, heap q1 !! a = Some x -> timer_ok x) as (W1 & E1 & Hok1).
    { destruct H1 as [(_ & Eh & _ & Hsub & _)|(_ & Eh & _ & Et & _)].
      - split_and!; [by eapply wake_subset|by eapply evolves_delete|]. rewrite Eh.
        intros a x [_ Hx]%lookup_delete_Some. by apply (Hok a).
      - split_and!; [eapply wake_subset; [done..|by rewrite Et]|by apply evolves_same_heap|by rewrite Eh]. }
    eapply returns_mono; [|apply (IH q1); [congruence|done|done|done]].
    intros q' (I' & W' & E' & C' & R'). split_and!; try done; [|congruence|congruence].
    by eapply evolves_trans.
Qed.

Definition event_ok (e : event) : Prop :=
  match e with Call a => action_ok a | Alarm now => 0 < now < 2 ^ 62 | Pending => True end.

Lemma step_idle e q : idle q -> event_ok e ->
  returns (step alloc script e q) (fun q' => idle q' /\ evolves q q').
Proof.
  intros (I & W & C) He. destruct e as [a|now|]; cbn [step].
  - eapply returns_mono; [|by apply act_keeps]. intros q' (I' & E' & W' & C' & _).
    split; [|done]. split; [done|]. split; [auto|]. by rewrite C'.
  - eapply returns_mono; [|by apply handleRead_ok]. intros q' (Hi & E' & _). done.
  - unfold doPending. destruct I as [I Hok]. rewrite app_nil_r in I.
    eapply returns_mono; [|apply run_tasks_ok; [done|destruct I; by split|exact W|exact Hok]].
    intros q' (I' & W' & E' & C' & _). split; [split_and!; [done|done|by rewrite C']|]. destruct E'. by split.
Qed.

Lemma steps_idle l : forall q, idle q -> Forall event_ok l ->
  returns (steps alloc script l q) (fun q' => idle q' /\ evolves q q').
Proof.
  induction l as [|e l IH]; intros q I Hl; cbn [steps]; [split; [done|]; apply evolves_shrink; eauto|].
  inversion Hl as [|? ? He Hl']; subst. eapply returns_seq; [by apply step_idle|]. intros q1 [I1 E1].
  eapply returns_mono; [|by apply IH]. intros q' [I' E']. split; [done|]. by eapply evolves_trans.
Qed.
End proofs.

Lemma idle_initial : idle TimerQueue.
Proof.
  split_and!; [|by left|done]. split; [|by intros a x].
  split; cbn; try done; try set_solver; constructor.
Qed.

(** C18. The timer queue never breaks its own invariants.  From an empty queue, any
    sequence of [addTimer] and [cancel] calls (from the loop's thread or from others),
    alarms and pending functors, with callbacks that themselves add and cancel timers,
    runs without a failed assertion and without touching a deleted timer; [timers_]
    and [activeTimers_] always describe the same timers, every timer object is owned
    by the queue or by a pending functor, and the timerfd is armed for no later than
    the earliest timer. *)
Theorem timer_queue_safe (alloc : gset addr -> addr) (script : nat -> list action) (l : list event)
    (Hfresh : forall X, alloc X ∉ X)
    (Hscript : forall cb, Forall action_ok (script cb)) (Hl : Forall event_ok l) :
  returns (steps alloc script l TimerQueue) (fun q =>
    inv q (adds (pending q)) /\ wake q /\ callingExpiredTimers_ q = false).
Proof.
  eapply returns_mono; [|apply steps_idle; [done|done|apply idle_initial|done]].
  intros q [([I _] & W & C) _]. rewrite app_nil_r in I. done.
Qed.

(** C19. An alarm runs exactly the timers that are due, in the order of expiration,
    one call each; afterwards a one-shot timer is deleted, and a repeating one is
    scheduled at [now + interval] unless one of the callbacks the alarm ran cancelled it (in the
    loop's thread), in which case it is deleted. *)
Theorem alarm_runs_due_timers (alloc : gset addr -> addr) (script : nat -> list action)
    (now : Z) (q : t)
    (Hfresh : forall X, alloc X ∉ X)
    (Hscript : forall cb, Forall action_ok (script cb)) (Hnow : 0 < now < 2 ^ 62) (Hq : idle q) :
  returns (handleRead alloc script now q) (fun q' =>
    ran q' = rev (map (seq_of q) (due now q)) ++ ran q /\ StronglySorted elt (due now q) /\
    forall w a x, (w, a) ∈ due now q -> heap q !! a = Some x ->
      if repeat_ x && negb (cancelled_by script (due now q) q (a, sequence_ x))
      then exists x', restart now x = Ret x' /\ heap q' !! a = Some x' /\ (expiration_ x', a) ∈ timers_ q'
      else heap q' !! a = None).
Proof.
  destruct Hq as (I & W & C). eapply returns_mono; [|by apply handleRead_ok].
  intros q' (_ & _ & R & H). split_and!; try done.
  pose proof (i_sorted _ _ (proj1 I)) as Hs. unfold due. revert Hs. generalize (timers_ q). intros l Hs.
  induction l as [|e l IH]; cbn; [done|]. apply sorted_cons in Hs as [Hl He].
  destruct (fst e <=? now); [|auto]. apply sorted_cons. split; [by apply IH|].
  intros y Hy. apply He. apply list_elem_of_In, filter_In in Hy as [Hy _]. by apply list_elem_of_In.
Qed.

(** C20. Cancelling is final: once [cancel] has been called in the loop's thread for a
    scheduled timer, that timer is deleted and whatever happens later its callback
    never runs again, even if its address is used for another timer. *)
Theorem cancelled_timer_never_runs (alloc : gset addr -> addr) (script : nat -> list action)
    (q : t) (i : TimerId) (l : list event)
    (Hfresh : forall X, alloc X ∉ X)
    (Hscript : forall cb, Forall action_ok (script cb)) (Hl : Forall event_ok l)
    (Hq : idle q) (Hi : i ∈ activeTimers_ q) :
  returns (q1 ← cancel true i q; steps alloc script l q1) (fun q' =>
    exists later, ran q' = later ++ ran q /\ snd i ∉ later).
Proof.
  destruct Hq as (I & W & C). pose proof I as [I0 Hok]. unfold cancel.
  pose proof (cancelInLoop_keeps alloc script Hfresh Hscript q [] i I) as HK. pose proof (cancelInLoop_ok q i _ I0) as HC.
  destruct (cancelInLoop i q) as [q1|]; [|done]. cbn [returns] in HK, HC. rewrite bind_Ret.
  destruct HK as [(I1 & _ & W1 & C1 & R1 & _) _]. destruct HC as (_ & (_ & _ & _ & En) & _ & _ & [HC|HC]); [|naive_solver].
  destruct HC as (_ & Eh & _).
  assert (dead (snd i) q1) as Hd.
  { destruct i as [a s]. cbn [snd fst] in *. destruct (i_active _ _ I0 a s Hi) as (x & Hx & Es & _). split.
    - rewrite En. rewrite <- Es. by apply (i_heap _ _ I0 a).
    - rewrite Eh. intros b y [Hb Hy]%lookup_delete_Some E. apply Hb. apply (i_unique _ _ I0 a b x y); congruence. }
  eapply returns_mono; [|apply steps_idle; [done|done| |done]].
  - intros q' [_ E']. destruct (dead_evolves _ _ _ Hd E') as [_ (later & El & Hs)]. exists later.
    by rewrite <- R1.
  - split; [exact I1|]. split; [auto|]. by rewrite C1.
Qed.

(** Concrete runs: a one-shot and a repeating timer (every 0.5 s). *)
Definition half : double := S754_finite false 1 (-1).
Definition demo_alloc (X : gset addr) : addr := fresh X.
Definition demo_events : list event :=
  [Call (Add true 0 100 (S754_zero false)); Call (Add true 1 200 half); Alarm 150; Alarm 250].
Definition demo_script (cb : nat) : list action := [].

Lemma half_ok : interval_ok half.
Proof. intros _. exists 500000. split; [by vm_compute|lia]. Qed.
Lemma zero_interval_ok : interval_ok (S754_zero false).
Proof. by intros H. Qed.
Lemma demo_events_ok : Forall event_ok demo_events.
Proof.
  repeat constructor; try (cbn; lia); [apply zero_interval_ok|apply half_ok].
Qed.

Lemma demo_alloc_fresh X : demo_alloc X ∉ X.
Proof. apply is_fresh. Qed.

Lemma timer_queue_safe_witness :
  returns (steps demo_alloc demo_script demo_events TimerQueue) (fun q =>
    inv q (adds (pending q)) /\ wake q /\ callingExpiredTimers_ q = false).
Proof.
  apply (timer_queue_safe demo_alloc demo_script demo_events demo_alloc_fresh).
  - intros cb. constructor.
  - exact demo_events_ok.
Defined.

(** The two timers, before any alarm. *)
Definition demo_state : t :=
  match steps demo_alloc demo_script (take 2 demo_events) TimerQueue with Ret q => q | Crash _ => TimerQueue end.

Lemma demo_idle : idle demo_state.
Proof.
  pose proof (steps_idle demo_alloc demo_script demo_alloc_fresh) as H. unfold demo_state.
  specialize (H ltac:(intros cb; constructor) (take 2 demo_events) TimerQueue idle_initial).
  destruct (steps _ _ _ _) as [q|]; [|apply idle_initial].
  apply H. apply Forall_take, demo_events_ok.
Qed.

(** The callback of the one-shot timer cancels the repeating one, which is due too. *)
Definition cancel_script (cb : nat) : list action := match cb with O => [Cancel true (2%positive, 2)] | _ => [] end.

Lemma alarm_runs_due_timers_witness :
  returns (handleRead demo_alloc cancel_script 250 demo_state) (fun q' =>
    ran q' = rev (map (seq_of demo_state) (due 250 demo_state)) ++ ran demo_state /\
    StronglySorted elt (due 250 demo_state) /\
    forall w a x, (w, a) ∈ due 250 demo_state -> heap demo_state !! a = Some x ->
      if repeat_ x && negb (cancelled_by cancel_script (due 250 demo_state) demo_state (a, sequence_ x))
      then exists x', restart 250 x = Ret x' /\ heap q' !! a = Some x' /\ (expiration_ x', a) ∈ timers_ q'
      else heap q' !! a = None).
Proof.
  apply (alarm_runs_due_timers demo_alloc cancel_script 250 demo_state demo_alloc_fresh).
  - intros [|cb]; repeat constructor.
  - lia.
  - exact demo_idle.
Defined.

Example cancelled_in_callback :
  cancelled_by cancel_script (due 250 demo_state) demo_state (2%positive, 2) = true /\
  (q ← handleRead demo_alloc cancel_script 250 demo_state; Ret (ran q, timers_ q)) = Ret ([2; 1], []).
Proof. vm_compute. done. Qed.

Lemma cancelled_timer_never_runs_witness :
  returns (q1 ← cancel true (2%positive, 2) demo_state; steps demo_alloc demo_script [Alarm 300; Alarm 900000] q1)
    (fun q' => exists later, ran q' = later ++ ran demo_state /\ 2 ∉ later).
Proof.
  apply (cancelled_timer_never_runs demo_alloc demo_script demo_state (2%positive, 2) [Alarm 300; Alarm 900000]
    demo_alloc_fresh).
  - intros cb. constructor.
  - repeat constructor; cbn; lia.
  - exact demo_idle.
  - apply (bool_decide_unpack _). vm_compute. exact I.
Defined.

(** A cancel that overtakes the queued [addTimerInLoop] of another thread is lost: the
    timer is not active yet, so the request is dropped and the callback runs. *)
Lemma early_cancel_is_lost :
  returns (steps demo_alloc demo_script
             [Call (Add false 0 100 (S754_zero false)); Call (Cancel true (1%positive, 1)); Pending; Alarm 150]
             TimerQueue) (fun q => ran q = [1]).
Proof. vm_compute. done. Qed.

End TimerQueue.
