(* ===== verification/TcpConnection.v ===== *)
(** * TcpConnection.h/.cc: one connection

    The connection keeps the two [Buffer]s of [NetBuffer] and a channel, seen through
    the poller's registry of [Poller] (descriptor, events, status).  The socket's side
    is kept next to it: the bytes written so far and whether the write side was shut
    down.  A handler answers the new connection and its effects in order: the functors
    it queues in the loop and the callbacks and log lines it produces.  Callbacks are
    the last action of every handler that invokes them on a live connection, so calls
    they make come after it.  write(2) is an oracle; EPIPE answers a write after
    shutdown(2). *)

From S2P Require Import Prelude Endian NetBuffer Poller.
Import Poller.

Definition EWOULDBLOCK : Z := 11.
Definition EPIPE : Z := 32.
Definition ECONNRESET : Z := 104.

(** The result of write(2). *)
Inductive write_result := Wrote (n : Z) | WriteError (errno : Z).

Module TcpConnection.

Inductive StateE := kConnecting | kConnected | kDisconnecting | kDisconnected.

#[export] Instance StateE_eq_dec : EqDecision StateE.
Proof. solve_decision. Defined.

Record t := mk {
  state_ : StateE;
  channel_ : view;
  writeCompleteCallback_ : bool;       (* set by the user? *)
  highWaterMarkCallback_ : bool;
  highWaterMark_ : Z;
  inputBuffer_ : Buffer.t;
  outputBuffer_ : Buffer.t;
  wire : bytes;                        (* what write(2) has taken *)
  shutWrite : bool                     (* shutdown(SHUT_WR) was called *)
}.

(** Functors for the loop. *)
Inductive functor :=
| FSend (message : bytes)
| FShutdown
| FForceClose
| FConnectDestroyed
| FWriteComplete
| FHighWaterMark (len : Z).

Inductive effect :=
| Queue (f : functor)
| ConnectionCallback (connected : bool)
| MessageCallback
| CloseCallback
| GaveUp (message : bytes)             (* "disconnected, give up writting" or a fatal errno *)
| LogError.

Definition set_state s c := mk s (channel_ c) (writeCompleteCallback_ c) (highWaterMarkCallback_ c) (highWaterMark_ c) (inputBuffer_ c) (outputBuffer_ c) (wire c) (shutWrite c).
Definition set_channel v c := mk (state_ c) v (writeCompleteCallback_ c) (highWaterMarkCallback_ c) (highWaterMark_ c) (inputBuffer_ c) (outputBuffer_ c) (wire c) (shutWrite c).
Definition set_input b c := mk (state_ c) (channel_ c) (writeCompleteCallback_ c) (highWaterMarkCallback_ c) (highWaterMark_ c) b (outputBuffer_ c) (wire c) (shutWrite c).
Definition set_output b w c := mk (state_ c) (channel_ c) (writeCompleteCallback_ c) (highWaterMarkCallback_ c) (highWaterMark_ c) (inputBuffer_ c) b w (shutWrite c).
Definition set_shut c := mk (state_ c) (channel_ c) (writeCompleteCallback_ c) (highWaterMarkCallback_ c) (highWaterMark_ c) (inputBuffer_ c) (outputBuffer_ c) (wire c) true.

Definition connected (c : t) : bool := bool_decide (state_ c = kConnected).

(** [channel_->isWriting()] *)
Definition isWriting (c : t) : bool := has (v_events (channel_ c)) Channel.kWriteEvent.

(** [Channel::update] on a channel of the registry: a removed channel fails the
    poller's assertions. *)
Definition update (f : Z -> Z) (v : view) : outcome view :=
  let ev := f (v_events v) in
  match v_status v with
  | Fresh => Ret (mkv (v_fd v) ev Polled)
  | Polled => Ret (mkv (v_fd v) ev (if ev =? 0 then Muted else Polled))
  | Muted => Ret (mkv (v_fd v) ev Muted)
  | Removed => Crash AssertFailed
  end.

(** [EventLoop::removeChannel] *)
Definition removeChannel (v : view) : outcome view :=
  match v_status v with
  | Muted => if v_events v =? 0 then Ret (mkv (v_fd v) 0 Removed) else Crash AssertFailed
  | _ => Crash AssertFailed
  end.

Definition set_interest (f : Z -> Z) (c : t) : outcome t :=
  v ← update f (channel_ c); Ret (set_channel v c).

(** The constructor. *)
Definition TcpConnection (sockfd : Z) (writeComplete highWater : bool) : outcome t :=
  input ← Buffer.Buffer; output ← Buffer.Buffer;
  Ret (mk kConnecting (mkv sockfd 0 Fresh) writeComplete highWater (64 * 1024 * 1024) input output [] false).

Definition setHighWaterMarkCallback (highWaterMark : Z) (c : t) : t :=
  mk (state_ c) (channel_ c) (writeCompleteCallback_ c) true highWaterMark (inputBuffer_ c) (outputBuffer_ c)
    (wire c) (shutWrite c).

(** The second half of [sendInLoop]: buffer what is left. *)
Definition buffer_rest (nwrote remaining : Z) (faultError : bool) (eff : list effect) (message : bytes) (c1 : t) :
    outcome (t * list effect) :=
  if negb faultError && (0 <? remaining) then
    let oldLen := Buffer.readableBytes (outputBuffer_ c1) in
    let high :=
      if (highWaterMark_ c1 <=? u64 (oldLen + remaining)) && (oldLen <? highWaterMark_ c1)
         && highWaterMarkCallback_ c1
      then [Queue (FHighWaterMark (u64 (oldLen + remaining)))] else [] in
    rest ← load nwrote remaining message;
    out ← Buffer.append rest (outputBuffer_ c1);
    let c2 := set_output out (wire c1) c1 in
    if negb (isWriting c2) then
      c3 ← set_interest Channel.enableWriting_ev c2; Ret (c3, eff ++ high)
    else Ret (c2, eff ++ high)
  else Ret (c1, eff ++ (if faultError then [GaveUp message] else [])).

(** [sendInLoop]; [w] is what write(2) answers if it is called. *)
Definition sendInLoop (w : write_result) (message : bytes) (c : t) : outcome (t * list effect) :=
  let len := zlen message in
  if bool_decide (state_ c = kDisconnected) then Ret (c, [GaveUp message])
  else
    (* the direct write: nwrote, remaining, faultError, the effects, the wire *)
    let '(nwrote, remaining, faultError, eff, wire') :=
      if negb (isWriting c) && (Buffer.readableBytes (outputBuffer_ c) =? 0) then
        match w with
        | Wrote n =>
            (n, u64 (len - n), false,
             (if n <? len then []
              else if (u64 (len - n) =? 0) && writeCompleteCallback_ c then [Queue FWriteComplete] else []),
             wire c ++ take (Z.to_nat n) message)
        | WriteError errno =>
            (0, len, (negb (errno =? EWOULDBLOCK)) && ((errno =? EPIPE) || (errno =? ECONNRESET)),
             (if errno =? EWOULDBLOCK then [] else [LogError]), wire c)
        end
      else (0, len, false, [], wire c) in
    _ ← check (remaining <=? len);
    buffer_rest nwrote remaining faultError eff message (set_output (outputBuffer_ c) wire' c).

(** [send(const std::string&)]; [send(const void*, int)] makes the string first. *)
Definition send (inLoop : bool) (w : write_result) (message : bytes) (c : t) : outcome (t * list effect) :=
  if bool_decide (state_ c = kConnected) then
    if inLoop then sendInLoop w message c else Ret (c, [Queue (FSend message)])
  else Ret (c, []).

(** [send] of a [Buffer]: the connection, its effects, and the emptied buffer. *)
Definition send_buffer (inLoop : bool) (w : write_result) (buf : Buffer.t) (c : t) :
    outcome (t * list effect * Buffer.t) :=
  if bool_decide (state_ c = kConnected) then
    if inLoop then
      let len := s32 (Buffer.readableBytes buf) in
      message ← (if len <? 0 then Crash Thrown else load (Buffer.peek buf) len (Buffer.buffer_ buf));
      '(c', eff) ← sendInLoop w message c;
      Ret (c', eff, Buffer.retrieveAll buf)
    else
      '(message, buf') ← Buffer.retrieveAllAsString buf;
      Ret (c, [Queue (FSend message)], buf')
  else Ret (c, [], buf).

(** [shutdownInLoop] *)
Definition shutdownInLoop (c : t) : outcome t :=
  if negb (isWriting c) then Ret (set_shut c) else Ret c.

Definition shutdown (inLoop : bool) (c : t) : outcome (t * list effect) :=
  if bool_decide (state_ c = kConnected) then
    let c1 := set_state kDisconnecting c in
    if inLoop then c2 ← shutdownInLoop c1; Ret (c2, []) else Ret (c1, [Queue FShutdown])
  else Ret (c, []).

Definition alive (c : t) : bool :=
  bool_decide (state_ c = kConnected) || bool_decide (state_ c = kDisconnecting).

Definition forceClose (c : t) : outcome (t * list effect) :=
  if alive c then Ret (set_state kDisconnecting c, [Queue FForceClose]) else Ret (c, []).

Definition handleClose (c : t) : outcome (t * list effect) :=
  _ ← check (alive c);
  c1 ← set_interest Channel.disableAll_ev c;
  Ret (c1, [CloseCallback]).

Definition forceCloseInLoop (c : t) : outcome (t * list effect) :=
  if alive c then handleClose c else Ret (c, []).

Definition connectEstablished (c : t) : outcome (t * list effect) :=
  _ ← check (bool_decide (state_ c = kConnecting));
  c1 ← set_interest Channel.enableReading_ev (set_state kConnected c);
  Ret (c1, [ConnectionCallback (connected c1)]).

Definition connectDestroyed (c : t) : outcome (t * list effect) :=
  _ ← check (alive c);
  c1 ← set_interest Channel.disableAll_ev (set_state kDisconnected c);
  v ← removeChannel (channel_ c1);
  Ret (set_channel v c1, [ConnectionCallback (connected c1)]).

Definition handleRead (r : Buffer.readv_result) (c : t) : outcome (t * list effect) :=
  '(n, _, b) ← Buffer.readFd r (inputBuffer_ c);
  let c1 := set_input b c in
  if 0 <? n then Ret (c1, [MessageCallback])
  else if n =? 0 then handleClose c1
  else Ret (c1, [LogError; LogError]).

Definition handleWrite (w : write_result) (c : t) : outcome (t * list effect) :=
  if isWriting c then
    data ← load (Buffer.peek (outputBuffer_ c)) (Buffer.readableBytes (outputBuffer_ c))
             (Buffer.buffer_ (outputBuffer_ c));
    match w with
    | Wrote n =>
        if 0 <? n then
          out ← Buffer.retrieve n (outputBuffer_ c);
          let c1 := set_output out (wire c ++ take (Z.to_nat n) data) c in
          if Buffer.readableBytes (outputBuffer_ c1) =? 0 then
            c2 ← set_interest Channel.disableWriting_ev c1;
            let eff := if writeCompleteCallback_ c2 then [Queue FWriteComplete] else [] in
            c3 ← (if bool_decide (state_ c2 = kDisconnecting) then shutdownInLoop c2 else Ret c2);
            Ret (c3, eff)
          else Ret (c1, [])
        else Ret (c, [LogError])
    | WriteError _ => Ret (c, [LogError])
    end
  else Ret (c, []).

(** ** A connection in its loop

    The connection, the loop's functor queue, whether the server's map still has it
    ([TcpServer::connections_]), the callbacks so far, the bytes [sendInLoop] took
    responsibility for, and the number of write(2) calls. *)
Record world := mkw {
  conn : t;
  queue : list functor;
  inServer : bool;
  calls : list effect;
  accepted : bytes;
  nwrites : nat
}.

Definition gave_up (eff : list effect) : bool :=
  existsb (fun e => match e with GaveUp _ => true | _ => false end) eff.

(** [TcpServer::removeConnectionInLoop]: erase from the map, queue [connectDestroyed]. *)
Definition removeConnectionInLoop (w : world) : outcome world :=
  _ ← check (inServer w);
  Ret (mkw (conn w) (queue w ++ [FConnectDestroyed]) false (calls w) (accepted w) (nwrites w)).

Fixpoint apply_effects (eff : list effect) (w : world) : outcome world :=
  match eff with
  | [] => Ret w
  | e :: eff' =>
      let w1 := mkw (conn w) (queue w) (inServer w) (calls w ++ [e]) (accepted w) (nwrites w) in
      w2 ← match e with
           | Queue f => Ret (mkw (conn w) (queue w ++ [f]) (inServer w) (calls w ++ [e]) (accepted w) (nwrites w))
           | CloseCallback => removeConnectionInLoop w1
           | _ => Ret w1
           end;
      apply_effects eff' w2
  end.

Definition with_conn (r : t * list effect) (w : world) : outcome world :=
  apply_effects (snd r) (mkw (fst r) (queue w) (inServer w) (calls w) (accepted w) (nwrites w)).

(** What happens to it: the loop reports the channel readable or writable, runs the
    next functor, or the user (in the loop or in another thread) calls it. *)
Inductive event :=
| Established
| Readable (r : Buffer.readv_result)
| Writable
| NextFunctor
| Send (inLoop : bool) (message : bytes)
| Shutdown (inLoop : bool)
| ForceClose
| Retrieve (n : Z).

Section loop.
(** write(2): the call number, the bytes offered and whether the side was shut. *)
Variable sys_write : nat -> bytes -> bool -> write_result.

Definition do_write (data : bytes) (w : world) : write_result := sys_write (nwrites w) data (shutWrite (conn w)).

Definition run_send (message : bytes) (r : t * list effect) (w : world) : outcome world :=
  with_conn r (mkw (conn w) (queue w) (inServer w) (calls w)
    (if gave_up (snd r) then accepted w else accepted w ++ message) (S (nwrites w))).

Definition run_functor (f : functor) (w : world) : outcome world :=
  match f with
  | FSend message => r ← sendInLoop (do_write message w) message (conn w); run_send message r w
  | FShutdown => c ← shutdownInLoop (conn w); with_conn (c, []) w
  | FForceClose => r ← forceCloseInLoop (conn w); with_conn r w
  | FConnectDestroyed => r ← connectDestroyed (conn w); with_conn r w
  | FWriteComplete | FHighWaterMark _ => Ret w
  end.

Definition polled (bit : Z) (c : t) : bool :=
  match v_status (channel_ c) with Polled => has (v_events (channel_ c)) bit | _ => false end.

Definition step (e : event) (w : world) : outcome world :=
  let c := conn w in
  match e with
  | Established =>
      if bool_decide (state_ c = kConnecting) then r ← connectEstablished c; with_conn r w else Ret w
  | Readable r =>
      if polled Channel.kReadEvent c then r' ← handleRead r c; with_conn r' w else Ret w
  | Writable =>
      if polled Channel.kWriteEvent c then
        r ← handleWrite (do_write (Buffer.contents (outputBuffer_ c)) w) c;
        with_conn r (mkw (conn w) (queue w) (inServer w) (calls w) (accepted w) (S (nwrites w)))
      else Ret w
  | NextFunctor =>
      match queue w with
      | [] => Ret w
      | f :: q => run_functor f (mkw c q (inServer w) (calls w) (accepted w) (nwrites w))
      end
  | Send true message =>
      if bool_decide (state_ c = kConnected) then
        r ← send true (do_write message w) message c; run_send message r w
      else Ret w
  | Send false message => r ← send false (Wrote 0) message c; with_conn r w
  | Shutdown inLoop => r ← shutdown inLoop c; with_conn r w
  | ForceClose => r ← forceClose c; with_conn r w
  | Retrieve n =>
      if n <=? Buffer.readableBytes (inputBuffer_ c) then
        b ← Buffer.retrieve n (inputBuffer_ c); with_conn (set_input b c, []) w
      else Ret w
  end.

Fixpoint steps (l : list event) (w : world) : outcome world :=
  match l with [] => Ret w | e :: l' => w' ← step e w; steps l' w' end.

End loop.

(** A connection just accepted by the server. *)
Definition accept (sockfd : Z) (writeComplete highWater : bool) : outcome world :=
  c ← TcpConnection sockfd writeComplete highWater; Ret (mkw c [] true [] [] 0).

(** ** Invariant *)

Definition write_law (sys_write : nat -> bytes -> bool -> write_result) : Prop :=
  (forall k d n, sys_write k d false = Wrote n -> 0 <= n <= zlen d) /\
  (forall k d, sys_write k d true = WriteError EPIPE).

Definition is_destroy (f : functor) : bool := match f with FConnectDestroyed => true | _ => false end.
Definition is_force (f : functor) : bool := match f with FForceClose => true | _ => false end.
Definition destroys (q : list functor) : nat := length (List.filter is_destroy q).

Definition functor_size (f : functor) : Z := match f with FSend m => zlen m | _ => 0 end.
Fixpoint queue_size (q : list functor) : Z :=
  match q with [] => 0 | f :: q' => functor_size f + queue_size q' end.

(** Memory in use: the two vectors and the queued messages. *)
Definition volume (w : world) : Z :=
  zlen (Buffer.buffer_ (inputBuffer_ (conn w))) + zlen (Buffer.buffer_ (outputBuffer_ (conn w))) +
  queue_size (queue w).

Definition open_ (c : t) : Prop := v_status (channel_ c) = Polled.

Definition out (c : t) : bytes := Buffer.contents (outputBuffer_ c).

(** The life cycle: how the state, the channel, the server's map and the queued
    [connectDestroyed] go together. *)
Inductive stage (w : world) : Prop :=
| Connecting : state_ (conn w) = kConnecting -> v_status (channel_ (conn w)) = Fresh ->
    v_events (channel_ (conn w)) = 0 -> out (conn w) = [] -> shutWrite (conn w) = false ->
    inServer w = true -> queue w = [] -> stage w
| Open : alive (conn w) = true -> open_ (conn w) -> has (v_events (channel_ (conn w))) Channel.kReadEvent = true ->
    (isWriting (conn w) = true <-> out (conn w) <> []) ->
    (shutWrite (conn w) = true -> out (conn w) = [] /\ state_ (conn w) = kDisconnecting) ->
    inServer w = true -> destroys (queue w) = 0%nat -> stage w
| Closing : alive (conn w) = true -> v_status (channel_ (conn w)) = Muted ->
    inServer w = false -> destroys (queue w) = 1%nat -> stage w
| Destroyed : state_ (conn w) = kDisconnected -> v_status (channel_ (conn w)) = Removed ->
    inServer w = false -> destroys (queue w) = 0%nat -> stage w.

Record inv (w : world) : Prop := {
  i_in : Buffer.wf (inputBuffer_ (conn w));
  i_out : Buffer.wf (outputBuffer_ (conn w));
  i_stream : wire (conn w) ++ out (conn w) = accepted w;
  i_events : small_events (v_events (channel_ (conn w)));
  i_force : List.filter is_force (queue w) = [];
  i_down : FShutdown ∈ queue w -> state_ (conn w) <> kConnected;
  i_stage : stage w
}.

(** ** Lemmas *)

Lemma ev_facts ev : small_events ev ->
  small_events (Channel.enableWriting_ev ev) /\ small_events (Channel.disableWriting_ev ev) /\
  small_events (Channel.enableReading_ev ev) /\
  has (Channel.enableWriting_ev ev) Channel.kWriteEvent = true /\
  (Channel.enableWriting_ev ev =? 0) = false /\
  has (Channel.enableWriting_ev ev) Channel.kReadEvent = has ev Channel.kReadEvent /\
  has (Channel.disableWriting_ev ev) Channel.kWriteEvent = false /\
  has (Channel.disableWriting_ev ev) Channel.kReadEvent = has ev Channel.kReadEvent /\
  (has ev Channel.kReadEvent = true -> (Channel.disableWriting_ev ev =? 0) = false) /\
  has (Channel.enableReading_ev ev) Channel.kReadEvent = true.
Proof.
  intros H. apply small_events_cases in H. unfold small_events.
  repeat destruct H as [->|H]; [..|subst]; vm_compute; repeat split; done.
Qed.

Lemma readable_zero b : Buffer.wf b -> (Buffer.readableBytes b =? 0) = true <-> Buffer.contents b = [].
Proof.
  intros H. rewrite Z.eqb_eq, Buffer.readable_contents by done. split; [apply zlen_nil_inv|by intros ->].
Qed.

Definition write_ok (w : write_result) (d : bytes) : Prop :=
  match w with Wrote n => 0 <= n <= zlen d | WriteError _ => True end.

(** What [sendInLoop] does to the stream: the message is taken whole or given up. *)
Definition sent (c c' : t) (m : bytes) (eff : list effect) : Prop :=
  Buffer.wf (outputBuffer_ c') /\
  wire c' ++ out c' = wire c ++ out c ++ (if gave_up eff then [] else m) /\
  zlen (Buffer.buffer_ (outputBuffer_ c')) <= zlen (Buffer.buffer_ (outputBuffer_ c)) + zlen m /\
  state_ c' = state_ c /\ inputBuffer_ c' = inputBuffer_ c /\ shutWrite c' = shutWrite c /\
  v_status (channel_ c') = v_status (channel_ c) /\
  small_events (v_events (channel_ c')) /\
  has (v_events (channel_ c')) Channel.kReadEvent = has (v_events (channel_ c)) Channel.kReadEvent /\
  ((isWriting c = true <-> out c <> []) -> (isWriting c' = true <-> out c' <> [])) /\
  Forall (fun e => e <> CloseCallback /\ forall f, e = Queue f ->
    f = FWriteComplete \/ exists n, f = FHighWaterMark n) eff.

(** Appending the rest of a message and asking for writability. *)
Lemma append_rest_ok c rest (eff : list effect) : Buffer.wf (outputBuffer_ c) -> rest <> [] ->
  zlen (Buffer.buffer_ (outputBuffer_ c)) + zlen rest <= vector_max_size ->
  small_events (v_events (channel_ c)) ->
  v_status (channel_ c) = Polled \/ v_status (channel_ c) = Muted ->
  returns (out0 ← Buffer.append rest (outputBuffer_ c);
           let c2 := set_output out0 (wire c) c in
           if negb (isWriting c2) then
             c3 ← set_interest Channel.enableWriting_ev c2; Ret (c3, eff)
           else Ret (c2, eff))
    (fun '(c', eff') => eff' = eff /\ Buffer.wf (outputBuffer_ c') /\ out c' = out c ++ rest /\ wire c' = wire c /\
      zlen (Buffer.buffer_ (outputBuffer_ c')) <= zlen (Buffer.buffer_ (outputBuffer_ c)) + zlen rest /\
      state_ c' = state_ c /\ inputBuffer_ c' = inputBuffer_ c /\ shutWrite c' = shutWrite c /\
      v_status (channel_ c') = v_status (channel_ c) /\ small_events (v_events (channel_ c')) /\
      has (v_events (channel_ c')) Channel.kReadEvent = has (v_events (channel_ c)) Channel.kReadEvent /\
      isWriting c' = true).
Proof.
  intros W Hne Hv Hsm Hst. eapply returns_seq; [by apply Buffer.append_ok|].
  intros b (Wb & Eb & _ & Hvol). cbv zeta. unfold isWriting, set_interest.
  cbn [channel_ set_output]. destruct (has _ _) eqn:E; cbn [negb].
  - cbn [returns]. split_and!; try done.
  - destruct (ev_facts _ Hsm) as (H1 & _ & _ & H4 & H5 & H6 & _).
    unfold update. cbn [channel_ set_output].
    destruct Hst as [Hst|Hst]; rewrite Hst; rewrite ?H5, bind_Ret; cbn [returns]; unfold out;
      cbn [outputBuffer_ set_output set_channel channel_ wire state_ inputBuffer_ shutWrite v_events v_status];
      split_and!; try done.
Qed.

Lemma gave_up_app e1 e2 : gave_up (e1 ++ e2) = gave_up e1 || gave_up e2.
Proof. unfold gave_up. apply existsb_app. Qed.

Lemma set_output_id c : set_output (outputBuffer_ c) (wire c) c = c.
Proof. by destruct c. Qed.

Definition quiet (eff : list effect) : Prop :=
  Forall (fun e => e <> CloseCallback /\ forall f, e = Queue f ->
    f = FWriteComplete \/ exists n, f = FHighWaterMark n) eff.

Lemma buffer_rest_ok nwrote eff m c : Buffer.wf (outputBuffer_ c) ->
  zlen (Buffer.buffer_ (outputBuffer_ c)) + zlen m <= vector_max_size ->
  small_events (v_events (channel_ c)) ->
  v_status (channel_ c) = Polled \/ v_status (channel_ c) = Muted ->
  0 <= nwrote < zlen m -> gave_up eff = false -> quiet eff ->
  returns (buffer_rest nwrote (zlen m - nwrote) false eff m c) (fun '(c', eff') =>
    gave_up eff' = false /\ quiet eff' /\ Buffer.wf (outputBuffer_ c') /\
    out c' = out c ++ drop (Z.to_nat nwrote) m /\ wire c' = wire c /\
    zlen (Buffer.buffer_ (outputBuffer_ c')) <= zlen (Buffer.buffer_ (outputBuffer_ c)) + zlen m /\
    state_ c' = state_ c /\ inputBuffer_ c' = inputBuffer_ c /\ shutWrite c' = shutWrite c /\
    v_status (channel_ c') = v_status (channel_ c) /\ small_events (v_events (channel_ c')) /\
    has (v_events (channel_ c')) Channel.kReadEvent = has (v_events (channel_ c)) Channel.kReadEvent /\
    isWriting c' = true).
Proof.
  intros W Hv Hsm Hst Hn Hg Hq. unfold buffer_rest. cbn [negb andb].
  rewrite (proj2 (Z.ltb_lt _ _)) by lia. cbv zeta.
  match goal with |- context [eff ++ ?h] => set (high := h) end.
  assert (gave_up high = false /\ quiet high) as [Hgh Hqh].
  { unfold high. destruct (_ && _ && _); [|by split; [|constructor]]. split; [done|].
    constructor; [|constructor]. split; [done|]. intros f [= <-]; eauto. }
  rewrite load_ok, bind_Ret by lia.
  assert (slice nwrote (zlen m - nwrote) m = drop (Z.to_nat nwrote) m) as ->.
  { unfold slice. apply take_ge. rewrite length_drop. unfold zlen in *. lia. }
  assert (zlen (drop (Z.to_nat nwrote) m) = zlen m - nwrote) as Hz by (rewrite zlen_drop; lia).
  eapply returns_mono; [|apply (append_rest_ok c (drop (Z.to_nat nwrote) m) (eff ++ high))]; try done.
  - intros [c' eff'] (-> & W' & Eo & Ew & Hvol & Es & Ei & Esh & Est & Hsm' & Hrd & Hwr).
    rewrite gave_up_app, Hg, Hgh. split_and!; try done; [|lia]. by apply Forall_app.
  - intros E. rewrite E in Hz. change (zlen []) with 0 in Hz. lia.
  - lia.
Qed.

Lemma sent_gave_up c m eff : Buffer.wf (outputBuffer_ c) -> small_events (v_events (channel_ c)) ->
  gave_up eff = false -> quiet eff -> sent c c m (eff ++ [GaveUp m]).
Proof.
  intros W Hsm Hg Hq. unfold sent. rewrite gave_up_app, orb_true_r, app_nil_r. pose proof (zlen_nonneg m).
  split_and!; try done; [lia|]. apply Forall_app. split; [done|]. constructor; [|constructor]. done.
Qed.

(** Nothing was written directly: the whole message is buffered. *)
Lemma send_buffered c m eff : Buffer.wf (outputBuffer_ c) ->
  zlen (Buffer.buffer_ (outputBuffer_ c)) + zlen m <= vector_max_size ->
  small_events (v_events (channel_ c)) ->
  v_status (channel_ c) = Polled \/ v_status (channel_ c) = Muted ->
  gave_up eff = false -> quiet eff ->
  returns (buffer_rest 0 (zlen m) false eff m c) (fun '(c', eff') => sent c c' m eff').
Proof.
  intros W Hv Hsm Hst Hg Hq. destruct m as [|b m].
  { change (sent c c [] (eff ++ [])). rewrite app_nil_r.
    unfold sent. rewrite Hg, app_nil_r. split_and!; try done. change (zlen []) with 0. lia. }
  assert (0 < zlen (b :: m)) by (rewrite zlen_cons; pose proof (zlen_nonneg m); lia).
  replace (zlen (b :: m)) with (zlen (b :: m) - 0) at 1 by lia.
  eapply returns_mono; [|apply buffer_rest_ok; try done; lia].
  intros [c' eff'] (Hg' & Hq' & W' & Eo & Ew & Hvol & Es & Ei & Esh & Est & Hsm' & Hrd & Hwr').
  unfold sent. rewrite Hg', Ew, Eo. change (Z.to_nat 0) with 0%nat. rewrite drop_0.
  split_and!; try done. intros _. split; [|done]. intros _ E. by apply app_nil in E as [_ E].
Qed.

Lemma sendInLoop_ok w m c : Buffer.wf (outputBuffer_ c) -> write_ok w m ->
  zlen (Buffer.buffer_ (outputBuffer_ c)) + zlen m <= vector_max_size ->
  small_events (v_events (channel_ c)) ->
  v_status (channel_ c) = Polled \/ v_status (channel_ c) = Muted -> state_ c <> kDisconnected ->
  returns (sendInLoop w m c) (fun '(c', eff) => sent c c' m eff).
Proof.
  intros W Hw Hv Hsm Hst Hs. pose proof (zlen_nonneg m) as Hm. pose proof (zlen_nonneg (Buffer.buffer_ (outputBuffer_ c))).
  unfold sendInLoop. rewrite bool_decide_eq_false_2 by done.
  destruct (negb (isWriting c) && (Buffer.readableBytes (outputBuffer_ c) =? 0)) eqn:Hdir.
  - apply andb_true_iff in Hdir as [Hwr Hz]. apply negb_true_iff in Hwr. apply readable_zero in Hz; [|done].
    destruct w as [n|errno].
    + cbn in Hw. unfold vector_max_size in *. rewrite (u64_id (zlen m - n)) by lia. cbv zeta.
      rewrite check_bind by (apply Z.leb_le; lia).
      set (c1 := set_output (outputBuffer_ c) (wire c ++ take (Z.to_nat n) m) c).
      match goal with |- context [buffer_rest _ _ _ ?e _ _] => set (eff := e) end.
      assert (gave_up eff = false /\ quiet eff) as [Hge Hqe].
      { unfold eff. destruct (_ <? _); [by split; [|constructor]|]. destruct (_ && _); [|by split; [|constructor]].
        split; [done|]. constructor; [|constructor]. split; [done|]. intros f [= <-]; eauto. }
      destruct (Z.eq_dec n (zlen m)) as [->|Hne].
      * rewrite Z.sub_diag. unfold buffer_rest. cbn [negb andb Z.ltb Z.compare returns]. rewrite app_nil_r. unfold sent.
        rewrite Hge. unfold out in *. cbn [outputBuffer_ c1 set_output wire].
        unfold zlen. rewrite Nat2Z.id, take_ge by lia. rewrite Hz, !app_nil_r.
        split_and!; try done. unfold zlen in *. lia.
      * eapply returns_mono; [|apply buffer_rest_ok; try done; lia].
        intros [c' eff'] (Hg & Hq & W' & Eo & Ew & Hvol & Es & Ei & Esh & Est & Hsm' & Hrd & Hwr').
        unfold sent. rewrite Hg. unfold out in *. cbn [outputBuffer_ c1 set_output wire] in *.
        split_and!; try done.
        -- rewrite Ew, Eo, Hz. cbn [app]. by rewrite <- app_assoc, take_drop.
        -- intros _. split; [|done]. intros _ E. rewrite Eo, Hz in E. cbn [app] in E.
           apply (f_equal zlen) in E. rewrite zlen_drop in E. change (zlen []) with 0 in E. lia.
    + cbv zeta. rewrite check_bind by (apply Z.leb_le; lia). rewrite set_output_id.
      destruct (negb (errno =? EWOULDBLOCK) && ((errno =? EPIPE) || (errno =? ECONNRESET))) eqn:Hf.
      * unfold buffer_rest. cbn [negb andb returns].
        apply sent_gave_up; [done|done|by destruct (_ =? _)|]. destruct (_ =? _); by repeat constructor.
      * apply send_buffered; try done; destruct (_ =? _); by repeat constructor.
  - cbv zeta. rewrite check_bind by (apply Z.leb_le; lia). rewrite set_output_id.
    apply send_buffered; try done. constructor.
Qed.

(** A write after shutdown(2) loses nothing and changes nothing. *)
Lemma sendInLoop_shut m c : Buffer.wf (outputBuffer_ c) -> out c = [] -> isWriting c = false ->
  state_ c <> kDisconnected ->
  sendInLoop (WriteError EPIPE) m c = Ret (c, [LogError; GaveUp m]).
Proof.
  intros W Ho Hw Hs. unfold sendInLoop. rewrite bool_decide_eq_false_2 by done.
  rewrite Hw, (proj2 (readable_zero _ W) Ho). cbn [negb andb]. rewrite check_bind by (apply Z.leb_le; lia).
  by rewrite set_output_id.
Qed.

Lemma sendInLoop_down w m c : state_ c = kDisconnected -> sendInLoop w m c = Ret (c, [GaveUp m]).
Proof. intros H. unfold sendInLoop. by rewrite bool_decide_eq_true_2. Qed.

(** Effects that only notify. *)
Lemma apply_quiet eff : forall w, quiet eff ->
  exists q, apply_effects eff w =
    Ret (mkw (conn w) (queue w ++ q) (inServer w) (calls w ++ eff) (accepted w) (nwrites w)) /\
    Forall (fun f => f = FWriteComplete \/ exists n, f = FHighWaterMark n) q.
Proof.
  induction eff as [|e eff IH]; intros w Hq; cbn [apply_effects].
  { exists []. rewrite !app_nil_r. split; [by destruct w|constructor]. }
  inversion Hq as [|? ? [Hc Hf] Hq']; subst.
  destruct e as [f| | | | |]; try done; rewrite bind_Ret; 
    match goal with |- context [apply_effects eff ?w1] => destruct (IH w1 Hq') as (q & -> & Hall) end;
    cbn [conn queue inServer calls accepted nwrites].
  1: { exists (f :: q). rewrite <- !app_assoc. split; [done|]. constructor; [by apply Hf|done]. }
  all: exists q; by rewrite <- app_assoc.
Qed.

Lemma notify_destroys q : Forall (fun f => f = FWriteComplete \/ exists n, f = FHighWaterMark n) q ->
  List.filter is_destroy q = [] /\ List.filter is_force q = [] /\ queue_size q = 0 /\ FShutdown ∉ q.
Proof.
  induction 1 as [|f q Hf _ (H1 & H2 & H3 & H4)]; [split_and!; [done..|set_solver]|].
  destruct Hf as [->|[n ->]]; cbn; split_and!; try done; set_solver.
Qed.

Lemma queue_size_app q q' : queue_size (q ++ q') = queue_size q + queue_size q'.
Proof. induction q as [|f q IH]; cbn; lia. Qed.

Lemma destroys_app q q' : destroys (q ++ q') = (destroys q + destroys q')%nat.
Proof. unfold destroys. by rewrite filter_app, length_app. Qed.

Lemma stage_notify w q c : Forall (fun f => f = FWriteComplete \/ exists n, f = FHighWaterMark n) q ->
  stage w -> state_ (conn w) <> kConnecting ->
  stage (mkw (conn w) (queue w ++ q) (inServer w) c (accepted w) (nwrites w)).
Proof.
  intros (Hd & _ & _ & _)%notify_destroys [] Hs; try done.
  - eapply Open; try done. cbn [queue]. rewrite destroys_app. unfold destroys at 2. rewrite Hd. cbn. lia.
  - eapply Closing; try done. cbn [queue]. rewrite destroys_app. unfold destroys at 2. rewrite Hd. cbn. lia.
  - eapply Destroyed; try done. cbn [queue]. rewrite destroys_app. unfold destroys at 2. rewrite Hd. cbn. lia.
Qed.

(** After a handler whose effects only notify. *)
Lemma with_conn_quiet c eff w : quiet eff -> state_ c <> kConnecting ->
  inv (mkw c (queue w) (inServer w) (calls w) (accepted w) (nwrites w)) ->
  returns (with_conn (c, eff) w) (fun w' => inv w' /\ conn w' = c /\
    volume w' = volume (mkw c (queue w) (inServer w) (calls w) (accepted w) (nwrites w)) /\
    accepted w' = accepted w).
Proof.
  intros Hq Hs I. unfold with_conn. cbn [fst snd].
  destruct (apply_quiet eff (mkw c (queue w) (inServer w) (calls w) (accepted w) (nwrites w)) Hq) as (q & -> & Hall).
  cbn [returns conn queue inServer calls accepted nwrites]. pose proof (notify_destroys q Hall) as (_ & Hf & Hz & Hsd).
  split_and!; try done.
  - destruct I as [? ? ? ? If Id Is]. cbn [conn queue inServer accepted] in *. split; cbn [conn queue inServer accepted]; try done.
    + by rewrite filter_app, If, Hf.
    + intros [?|?]%elem_of_app; [auto|done].
    + apply (stage_notify _ q _ Hall Is Hs).
  - unfold volume. cbn [conn queue]. rewrite queue_size_app, Hz. lia.
Qed.

Section safety.
Variable sys_write : nat -> bytes -> bool -> write_result.
Hypothesis law : write_law sys_write.

Lemma do_write_ok w d : write_ok (do_write sys_write d w) d.
Proof.
  unfold do_write, write_ok. destruct law as [H1 H2]. destruct (shutWrite (conn w)) eqn:E; [by rewrite H2|].
  destruct (sys_write _ _ _) eqn:Hw; [|done]. by apply (H1 _ _ _ Hw).
Qed.

Lemma run_send_gave_up w m eff : inv w -> state_ (conn w) <> kConnecting -> quiet eff -> gave_up eff = true ->
  returns (run_send m (conn w, eff) w) (fun w' => inv w' /\ volume w' = volume w).
Proof.
  intros I Hs Hq Hg. unfold run_send. cbn [snd]. rewrite Hg. set (w1 := mkw _ _ _ _ _ _).
  eapply returns_mono; [|apply (with_conn_quiet (conn w) eff w1); [done|done|]].
  - intros w' (I' & _ & Hv & _). done.
  - destruct I as [? ? ? ? ? ? Is]. split; try done. destruct Is; by econstructor.
Qed.

Lemma send_step w m : inv w -> state_ (conn w) <> kConnecting ->
  zlen (Buffer.buffer_ (outputBuffer_ (conn w))) + zlen m <= vector_max_size ->
  returns (r ← sendInLoop (do_write sys_write m w) m (conn w); run_send m r w)
    (fun w' => inv w' /\ volume w' <= volume w + zlen m).
Proof.
  intros I Hs Hv. pose proof (zlen_nonneg m) as Hm. pose proof I as [Wi Wo Hstr Hsm Hf Hd Is].
  assert (forall eff, quiet eff -> gave_up eff = true ->
    returns (run_send m (conn w, eff) w) (fun w' => inv w' /\ volume w' <= volume w + zlen m)) as Hgave.
  { intros eff Hq Hg. eapply returns_mono; [|by apply run_send_gave_up]. intros w' [? ?]. split; [done|lia]. }
  assert (v_status (channel_ (conn w)) = Polled \/ v_status (channel_ (conn w)) = Muted ->
    state_ (conn w) <> kDisconnected ->
    (v_status (channel_ (conn w)) = Polled -> shutWrite (conn w) = false) ->
    returns (r ← sendInLoop (do_write sys_write m w) m (conn w); run_send m r w)
      (fun w' => inv w' /\ volume w' <= volume w + zlen m)) as Hsend.
  { intros Hst Hnd Hnshut. eapply returns_seq; [by apply sendInLoop_ok; try apply do_write_ok|].
    intros [c' eff] (W' & Es & Hvol & Est & Ein & Esh & Esta & Hsm' & Hrd & Hwr & Hq).
    unfold run_send. cbn [snd]. set (w1 := mkw (conn w) _ _ _ _ _).
    eapply returns_mono; [|apply (with_conn_quiet c' eff w1); [done|by rewrite Est|]].
    - intros w' (I' & _ & Hv' & _). split; [done|]. rewrite Hv'. unfold volume. cbn [conn queue w1].
      rewrite Ein. lia.
    - split; cbn [conn queue inServer accepted w1]; try done.
      + by rewrite Ein.
      + rewrite Es, app_assoc, Hstr. destruct (gave_up eff); [by rewrite app_nil_r|done].
      + by rewrite Est.
      + destruct Is as [Hk|Ha Ho Hr Hio Hsh Hin Hde|Ha Ho Hin Hde|Hk Ho Hin Hde]; try done.
        * eapply Open; cbn [conn queue inServer]; try done.
          -- unfold alive. by rewrite Est.
          -- unfold open_. by rewrite Esta.
          -- by rewrite Hrd.
          -- auto.
          -- rewrite Esh, Hnshut by done. done.
        * eapply Closing; cbn [conn queue inServer]; try done; [unfold alive; by rewrite Est|by rewrite Esta]. }
  destruct Is as [Hk|Ha Ho Hr Hio Hsh Hin Hde|Ha Ho Hin Hde|Hk Ho Hin Hde]; try done.
  - assert (state_ (conn w) <> kDisconnected) as Hnd by (intros E; unfold alive in Ha; by rewrite E in Ha).
    destruct (shutWrite (conn w)) eqn:Esh; [|apply Hsend; auto]. destruct (Hsh eq_refl) as [Eo _].
    unfold do_write. rewrite Esh, (proj2 law). rewrite sendInLoop_shut, bind_Ret; try done.
    + apply Hgave; [|done]. by repeat constructor.
    + destruct (isWriting (conn w)) eqn:E; [|done]. exfalso. by apply (proj1 Hio).
  - apply Hsend; [auto| |by rewrite Ho]. intros E. unfold alive in Ha. by rewrite E in Ha.
  - rewrite sendInLoop_down, bind_Ret by done. apply Hgave; [by repeat constructor|done].
Qed.

Lemma update_disableAll v : v_status v = Polled \/ v_status v = Muted ->
  update Channel.disableAll_ev v = Ret (mkv (v_fd v) 0 Muted).
Proof. intros [H|H]; unfold update; by rewrite H. Qed.

Lemma with_conn_close c w : inServer w = true ->
  with_conn (c, [CloseCallback]) w =
  Ret (mkw c (queue w ++ [FConnectDestroyed]) false (calls w ++ [CloseCallback]) (accepted w) (nwrites w)).
Proof. intros H. unfold with_conn. cbn [apply_effects snd fst]. unfold removeConnectionInLoop. cbn [inServer]. by rewrite H. Qed.

(** Data arrives, or the peer closes. *)
Lemma readable_step w r : inv w -> polled Channel.kReadEvent (conn w) = true ->
  match r with Buffer.ReadBytes d => zlen (Buffer.buffer_ (inputBuffer_ (conn w))) + zlen d <= vector_max_size | _ => True end ->
  returns (r' ← handleRead r (conn w); with_conn r' w) (fun w' => inv w' /\
    volume w' <= volume w + match r with Buffer.ReadBytes d => zlen d | _ => 0 end).
Proof.
  intros I Hp Hv. pose proof I as [Wi Wo Hstr Hsm Hf Hd Is]. unfold polled in Hp.
  destruct Is as [Hk Ho|Ha Ho Hr Hio Hsh Hin Hde|Ha Ho|Hk Ho]; try (by rewrite Ho in Hp).
  assert (state_ (conn w) <> kConnecting) as Hnc by (intros E; unfold alive in Ha; by rewrite E in Ha).
  unfold handleRead. destruct r as [d|e].
  - pose proof (Buffer.readFd_ok d _ Wi Hv) as Hrd. destruct (Buffer.readFd _ _) as [[[n e] b]|]; [|done].
    cbn [returns] in Hrd. destruct Hrd as (-> & _ & Wb & Eb & Hvb). rewrite bind_Ret. pose proof (zlen_nonneg d).
    destruct (0 <? zlen d) eqn:E0; bools.
    + rewrite bind_Ret. eapply returns_mono; [|apply with_conn_quiet; [by repeat constructor|done|]].
      * intros w' (I' & _ & Hv' & _). split; [done|]. rewrite Hv'. unfold volume. cbn [conn queue inputBuffer_ outputBuffer_ set_input]. lia.
      * split; try done. by eapply Open.
    + rewrite (proj2 (Z.eqb_eq _ _)) by lia. unfold handleClose. cbn [channel_ set_input].
      rewrite check_bind by done. unfold set_interest. cbn [channel_ set_input].
      rewrite update_disableAll, !bind_Ret by (left; exact Ho). rewrite with_conn_close by done. cbn [returns].
      split.
      * split; cbn [conn queue inServer accepted inputBuffer_ outputBuffer_ set_input set_channel channel_ state_ v_events]; try done.
        -- by rewrite filter_app, Hf.
        -- intros [?|?]%elem_of_app; [auto|set_solver].
        -- eapply Closing; try done. cbn [queue]. rewrite destroys_app, Hde. done.
      * unfold volume. cbn [conn queue inputBuffer_ outputBuffer_ set_input set_channel]. rewrite queue_size_app. cbn. lia.
  - cbn [Buffer.readFd]. rewrite bind_Ret. cbn [Z.ltb Z.compare Z.eqb]. rewrite bind_Ret.
    eapply returns_mono; [|apply with_conn_quiet; [by repeat constructor|done|]].
    + intros w' (I' & _ & Hv' & _). split; [done|]. rewrite Hv'. unfold volume. cbn [conn queue inputBuffer_ outputBuffer_ set_input]. lia.
    + split; try done. by eapply Open.
Qed.

Lemma quiet_log e : quiet [e] <-> (e <> CloseCallback /\ forall f, e = Queue f -> f = FWriteComplete \/ exists n, f = FHighWaterMark n).
Proof. split; [by inversion 1|]. intros H. constructor; [exact H|constructor]. Qed.

(** The socket takes part of the output. *)
Lemma writable_step w : inv w -> polled Channel.kWriteEvent (conn w) = true ->
  returns (r ← handleWrite (do_write sys_write (out (conn w)) w) (conn w);
           with_conn r (mkw (conn w) (queue w) (inServer w) (calls w) (accepted w) (S (nwrites w))))
    (fun w' => inv w' /\ volume w' <= volume w).
Proof.
  intros I Hp. pose proof I as [Wi Wo Hstr Hsm Hf Hd Is]. unfold polled in Hp.
  destruct Is as [Hk Ho|Ha Ho Hr Hio Hsh Hin Hde|Ha Ho|Hk Ho]; try (by rewrite Ho in Hp).
  rewrite Ho in Hp. assert (isWriting (conn w) = true) as Hwr by done.
  assert (state_ (conn w) <> kConnecting) as Hnc by (intros E; unfold alive in Ha; by rewrite E in Ha).
  set (w1 := mkw (conn w) (queue w) (inServer w) (calls w) (accepted w) (S (nwrites w))).
  assert (forall eff, quiet eff -> returns (with_conn (conn w, eff) w1) (fun w' => inv w' /\ volume w' <= volume w)) as Hidle.
  { intros eff Hq. eapply returns_mono; [|apply (with_conn_quiet (conn w) eff w1); [done|done|]].
    - intros w' (I' & _ & Hv' & _). split; [done|]. rewrite Hv'. unfold volume. cbn [conn queue w1]. lia.
    - split; try done. by eapply Open. }
  unfold handleWrite. rewrite Hwr. rewrite Buffer.readable_ok, Buffer.load_contents, bind_Ret by done.
  fold (out (conn w)). pose proof (do_write_ok w (out (conn w))) as Hlaw.
  destruct (do_write sys_write (out (conn w)) w) as [n|e].
  2: { rewrite bind_Ret. apply Hidle. by apply quiet_log. }
  cbn in Hlaw. destruct (0 <? n) eqn:E0; bools; [|rewrite bind_Ret; apply Hidle; by apply quiet_log].
  pose proof (Buffer.retrieve_ok n _ Wo Hlaw) as Hret. destruct (Buffer.retrieve n _) as [b|]; [|done].
  cbn [returns] in Hret. destruct Hret as (Wb & Eb & _ & Ebuf). rewrite bind_Ret.
  set (c1 := set_output b (wire (conn w) ++ take (Z.to_nat n) (out (conn w))) (conn w)).
  assert (wire c1 ++ out c1 = accepted w) as Hstr1.
  { unfold out at 1. cbn [wire c1 set_output outputBuffer_]. rewrite Eb, <- app_assoc, take_drop. done. }
  assert (shutWrite (conn w) = false) as Hns.
  { destruct (shutWrite (conn w)); [|done]. destruct (Hsh eq_refl) as [E _]. by apply (proj1 Hio) in Hwr. }
  destruct (Buffer.readableBytes (outputBuffer_ c1) =? 0) eqn:Ez.
  - apply readable_zero in Ez; [|done]. destruct (ev_facts _ Hsm) as (_ & Hs2 & _ & _ & _ & _ & H7 & H8 & H9 & _).
    unfold set_interest, update. cbn [channel_ c1 set_output]. rewrite Ho, H9, !bind_Ret by done.
    set (c2 := set_channel _ c1). set (eff := if writeCompleteCallback_ c2 then _ else _).
    assert (quiet eff) as Hqe by (unfold eff; destruct (writeCompleteCallback_ c2); [apply quiet_log; split; [done|intros f [= <-]; eauto]|constructor]).
    assert (exists c3, (if bool_decide (state_ c2 = kDisconnecting) then shutdownInLoop c2 else Ret c2) = Ret c3 /\
      (c3 = c2 \/ (c3 = set_shut c2 /\ state_ c2 = kDisconnecting))) as (c3 & -> & Hc3).
    { case_bool_decide as Hst; [|eauto]. unfold shutdownInLoop. unfold isWriting. cbn [channel_ c2 set_channel v_events].
      rewrite H7. cbn [negb]. eauto. }
    rewrite !bind_Ret.
    assert (Buffer.contents b = []) as Eb0 by exact Ez.
    eapply returns_mono; [|apply (with_conn_quiet c3 eff w1); [done|by destruct Hc3 as [->|[-> _]]|]].
    + intros w' (I' & _ & Hv' & _). split; [done|]. rewrite Hv'. unfold volume. cbn [conn queue w1].
      destruct Hc3 as [->|[-> _]]; cbn [inputBuffer_ outputBuffer_ c2 c1 set_channel set_output set_shut]; rewrite Ebuf; lia.
    + assert (out c2 = []) as Eo2 by exact Ez.
      split; cbn [conn queue inServer accepted w1]; try (by destruct Hc3 as [->|[-> _]]).
      eapply Open; cbn [conn queue inServer w1]; try (by destruct Hc3 as [->|[-> _]]).
      * destruct Hc3 as [->|[-> _]]; exact (eq_trans H8 Hr).
      * assert (isWriting c3 = false /\ out c3 = []) as [-> ->] by (destruct Hc3 as [->|[-> _]]; split; [exact H7|exact Ez|exact H7|exact Ez]).
        done.
      * destruct Hc3 as [->|[-> Hst]]; [|done]. cbn [shutWrite c2 c1 set_channel set_output]. by rewrite Hns.
  - rewrite bind_Ret. assert (out c1 <> []) as Hne.
    { intros E. apply (readable_zero (outputBuffer_ c1) Wb) in E. congruence. }
    eapply returns_mono; [|apply (with_conn_quiet c1 [] w1); [constructor|done|]].
    + intros w' (I' & _ & Hv' & _). split; [done|]. rewrite Hv'. unfold volume. cbn [conn queue w1].
      cbn [inputBuffer_ outputBuffer_ c1 set_output]. rewrite Ebuf. lia.
    + split; try done. eapply Open; try done. cbn [conn w1]. cbn [shutWrite c1 set_output]. by rewrite Hns.
Qed.

Definition cost (e : event) : Z :=
  match e with Readable (Buffer.ReadBytes d) => zlen d | Send _ m => zlen m | _ => 0 end.

Definition event_ok (e : event) : Prop :=
  match e with ForceClose => False | Retrieve n => 0 <= n | _ => True end.

Lemma alive_state c : alive c = true -> state_ c = kConnected \/ state_ c = kDisconnecting.
Proof. unfold alive. rewrite orb_true_iff, !bool_decide_eq_true. done. Qed.

Lemma shutdownInLoop_step w q : inv (mkw (conn w) q (inServer w) (calls w) (accepted w) (nwrites w)) ->
  state_ (conn w) = kDisconnecting \/ state_ (conn w) = kDisconnected ->
  exists c, shutdownInLoop (conn w) = Ret c /\
    inv (mkw c q (inServer w) (calls w) (accepted w) (nwrites w)) /\ state_ c = state_ (conn w) /\
    inputBuffer_ c = inputBuffer_ (conn w) /\ outputBuffer_ c = outputBuffer_ (conn w).
Proof.
  intros I Hs. unfold shutdownInLoop. destruct (negb (isWriting (conn w))) eqn:E; [|eauto 10].
  exists (set_shut (conn w)). split_and!; try done. apply negb_true_iff in E.
  destruct I as [Wi Wo Hstr Hsm Hf Hd Is]. split; try done.
  destruct Is as [Hk|Ha Ho Hr Hio Hsh Hin Hde|Ha Ho Hin Hde|Hk Ho Hin Hde]; cbn [conn queue inServer] in *.
  - destruct Hs; congruence.
  - eapply Open; try done. cbn [conn]. intros _. split.
    + change (out (conn w) = []). destruct (out (conn w)) eqn:Eo; [done|]. 
      assert (isWriting (conn w) = true) by (by apply (proj2 Hio)). congruence.
    + apply alive_state in Ha. cbn. destruct Hs, Ha; congruence.
  - by eapply Closing.
  - by eapply Destroyed.
Qed.
(** Changing only the functors queued. *)
Lemma inv_queue w q : inv w -> state_ (conn w) <> kConnecting ->
  List.filter is_force q = [] -> (FShutdown ∈ q -> state_ (conn w) <> kConnected) ->
  destroys q = destroys (queue w) ->
  inv (mkw (conn w) q (inServer w) (calls w) (accepted w) (nwrites w)).
Proof.
  intros [Wi Wo Hstr Hsm Hf Hd Is] Hs Hq1 Hq2 Hq3. split; cbn [conn queue inServer accepted]; try done.
  destruct Is; [done|eapply Open|eapply Closing|eapply Destroyed]; cbn [conn queue inServer]; try done; by rewrite Hq3.
Qed.

(** A user call that queues one functor. *)
Lemma enqueue_step w f : inv w -> state_ (conn w) <> kConnecting -> is_force f = false -> is_destroy f = false ->
  (f = FShutdown -> state_ (conn w) <> kConnected) ->
  returns (with_conn (conn w, [Queue f]) w)
    (fun w' => inv w' /\ volume w' = volume w + functor_size f).
Proof.
  intros I Hs Hff Hfd Hfs. unfold with_conn. cbn [fst snd apply_effects conn queue inServer calls accepted nwrites].
  rewrite bind_Ret. cbn [returns]. split.
  - assert (inv (mkw (conn w) (queue w) (inServer w) (calls w ++ [Queue f]) (accepted w) (nwrites w))) as I1.
    { destruct I as [? ? ? ? ? ? Is]. split; try done. destruct Is; by econstructor. }
    apply (inv_queue _ (queue w ++ [f]) I1 Hs); cbn [conn queue].
    + rewrite filter_app, (i_force _ I). cbn. by rewrite Hff.
    + intros [H|H]%elem_of_app; [by apply (i_down _ I)|]. apply list_elem_of_singleton in H. by apply Hfs.
    + rewrite destroys_app. unfold destroys at 2. cbn. rewrite Hfd. cbn. lia.
  - unfold volume. cbn [conn queue]. rewrite queue_size_app. cbn. lia.
Qed.

Lemma with_conn_nil c w : with_conn (c, []) w = Ret (mkw c (queue w) (inServer w) (calls w) (accepted w) (nwrites w)).
Proof. done. Qed.

Lemma inv_shutdown w : inv w -> state_ (conn w) = kConnected ->
  inv (mkw (set_state kDisconnecting (conn w)) (queue w) (inServer w) (calls w) (accepted w) (nwrites w)).
Proof.
  intros [Wi Wo Hstr Hsm Hf Hd Is] Hs. split; try done.
  destruct Is as [|Ha Ho Hr Hio Hsh Hin Hde| |]; [congruence|eapply Open|by eapply Closing|congruence];
    cbn [conn queue inServer]; try done. intros H. destruct (Hsh H) as [? E]. congruence.
Qed.

Lemma shutdown_event w inLoop : inv w ->
  returns (r ← shutdown inLoop (conn w); with_conn r w) (fun w' => inv w' /\ volume w' <= volume w).
Proof.
  intros I. unfold shutdown. case_bool_decide as Hs.
  - pose proof (inv_shutdown w I Hs) as I1.
    set (w1 := mkw (set_state kDisconnecting (conn w)) (queue w) (inServer w) (calls w) (accepted w) (nwrites w)) in *.
    cbv zeta. destruct inLoop.
    + destruct (shutdownInLoop_step w1 (queue w1) I1) as (c & E & I' & Es & Ei & Eo); [by left|].
      cbn [conn w1] in E. rewrite E, !bind_Ret, with_conn_nil. cbn [returns]. split; [exact I'|].
      unfold volume. cbn [conn queue]. rewrite Ei, Eo. cbn [conn w1 set_state inputBuffer_ outputBuffer_]. lia.
    + rewrite bind_Ret. eapply returns_mono; [|by apply (enqueue_step w1 FShutdown)].
      intros w' [I' Hv]. split; [done|]. rewrite Hv. unfold volume. cbn [conn queue w1 set_state inputBuffer_ outputBuffer_ functor_size]. lia.
  - rewrite bind_Ret, with_conn_nil. destruct w. cbn [returns conn queue inServer calls accepted nwrites]. split; [done|lia].
Qed.

Lemma established_step w : inv w -> state_ (conn w) = kConnecting ->
  returns (r ← connectEstablished (conn w); with_conn r w) (fun w' => inv w' /\ volume w' <= volume w).
Proof.
  intros [Wi Wo Hstr Hsm Hf Hd Is] Hs. destruct Is as [_ Hfr Hev Eo Hns Hin Hq|Ha|Ha|]; try (by unfold alive in Ha; rewrite Hs in Ha); [|congruence].
  unfold connectEstablished. rewrite check_bind by (by apply bool_decide_eq_true_2).
  unfold set_interest, update. cbn [channel_ set_state]. rewrite Hfr, Hev, !bind_Ret.
  unfold with_conn. cbn [fst snd apply_effects]. rewrite bind_Ret. cbn [returns conn queue inServer calls accepted nwrites]. split.
  - split; try done; [cbn [queue]; rewrite Hq; set_solver|].
    eapply Open; try done; cbn [conn queue]; [by cbn; rewrite Hns|by rewrite Hq].
  - unfold volume. cbn. lia.
Qed.
Lemma destroyed_step w q : inv w -> queue w = FConnectDestroyed :: q ->
  returns (r ← connectDestroyed (conn w);
           with_conn r (mkw (conn w) q (inServer w) (calls w) (accepted w) (nwrites w)))
    (fun w' => inv w' /\ volume w' <= volume w).
Proof.
  intros [Wi Wo Hstr Hsm Hf Hd Is] Hq. destruct Is as [? ? ? ? ? ? E|? ? ? ? ? ? E|Ha Ho Hin Hde|? ? ? E];
    try (rewrite Hq in E; done).
  unfold connectDestroyed. rewrite check_bind by done. unfold set_interest. cbn [channel_ set_state].
  rewrite update_disableAll, !bind_Ret by (right; exact Ho). cbn [removeChannel channel_ set_channel v_status v_events Z.eqb].
  rewrite !bind_Ret. unfold with_conn. cbn [fst snd apply_effects conn queue inServer calls accepted nwrites].
  rewrite bind_Ret. cbn [returns]. rewrite Hq in Hf, Hde. cbn in Hf, Hde. split.
  - split; try done. eapply Destroyed; try done. cbn [queue]. unfold destroys in *. cbn in Hde. lia.
  - unfold volume. cbn [conn queue set_channel set_state inputBuffer_ outputBuffer_]. rewrite Hq. cbn. lia.
Qed.

Lemma functor_step w f q : inv w -> queue w = f :: q -> volume w <= vector_max_size ->
  returns (run_functor sys_write f (mkw (conn w) q (inServer w) (calls w) (accepted w) (nwrites w)))
    (fun w' => inv w' /\ volume w' <= volume w).
Proof.
  intros I Hq Hv. pose proof (i_force _ I) as Hf. pose proof (i_down _ I) as Hd. rewrite Hq in Hf, Hd.
  assert (state_ (conn w) <> kConnecting) as Hs.
  { destruct (i_stage _ I) as [? ? ? ? ? ? E|Ha ? ? ? ? ? E|Ha|E]; [congruence|intros E'..];
      [unfold alive in Ha; by rewrite E' in Ha..|congruence]. }
  destruct f; cbn [run_functor]; try discriminate Hf.
  4-5: cbn [returns]; split;
    [apply inv_queue; try done; [intros H; apply Hd; by apply list_elem_of_further|by rewrite Hq]
    |unfold volume; cbn [conn queue]; rewrite Hq; cbn; lia].
  - set (w1 := mkw (conn w) q _ _ _ _). assert (inv w1) as I1.
    { apply inv_queue; try done; [intros H; apply Hd; by apply list_elem_of_further|by rewrite Hq]. }
    assert (volume w = volume w1 + zlen message) as Ev by (unfold volume; rewrite Hq; cbn; lia).
    eapply returns_mono; [|apply (send_step w1 message I1 Hs)].
    + intros w' [I' Hv']. split; [done|lia].
    + cbn [conn w1]. unfold volume in Hv. rewrite Hq in Hv. cbn [queue_size functor_size] in Hv.
      pose proof (zlen_nonneg (Buffer.buffer_ (inputBuffer_ (conn w)))).
      assert (forall l, 0 <= queue_size l) as Hqs.
      { intros l. induction l as [|[] l IH]; cbn; try lia. pose proof (zlen_nonneg message0). lia. }
      specialize (Hqs q). lia.
  - assert (inv (mkw (conn w) q (inServer w) (calls w) (accepted w) (nwrites w))) as I1.
    { apply inv_queue; try done; [intros H; apply Hd; by apply list_elem_of_further|by rewrite Hq]. }
    assert (state_ (conn w) <> kConnected) as Hnc by (apply Hd; by apply list_elem_of_here).
    destruct (shutdownInLoop_step w q I1) as (c & E & I' & _ & Ei & Eo).
    { destruct (state_ (conn w)); auto; done. }
    cbn [conn]. rewrite E, bind_Ret, with_conn_nil. cbn [returns queue inServer calls accepted nwrites]. split; [exact I'|].
    unfold volume. cbn [conn queue]. rewrite Ei, Eo, Hq. cbn. lia.
  - exact (destroyed_step w q I Hq).
Qed.

Lemma retrieve_step w n : inv w -> 0 <= n ->
  returns (if n <=? Buffer.readableBytes (inputBuffer_ (conn w)) then
             b ← Buffer.retrieve n (inputBuffer_ (conn w)); with_conn (set_input b (conn w), []) w
           else Ret w) (fun w' => inv w' /\ volume w' <= volume w).
Proof.
  intros I Hn. pose proof I as [Wi Wo Hstr Hsm Hf Hd Is]. destruct (_ <=? _) eqn:E; bools; [|by split].
  rewrite Buffer.readable_contents in E by done.
  eapply returns_seq; [by apply (Buffer.retrieve_ok n _ Wi)|]. intros b (Wb & _ & _ & Ebuf).
  rewrite with_conn_nil. cbn [returns]. split.
  - split; try done. destruct Is; by econstructor.
  - unfold volume. cbn [conn queue set_input inputBuffer_ outputBuffer_]. rewrite Ebuf. lia.
Qed.

Lemma volume_parts w : 0 <= queue_size (queue w) /\
  zlen (Buffer.buffer_ (inputBuffer_ (conn w))) <= volume w /\ zlen (Buffer.buffer_ (outputBuffer_ (conn w))) <= volume w.
Proof.
  assert (0 <= queue_size (queue w)) as Hq.
  { induction (queue w) as [|f l IH]; cbn; [lia|]. destruct f as [m| | | | |]; cbn; try lia. pose proof (zlen_nonneg m). lia. }
  unfold volume. pose proof (zlen_nonneg (Buffer.buffer_ (inputBuffer_ (conn w)))).
  pose proof (zlen_nonneg (Buffer.buffer_ (outputBuffer_ (conn w)))). lia.
Qed.

(** Every event but [forceClose] keeps the invariant. *)
Lemma step_ok w e : inv w -> event_ok e -> volume w + cost e <= vector_max_size ->
  returns (step sys_write e w) (fun w' => inv w' /\ volume w' <= volume w + cost e).
Proof.
  intros I He Hv. destruct (volume_parts w) as (Hq & Hvi & Hvo).
  destruct e as [|r| | |inLoop m|inLoop| |n]; cbn [step cost] in *.
  - case_bool_decide as Hs; [|cbn; split; [done|lia]].
    eapply returns_mono; [|by apply established_step]. intros w' [? ?]. split; [done|lia].
  - destruct (polled _ _) eqn:Hp; [|cbn; split; [done|destruct r; [pose proof (zlen_nonneg d)|]; lia]].
    apply readable_step; [done|done|]. destruct r; [lia|done].
  - destruct (polled _ _) eqn:Hp; [|cbn; split; [done|lia]].
    eapply returns_mono; [|by apply writable_step]. intros w' [? ?]. split; [done|lia].
  - destruct (queue w) as [|f q] eqn:Eq; [cbn; split; [done|lia]|].
    eapply returns_mono; [|apply functor_step; try done; lia]. intros w' [? ?]. split; [done|lia].
  - pose proof (zlen_nonneg m). destruct inLoop.
    + case_bool_decide as Hs; [|cbn; split; [done|lia]]. unfold send. rewrite bool_decide_eq_true_2 by done.
      apply send_step; [done|congruence|lia].
    + unfold send. case_bool_decide as Hs; rewrite bind_Ret.
      * eapply returns_mono; [|apply (enqueue_step w (FSend m)); done || congruence]. intros w' [? Hv']. split; [done|].
        rewrite Hv'. cbn. lia.
      * rewrite with_conn_nil. destruct w. cbn. split; [done|lia].
  - eapply returns_mono; [|by apply shutdown_event]. intros w' [? ?]. split; [done|lia].
  - done.
  - eapply returns_mono; [|by apply retrieve_step]. intros w' [? ?]. split; [done|lia].
Qed.

Fixpoint total_cost (l : list event) : Z := match l with [] => 0 | e :: l' => cost e + total_cost l' end.

Lemma cost_nonneg e : 0 <= cost e.
Proof. destruct e as [|[]| | | | | |]; cbn; try lia; apply zlen_nonneg. Qed.

Lemma steps_ok l : forall w, inv w -> Forall event_ok l -> volume w + total_cost l <= vector_max_size ->
  returns (steps sys_write l w) (fun w' => inv w' /\ volume w' <= vector_max_size).
Proof.
  induction l as [|e l IH]; intros w I He Hv; cbn [steps total_cost] in *; [cbn; split; [done|lia]|].
  inversion He as [|? ? He1 He2]; subst.
  assert (0 <= total_cost l) by (clear; induction l as [|e l IH]; cbn [total_cost]; [lia|pose proof (cost_nonneg e); lia]).
  eapply returns_seq; [apply step_ok; [done|done|lia]|]. intros w' [I' Hv']. apply IH; [done|done|lia].
Qed.
(** What one write does to an open connection that has output. *)
Lemma handleWrite_takes c n eff c' : Buffer.wf (outputBuffer_ c) -> small_events (v_events (channel_ c)) ->
  v_status (channel_ c) = Polled -> has (v_events (channel_ c)) Channel.kReadEvent = true -> isWriting c = true ->
  0 < n <= zlen (out c) -> handleWrite (Wrote n) c = Ret (c', eff) ->
  out c' = drop (Z.to_nat n) (out c) /\ v_status (channel_ c') = Polled /\ state_ c' = state_ c /\
  (out c' = [] -> state_ c = kDisconnecting -> shutWrite c' = true).
Proof.
  intros W Hsm Hst Hrd Hwr Hn H. destruct (ev_facts _ Hsm) as (_ & _ & _ & _ & _ & _ & H7 & _ & H9 & _).
  unfold handleWrite in H. rewrite Hwr, Buffer.readable_ok, Buffer.load_contents, bind_Ret in H by done.
  rewrite (proj2 (Z.ltb_lt 0 n)) in H by lia.
  assert (0 <= n <= zlen (out c)) as Hn' by lia. pose proof (Buffer.retrieve_ok n _ W Hn') as Hret.
  destruct (Buffer.retrieve n _) as [b|]; [|done]. destruct Hret as (Wb & Eb & _ & _). rewrite bind_Ret in H.
  cbn [outputBuffer_ set_output] in H. destruct (Buffer.readableBytes b =? 0) eqn:Ez.
  - apply readable_zero in Ez; [|done]. unfold set_interest, update in H. cbn [channel_ set_output] in H.
    rewrite Hst, H9, !bind_Ret in H by done. cbn [state_ set_output set_channel] in H.
    unfold shutdownInLoop, isWriting in H. cbn [channel_ set_channel v_events] in H. rewrite H7 in H. cbn [negb] in H.
    case_bool_decide as Hd; rewrite bind_Ret in H; injection H as <- _; unfold out;
      cbn [outputBuffer_ set_output set_channel set_shut channel_ v_status state_ shutWrite]; done.
  - injection H as <- _. unfold out. cbn [outputBuffer_ set_output channel_ state_ shutWrite]. split_and!; try done.
    intros E. apply readable_zero in E; [|done]. congruence.
Qed.

(** Effects leave the connection and the account of accepted bytes alone. *)
Lemma apply_effects_frame eff : forall w w', apply_effects eff w = Ret w' ->
  conn w' = conn w /\ accepted w' = accepted w.
Proof.
  induction eff as [|e eff IH]; intros w w' H; cbn [apply_effects] in H; [by injection H as <-|].
  destruct e; rewrite ?bind_Ret in H; try (by destruct (IH _ _ H) as [-> ->]).
  unfold removeConnectionInLoop in H. cbn [inServer] in H. destruct (inServer w); [|done].
  cbn in H. by destruct (IH _ _ H) as [-> ->].
Qed.

Lemma returns_both {A} (m : outcome A) (P Q : A -> Prop) : returns m P -> returns m Q -> returns m (fun a => P a /\ Q a).
Proof. by destruct m. Qed.

(** A writable event makes progress if write(2) does. *)
Lemma writable_progress w : inv w -> open_ (conn w) -> out (conn w) <> [] -> volume w <= vector_max_size ->
  (forall k d, d <> [] -> exists n, 0 < n /\ sys_write k d false = Wrote n) ->
  returns (step sys_write Writable w) (fun w' => inv w' /\ volume w' <= volume w /\ open_ (conn w') /\
    (length (out (conn w')) < length (out (conn w)))%nat /\ accepted w' = accepted w /\ state_ (conn w') = state_ (conn w) /\
    (out (conn w') = [] -> state_ (conn w) = kDisconnecting -> shutWrite (conn w') = true)).
Proof.
  intros I Ho Hne Hv Hp. assert (returns (step sys_write Writable w) (fun w' => inv w' /\ volume w' <= volume w)) as H1.
  { eapply returns_mono; [|apply step_ok; [done|done|cbn; lia]]. cbn. intros w' [? ?]. split; [done|lia]. }
  eapply returns_mono; [|apply (returns_both _ _ (fun w' => open_ (conn w') /\
    (length (out (conn w')) < length (out (conn w)))%nat /\ accepted w' = accepted w /\ state_ (conn w') = state_ (conn w) /\
    (out (conn w') = [] -> state_ (conn w) = kDisconnecting -> shutWrite (conn w') = true)) H1)].
  { intros w' [[? ?] (? & ? & ? & ?)]. done. }
  destruct I as [Wi Wo Hstr Hsm Hf Hd Is]. pose proof Ho as Ho'. unfold open_ in Ho'.
  destruct Is as [? E|Ha _ Hr Hio Hsh Hin Hde|? E|? E]; try (rewrite E in Ho'; done).
  assert (isWriting (conn w) = true) as Hwr by (by apply (proj2 Hio)).
  cbn [step] in *. unfold polled in *. rewrite Ho' in *. unfold isWriting in Hwr. rewrite Hwr in *.
  unfold do_write in *. destruct (shutWrite (conn w)) eqn:Es; [by destruct (Hsh eq_refl)|].
  destruct (Hp (nwrites w) (out (conn w)) Hne) as (n & Hn & En). fold (out (conn w)) in *. rewrite En in *.
  destruct law as [Hlaw _]. specialize (Hlaw _ _ _ En).
  destruct (handleWrite (Wrote n) (conn w)) as [[c' eff]|] eqn:Eh; [|done]. rewrite bind_Ret in *.
  assert (0 < n <= zlen (out (conn w))) as Hn' by lia.
  destruct (handleWrite_takes _ _ _ _ Wo Hsm Ho' Hr Hwr Hn' Eh) as (Eo & Hst & Hs & Hshut).
  destruct (with_conn _ _) as [w'|] eqn:Ew; [|done]. apply apply_effects_frame in Ew as [Ec Ea].
  cbn [returns fst conn accepted] in *. unfold open_. rewrite Ec. split_and!; try done.
  rewrite Eo, length_drop. unfold zlen in *. lia.
Qed.

Lemma flush_ok n : forall w, inv w -> open_ (conn w) -> out (conn w) <> [] -> volume w <= vector_max_size ->
  (forall k d, d <> [] -> exists n, 0 < n /\ sys_write k d false = Wrote n) ->
  (length (out (conn w)) <= n)%nat ->
  exists k w', (k <= n)%nat /\ steps sys_write (repeat Writable k) w = Ret w' /\ open_ (conn w') /\
    out (conn w') = [] /\ wire (conn w') = accepted w /\
    (state_ (conn w) = kDisconnecting -> shutWrite (conn w') = true).
Proof.
  induction n as [|n IH]; intros w I Ho Hne Hv Hp Hn.
  { destruct (out (conn w)); [done|cbn in Hn; lia]. }
  pose proof (writable_progress w I Ho Hne Hv Hp) as H. destruct (step sys_write Writable w) as [w1|] eqn:E1; [|done].
  destruct H as (I1 & Hv1 & Ho1 & Hl & Ha & Hs & Hsh).
  destruct (out (conn w1)) as [|b rest] eqn:Eo.
  - exists 1%nat, w1. split; [lia|]. cbn [repeat steps]. rewrite E1, bind_Ret. split_and!; try done.
    + pose proof (i_stream _ I1) as Hst. rewrite Eo, app_nil_r in Hst. congruence.
    + by apply Hsh.
  - destruct (IH w1) as (k & w2 & Hk & E2 & Ho2 & Eo2 & Ew2 & Hs2); try done; [congruence|lia|rewrite Eo; cbn in *; lia|].
    exists (S k), w2. split; [lia|]. cbn [repeat steps]. rewrite E1, bind_Ret. split_and!; try done; [congruence|].
    intros H. apply Hs2. congruence.
Qed.
End safety.

(** The two vectors of a fresh connection. *)
Definition fresh_volume : Z := 2 * (Buffer.kCheapPrepend + Buffer.kInitialSize).

Lemma accept_ok sockfd wc hw : returns (accept sockfd wc hw) (fun w => inv w /\ volume w <= fresh_volume).
Proof.
  unfold accept, TcpConnection. pose proof Buffer.Buffer_ok as HB.
  destruct Buffer.Buffer as [b|]; [|done]. destruct HB as [W Ec _ _ Hz].
  rewrite !bind_Ret. cbn [returns]. split.
  - split; try done. by eapply Connecting.
  - unfold volume, fresh_volume. cbn [conn queue queue_size inputBuffer_ outputBuffer_ Buffer.q_vol Buffer.empty_queue] in *. unfold Buffer.kInitialSize, Buffer.kCheapPrepend in *; lia.
Qed.

Definition run (sys_write : nat -> bytes -> bool -> write_result) (sockfd : Z) (wc hw : bool) (l : list event) : outcome world :=
  w ← accept sockfd wc hw; steps sys_write l w.

Lemma run_ok sys_write sockfd wc hw l : write_law sys_write -> Forall event_ok l ->
  fresh_volume + total_cost l <= vector_max_size ->
  returns (run sys_write sockfd wc hw l) (fun w => inv w /\ volume w <= vector_max_size).
Proof.
  intros law He Hv. eapply returns_seq; [apply accept_ok|]. intros w [I Ev]. apply steps_ok; try done. lia.
Qed.

(** ** Theorems *)

(** C21: from the moment a connection is accepted, any sequence of readiness
    events, queued functors and calls of [send], [shutdown] and [retrieve], in the
    loop's thread or another, fails no assertion, of the connection, of its buffers, of
    the poller or of the server (so the close callback runs at most once and
    [connectDestroyed] after it); the connection is always connecting, open,
    closing or destroyed, with the state, the channel, the server's map and the
    loop's queue in agreement. *)
Theorem connection_life_cycle sys_write sockfd wc hw l : write_law sys_write -> Forall event_ok l ->
  fresh_volume + total_cost l <= vector_max_size ->
  returns (run sys_write sockfd wc hw l) stage.
Proof. intros. eapply returns_mono; [|by apply run_ok]. intros w [I _]. apply (i_stage _ I). Qed.

(** C22: the byte stream.  In every reachable state what the socket took followed by what
    is buffered is exactly the messages [sendInLoop] took, in order; while the
    connection is open the writable event is watched exactly when there is output, and
    the write side is shut only when every byte was written and [shutdown] was asked for. *)
Theorem connection_stream sys_write sockfd wc hw l : write_law sys_write -> Forall event_ok l ->
  fresh_volume + total_cost l <= vector_max_size ->
  returns (run sys_write sockfd wc hw l) (fun w =>
    wire (conn w) ++ out (conn w) = accepted w /\
    (open_ (conn w) -> (isWriting (conn w) = true <-> out (conn w) <> []) /\
      (shutWrite (conn w) = true -> wire (conn w) = accepted w /\ state_ (conn w) = kDisconnecting))).
Proof.
  intros. eapply returns_mono; [|by apply run_ok]. intros w [I _]. split; [apply (i_stream _ I)|].
  intros Ho. unfold open_ in Ho. destruct (i_stage _ I) as [? E|Ha _ Hr Hio Hsh Hin Hde|? E|? E]; try (rewrite E in Ho; done).
  split; [done|]. intros Hs. destruct (Hsh Hs) as [Eo ?]. split; [|done].
  by rewrite <- (i_stream _ I), Eo, app_nil_r.
Qed.

(** C23: graceful shutdown.  If write(2) takes at least a byte of a non-empty
    buffer, an open connection with output left has written all of it after at
    most one writable event per byte, and if [shutdown] was called before, the
    write side is shut then and not earlier. *)
Theorem connection_drains sys_write sockfd wc hw l w : write_law sys_write -> Forall event_ok l ->
  (forall k d, d <> [] -> exists n, 0 < n /\ sys_write k d false = Wrote n) ->
  fresh_volume + total_cost l <= vector_max_size ->
  run sys_write sockfd wc hw l = Ret w -> open_ (conn w) -> out (conn w) <> [] ->
  exists k w', (k <= length (out (conn w)))%nat /\ steps sys_write (repeat Writable k) w = Ret w' /\
    out (conn w') = [] /\ wire (conn w') = accepted w /\
    (state_ (conn w) = kDisconnecting -> shutWrite (conn w) = false /\ shutWrite (conn w') = true).
Proof.
  intros law He Hp Hv Hr Ho Hne. pose proof (run_ok sys_write sockfd wc hw l law He Hv) as H. rewrite Hr in H.
  destruct H as [I Hvol].
  destruct (flush_ok sys_write law _ w I Ho Hne Hvol Hp (le_n _)) as (k & w' & Hk & E & _ & Eo & Ew & Hs).
  exists k, w'. split_and!; try done. intros Hd. split; [|auto].
  unfold open_ in Ho. destruct (i_stage _ I) as [? E'|_ _ _ _ Hsh _ _|? E'|? E']; try (rewrite E' in Ho; done).
  destruct (shutWrite (conn w)); [by destruct (Hsh eq_refl)|done].
Qed.

(** A socket that takes up to three bytes at a time. *)
Definition slow_write (k : nat) (d : bytes) (shut : bool) : write_result :=
  if shut then WriteError EPIPE else Wrote (Z.min 3 (zlen d)).

Lemma slow_write_law : write_law slow_write.
Proof. split; [|done]. intros k d n [= <-]. pose proof (zlen_nonneg d). lia. Qed.

Lemma slow_write_progress k d : d <> [] -> exists n, 0 < n /\ slow_write k d false = Wrote n.
Proof.
  intros H. exists (Z.min 3 (zlen d)). split; [|done]. destruct d; [done|]. rewrite zlen_cons.
  pose proof (zlen_nonneg d). lia.
Qed.

Definition example_trace : list event :=
  [Established; Readable (Buffer.ReadBytes (lit "ping")); Retrieve 4; Send true (lit "pong!"); Send false (lit "bye");
   NextFunctor; Shutdown false; NextFunctor; Writable].

Lemma connection_life_cycle_witness : returns (run slow_write 7 true false example_trace) stage.
Proof.
  apply (connection_life_cycle slow_write 7 true false example_trace slow_write_law); [|vm_compute; discriminate].
  repeat constructor. vm_compute; discriminate.
Defined.

Lemma connection_stream_witness : returns (run slow_write 7 true false example_trace) (fun w =>
    wire (conn w) ++ out (conn w) = accepted w /\
    (open_ (conn w) -> (isWriting (conn w) = true <-> out (conn w) <> []) /\
      (shutWrite (conn w) = true -> wire (conn w) = accepted w /\ state_ (conn w) = kDisconnecting))).
Proof.
  apply (connection_stream slow_write 7 true false example_trace slow_write_law); [|vm_compute; discriminate].
  repeat constructor. vm_compute; discriminate.
Defined.

(** Not so once it was closed: the peer's end of stream is read while a [shutdown] is pending, and
    the functor shuts the write side with two bytes unsent. *)
Example closed_with_output :
  (w ← run slow_write 7 false false [Established; Send true (lit "pong!"); Shutdown false; Readable (Buffer.ReadBytes []); NextFunctor; NextFunctor];
   Ret (shutWrite (conn w), out (conn w), state_ (conn w))) = Ret (true, lit "g!", kDisconnected).
Proof. vm_compute. reflexivity. Qed.

(** Five bytes sent, three taken, three more by another thread, shutdown, one writable
    event: two bytes are left. *)
Lemma connection_drains_witness : exists w k w', run slow_write 7 true false example_trace = Ret w /\
  out (conn w) = lit "ye" /\ state_ (conn w) = kDisconnecting /\ (k <= length (out (conn w)))%nat /\
  steps slow_write (repeat Writable k) w = Ret w' /\ wire (conn w') = lit "pong!bye".
Proof.
  destruct (run slow_write 7 true false example_trace) as [w|] eqn:E; [|vm_compute in E; discriminate].
  assert (out (conn w) = lit "ye" /\ state_ (conn w) = kDisconnecting /\ open_ (conn w) /\ accepted w = lit "pong!bye") as (Eo & Es & Ho & Ea).
  { vm_compute in E. injection E as <-. by vm_compute. }
  destruct (connection_drains slow_write 7 true false example_trace w slow_write_law) as (k & w' & Hk & H & _ & Ew & _).
  - repeat constructor. vm_compute; discriminate.
  - exact slow_write_progress.
  - vm_compute; discriminate.
  - exact E.
  - exact Ho.
  - rewrite Eo. discriminate.
  - exists w, k, w'. rewrite Ew, Ea. repeat split; assumption || reflexivity.
Defined.

(** [handleClose] leaves [state_] alone, so calling [forceClose] twice before the loop
    runs the functors (its own guard lets it) closes twice, and the server's
    [assert(n == 1)] fails. *)
Lemma forceClose_twice_fails :
  run slow_write 7 true false [Established; ForceClose; ForceClose; NextFunctor; NextFunctor] = Crash AssertFailed.
Proof. vm_compute. reflexivity. Qed.

End TcpConnection.
