(* ===== verification/FileServer.v ===== *)
(** * excercises/filetransfer: a file sent to whoever connects

    download3.cc sends the file in pieces of 64 KB, the next one when the connection has written
    the last; download2.cc does the same with a plain [FILE*] that it closes itself.  Both run
    over the [TcpConnection] model: the callbacks are called where that model has them, and send
    and shut down through it.  The input is dropped by [defaultMessageCallback]. *)

From S2P Require Import Prelude Endian NetBuffer Poller TcpConnection.

Import Poller.

Module FileServer.
Import TcpConnection.

Definition kBufSize : Z := 64 * 1024.

Lemma kBufSize_pos : 0 < kBufSize.
Proof. done. Qed.

#[global] Opaque kBufSize.

(** A [FILE*]: null, open at a position, or closed. *)
Inductive handle := NullFile | OpenFile (pos : nat) | ClosedFile.

(** The connection with its [context_], a [boost::any]. *)
Record t := mk { net : world; context_ : option handle }.

(** What happens to the connection in its loop. *)
Inductive event := Up | Input (r : Buffer.readv_result) | Output | Functor.

Section server.
(** write(2), and the file named on the command line if it can be opened. *)
Variables (sys_write : nat -> bytes -> bool -> write_result) (g_file : option bytes).

Definition content : bytes := default [] g_file.

Definition fread (fp : handle) : outcome (bytes * handle) :=
  match fp with
  | OpenFile pos => let data := take (Z.to_nat kBufSize) (drop pos content) in Ret (data, OpenFile (pos + length data))
  | NullFile => Crash NullPointer
  | ClosedFile => Crash UseAfterFree
  end.

Definition on_net (e : TcpConnection.event) (s : t) : outcome t :=
  w ← TcpConnection.step sys_write e (net s); Ret (mk w (context_ s)).

Definition set_mark (s : t) : t :=
  let w := net s in
  mk (mkw (setHighWaterMarkCallback (kBufSize + 1) (conn w)) (queue w) (inServer w) (calls w) (accepted w) (nwrites w)) (context_ s).

(** ** download3.cc *)
Definition onConnection (s : t) : outcome t :=
  if connected (conn (net s)) then
    let s1 := set_mark s in
    match g_file with
    | Some _ =>
        '(data, fp) ← fread (OpenFile 0);
        on_net (Send true data) (mk (net s1) (Some fp))
    | None => on_net (Shutdown true) s1
    end
  else Ret s.

Definition onWriteComplete (s : t) : outcome t :=
  match context_ s with
  | None => Crash Thrown
  | Some ctx =>
      '(data, fp) ← fread ctx;
      let s1 := mk (net s) (Some fp) in
      if 0 <? zlen data then on_net (Send true data) s1 else on_net (Shutdown true) s1
  end.

(** ** download2.cc: the same with a file the callbacks close *)
Definition onConnection2 (s : t) : outcome t :=
  if connected (conn (net s)) then onConnection s
  else
    match context_ s with
    | None | Some NullFile => Ret s
    | Some (OpenFile _) => Ret (mk (net s) (Some ClosedFile))
    | Some ClosedFile => Crash UseAfterFree
    end.

Definition onWriteComplete2 (s : t) : outcome t :=
  match context_ s with
  | None => Crash Thrown
  | Some ctx =>
      '(data, fp) ← fread ctx;
      if 0 <? zlen data then on_net (Send true data) (mk (net s) (Some fp))
      else on_net (Shutdown true) (mk (net s) (Some NullFile))
  end.

(** ** The loop of the connection, with the callbacks of either program *)
Section callbacks.
Variables (connection writeComplete : t -> outcome t).

Definition step_with (e : event) (s : t) : outcome t :=
  match e with
  | Up => if bool_decide (state_ (conn (net s)) = kConnecting) then s1 ← on_net Established s; connection s1 else Ret s
  | Input r => s1 ← on_net (Readable r) s; on_net (Retrieve (Buffer.readableBytes (inputBuffer_ (conn (net s1))))) s1
  | Output => on_net Writable s
  | Functor =>
      match queue (net s) with
      | FWriteComplete :: _ => s1 ← on_net NextFunctor s; writeComplete s1
      | FConnectDestroyed :: _ => s1 ← on_net NextFunctor s; connection s1
      | _ => on_net NextFunctor s
      end
  end.

Fixpoint steps_with (es : list event) (s : t) : outcome t :=
  match es with [] => Ret s | e :: es' => s1 ← step_with e s; steps_with es' s1 end.
End callbacks.

Definition step : event -> t -> outcome t := step_with onConnection onWriteComplete.
Definition steps : list event -> t -> outcome t := steps_with onConnection onWriteComplete.
Definition steps2 : list event -> t -> outcome t := steps_with onConnection2 onWriteComplete2.
End server.

(** An accepted connection; the server has set the write complete callback. *)
Definition accepted_connection (sockfd : Z) : outcome t := w ← accept sockfd true false; Ret (mk w None).

(** ** What the steps of the connection do to its stream and its queue *)

Definition is_complete (f : functor) : bool := match f with FWriteComplete => true | _ => false end.
Definition completes (q : list functor) : nat := length (List.filter is_complete q).

Lemma completes_app q q' : completes (q ++ q') = (completes q + completes q')%nat.
Proof. unfold completes. by rewrite filter_app, length_app. Qed.

(** The functors that effects queue. *)
Definition queued (e : effect) : list functor :=
  match e with Queue f => [f] | CloseCallback => [FConnectDestroyed] | _ => [] end.

Lemma apply_effects_queue eff : forall w w', apply_effects eff w = Ret w' -> queue w' = queue w ++ concat (map queued eff).
Proof.
  induction eff as [|e eff IH]; intros w w' H; cbn [apply_effects map concat] in *; [injection H as <-; by rewrite app_nil_r |].
  apply bind_Ret_inv in H as (w2 & H2 & H). rewrite (IH _ _ H). rewrite app_assoc. f_equal.
  destruct e; cbn [queued] in *; try (injection H2 as <-; cbn [queue]; by rewrite ?app_nil_r).
  unfold removeConnectionInLoop in H2. cbn [inServer] in H2. destruct (inServer w); [|done]. cbn in H2. by injection H2 as <-.
Qed.

Lemma with_conn_inv c eff w w' : with_conn (c, eff) w = Ret w' ->
  conn w' = c /\ accepted w' = accepted w /\ queue w' = queue w ++ concat (map queued eff).
Proof.
  unfold with_conn. intros H. pose proof (apply_effects_frame _ _ _ H) as [E1 E2]. pose proof (apply_effects_queue _ _ _ H) as E3. done.
Qed.

(** What stays the same in a step that neither writes nor closes. *)
Definition same_output (c c' : TcpConnection.t) : Prop :=
  out c' = out c /\ wire c' = wire c /\ shutWrite c' = shutWrite c /\ writeCompleteCallback_ c' = writeCompleteCallback_ c.

Section frames.
Variable sys_write : nat -> bytes -> bool -> write_result.
Hypothesis law : write_law sys_write.

Lemma set_interest_inv f c c' : set_interest f c = Ret c' -> exists v, c' = set_channel v c /\ v_events v = f (v_events (channel_ c)).
Proof.
  unfold set_interest. intros H. apply bind_Ret_inv in H as (v & Hv & [= <-]). exists v. split; [done |].
  unfold update in Hv. destruct (v_status (channel_ c)); try done; by injection Hv as <-.
Qed.

Lemma established_frame w w' : state_ (conn w) = kConnecting -> TcpConnection.step sys_write Established w = Ret w' ->
  same_output (conn w) (conn w') /\ accepted w' = accepted w /\ queue w' = queue w /\ state_ (conn w') = kConnected.
Proof.
  intros Hs H. cbn [TcpConnection.step] in H. rewrite bool_decide_eq_true_2 in H by done.
  apply bind_Ret_inv in H as ([c eff] & Hc & H). unfold connectEstablished in Hc.
  rewrite check_bind in Hc by (by apply bool_decide_eq_true_2). apply bind_Ret_inv in Hc as (c1 & H1 & [= <- <-]).
  apply set_interest_inv in H1 as (v & -> & _). apply with_conn_inv in H as (-> & -> & ->). by rewrite app_nil_r.
Qed.

Lemma handleClose_inv c c' eff : handleClose c = Ret (c', eff) ->
  same_output c c' /\ state_ c' = state_ c /\ eff = [CloseCallback] /\ isWriting c' = false.
Proof.
  unfold handleClose. intros H. apply bind_Ret_inv in H as (? & _ & H). apply bind_Ret_inv in H as (c1 & H1 & [= <- <-]).
  apply set_interest_inv in H1 as (v & -> & Ev). unfold isWriting. cbn [channel_ set_channel]. by rewrite Ev.
Qed.

Lemma readable_frame r w w' : TcpConnection.step sys_write (Readable r) w = Ret w' ->
  same_output (conn w) (conn w') /\ accepted w' = accepted w /\ state_ (conn w') = state_ (conn w) /\
  (queue w' = queue w \/ queue w' = queue w ++ [FConnectDestroyed]) /\ (isWriting (conn w) = false -> isWriting (conn w') = false) /\
  (open_ (conn w') -> open_ (conn w)).
Proof.
  cbn [TcpConnection.step]. destruct (polled _ _) eqn:Hp; [|intros [= <-]; split_and!; by try left].
  assert (Hop : open_ (conn w)) by (unfold open_, polled in *; by destruct (v_status (channel_ (conn w)))).
  intros H. apply bind_Ret_inv in H as ([c eff] & Hc & H). apply with_conn_inv in H as (-> & -> & ->).
  unfold handleRead in Hc. apply bind_Ret_inv in Hc as ([[n e] b] & _ & Hc).
  destruct (0 <? n); [injection Hc as <- <-; cbn [map queued concat]; rewrite app_nil_r; split_and!; by try left |].
  destruct (n =? 0); [|injection Hc as <- <-; cbn [map queued concat app]; rewrite app_nil_r; split_and!; by try left].
  apply handleClose_inv in Hc as (Hso & Hst & -> & Hw). split_and!; try done. by right.
Qed.

Lemma retrieve_frame n w w' : TcpConnection.step sys_write (Retrieve n) w = Ret w' ->
  same_output (conn w) (conn w') /\ accepted w' = accepted w /\ state_ (conn w') = state_ (conn w) /\
  queue w' = queue w /\ channel_ (conn w') = channel_ (conn w).
Proof.
  cbn [TcpConnection.step]. destruct (_ <=? _); [|intros [= <-]; by split_and!].
  intros H. apply bind_Ret_inv in H as (b & _ & H). apply with_conn_inv in H as (-> & -> & ->). cbn [map concat]. rewrite app_nil_r. by split_and!.
Qed.

Lemma destroyed_frame q w w' : queue w = FConnectDestroyed :: q -> TcpConnection.step sys_write NextFunctor w = Ret w' ->
  same_output (conn w) (conn w') /\ accepted w' = accepted w /\ state_ (conn w') = kDisconnected /\ queue w' = q /\
  isWriting (conn w') = false /\ ~ open_ (conn w').
Proof.
  intros Hq. cbn [TcpConnection.step]. rewrite Hq. cbn [run_functor]. intros H. apply bind_Ret_inv in H as ([c eff] & Hc & H).
  apply with_conn_inv in H as (-> & -> & ->). unfold connectDestroyed in Hc. apply bind_Ret_inv in Hc as (? & _ & Hc).
  apply bind_Ret_inv in Hc as (c1 & H1 & Hc). apply bind_Ret_inv in Hc as (v & Hv & [= <- <-]).
  apply set_interest_inv in H1 as (v' & -> & _). cbn [map queued concat queue app]. rewrite app_nil_r.
  unfold removeChannel in Hv. destruct (v_status _); try done. destruct (_ =? 0); [|done]. injection Hv as <-. split_and!; by try discriminate.
Qed.

(** [shutdown] of a connection whose output was written shuts the write side at once. *)
Lemma shutdown_frame w w' : TcpConnection.step sys_write (Shutdown true) w = Ret w' -> isWriting (conn w) = false ->
  out (conn w') = out (conn w) /\ wire (conn w') = wire (conn w) /\ writeCompleteCallback_ (conn w') = writeCompleteCallback_ (conn w) /\
  accepted w' = accepted w /\ queue w' = queue w /\ channel_ (conn w') = channel_ (conn w) /\
  (if bool_decide (state_ (conn w) = kConnected) then shutWrite (conn w') = true /\ state_ (conn w') = kDisconnecting
   else shutWrite (conn w') = shutWrite (conn w) /\ state_ (conn w') = state_ (conn w)).
Proof.
  cbn [TcpConnection.step]. unfold TcpConnection.shutdown, shutdownInLoop. case_bool_decide as Hcon; intros H Hw.
  - apply bind_Ret_inv in H as ([c eff] & Hc & H). apply with_conn_inv in H as (-> & -> & ->).
    change (isWriting (set_state kDisconnecting (conn w))) with (isWriting (conn w)) in Hc. rewrite Hw in Hc. cbn [negb] in Hc.
    rewrite bind_Ret in Hc. injection Hc as <- <-. cbn [map concat]. rewrite app_nil_r. by split_and!.
  - rewrite bind_Ret in H. apply with_conn_inv in H as (-> & -> & ->). cbn [map concat]. rewrite app_nil_r. by split_and!.
Qed.

Lemma writable_frame w w' : inv w -> TcpConnection.step sys_write Writable w = Ret w' ->
  accepted w' = accepted w /\ state_ (conn w') = state_ (conn w) /\ writeCompleteCallback_ (conn w') = writeCompleteCallback_ (conn w) /\
  ((same_output (conn w) (conn w') /\ queue w' = queue w /\ isWriting (conn w') = isWriting (conn w)) \/
   (open_ (conn w) /\ out (conn w) <> [] /\ (state_ (conn w) <> kDisconnecting -> shutWrite (conn w') = shutWrite (conn w)) /\
    exists n, 0 < n <= zlen (out (conn w)) /\ out (conn w') = drop (Z.to_nat n) (out (conn w)) /\
      if bool_decide (out (conn w') = []) then isWriting (conn w') = false /\
        queue w' = queue w ++ (if writeCompleteCallback_ (conn w) then [FWriteComplete] else [])
      else queue w' = queue w)).
Proof using law.
  intros I. pose proof I as [Wi Wo Hstr Hsm Hf Hd Is]. cbn [TcpConnection.step].
  destruct (polled Channel.kWriteEvent (conn w)) eqn:Hp; [|intros [= <-]; split_and!; try done; by left].
  unfold polled in Hp. destruct (v_status (channel_ (conn w))) eqn:Hst; try done.
  assert (Hio : (isWriting (conn w) = true <-> out (conn w) <> []) /\ has (v_events (channel_ (conn w))) Channel.kReadEvent = true).
  { destruct Is as [? E|? ? ? ? ? ? ?|? E|? E]; try congruence. done. }
  destruct Hio as [Hio Hrd]. assert (Hwr : isWriting (conn w) = true) by exact Hp.
  assert (Hne : out (conn w) <> []) by (by apply Hio).
  intros H. apply bind_Ret_inv in H as ([c eff] & Hc & H). apply with_conn_inv in H as (-> & -> & ->). cbn [accepted queue].
  unfold handleWrite in Hc. rewrite Hwr in Hc. rewrite Buffer.readable_ok, Buffer.load_contents, bind_Ret in Hc by done.
  fold (out (conn w)) in Hc. pose proof (do_write_ok sys_write law w (out (conn w))) as Hlaw.
  destruct (do_write sys_write (out (conn w)) w) as [n|e].
  2: { injection Hc as <- <-. cbn [map queued concat]. rewrite app_nil_r. split_and!; try done. by left. }
  cbn [write_ok] in Hlaw. destruct (0 <? n) eqn:E0; bools.
  2: { injection Hc as <- <-. cbn [map queued concat]. rewrite app_nil_r. split_and!; try done. by left. }
  pose proof (Buffer.retrieve_ok n _ Wo Hlaw) as Hret. destruct (Buffer.retrieve n _) as [b|]; [|done].
  cbn [returns] in Hret. destruct Hret as (Wb & Eb & _ & _). rewrite bind_Ret in Hc. fold (out (conn w)) in Eb.
  cbn [outputBuffer_ set_output] in Hc. destruct (Buffer.readableBytes b =? 0) eqn:Ez.
  - apply (readable_zero b Wb) in Ez. apply bind_Ret_inv in Hc as (c2 & H2 & Hc). apply set_interest_inv in H2 as (v & -> & Ev).
    destruct (ev_facts _ Hsm) as (_ & _ & _ & _ & _ & _ & H7 & _). cbn [channel_ set_output] in Ev.
    apply bind_Ret_inv in Hc as (c3 & H3 & Hc). injection Hc as <- <-.
    unfold shutdownInLoop, isWriting in H3. cbn [channel_ set_channel] in H3. rewrite Ev, H7 in H3. cbn [negb] in H3.
    assert (Hc3 : out c3 = [] /\ isWriting c3 = false /\ state_ c3 = state_ (conn w) /\ writeCompleteCallback_ c3 = writeCompleteCallback_ (conn w) /\
      (state_ (conn w) <> kDisconnecting -> shutWrite c3 = shutWrite (conn w))).
    { case_bool_decide; injection H3 as <-; unfold isWriting; cbn [channel_ set_channel set_shut set_output v_events]; rewrite Ev, H7; by split_and!. }
    destruct Hc3 as (Eo & Ew & Es & Ecb & Esh). cbn [writeCompleteCallback_ set_channel set_output]. split_and!; try done.
    right. split_and!; try done. exists n. rewrite Eo, bool_decide_eq_true_2 by done. split_and!; try done; try lia; [congruence |].
    f_equal. by destruct (writeCompleteCallback_ (conn w)).
  - injection Hc as <- <-. cbn [map concat]. rewrite app_nil_r. split_and!; try done. right. split_and!; try done.
    exists n. change (out (set_output b (wire (conn w) ++ take (Z.to_nat n) (out (conn w))) (conn w))) with (Buffer.contents b).
    rewrite bool_decide_eq_false_2; [split_and!; try done; lia|]. intros E. apply (readable_zero b Wb) in E. congruence.
Qed.

Lemma buffer_rest_inv nwrote remaining eff m c c' eff' : buffer_rest nwrote remaining false eff m c = Ret (c', eff') ->
  exists high, eff' = eff ++ high /\ (high = [] \/ exists n, high = [Queue (FHighWaterMark n)]) /\
    writeCompleteCallback_ c' = writeCompleteCallback_ c.
Proof.
  unfold buffer_rest. destruct (_ && (0 <? remaining)).
  - intros H. apply bind_Ret_inv in H as (rest & _ & H). apply bind_Ret_inv in H as (b & _ & H). eexists. destruct (negb _).
    + apply bind_Ret_inv in H as (c3 & H3 & [= <- <-]). apply set_interest_inv in H3 as (v & -> & _).
      split_and!; [reflexivity | | done]. destruct (_ && _); eauto.
    + injection H as <- <-. split_and!; [reflexivity | | done]. destruct (_ && _); eauto.
  - intros [= <- <-]. exists []. by split_and!; [|left|].
Qed.

(** Sending on a connection whose output was written: the message is written whole, or kept in
    part, or given up (and then nobody is told). *)
Lemma send_stream_frame m w w' : inv w -> state_ (conn w) = kConnected -> out (conn w) = [] -> isWriting (conn w) = false ->
  writeCompleteCallback_ (conn w) = true -> v_status (channel_ (conn w)) = Polled \/ v_status (channel_ (conn w)) = Muted ->
  zlen (Buffer.buffer_ (outputBuffer_ (conn w))) + zlen m <= vector_max_size -> TcpConnection.step sys_write (Send true m) w = Ret w' ->
  state_ (conn w') = kConnected /\ writeCompleteCallback_ (conn w') = true /\ shutWrite (conn w') = shutWrite (conn w) /\
  v_status (channel_ (conn w')) = v_status (channel_ (conn w)) /\
  ((accepted w' = accepted w ++ m /\ out (conn w') = [] /\ isWriting (conn w') = false /\ queue w' = queue w ++ [FWriteComplete]) \/
   (accepted w' = accepted w ++ m /\ out (conn w') <> [] /\ zlen (out (conn w')) <= zlen m /\
    (queue w' = queue w \/ exists n, queue w' = queue w ++ [FHighWaterMark n])) \/
   (accepted w' = accepted w /\ out (conn w') = [] /\ queue w' = queue w /\ exists e, do_write sys_write m w = WriteError e)).
Proof using law.
  intros I Hs Ho Hw Hcb Hst Hv H. pose proof I as [Wi Wo Hstr Hsm Hf Hd Is]. pose proof (zlen_nonneg m) as Hm.
  pose proof (zlen_nonneg (Buffer.buffer_ (outputBuffer_ (conn w)))). pose proof (do_write_ok sys_write law w m) as Hlaw.
  cbn [TcpConnection.step] in H. unfold send in H. rewrite bool_decide_eq_true_2 in H by done.
  apply bind_Ret_inv in H as ([c eff] & Hc & H). unfold run_send in H. apply with_conn_inv in H as (-> & -> & ->). cbn [accepted queue].
  assert (Hstat : v_status (channel_ c) = v_status (channel_ (conn w))).
  { assert (Hnd : state_ (conn w) <> kDisconnected) by congruence. pose proof (sendInLoop_ok _ m (conn w) Wo Hlaw Hv Hsm Hst Hnd) as HS.
    rewrite Hc in HS. by destruct HS as (_ & _ & _ & _ & _ & _ & ? & _). }
  unfold sendInLoop in Hc. rewrite bool_decide_eq_false_2 in Hc by congruence. rewrite Hw, (proj2 (readable_zero _ Wo) Ho) in Hc. cbn [negb andb] in Hc.
  (* what is left goes to the buffer *)
  assert (Hkeep : forall n eff0 wire', 0 <= n < zlen m -> gave_up eff0 = false -> quiet eff0 -> concat (map queued eff0) = [] ->
    buffer_rest n (zlen m - n) false eff0 m (set_output (outputBuffer_ (conn w)) wire' (conn w)) = Ret (c, eff) ->
    state_ c = kConnected /\ writeCompleteCallback_ c = true /\ shutWrite c = shutWrite (conn w) /\ gave_up eff = false /\
    out c <> [] /\ zlen (out c) <= zlen m /\ (concat (map queued eff) = [] \/ exists n, concat (map queued eff) = [FHighWaterMark n])).
  { intros n eff0 wire' Hn Hg Hq He HB. pose proof (buffer_rest_inv _ _ _ _ _ _ _ HB) as (high & -> & Hh & Ecb).
    pose proof (buffer_rest_ok n eff0 m (set_output (outputBuffer_ (conn w)) wire' (conn w)) Wo Hv Hsm Hst Hn Hg Hq) as HR.
    rewrite HB in HR. destruct HR as (Hg' & _ & _ & Eo & _ & _ & Es & _ & Esh & _).
    change (out (set_output (outputBuffer_ (conn w)) wire' (conn w))) with (out (conn w)) in Eo. rewrite Ho in Eo. cbn [app] in Eo.
    rewrite Eo, zlen_drop, map_app, concat_app, He. split_and!; try done; try lia.
    - by rewrite Es.
    - by rewrite Ecb.
    - intros E. apply (f_equal zlen) in E. rewrite zlen_drop in E. change (zlen []) with 0 in E. lia.
    - destruct Hh as [->|[k ->]]; [by left | right; by exists k]. }
  destruct (do_write sys_write m w) as [n|e]; cbn [write_ok] in Hlaw; cbv beta iota zeta in Hc.
  - unfold vector_max_size in *. rewrite (u64_id (zlen m - n)) in Hc by lia. rewrite check_bind in Hc by (apply Z.leb_le; lia).
    destruct (Z.eq_dec n (zlen m)) as [->|Hne].
    + rewrite Z.sub_diag, Z.ltb_irrefl, Hcb in Hc. unfold buffer_rest in Hc. cbn in Hc. injection Hc as <- <-. split_and!; try done. by left.
    + rewrite (proj2 (Z.ltb_lt n (zlen m))) in Hc by lia.
      destruct (Hkeep n [] _ ltac:(lia) eq_refl ltac:(constructor) eq_refl Hc) as (H1 & H2 & H3 & H4 & H5 & H6 & H7).
      split_and!; try done. right. left. cbn [snd]. rewrite H4. split_and!; try done.
      destruct H7 as [->|[k ->]]; [left; by rewrite app_nil_r | right; by exists k].
  - rewrite check_bind in Hc by (apply Z.leb_le; lia). rewrite set_output_id in Hc. destruct (negb (e =? EWOULDBLOCK) && _) eqn:Hfe.
    + unfold buffer_rest in Hc. cbn [negb andb] in Hc. injection Hc as <- <-. split_and!; try done. right. right. cbn [snd].
      rewrite gave_up_app, orb_true_r, map_app, concat_app. split_and!; try done; [|by eexists]. destruct (e =? EWOULDBLOCK); by rewrite app_nil_r.
    + destruct m as [|b0 m0].
      * unfold buffer_rest in Hc. cbn [negb andb zlen length Z.of_nat Z.ltb Z.compare] in Hc. injection Hc as <- <-. split_and!; try done.
        right. right. cbn [snd]. rewrite !app_nil_r. destruct (e =? EWOULDBLOCK); cbn; rewrite ?app_nil_r; (split_and!; try done; by eexists).
      * assert (Hpos : 0 < zlen (b0 :: m0)) by (rewrite zlen_cons; pose proof (zlen_nonneg m0); lia).
        rewrite <-(Z.sub_0_r (zlen (b0 :: m0))) in Hc. rewrite <-(set_output_id (conn w)) in Hc.
        destruct (Hkeep 0 (if e =? EWOULDBLOCK then [] else [LogError]) _ ltac:(lia) ltac:(by destruct (e =? EWOULDBLOCK))
          ltac:(destruct (e =? EWOULDBLOCK); by repeat constructor) ltac:(by destruct (e =? EWOULDBLOCK)) Hc) as (H1 & H2 & H3 & H4 & H5 & H6 & H7).
        split_and!; try done. right. left. cbn [snd]. rewrite H4. split_and!; try done.
        destruct H7 as [->|[k ->]]; [left; by rewrite app_nil_r | right; by exists k].
Qed.

End frames.

(** ** The transfer *)
Section transfer.
Variables (sys_write : nat -> bytes -> bool -> write_result) (g_file : option bytes).
Hypothesis law : write_law sys_write.
Abbreviation content := (content g_file).

(** write(2) never fails and takes at least a byte. *)
Definition progress : Prop :=
  (forall k d, d <> [] -> exists n, 0 < n /\ sys_write k d false = Wrote n) /\ (forall k, sys_write k [] false = Wrote 0).

Definition ours (f : functor) : Prop := f = FWriteComplete \/ f = FConnectDestroyed \/ exists n, f = FHighWaterMark n.

(** Where a connection is: not yet up; up without a file; a piece is being written, or was and
    the callback is queued; a piece was given up; or the file is written. *)
Inductive phase (s : t) : Prop :=
| Waiting : state_ (conn (net s)) = kConnecting -> context_ s = None -> accepted (net s) = [] -> shutWrite (conn (net s)) = false -> phase s
| Missing : g_file = None -> state_ (conn (net s)) <> kConnecting -> context_ s = None -> accepted (net s) = [] ->
    out (conn (net s)) = [] -> completes (queue (net s)) = 0%nat ->
    (shutWrite (conn (net s)) = true \/ ~ open_ (conn (net s))) -> phase s
| Sending pos : context_ s = Some (OpenFile pos) -> (pos <= length content)%nat ->
    state_ (conn (net s)) = kConnected \/ (state_ (conn (net s)) = kDisconnected /\ ~ open_ (conn (net s))) -> shutWrite (conn (net s)) = false ->
    accepted (net s) = take pos content ->
    (completes (queue (net s)) = 1%nat /\ out (conn (net s)) = [] /\ isWriting (conn (net s)) = false \/
     completes (queue (net s)) = 0%nat /\ out (conn (net s)) <> []) -> phase s
| Stuck pos k : context_ s = Some (OpenFile pos) -> (k <= pos <= length content)%nat ->
    state_ (conn (net s)) = kConnected \/ (state_ (conn (net s)) = kDisconnected /\ ~ open_ (conn (net s))) -> shutWrite (conn (net s)) = false ->
    accepted (net s) = take k content -> completes (queue (net s)) = 0%nat ->
    (out (conn (net s)) = [] \/ ~ open_ (conn (net s))) -> (open_ (conn (net s)) -> ~ progress) -> phase s
| Finished : context_ s = Some (OpenFile (length content)) -> state_ (conn (net s)) <> kConnecting -> accepted (net s) = content ->
    out (conn (net s)) = [] -> completes (queue (net s)) = 0%nat ->
    (shutWrite (conn (net s)) = true \/ ~ open_ (conn (net s))) -> phase s.

Definition unread (s : t) : Z :=
  match context_ s with Some (OpenFile pos) => zlen content - Z.of_nat pos | _ => zlen content end.

Record state_ok (X : Z) (s : t) : Prop := {
  so_inv : inv (net s);
  so_room : volume (net s) + unread s + X <= vector_max_size;
  so_callback : writeCompleteCallback_ (conn (net s)) = true;
  so_queue : Forall ours (queue (net s));
  so_out : zlen (out (conn (net s))) <= kBufSize;
  so_phase : phase s
}.

(** What is still to do, in units of half a byte. *)
Definition measure (s : t) : nat := length (queue (net s)) + 2 * length (out (conn (net s))) + 3 * Z.to_nat (unread s).

Lemma on_net_ok e s : inv (net s) -> event_ok e -> volume (net s) + cost e <= vector_max_size ->
  exists w, on_net sys_write e s = Ret (mk w (context_ s)) /\ TcpConnection.step sys_write e (net s) = Ret w /\ inv w /\
    volume w <= volume (net s) + cost e.
Proof using law.
  intros I He Hv. pose proof (step_ok sys_write law (net s) e I He Hv) as H. unfold on_net.
  destruct (TcpConnection.step sys_write e (net s)) as [w|]; [|done]. destruct H as [I' Hv']. rewrite bind_Ret. by exists w.
Qed.

Lemma inv_mark s : inv (net s) -> inv (net (set_mark s)) /\ volume (net (set_mark s)) = volume (net s).
Proof. intros [? ? ? ? ? ? Is]. split; [|done]. split; try done. destruct Is; by econstructor. Qed.

Lemma phase_same s s' : phase s -> context_ s' = context_ s -> state_ (conn (net s')) = state_ (conn (net s)) ->
  shutWrite (conn (net s')) = shutWrite (conn (net s)) -> accepted (net s') = accepted (net s) ->
  completes (queue (net s')) = completes (queue (net s)) -> out (conn (net s')) = out (conn (net s)) ->
  (isWriting (conn (net s)) = false -> isWriting (conn (net s')) = false) -> (open_ (conn (net s')) -> open_ (conn (net s))) -> phase s'.
Proof.
  intros P E1 E2 E3 E4 E5 E6 E7 E8.
  destruct P as [H1 H2 H3 H4|H1 H2 H3 H4 H5 H6 H7|pos H1 H2 H3 H4 H5 H6|pos k H1 H2 H3 H4 H5 H6 H7 H8|H1 H2 H3 H4 H5 H6];
    [apply Waiting|apply Missing|apply (Sending _ pos)|apply (Stuck _ pos k)|apply Finished]; rewrite ?E1, ?E2, ?E3, ?E4, ?E5, ?E6; try done; try tauto.
Qed.
Definition piece (pos : nat) : bytes := take (Z.to_nat kBufSize) (drop pos content).

Lemma piece_length pos : (pos <= length content)%nat -> (pos + length (piece pos) <= length content)%nat /\
  zlen (piece pos) <= kBufSize /\ take pos content ++ piece pos = take (pos + length (piece pos)) content.
Proof.
  intros Hp. unfold piece, zlen. rewrite length_take, length_drop. pose proof kBufSize_pos. split_and!; try lia.
  rewrite take_take_drop. destruct (Nat.le_gt_cases (Z.to_nat kBufSize) (length content - pos)); [by rewrite Nat.min_l |].
  rewrite !take_ge by lia. done.
Qed.

(** The next piece goes to a connection with nothing left to write. *)
Lemma send_piece X pos s : inv (net s) -> volume (net s) + (zlen content - Z.of_nat pos) + X <= vector_max_size -> 0 <= X ->
  writeCompleteCallback_ (conn (net s)) = true -> Forall ours (queue (net s)) -> completes (queue (net s)) = 0%nat ->
  state_ (conn (net s)) = kConnected -> shutWrite (conn (net s)) = false -> out (conn (net s)) = [] -> isWriting (conn (net s)) = false ->
  (pos <= length content)%nat -> accepted (net s) = take pos content -> context_ s = Some (OpenFile (pos + length (piece pos))) ->
  returns (on_net sys_write (Send true (piece pos)) s) (fun s' => state_ok X s' /\ (open_ (conn (net s)) -> open_ (conn (net s'))) /\
    (measure s' + length (piece pos) <= length (queue (net s)) + 3 * (length content - pos) + 1)%nat).
Proof using law.
  intros I Hv HX Hcb Hq Hc Hs Hsh Ho Hw Hp Ha Hctx. destruct (piece_length pos Hp) as (Hl1 & Hl2 & Hl3). pose proof (zlen_nonneg (piece pos)).
  assert (Hz : zlen content = Z.of_nat (length content)) by done. assert (Hz' : zlen (piece pos) = Z.of_nat (length (piece pos))) by done.
  destruct (on_net_ok (Send true (piece pos)) s I Logic.I ltac:(cbn [cost]; lia)) as (w & E & Ew & I' & Hv'). rewrite E. cbn [returns cost] in *.
  destruct (volume_parts (net s)) as (_ & _ & Hvo).
  assert (Hst : v_status (channel_ (conn (net s))) = Polled \/ v_status (channel_ (conn (net s))) = Muted).
  { destruct (i_stage _ I) as [E'| |? E'|E']; [congruence | by left | by right | congruence]. }
  destruct (send_stream_frame sys_write law (piece pos) (net s) w I Hs Ho Hw Hcb Hst ltac:(lia) Ew) as (F1 & F2 & F3 & Fst & F4).
  assert (Hun : unread (mk w (context_ s)) = zlen content - Z.of_nat pos - zlen (piece pos)) by (unfold unread; cbn [context_]; rewrite Hctx; lia).
  assert (Hopen : open_ (conn (net s)) -> open_ (conn w)) by (unfold open_; by rewrite Fst).
  cut (state_ok X (mk w (context_ s)) /\ (length (queue w) + 2 * length (out (conn w)) <= length (queue (net s)) + 1 + 2 * length (piece pos))%nat).
  { intros [HS HL]. split_and!; [exact HS | exact Hopen |]. unfold measure. cbn [net]. rewrite Hun. unfold zlen in *. lia. }
  destruct F4 as [(A1 & A2 & A3 & A4)|[(A1 & A2 & A3 & A4)|(A1 & A2 & A3 & e & A4)]]; split; rewrite ?A2, ?A3, ?A4, ?length_app; cbn [length]; try lia.
  - split; cbn [net]; try done; [lia | rewrite A4; apply Forall_app; split; [done |]; constructor; [by left|constructor] | rewrite A2; apply Z.lt_le_incl, kBufSize_pos |].
    apply (Sending _ (pos + length (piece pos))); cbn [net context_]; try done; [by left | by rewrite F3 | by rewrite A1, Ha, Hl3 |].
    left. rewrite A4, completes_app, Hc. done.
  - split; cbn [net]; try done; [lia | | lia |].
    { destruct A4 as [->|[n ->]]; [done|]. apply Forall_app; split; [done|]. constructor; [|constructor]. right. right. by exists n. }
    apply (Sending _ (pos + length (piece pos))); cbn [net context_]; try done; [by left | by rewrite F3 | by rewrite A1, Ha, Hl3 |].
    right. split; [|done]. destruct A4 as [->|[n ->]]; [done|]. by rewrite completes_app, Hc.
  - unfold zlen in A3. destruct A4 as [->|[n ->]]; rewrite ?length_app; cbn [length]; lia.
  - split; cbn [net]; try done; [lia | by rewrite A3 | rewrite A2; apply Z.lt_le_incl, kBufSize_pos |].
    apply (Stuck _ (pos + length (piece pos)) pos); cbn [net context_]; try done; [lia | by left | by rewrite F3 | by rewrite A1, Ha | by rewrite A3 | by left |].
    intros _ [Hp1 Hp2]. unfold do_write in A4. rewrite Hsh in A4. destruct (piece pos) as [|b l] eqn:Epc.
    + by rewrite Hp2 in A4.
    + destruct (Hp1 (nwrites (net s)) (b :: l)) as (n & _ & En); [done|]. congruence.
Qed.
Lemma kept X s w : state_ok X s -> inv w -> volume w + unread s + X <= vector_max_size -> writeCompleteCallback_ (conn w) = true ->
  Forall ours (queue w) -> zlen (out (conn w)) <= kBufSize -> phase (mk w (context_ s)) -> state_ok X (mk w (context_ s)).
Proof. intros [] ? ? ? ? ? ?. by split. Qed.

Lemma unread_nonneg s : phase s -> 0 <= unread s.
Proof.
  pose proof (zlen_nonneg content). intros P. unfold unread, zlen in *.
  destruct P as [? E|? ? E|pos E ? | pos k E ?|E]; rewrite E; lia.
Qed.

(** A file that has been read to its end is written, and the write side is shut. *)
Lemma finish X s : inv (net s) -> volume (net s) + X <= vector_max_size -> 0 <= X ->
  writeCompleteCallback_ (conn (net s)) = true -> Forall ours (queue (net s)) -> completes (queue (net s)) = 0%nat ->
  state_ (conn (net s)) = kConnected \/ (state_ (conn (net s)) = kDisconnected /\ ~ open_ (conn (net s))) ->
  out (conn (net s)) = [] -> isWriting (conn (net s)) = false ->
  accepted (net s) = content -> context_ s = Some (OpenFile (length content)) ->
  returns (on_net sys_write (Shutdown true) s) (fun s' => state_ok X s' /\ (open_ (conn (net s)) -> open_ (conn (net s')) /\ shutWrite (conn (net s')) = true)).
Proof using law.
  intros I Hv HX Hcb Hq Hc Hs Ho Hw Ha Hctx.
  destruct (on_net_ok (Shutdown true) s I Logic.I ltac:(cbn [cost]; lia)) as (w & E & Ew & I' & Hv'). rewrite E. cbn [returns cost] in *.
  destruct (shutdown_frame sys_write _ _ Ew Hw) as (F1 & F2 & F3 & F4 & F5 & F0 & F6).
  assert (Hun : unread (mk w (context_ s)) = 0) by (unfold unread; cbn [context_]; rewrite Hctx; unfold zlen; lia).
  split.
  2:{ unfold open_. rewrite <-F0. intros Hop. split; [done |]. destruct Hs as [Hs|[_ Hn]]; [|by rewrite F0 in Hop].
      rewrite bool_decide_eq_true_2 in F6 by done. by destruct F6. }
  split; cbn [net]; try done; [lia | by rewrite F3 | by rewrite F5 | rewrite F1, Ho; apply Z.lt_le_incl, kBufSize_pos |].
  apply Finished; cbn [net context_]; try done; [| by rewrite F4 | by rewrite F1 | by rewrite F5 |].
  - destruct Hs as [Hs|[Hs _]]; rewrite Hs in F6; [rewrite bool_decide_eq_true_2 in F6 by done | rewrite bool_decide_eq_false_2 in F6 by done];
      destruct F6 as [_ ->]; done.
  - destruct Hs as [Hs|[Hs Hn]]; rewrite Hs in F6; [rewrite bool_decide_eq_true_2 in F6 by done; left; by destruct F6 |].
    right. unfold open_. by rewrite F0.
Qed.

Lemma complete_step X s q : state_ok X s -> 0 <= X -> queue (net s) = FWriteComplete :: q ->
  returns (s1 ← on_net sys_write NextFunctor s; onWriteComplete sys_write g_file s1) (fun s' => state_ok X s' /\
    (open_ (conn (net s)) -> open_ (conn (net s')) /\ (shutWrite (conn (net s')) = true \/ (measure s' < measure s)%nat))).
Proof using law.
  intros [I Hv Hcb Hq Ho P] HX Eq. pose proof (unread_nonneg s P).
  destruct (on_net_ok NextFunctor s I Logic.I ltac:(cbn [cost]; lia)) as (w & E & Ew & I' & Hv'). rewrite E, bind_Ret.
  cbn [TcpConnection.step] in Ew. rewrite Eq in Ew. cbn [run_functor] in Ew. injection Ew as <-.
  assert (Hc : completes (FWriteComplete :: q) = S (completes q)) by done.
  destruct P as [H1 H2 H3 H4|H1 H2 H3 H4 H5 H6 H7|pos H1 H2 H3 H4 H5 H6|pos k H1 H2 H3 H4 H5 H6 H7 H8|H1 H2 H3 H4 H5 H6]; rewrite ?Eq in *; try congruence.
  { destruct (i_stage _ I) as [? ? ? ? ? ? E'|Ha|Ha|E']; [congruence | unfold alive in Ha; by rewrite H1 in Ha .. | congruence]. }
  destruct H6 as [(H6 & H7 & H8)|[H6 _]]; [|congruence]. assert (Hq0 : completes q = 0%nat) by congruence.
  unfold onWriteComplete. cbn [context_]. rewrite H1. cbn [fread]. fold (piece pos). rewrite bind_Ret.
  assert (Hq' : Forall ours q) by (by inversion Hq). unfold unread in Hv. rewrite H1 in Hv.
  destruct (piece_length pos H2) as (Hl1 & Hl2 & Hl3). destruct (0 <? zlen (piece pos)) eqn:Ez; bools.
  - destruct H3 as [H3|[H3 Hn]].
    + eapply returns_mono; [|apply (send_piece X pos); cbn [net context_ conn queue accepted]; try done; cbn [cost] in Hv'; lia].
      intros s' (HS & Hop & HM). split; [done |]. intros Hopen. split; [by apply Hop | right]. cbn [net queue] in HM.
      unfold measure at 2. unfold unread. rewrite H1, Eq. cbn [length]. unfold zlen in *. lia.
    + unfold on_net. cbn [TcpConnection.step net conn]. rewrite bool_decide_eq_false_2, bind_Ret by congruence. cbn [returns].
      split; [|done]. split; cbn [net conn queue]; try done; [unfold unread; cbn [context_ cost] in *; unfold zlen in *; lia |].
      apply (Stuck _ (pos + length (piece pos)) pos); cbn [net conn queue accepted context_]; try done; [lia | by right | by right].
  - assert (Hp : piece pos = []) by (apply zlen_nil_inv; pose proof (zlen_nonneg (piece pos)); lia).
    assert (Hpos : pos = length content).
    { unfold piece in Hp. apply (f_equal length) in Hp. rewrite length_take, length_drop in Hp. pose proof kBufSize_pos. cbn in Hp. lia. }
    rewrite Hp. cbn [length]. rewrite Nat.add_0_r, Hpos.
    eapply returns_mono; [|apply (finish X); cbn [net context_ conn queue accepted]; try done; [cbn [cost] in Hv'; unfold zlen in *; lia |]].
    + intros s' [HS Hop]. split; [done |]. intros H0. destruct (Hop H0). split; [done | by left].
    + rewrite H5, Hpos. apply take_ge. done.
Qed.
Lemma established_up X s : state_ok X s -> 0 <= X -> state_ (conn (net s)) = kConnecting ->
  returns (s1 ← on_net sys_write Established s; onConnection sys_write g_file s1) (state_ok X).
Proof using law.
  intros [I Hv Hcb Hq Ho P] HX Hs. pose proof (unread_nonneg s P).
  destruct (on_net_ok Established s I Logic.I ltac:(cbn [cost]; lia)) as (w & E & Ew & I' & Hv'). rewrite E, bind_Ret.
  destruct (established_frame sys_write _ _ Hs Ew) as ((F1 & F2 & F3 & F4) & F5 & F6 & F7).
  assert (Hw : context_ s = None /\ accepted (net s) = [] /\ shutWrite (conn (net s)) = false).
  { destruct P as [|? ?|pos ? ? [?|[? _]]|pos k ? ? [?|[? _]]|? ?]; try congruence. done. }
  destruct Hw as (Hctx & Ha & Hsh). assert (Hstage : out (conn (net s)) = [] /\ queue (net s) = []).
  { destruct (i_stage _ I) as [? ? ? ? ? ? E'|Ha'|Ha'|E']; [done | unfold alive in Ha'; by rewrite Hs in Ha' .. | congruence]. }
  destruct Hstage as [Eo Eq]. unfold unread in Hv. rewrite Hctx in Hv. cbn [cost] in Hv'.
  set (s1 := mk w (context_ s)). destruct (inv_mark s1 I') as [Im Hm].
  assert (Hwr : isWriting (conn (net (set_mark s1))) = false).
  { destruct (isWriting _) eqn:Ewr; [|done].
    destruct (i_stage _ Im) as [E'|_ _ _ Hio _ _ _|_ E' _ Hd|E']; try change (state_ (conn w) = kConnecting) in E'; try change (state_ (conn w) = kDisconnected) in E'; try congruence.
    - apply Hio in Ewr. destruct Ewr. change (out (conn w) = []). congruence.
    - change (destroys (queue w) = 1%nat) in Hd. rewrite F6, Eq in Hd. done. }
  unfold onConnection. unfold connected. cbn [net s1]. rewrite bool_decide_eq_true_2 by done. fold s1. destruct g_file as [f|] eqn:Ef.
  - rewrite <-Ef in Hv |- *. cbn [fread]. rewrite bind_Ret. fold (piece 0). replace (0 + length (piece 0))%nat with (length (piece 0)) by lia.
    eapply returns_mono; [|apply (send_piece X 0); cbn [net context_]; try done]; [by intros s' [? _] |..].
    + rewrite Hm. cbn [net s1]. change (Z.of_nat 0) with 0. lia.
    + change (writeCompleteCallback_ (conn w) = true). congruence.
    + change (Forall ours (queue w)). rewrite F6, Eq. constructor.
    + change (completes (queue w) = 0%nat). by rewrite F6, Eq.
    + change (shutWrite (conn w) = false). congruence.
    + change (out (conn w) = []). congruence.
    + lia.
    + change (accepted w = take 0 content). by rewrite F5, Ha.
  - pose proof (zlen_nonneg (FileServer.content None)).
    destruct (on_net_ok (Shutdown true) (set_mark s1) Im Logic.I ltac:(cbn [cost]; rewrite Hm; cbn [net s1]; lia)) as (w2 & E2 & Ew2 & I2 & Hv2).
    rewrite E2. cbn [returns cost] in *. destruct (shutdown_frame sys_write _ _ Ew2 Hwr) as (G1 & G2 & G3 & G4 & G5 & G0 & G6).
    cbn [net set_mark s1 conn queue accepted context_] in *.
    change (out (setHighWaterMarkCallback (kBufSize + 1) (conn w))) with (out (conn w)) in G1.
    rewrite bool_decide_eq_true_2 in G6 by done. destruct G6 as [G6 G7].
    split; cbn [net]; try done.
    + unfold unread. cbn [context_]. rewrite Hctx, Ef. rewrite Hm in Hv2. rewrite ?Ef in Hv. lia.
    + rewrite G3. cbn. congruence.
    + rewrite G5, F6, Eq. constructor.
    + rewrite G1, F1, Eo. apply Z.lt_le_incl, kBufSize_pos.
    + apply Missing; cbn [net context_]; try done; [congruence | congruence | congruence | by rewrite G5, F6, Eq | by left].
Qed.

Lemma input_step X r s : state_ok (cost (Readable r) + X) s -> 0 <= X ->
  returns (s1 ← on_net sys_write (Readable r) s;
           on_net sys_write (Retrieve (Buffer.readableBytes (inputBuffer_ (conn (net s1))))) s1) (state_ok X).
Proof using law.
  intros H HX. pose proof H as [I Hv Hcb Hq Ho P]. pose proof (unread_nonneg s P). pose proof (cost_nonneg (Readable r)).
  destruct (on_net_ok (Readable r) s I Logic.I ltac:(lia)) as (w & E & Ew & I' & Hv'). rewrite E, bind_Ret. cbn [net].
  destruct (readable_frame sys_write _ _ _ Ew) as ((F1 & F2 & F3 & F4) & F5 & F6 & F7 & F8 & F9).
  assert (Hr : 0 <= Buffer.readableBytes (inputBuffer_ (conn w))) by (rewrite Buffer.readable_contents by apply (i_in _ I'); apply zlen_nonneg).
  destruct (on_net_ok (Retrieve (Buffer.readableBytes (inputBuffer_ (conn w)))) (mk w (context_ s)) I' Hr ltac:(cbn [cost net]; lia)) as (w2 & E2 & Ew2 & I2 & Hv2).
  rewrite E2. cbn [returns net context_] in *. destruct (retrieve_frame sys_write _ _ _ Ew2) as ((G1 & G2 & G3 & G4) & G5 & G6 & G7 & G8).
  assert (Hun : unread (mk w2 (context_ s)) = unread s) by done. cbn [cost] in Hv2.
  split; cbn [net]; try done.
  - lia.
  - congruence.
  - rewrite G7. destruct F7 as [->| ->]; [done|]. apply Forall_app. split; [done|]. constructor; [right; by left|constructor].
  - by rewrite G1, F1.
  - apply (phase_same s); cbn [net context_]; try done; try congruence.
    + rewrite G7. destruct F7 as [->| ->]; [done|]. rewrite completes_app. cbn. lia.
    + unfold isWriting in *. rewrite G8. done.
    + unfold open_ in *. rewrite G8. done.
Qed.

Lemma output_step X s : state_ok X s -> 0 <= X -> returns (on_net sys_write Writable s) (state_ok X).
Proof using law.
  intros H HX. pose proof H as [I Hv Hcb Hq Ho P]. pose proof (unread_nonneg s P).
  destruct (on_net_ok Writable s I Logic.I ltac:(cbn [cost]; lia)) as (w & E & Ew & I' & Hv'). rewrite E. cbn [returns cost] in *.
  assert (Hopen : open_ (conn w) -> open_ (conn (net s))).
  { intros Hop. cbn [TcpConnection.step] in Ew. destruct (polled _ _) eqn:Ep; [|by injection Ew as <-]. unfold polled, open_ in *. by destruct (v_status (channel_ (conn (net s)))). }
  destruct (writable_frame sys_write law _ _ I Ew) as (F1 & F2 & F3 & [((G1 & G2 & G3 & G4) & G5 & G6)|(Hop & Hne & G1 & n & Hn & G2 & G3)]).
  - apply kept; try done; [lia | congruence | by rewrite G5 | by rewrite G1 |].
    apply (phase_same s); cbn [net context_]; try done; [by rewrite G5 | congruence].
  - assert (Hcase : exists pos, context_ s = Some (OpenFile pos) /\ (pos <= length content)%nat /\ state_ (conn (net s)) = kConnected /\
      shutWrite (conn (net s)) = false /\ accepted (net s) = take pos content /\ completes (queue (net s)) = 0%nat).
    { destruct P as [H1 H2 H3 H4|H1 H2 H3 H4 H5 H6 H7|pos H1 H2 H3 H4 H5 H6|pos k H1 H2 H3 H4 H5 H6 H7 H8|H1 H2 H3 H4 H5 H6]; try done.
      - exfalso. destruct (i_stage _ I) as [? ? ? E'|Ha|Ha|E']; [done | unfold alive in Ha; by rewrite H1 in Ha .. | congruence].
      - destruct H6 as [(_ & H6 & _)|[H6 _]]; [done|]. destruct H3 as [H3|[_ H3]]; [|done]. by exists pos.
      - by destruct H7. }
    destruct Hcase as (pos & C1 & C2 & C3 & C4 & C5 & C6). apply kept; try done; [lia | congruence | | rewrite G2, zlen_drop; lia |].
    { case_bool_decide; [|by rewrite G3]. destruct G3 as [_ ->]. rewrite Hcb. apply Forall_app. split; [done|]. constructor; [by left|constructor]. }
    apply (Sending _ pos); cbn [net context_]; try done; [left; congruence | rewrite G1 by congruence; done | congruence |].
    case_bool_decide; [left | right; by rewrite G3]. destruct G3 as [G3 ->]. rewrite Hcb, completes_app, C6. done.
Qed.

Lemma functor_ok X s : state_ok X s -> 0 <= X -> returns (step sys_write g_file Functor s) (state_ok X).
Proof using law.
  intros H HX. pose proof H as [I Hv Hcb Hq Ho P]. pose proof (unread_nonneg s P). unfold step, step_with.
  destruct (queue (net s)) as [|f q] eqn:Eq.
  { unfold on_net. cbn [TcpConnection.step]. rewrite Eq, bind_Ret. cbn [returns]. by destruct s. }
  assert (Hours : ours f /\ Forall ours q) by (by inversion Hq). destruct Hours as [[->|[->|[n ->]]] Hq'].
  - eapply returns_mono; [|by apply (complete_step X s q)]. by intros s' [? _].
  - destruct (on_net_ok NextFunctor s I Logic.I ltac:(cbn [cost]; lia)) as (w & E & Ew & I' & Hv'). rewrite E, bind_Ret. cbn [cost] in *.
    destruct (destroyed_frame sys_write q _ _ Eq Ew) as ((F1 & F2 & F3 & F4) & F5 & F6 & F7 & F8 & F9).
    unfold onConnection, connected. cbn [net]. rewrite bool_decide_eq_false_2 by congruence. cbn [returns].
    assert (Hc : completes (queue w) = completes (queue (net s))) by (by rewrite F7, Eq).
    apply kept; try done; [lia | congruence | by rewrite F7 | by rewrite F1 |].
    destruct P as [H1 H2 H3 H4|H1 H2 H3 H4 H5 H6 H7|pos H1 H2 H3 H4 H5 H6|pos k H1 H2 H3 H4 H5 H6 H7 H8|H1 H2 H3 H4 H5 H6].
    + exfalso. destruct (i_stage _ I) as [? ? ? ? ? ? E'|Ha|Ha|E']; [congruence | unfold alive in Ha; by rewrite H1 in Ha .. | congruence].
    + apply Missing; cbn [net context_]; try done; try congruence. by right.
    + apply (Sending _ pos); cbn [net context_]; try done; try congruence; [by right |]. rewrite Hc, F1. tauto.
    + apply (Stuck _ pos k); cbn [net context_]; try done; try congruence; by right.
    + apply Finished; cbn [net context_]; try done; try congruence. by right.
  - destruct (on_net_ok NextFunctor s I Logic.I ltac:(cbn [cost]; lia)) as (w & E & Ew & I' & Hv'). rewrite E. cbn [returns cost] in *.
    cbn [TcpConnection.step] in Ew. rewrite Eq in Ew. cbn [run_functor] in Ew. injection Ew as <-.
    apply kept; try done; [lia |]. apply (phase_same s); cbn [net context_ conn queue]; try done. by rewrite Eq.
Qed.
Lemma event_ok_step X e s : state_ok (match e with Input r => cost (Readable r) | _ => 0 end + X) s -> 0 <= X ->
  returns (step sys_write g_file e s) (state_ok X).
Proof using law.
  intros H HX. destruct e; cbn [step step_with].
  - case_bool_decide; [by apply established_up | done].
  - by apply input_step.
  - by apply output_step.
  - by apply functor_ok.
Qed.

(** A shut write side means that the whole file was written. *)
Lemma shut_complete X s : state_ok X s -> shutWrite (conn (net s)) = true -> wire (conn (net s)) = content.
Proof.
  intros [I _ _ _ _ P] Hs. pose proof (i_stream _ I) as Hst. destruct P; try congruence.
  - rewrite H3, app_nil_r, H2 in Hst. rewrite Hst. unfold FileServer.content. by rewrite H.
  - by rewrite H2, app_nil_r, H1 in Hst.
Qed.

(** ** Progress *)
Lemma output_progress X s : state_ok X s -> 0 <= X -> progress -> open_ (conn (net s)) ->
  returns (on_net sys_write Writable s) (fun s' => state_ok X s' /\ open_ (conn (net s')) /\ (measure s' <= measure s)%nat /\
    (out (conn (net s)) <> [] -> (measure s' < measure s)%nat) /\ (out (conn (net s)) = [] -> s' = s)).
Proof using law.
  intros H HX [Hp _] Hop. pose proof H as [I Hv Hcb Hq Ho P]. pose proof (unread_nonneg s P).
  pose proof (output_step X s H HX) as HS. unfold on_net in *. destruct (out (conn (net s))) as [|b o] eqn:Eo.
  - assert (Hw : polled Channel.kWriteEvent (conn (net s)) = false).
    { unfold polled. unfold open_ in Hop. destruct (i_stage _ I) as [? E'|_ _ _ Hio _ _ _|_ E'|_ E']; try congruence. rewrite Hop.
      fold (isWriting (conn (net s))). destruct (isWriting (conn (net s))); [|done]. by destruct (proj1 Hio eq_refl). }
    cbn [TcpConnection.step] in *. rewrite Hw in *. cbn [mbind outcome_bind returns] in *. split_and!; try done. by destruct s.
  - assert (Hne : out (conn (net s)) <> []) by (by rewrite Eo).
    pose proof (writable_progress sys_write law (net s) I Hop Hne ltac:(lia) Hp) as HW.
    pose proof (writable_frame sys_write law (net s)) as HF.
    destruct (TcpConnection.step sys_write Writable (net s)) as [w|]; [|done]. destruct HW as (_ & _ & Hop' & Hlt & _). rewrite bind_Ret in *.
    cbn [returns] in *. destruct (HF w I eq_refl) as (_ & _ & _ & HQ).
    assert (HL : (length (queue w) <= length (queue (net s)) + 1)%nat).
    { destruct HQ as [(_ & -> & _)|(_ & _ & _ & n & _ & _ & HQ)]; [lia|]. case_bool_decide; [destruct HQ as [_ ->] | rewrite HQ; lia].
      rewrite length_app. destruct (writeCompleteCallback_ _); cbn; lia. }
    assert (HM : (measure (mk w (context_ s)) < measure s)%nat).
    { unfold measure, unread. cbn [net context_]. lia. }
    split_and!; try done; lia.
Qed.

Lemma functor_progress X s : state_ok X s -> 0 <= X -> open_ (conn (net s)) ->
  returns (step sys_write g_file Functor s) (fun s' => state_ok X s' /\ open_ (conn (net s')) /\
    (shutWrite (conn (net s')) = true \/ (measure s' <= measure s)%nat /\ (queue (net s) <> [] -> (measure s' < measure s)%nat))).
Proof using law.
  intros H HX Hop. pose proof H as [I Hv Hcb Hq Ho P]. pose proof (unread_nonneg s P). pose proof (functor_ok X s H HX) as HS.
  unfold step, step_with in *. destruct (queue (net s)) as [|f q] eqn:Eq.
  { unfold on_net in *. cbn [TcpConnection.step] in *. rewrite Eq in *. cbn [mbind outcome_bind returns] in *. split_and!; try done. right. split; [|done].
    destruct s. cbn. done. }
  assert (Hf : ours f) by (by inversion Hq). destruct Hf as [->|[->|[n ->]]].
  - eapply returns_mono; [|by apply (complete_step X s q)]. intros s' [HS' HM]. destruct (HM Hop) as [Hop' Hlt]. split_and!; try done.
    destruct Hlt as [?|?]; [by left | right; split; lia].
  - exfalso. unfold open_ in Hop. destruct (i_stage _ I) as [? E'|_ _ _ _ _ _ Hd|_ E'|_ E']; try congruence. by rewrite Eq in Hd.
  - unfold on_net in *. cbn [TcpConnection.step] in *. rewrite Eq in *. cbn [run_functor mbind outcome_bind returns] in *. split_and!; try done.
    right. unfold measure, unread. cbn [net context_ conn queue]. rewrite Eq. cbn [length]. split; lia.
Qed.

Definition round : list event := [Output; Functor].

Lemma round_progress X s : state_ok X s -> 0 <= X -> progress -> open_ (conn (net s)) -> shutWrite (conn (net s)) = false ->
  returns (steps sys_write g_file round s) (fun s' => state_ok X s' /\ open_ (conn (net s')) /\
    (shutWrite (conn (net s')) = true \/ (measure s' < measure s)%nat)).
Proof using law.
  intros H HX HP Hop Hsh. unfold steps, round. cbn [steps_with step_with].
  eapply returns_seq; [by apply (output_progress X s) |]. intros s1 (H1 & Hop1 & HM1 & Hlt1 & Heq1).
  eapply returns_seq; [by apply (functor_progress X s1) |]. intros s2 (H2 & Hop2 & HM2). cbn [returns]. split_and!; try done.
  destruct HM2 as [?|[HM2 Hlt2]]; [by left | right].
  destruct (so_phase _ _ H) as [E1 _ _ _|? ? ? ? ? ? E|pos E1 E2 E3 E4 E5 E6|pos k E1 E2 E3 E4 E5 E6 E7 E8|? ? ? ? ? E].
  - exfalso. unfold open_ in Hop. destruct (i_stage _ (so_inv _ _ H)) as [? E'|Ha|Ha|E']; try congruence; unfold alive in Ha; by rewrite E1 in Ha.
  - destruct E; [congruence | done].
  - destruct E6 as [(E6 & E7 & _)|[_ E6]].
    + specialize (Heq1 E7). subst s1. apply Hlt2. intros E0. by rewrite E0 in E6.
    + specialize (Hlt1 E6). lia.
  - by destruct (E8 Hop).
  - destruct E; [congruence | done].
Qed.

Lemma file_steps_app es1 es2 s : steps sys_write g_file (es1 ++ es2) s = (s1 ← steps sys_write g_file es1 s; steps sys_write g_file es2 s1).
Proof. revert s. induction es1 as [|e es1 IH]; intros s; [done |]. unfold steps in *. cbn [steps_with app]. destruct (step_with _ _ _ e s); [apply IH | done]. Qed.

Lemma rounds_finish X : progress -> 0 <= X -> forall m s, (measure s < m)%nat -> state_ok X s -> open_ (conn (net s)) ->
  exists n, returns (steps sys_write g_file (concat (repeat round n)) s) (fun s' => shutWrite (conn (net s')) = true /\ wire (conn (net s')) = content).
Proof using law.
  intros HP HX. induction m as [|m IH]; intros s Hm H Hop; [lia |].
  destruct (shutWrite (conn (net s))) eqn:Hsh; [exists 0%nat; cbn; split; [done | by eapply shut_complete] |].
  pose proof (round_progress X s H HX HP Hop Hsh) as HR. destruct (steps sys_write g_file round s) as [s1|] eqn:E1; [|done].
  destruct HR as (H1 & Hop1 & [Hs1|Hlt]).
  - exists 1%nat. cbn [repeat concat]. rewrite app_nil_r, E1. cbn [returns]. split; [done | by eapply shut_complete].
  - destruct (IH s1 ltac:(lia) H1 Hop1) as (n & Hn). exists (S n). cbn [repeat concat]. by rewrite file_steps_app, E1, bind_Ret.
Qed.
End transfer.

Definition total_input (es : list event) : Z :=
  fold_right (fun e n => match e with Input r => cost (Readable r) | _ => 0 end + n) 0 es.

Lemma total_input_nonneg es : 0 <= total_input es.
Proof.
  induction es as [|e es IH]; [done |]. cbn [total_input fold_right]. fold (total_input es).
  destruct e as [|r| |]; [lia | pose proof (cost_nonneg (Readable r)); lia | lia | lia].
Qed.

Lemma steps_state sys_write g_file es : write_law sys_write -> forall s, state_ok sys_write g_file (total_input es) s ->
  returns (steps sys_write g_file es s) (state_ok sys_write g_file 0).
Proof.
  intros law. induction es as [|e es IH]; intros s H; [done |]. cbn [total_input fold_right] in H. fold (total_input es) in H.
  unfold steps. cbn [steps_with]. eapply returns_seq; [apply (event_ok_step sys_write g_file law _ e s H (total_input_nonneg es)) |].
  intros s1 H1. by apply IH.
Qed.

Lemma accepted_state sys_write g_file sockfd X : fresh_volume + zlen (content g_file) + X <= vector_max_size ->
  returns (accepted_connection sockfd) (state_ok sys_write g_file X).
Proof.
  intros Hv. unfold accepted_connection. pose proof (accept_ok sockfd true false) as HA. pose proof Buffer.Buffer_ok as HB.
  unfold accept, TcpConnection in *. destruct Buffer.Buffer as [b|]; [|done]. rewrite !bind_Ret in *. cbn [returns] in *. destruct HA as [I Hvol]. destruct HB as [_ Ec _ _ _].
  split; cbn [net conn queue writeCompleteCallback_]; try done.
  - unfold unread. cbn [context_]. lia.
  - unfold out. cbn [outputBuffer_]. rewrite Ec. apply Z.lt_le_incl, kBufSize_pos.
  - by apply Waiting.
Qed.

(** C7. The file server over a connection, whatever the client sends, whenever it closes and
    however write(2) behaves: nothing crashes; what is written and buffered is a prefix of the
    file with at most 64 KB of it buffered; the write side is shut only after the whole file was
    written; and while the connection is open and writes succeed, the loop has only to go on for
    the whole file to be written and the write side shut. *)
Theorem file_transfer sys_write g_file sockfd es : write_law sys_write ->
  fresh_volume + zlen (content g_file) + total_input es <= vector_max_size ->
  returns (s ← accepted_connection sockfd; steps sys_write g_file es s) (fun s =>
    let c := conn (net s) in
    (exists k, wire c ++ out c = take k (content g_file)) /\ zlen (out c) <= kBufSize /\
    (shutWrite c = true -> wire c = content g_file) /\
    (progress sys_write -> open_ c -> exists n,
      returns (steps sys_write g_file (concat (repeat round n)) s) (fun s' => shutWrite (conn (net s')) = true /\ wire (conn (net s')) = content g_file))).
Proof.
  intros law Hv. eapply returns_seq; [by apply (accepted_state sys_write g_file sockfd) |]. intros s0 H0.
  eapply returns_mono; [|by apply (steps_state sys_write g_file es law s0)]. intros s H. cbv zeta. split_and!.
  - rewrite (i_stream _ (so_inv _ _ _ _ H)).
    destruct (so_phase _ _ _ _ H) as [_ _ E _|_ _ _ E _ _ _|pos _ _ _ _ E _|pos k _ _ _ _ E _ _ _|_ _ E _ _ _]; rewrite E.
    + by exists 0%nat.
    + by exists 0%nat.
    + by exists pos.
    + by exists k.
    + exists (length (content g_file)). by rewrite take_ge.
  - apply (so_out _ _ _ _ H).
  - by apply (shut_complete sys_write g_file 0 s).
  - intros HP Hop. apply (rounds_finish sys_write g_file law 0 HP ltac:(lia) (S (measure g_file s)) s); [lia | done | done].
Qed.

Definition greeting : bytes := lit "hello, world".

(** The client sends something and stays. *)
Lemma file_transfer_witness :
  returns (s ← accepted_connection 7; steps slow_write (Some greeting) [Up; Input (Buffer.ReadBytes (lit "hi")); Output; Functor] s) (fun s =>
    let c := conn (net s) in
    (exists k, wire c ++ out c = take k (content (Some greeting))) /\ zlen (out c) <= kBufSize /\
    (shutWrite c = true -> wire c = content (Some greeting)) /\
    (progress slow_write -> open_ c -> exists n,
      returns (steps slow_write (Some greeting) (concat (repeat round n)) s) (fun s' => shutWrite (conn (net s')) = true /\ wire (conn (net s')) = content (Some greeting)))).
Proof.
  apply (file_transfer slow_write (Some greeting) 7 [Up; Input (Buffer.ReadBytes (lit "hi")); Output; Functor] slow_write_law).
  vm_compute. discriminate.
Defined.

Lemma slow_write_goes_on : progress slow_write.
Proof. split; [exact slow_write_progress | done]. Qed.

Example greeting_sent :
  (s ← (s ← accepted_connection 7; steps slow_write (Some greeting) (Up :: concat (repeat round 6)) s); Ret (wire (conn (net s)), shutWrite (conn (net s)))) =
  Ret (greeting, true).
Proof. vm_compute. reflexivity. Qed.

(** A socket that takes everything. *)
Definition fast_write (k : nat) (d : bytes) (shut : bool) : write_result := if shut then WriteError EPIPE else Wrote (zlen d).

(** download2.cc: the client closes its side; the piece sent after that completes only when the
    connection was destroyed and the file closed, and the callback reads the closed file. *)
Lemma closed_file_is_read :
  (s ← accepted_connection 7; steps2 fast_write (Some (repeat x61 (Z.to_nat 70000))) [Up; Input (Buffer.ReadBytes []); Functor; Functor; Functor] s) = Crash UseAfterFree.
Proof. vm_compute. reflexivity. Qed.

End FileServer.
