(* ===== verification/EventLoop.v ===== *)
(** * EventLoop.h/.cc: the loop, its functor queue and its wakeup descriptor

    The loop's thread and any number of other threads share the queue and the
    eventfd.  The loop's thread is a program counter over [loop] and
    [doPendingFunctors]; another thread's [queueInLoop] or [quit] is two steps, the
    function up to its call of [wakeup], if it makes one, and that call; every interleaving is
    a sequence of the relation [step].  Functors are opaque: what one does is the calls
    to [queueInLoop] and [quit] that happen while it runs. *)

From S2P Require Import Prelude Calendar TimeZone TimerQueue.
From Stdlib Require Import SpecFloat.

Module EventLoop.

(** What poll(2) can report: the wakeup channel or another one. *)
Inductive active := WakeupChannel | OtherChannel (fd : Z).

#[export] Instance active_eq_dec : EqDecision active.
Proof. solve_decision. Defined.

Section loop.
Context {Functor : Type}.

(** Where the loop's thread is: not in [loop()], blocked in poll(2), in the callbacks
    of the active channels (the rest of them), or in the loop of
    [doPendingFunctors] (the rest of the local vector). *)
Inductive counter :=
| Outside
| Polling
| Handling (activeChannels_ : list active)
| Draining (functors : list Functor).

Record t := mk {
  looping_ : bool;
  quit_ : bool;
  callingPendingFunctors_ : bool;
  pendingFunctors_ : list Functor;
  wakeupFd_ : Z;                    (* the eventfd's counter *)
  pc : counter;
  waking : nat;                     (* other threads that are about to call wakeup() *)
  early : bool;                     (* the loop's thread queued before it entered loop() *)
  submitted : list Functor;         (* all pushes, in order *)
  executed : list Functor           (* all calls by doPendingFunctors, in order *)
}.

(** The constructor leaves [quit_] and [callingPendingFunctors_] uninitialised: their
    first values are arguments. *)
Definition EventLoop (quit calling : bool) : t :=
  mk false quit calling [] 0 Outside 0 false [] [].

(** write(2) of 1 to a non-blocking eventfd fails (and is logged) when the counter is
    at its maximum. *)
Definition wakeup (s : t) : t :=
  mk (looping_ s) (quit_ s) (callingPendingFunctors_ s) (pendingFunctors_ s)
    (if wakeupFd_ s <? 2 ^ 64 - 2 then wakeupFd_ s + 1 else wakeupFd_ s)
    (pc s) (waking s) (early s) (submitted s) (executed s).

(** read(2) takes the whole counter. *)
Definition handleRead (s : t) : t :=
  mk (looping_ s) (quit_ s) (callingPendingFunctors_ s) (pendingFunctors_ s) 0
    (pc s) (waking s) (early s) (submitted s) (executed s).

(** [pendingFunctors_.push_back(cb)] under the lock. *)
Definition push_back (cb : Functor) (s : t) : t :=
  mk (looping_ s) (quit_ s) (callingPendingFunctors_ s) (pendingFunctors_ s ++ [cb]) (wakeupFd_ s)
    (pc s) (waking s) (early s) (submitted s ++ [cb]) (executed s).

(** The call of [wakeup()] at the end is an argument: the loop's thread makes it at once
    ([wakeup]), another thread is between its write and the call for a while
    ([about_to_wake], below). *)
Definition queueInLoop (wake : t -> t) (isInLoopThread : bool) (cb : Functor) (s : t) : t :=
  let s1 := push_back cb s in
  if negb isInLoopThread || callingPendingFunctors_ s1 then wake s1 else s1.

(** [runInLoop]: in the loop's thread the functor is called at once. *)
Definition runInLoop (wake : t -> t) (isInLoopThread : bool) (call : t -> t) (cb : Functor) (s : t) : t :=
  if isInLoopThread then call s else queueInLoop wake isInLoopThread cb s.

Definition set_quit (q : bool) (s : t) : t :=
  mk (looping_ s) q (callingPendingFunctors_ s) (pendingFunctors_ s) (wakeupFd_ s)
    (pc s) (waking s) (early s) (submitted s) (executed s).

Definition quit (wake : t -> t) (isInLoopThread : bool) (s : t) : t :=
  let s1 := set_quit true s in if negb isInLoopThread then wake s1 else s1.

Definition set_waking (n : nat) (s : t) : t :=
  mk (looping_ s) (quit_ s) (callingPendingFunctors_ s) (pendingFunctors_ s) (wakeupFd_ s)
    (pc s) n (early s) (submitted s) (executed s).

(** Another thread has come to its call of [wakeup()]. *)
Definition about_to_wake (s : t) : t := set_waking (S (waking s)) s.

Definition set_early (s : t) : t :=
  mk (looping_ s) (quit_ s) (callingPendingFunctors_ s) (pendingFunctors_ s) (wakeupFd_ s)
    (pc s) (waking s) true (submitted s) (executed s).

(** The head of [while(!quit_)]. *)
Definition loop_head (s : t) : t :=
  mk (negb (quit_ s)) (quit_ s) (callingPendingFunctors_ s) (pendingFunctors_ s) (wakeupFd_ s)
    (if quit_ s then Outside else Polling) (waking s) (early s) (submitted s) (executed s).

(** The entry of [loop()]. *)
Definition loop_enter (s : t) : outcome t :=
  _ ← check (negb (looping_ s));
  Ret (loop_head (set_quit false s)).

(** poll(2) answers the active channels. *)
Definition poll_return (activeChannels : list active) (s : t) : t :=
  mk (looping_ s) (quit_ s) (callingPendingFunctors_ s) (pendingFunctors_ s) (wakeupFd_ s)
    (Handling activeChannels) (waking s) (early s) (submitted s) (executed s).

Definition handleEvent (c : active) (s : t) : t :=
  match c with WakeupChannel => handleRead s | OtherChannel _ => s end.

(** [doPendingFunctors] up to the end of the locked block. *)
Definition swap_functors (s : t) : t :=
  mk (looping_ s) (quit_ s) true [] (wakeupFd_ s) (Draining (pendingFunctors_ s))
    (waking s) false (submitted s) (executed s).

(** One turn of its loop: [functors[i]()]. *)
Definition call_functor (f : Functor) (rest : list Functor) (s : t) : t :=
  mk (looping_ s) (quit_ s) (callingPendingFunctors_ s) (pendingFunctors_ s) (wakeupFd_ s)
    (Draining rest) (waking s) (early s) (submitted s) (executed s ++ [f]).

(** Its last line, and back to the head of the loop. *)
Definition functors_done (s : t) : t :=
  loop_head (mk (looping_ s) (quit_ s) false (pendingFunctors_ s) (wakeupFd_ s)
    (pc s) (waking s) (early s) (submitted s) (executed s)).

(** The loop's thread is running callbacks. *)
Definition in_callback (s : t) : bool :=
  match pc s with Handling _ | Draining _ => true | _ => false end.

(** ** Interleavings *)
Inductive step : t -> t -> Prop :=
| s_enter s s' : pc s = Outside -> loop_enter s = Ret s' -> step s s'
| s_poll s l : pc s = Polling -> (WakeupChannel ∈ l <-> 0 < wakeupFd_ s) -> step s (poll_return l s)
| s_handle s c l : pc s = Handling (c :: l) ->
    step s (poll_return l (handleEvent c s))
| s_swap s : pc s = Handling [] -> step s (swap_functors s)
| s_call s f l : pc s = Draining (f :: l) -> step s (call_functor f l s)
| s_done s : pc s = Draining [] -> step s (functors_done s)
| s_queue_in_loop s f : in_callback s = true -> step s (queueInLoop wakeup true f s)
| s_quit_in_loop s : in_callback s = true -> step s (quit wakeup true s)
| s_queue_early s f : pc s = Outside -> step s (set_early (queueInLoop wakeup true f s))
| s_push s f : step s (queueInLoop about_to_wake false f s)
| s_set_quit s : step s (quit about_to_wake false s)
| s_wakeup s n : waking s = S n -> step s (set_waking n (wakeup s)).

(** One iteration of [loop()] when no other thread runs: poll, the callbacks, the
    functors. *)
Definition iteration (l : list active) (s : t) : t :=
  let s1 := fold_left (fun x c => handleEvent c x) l s in
  let s2 := swap_functors (poll_return [] s1) in
  functors_done (mk (looping_ s2) (quit_ s2) true [] (wakeupFd_ s2) (Draining [])
    (waking s2) false (submitted s2) (executed s2 ++ pendingFunctors_ s)).

Definition running (s : t) : list Functor :=
  match pc s with Draining l => l | _ => [] end.

(** ** Invariant *)
Record inv (s : t) : Prop := {
  i_fifo : executed s ++ running s ++ pendingFunctors_ s = submitted s;
  i_fd : 0 <= wakeupFd_ s < 2 ^ 64 - 1;
  i_looping : looping_ s = match pc s with Outside => false | _ => true end;
  i_calling : forall l, pc s = Draining l -> callingPendingFunctors_ s = true;
  i_wake : match pc s with
           | Handling _ => True
           | Outside | Polling | Draining _ =>
               pendingFunctors_ s <> [] -> 0 < wakeupFd_ s \/ (0 < waking s)%nat \/ early s = true
           end;
  i_quit : pc s = Polling -> quit_ s = true -> 0 < wakeupFd_ s \/ (0 < waking s)%nat
}.

Lemma wakeup_positive s : 0 <= wakeupFd_ s < 2 ^ 64 - 1 ->
  0 < wakeupFd_ (wakeup s) /\ wakeupFd_ (wakeup s) < 2 ^ 64 - 1.
Proof. intros H. unfold wakeup. cbn [wakeupFd_]. destruct (_ <? _) eqn:E; bools; lia. Qed.

Lemma inv_init quit calling : inv (EventLoop quit calling).
Proof. split; cbn; done || lia. Qed.

Lemma queue_in_loop_inv s f : inv s -> in_callback s = true -> inv (queueInLoop wakeup true f s).
Proof.
  intros [If Ifd Il Ic Iw Iq] Hc. unfold queueInLoop. cbn [negb orb push_back callingPendingFunctors_].
  assert (executed s ++ running s ++ pendingFunctors_ s ++ [f] = submitted s ++ [f]) as Hf
    by (rewrite <- If, !app_assoc; done).
  pose proof (wakeup_positive (push_back f s) Ifd) as [Hw1 Hw2].
  unfold in_callback in Hc. destruct (pc s) as [| |l|l] eqn:Ep; try done.
  - destruct (callingPendingFunctors_ s); split; cbn [pc wakeup push_back]; rewrite ?Ep; try done; lia.
  - rewrite (Ic l eq_refl). split; cbn [pc wakeup push_back]; rewrite ?Ep; try done; [lia|]. intros _. by left.
Qed.

Lemma early_inv s f : inv s -> pc s = Outside -> inv (set_early (queueInLoop wakeup true f s)).
Proof.
  intros [If Ifd Il Ic Iw Iq] Ep. unfold queueInLoop. cbn [negb orb push_back callingPendingFunctors_].
  assert (executed s ++ running s ++ pendingFunctors_ s ++ [f] = submitted s ++ [f]) as Hf
    by (rewrite <- If, !app_assoc; done).
  pose proof (wakeup_positive (push_back f s) Ifd) as [Hw1 Hw2].
  destruct (callingPendingFunctors_ s); split; cbn [pc wakeup push_back set_early]; rewrite ?Ep in *; try done; try (intros _; right; right; done).
  split; [apply Z.lt_le_incl, Hw1|exact Hw2].
Qed.

(** The queue is empty or the loop will be woken up. *)
Definition woken (s : t) : Prop :=
  pendingFunctors_ s <> [] -> 0 < wakeupFd_ s \/ (0 < waking s)%nat \/ early s = true.

Lemma loop_head_inv s : executed s ++ pendingFunctors_ s = submitted s ->
  0 <= wakeupFd_ s < 2 ^ 64 - 1 -> woken s -> inv (loop_head s).
Proof.
  intros If Ifd Hw. unfold loop_head. destruct (quit_ s) eqn:Eq;
    split; cbn [looping_ quit_ callingPendingFunctors_ pendingFunctors_ wakeupFd_ pc waking early submitted executed running negb]; done.
Qed.

Lemma running_at s c : pc s = c -> running s = match c with Draining l => l | _ => [] end.
Proof. by intros <-. Qed.

Lemma step_inv s s' : step s s' -> inv s -> inv s'.
Proof.
  intros H I. pose proof I as [If Ifd Il Ic Iw Iq].
  destruct H as [s s' H H0|s l H H0|s c l H|s H|s f l H|s H|s f H|s H|s f H|s f|s|s n H];
    try rewrite (running_at _ _ H) in If; try rewrite H in Iw, Il.
  - unfold loop_enter in H0. destruct (looping_ s); [done|]. injection H0 as <-. by apply loop_head_inv.
  - split; cbn [pc poll_return looping_]; done.
  - split; cbn [pc poll_return]; try done; destruct c; cbn; done || lia.
  - split; cbn; try done. rewrite <- If. by rewrite app_nil_r.
  - split; cbn; try done; [by rewrite <- If, <- app_assoc|]. intros l' _. by apply (Ic (f :: l)).
  - by apply loop_head_inv.
  - by apply queue_in_loop_inv.
  - unfold in_callback in H. split; cbn; try done. intros E. by rewrite E in H.
  - by apply early_inv.
  - split; cbn; try done; [fold (running s); rewrite <- If, !app_assoc; done|..].
    + destruct (pc s); try done; intros _; right; left; apply Nat.lt_0_succ.
    + intros; right; apply Nat.lt_0_succ.
  - split; cbn; try done.
    + destruct (pc s); try done; intros _; right; left; apply Nat.lt_0_succ.
    + intros; right; apply Nat.lt_0_succ.
  - destruct (wakeup_positive s Ifd) as [Hw1 Hw2].
    split; cbn [pc set_waking wakeup]; try done; [split; [apply Z.lt_le_incl, Hw1|exact Hw2]|destruct (pc s); try done; intros _; by left|intros; by left].
Qed.

Lemma reachable_inv quit calling s : rtc step (EventLoop quit calling) s -> inv s.
Proof.
  intros H. pose proof (inv_init quit calling) as I. revert I. induction H as [|? ? ? H _ IH]; [done|].
  intros I. by eapply IH, step_inv.
Qed.

(** ** One iteration *)
Lemma handle_commute l : forall s l',
  poll_return [] (fold_left (fun x c => handleEvent c x) l (poll_return l' s)) =
  poll_return [] (fold_left (fun x c => handleEvent c x) l s).
Proof.
  induction l as [|c l IH]; intros s l'; [done|]. cbn [fold_left]. rewrite <- (IH (handleEvent c s) l'). by destruct c.
Qed.

Lemma handle_all l : forall s, pc s = Handling l ->
  rtc step s (poll_return [] (fold_left (fun x c => handleEvent c x) l s)).
Proof.
  induction l as [|c l IH]; intros s H; cbn [fold_left].
  - replace (poll_return [] s) with s; [done|]. destruct s. cbn in H. by subst.
  - eapply rtc_l; [by apply s_handle|]. rewrite <- (handle_commute l (handleEvent c s) l). by apply IH.
Qed.

Lemma call_all l : forall s, pc s = Draining l ->
  rtc step s (mk (looping_ s) (quit_ s) (callingPendingFunctors_ s) (pendingFunctors_ s) (wakeupFd_ s) (Draining [])
    (waking s) (early s) (submitted s) (executed s ++ l)).
Proof.
  induction l as [|f l IH]; intros s H.
  - rewrite app_nil_r. destruct s. cbn in *. by subst.
  - eapply rtc_l; [by apply s_call|]. etrans; [by apply IH|]. cbn. by rewrite <- app_assoc.
Qed.

Lemma fold_handle l : forall s, let s' := fold_left (fun x c => handleEvent c x) l s in
  pendingFunctors_ s' = pendingFunctors_ s /\ executed s' = executed s /\ submitted s' = submitted s /\
  looping_ s' = looping_ s /\ quit_ s' = quit_ s /\ waking s' = waking s /\
  (WakeupChannel ∈ l -> wakeupFd_ s' = 0) /\ (wakeupFd_ s = 0 -> wakeupFd_ s' = 0).
Proof.
  induction l as [|c l IH]; intros s; cbn [fold_left]; [split_and!; try done; set_solver|].
  destruct (IH (handleEvent c s)) as (-> & -> & -> & -> & -> & -> & H1 & H2).
  destruct c; cbn in *; split_and!; try done; intros; try (by auto).
  apply H1. set_solver.
Qed.

Lemma iteration_steps l s : pc s = Polling -> (WakeupChannel ∈ l <-> 0 < wakeupFd_ s) -> rtc step s (iteration l s).
Proof.
  intros Hp Hl. eapply rtc_l; [by apply (s_poll s l)|].
  set (s1 := fold_left (fun x c => handleEvent c x) l s).
  etrans; [by apply (handle_all l (poll_return l s))|]. rewrite handle_commute. fold s1.
  eapply rtc_l; [by apply s_swap|]. etrans; [by eapply call_all|].
  eapply rtc_l; [by apply s_done|]. unfold iteration. fold s1.
  destruct (fold_handle l s) as (Ep & _). fold s1 in Ep. cbn [swap_functors poll_return pendingFunctors_ executed].
  rewrite <- Ep. done.
Qed.

(** ** Theorems *)

(** C24: functors run exactly once and in the order of the [queueInLoop] calls,
    whatever the interleaving of the loop's thread with the others: what has run,
    what the current batch has left and what is queued are together the sequence
    of submitted functors. *)
Theorem functors_once_in_order quit calling s : rtc step (EventLoop quit calling) s ->
  executed s ++ running s ++ pendingFunctors_ s = submitted s.
Proof. intros H. apply (i_fifo _ (reachable_inv _ _ _ H)). Qed.

(** C25: no wakeup is lost.  Whenever the loop's thread is blocked in poll(2) with a
    functor queued or [quit] called, the eventfd is readable or a thread is about to write it;
    the exception is a queue with a functor that the loop's own thread queued before it called
    [loop()], for which nothing wakes the loop ([queue_before_loop_waits]). *)
Theorem no_lost_wakeup quit calling s : rtc step (EventLoop quit calling) s -> pc s = Polling ->
  (pendingFunctors_ s <> [] -> early s = false -> 0 < wakeupFd_ s \/ (0 < waking s)%nat) /\
  (quit_ s = true -> 0 < wakeupFd_ s \/ (0 < waking s)%nat).
Proof.
  intros [_ _ _ _ Iw Iq]%reachable_inv Hp. rewrite Hp in Iw. split; [|by apply Iq].
  intros Hne He. destruct (Iw Hne) as [?|[?|?]]; auto. congruence.
Qed.

(** C26: one iteration of the loop, woken up or not, runs every functor submitted so far,
    empties the eventfd, and ends the loop exactly when [quit] was called. *)
Theorem iteration_runs_everything quit calling s l : rtc step (EventLoop quit calling) s -> pc s = Polling ->
  (WakeupChannel ∈ l <-> 0 < wakeupFd_ s) ->
  rtc step s (iteration l s) /\ executed (iteration l s) = submitted s /\
  pendingFunctors_ (iteration l s) = [] /\ wakeupFd_ (iteration l s) = 0 /\
  pc (iteration l s) = (if quit_ s then Outside else Polling) /\ looping_ (iteration l s) = negb (quit_ s).
Proof.
  intros H Hp Hl. apply reachable_inv in H as [If Ifd _ _ _ _]. split; [by apply iteration_steps|].
  rewrite (running_at _ _ Hp) in If. unfold iteration.
  destruct (fold_handle l s) as (E1 & E2 & E3 & E4 & E5 & E6 & E7 & E8).
  cbn [functors_done loop_head executed pendingFunctors_ wakeupFd_ pc looping_ swap_functors poll_return quit_].
  rewrite E2, E5. split_and!; try done.
  destruct (Z.eq_dec (wakeupFd_ s) 0) as [E|E]; [by apply E8|]. apply E7, Hl. lia.
Qed.
End loop.
Arguments t : clear implicits.

Lemma functors_once_in_order_witness : exists s : t nat,
  rtc step (EventLoop true true) s /\ executed s = [1%nat; 2%nat] /\ submitted s = [1%nat; 2%nat; 3%nat] /\
  executed s ++ running s ++ pendingFunctors_ s = submitted s.
Proof.
  assert (exists s : t nat, rtc step (EventLoop true true) s /\ executed s = [1%nat; 2%nat] /\
    submitted s = [1%nat; 2%nat; 3%nat]) as (s & H & E1 & E2).
  { eexists. split.
    - eapply rtc_l; [by apply (s_queue_early _ 1%nat)|]. eapply rtc_l; [by apply s_enter|].
      eapply rtc_l; [by apply (s_push _ 2%nat)|].
      eapply rtc_l; [apply (s_poll _ [WakeupChannel]); [done|vm_compute; split; [done|intros _; by left]]|].
      eapply rtc_l; [by eapply s_handle|]. eapply rtc_l; [by apply s_swap|].
      eapply rtc_l; [by eapply s_call|]. eapply rtc_l; [by apply (s_queue_in_loop _ 3%nat)|].
      eapply rtc_l; [by eapply s_call|]. apply rtc_refl.
    - by vm_compute. }
  exists s. split_and!; [done..|]. exact (functors_once_in_order true true s H).
Defined.

(** A loop blocked in poll(2) while another thread has pushed but not yet woken it. *)
Lemma no_lost_wakeup_witness : exists s : t nat, rtc step (EventLoop false false) s /\
  pendingFunctors_ s = [7%nat] /\ wakeupFd_ s = 0 /\ (0 < waking s)%nat.
Proof.
  assert (exists s : t nat, rtc step (EventLoop false false) s /\ pc s = Polling /\ pendingFunctors_ s = [7%nat] /\
    wakeupFd_ s = 0 /\ early s = false) as (s & H & Hp & Hf & Hw & He).
  { eexists. split; [eapply rtc_l; [by apply s_enter|]; eapply rtc_l; [by apply (s_push _ 7%nat)|]; apply rtc_refl|by vm_compute]. }
  exists s. split_and!; [done..|]. destruct (no_lost_wakeup false false s H Hp) as [H1 _].
  destruct H1 as [H1|H1]; [by rewrite Hf|done|lia|done].
Defined.

Lemma iteration_runs_everything_witness : exists s s' : t nat, rtc step (EventLoop false false) s /\
  submitted s = [7%nat] /\ executed s = [] /\ executed s' = [7%nat] /\ rtc step s s' /\ looping_ s' = false.
Proof.
  assert (exists s : t nat, rtc step (EventLoop false false) s /\ pc s = Polling /\ submitted s = [7%nat] /\
    executed s = [] /\ wakeupFd_ s = 1 /\ quit_ s = true) as (s & H & Hp & Hs & He & Hw & Hq).
  { eexists. split; [eapply rtc_l; [by apply s_enter|]; eapply rtc_l; [by apply (s_push _ 7%nat)|];
      eapply rtc_l; [by apply s_set_quit|]; eapply rtc_l; [by eapply s_wakeup|]; apply rtc_refl|by vm_compute]. }
  exists s, (iteration [WakeupChannel] s).
  destruct (iteration_runs_everything false false s [WakeupChannel] H Hp) as (H1 & H2 & _ & _ & _ & H6).
  { rewrite Hw. split; [lia|]. intros _. by left. }
  rewrite H2, H6, Hs, Hq. done.
Defined.

(** [loop()] resets [quit_]: a [quit] of another thread between the construction of the
    loop and its [loop()] is forgotten (as [EventLoopThread]'s destructor's can be). *)
Lemma quit_before_loop_is_lost quit calling : exists s s' : t nat,
  rtc step (EventLoop quit calling) s /\ quit_ s = true /\ waking s = 0%nat /\ step s s' /\
  pc s' = Polling /\ quit_ s' = false.
Proof.
  do 2 eexists. split; [eapply rtc_l; [by apply s_set_quit|]; eapply rtc_l; [by eapply s_wakeup|]; apply rtc_refl|].
  split_and!; [done|done|by apply s_enter|done|done].
Qed.

(** A functor queued by the loop's own thread before [loop()] waits for the poll
    timeout: nothing wakes the loop. *)
Lemma queue_before_loop_waits quit : exists s : t nat, rtc step (EventLoop quit false) s /\
  pc s = Polling /\ pendingFunctors_ s = [1%nat] /\ wakeupFd_ s = 0 /\ waking s = 0%nat.
Proof.
  eexists. split; [eapply rtc_l; [by apply (s_queue_early _ 1%nat)|]; eapply rtc_l; [by apply s_enter|]; apply rtc_refl|done].
Qed.


(** ** Timers *)
Section timers.
Variable alloc : gset positive -> positive.

Definition runAt (inLoop : bool) (time : Timestamp.t) (cb : nat) (q : TimerQueue.t) : outcome TimerQueue.t :=
  TimerQueue.addTimer alloc inLoop cb (Timestamp.microSecondsSinceEpoch_ time) (S754_zero false) q.

Definition runAfter (now : Timestamp.t) (inLoop : bool) (delay : Timestamp.double) (cb : nat) (q : TimerQueue.t) :
    outcome TimerQueue.t :=
  time ← Timestamp.addTime now delay;
  runAt inLoop time cb q.

Definition runEvery (now : Timestamp.t) (inLoop : bool) (interval : Timestamp.double) (cb : nat) (q : TimerQueue.t) :
    outcome TimerQueue.t :=
  time ← Timestamp.addTime now interval;
  TimerQueue.addTimer alloc inLoop cb (Timestamp.microSecondsSinceEpoch_ time) interval q.

(** The body is commented out. *)
Definition cancel (timerId : TimerId) (q : TimerQueue.t) : TimerQueue.t := q.
End timers.

End EventLoop.

(** ** EventLoopThread: the loop of another thread

    [startLoop] starts the thread and waits under the mutex until it has published its
    loop.  The two threads, the mutex and the condition are a relation; a wait may
    also end spuriously. *)
Module EventLoopThread.

Inductive parent := PNew | PLock | PCheck | PWaiting | PUnlock | PReturned.
Inductive child := CNone | CConstruct | CLock | CPublish | CNotify | CUnlock | CLoop.
Inductive holder := Free | ByParent | ByChild.

Record t := mk { loop_ : bool; mutex_ : holder; startLoop : parent; threadFunc : child }.

Definition EventLoopThread : t := mk false Free PNew CNone.

(** [cond_.notify()] *)
Definition notify (p : parent) : parent := match p with PWaiting => PLock | _ => p end.

Inductive step : t -> t -> Prop :=
| p_start l m : step (mk l m PNew CNone) (mk l m PLock CConstruct)
| p_lock l c : step (mk l Free PLock c) (mk l ByParent PCheck c)
| p_wait m c : step (mk false m PCheck c) (mk false Free PWaiting c)
| p_break m c : step (mk true m PCheck c) (mk true m PUnlock c)
| p_unlock l m c : step (mk l m PUnlock c) (mk l Free PReturned c)
| c_construct l m p : step (mk l m p CConstruct) (mk l m p CLock)
| c_lock l p : step (mk l Free p CLock) (mk l ByChild p CPublish)
| c_publish l m p : step (mk l m p CPublish) (mk true m p CNotify)
| c_notify l m p : step (mk l m p CNotify) (mk l m (notify p) CUnlock)
| c_unlock l m p : step (mk l m p CUnlock) (mk l Free p CLoop).

(** A wait that ends without a notification. *)
Inductive spurious : t -> t -> Prop :=
| p_spurious l m c : spurious (mk l m PWaiting c) (mk l m PLock c).

Definition any_step (s s' : t) : Prop := step s s' \/ spurious s s'.

Definition published (c : child) : bool := match c with CNotify | CUnlock | CLoop => true | _ => false end.

(** The mutex is held by the thread that is in a locked region, the loop is published
    from [CNotify] on, and after the notification nobody waits. *)
Definition good (s : t) : bool :=
  Bool.eqb (loop_ s) (published (threadFunc s)) &&
  match mutex_ s, startLoop s, threadFunc s with
  | Free, (PNew | PLock | PWaiting | PReturned), (CNone | CConstruct | CLock | CLoop) => true
  | ByParent, (PCheck | PUnlock), (CNone | CConstruct | CLock | CLoop) => true
  | ByChild, (PNew | PLock | PWaiting | PReturned), (CPublish | CNotify | CUnlock) => true
  | _, _, _ => false
  end &&
  match startLoop s, threadFunc s with
  | PNew, CNone => true
  | PNew, _ | _, CNone => false
  | PWaiting, (CUnlock | CLoop) => false
  | (PUnlock | PReturned), _ => loop_ s
  | _, _ => true
  end.

Definition rank (s : t) : nat :=
  match threadFunc s with
  | CNone => 40 | CConstruct => 32 | CLock => 26 | CPublish => 20 | CNotify => 14 | CUnlock => 4 | CLoop => 0
  end + match startLoop s with
  | PNew => 8 | PLock => 4 | PCheck => 3 | PWaiting => 0 | PUnlock => 2 | PReturned => 0 end.

Lemma any_step_good s s' : any_step s s' -> good s = true -> good s' = true.
Proof.
  intros [H|H]; destruct H; cbn; repeat match goal with
    | x : holder |- _ => destruct x | x : parent |- _ => destruct x | x : child |- _ => destruct x
    | x : bool |- _ => destruct x end; cbn; done.
Qed.

Lemma good_progress s : good s = true -> startLoop s <> PReturned -> exists s', step s s'.
Proof.
  destruct s as [l m p c]; destruct p, m, c, l; cbn; intros H Hp; try done; eexists; constructor.
Qed.

Lemma step_rank s s' : step s s' -> good s = true -> (rank s' < rank s)%nat.
Proof.
  destruct 1; cbn; repeat match goal with
    | x : holder |- _ => destruct x | x : parent |- _ => destruct x | x : child |- _ => destruct x
    | x : bool |- _ => destruct x end; cbn; intros; done || lia.
Qed.

Lemma reachable_good s : rtc any_step EventLoopThread s -> good s = true.
Proof.
  intros H. assert (good EventLoopThread = true) as I by done. revert I.
  induction H as [|? ? ? H _ IH]; [done|]. intros I. by eapply IH, any_step_good.
Qed.

Lemma returns_from n : forall s, good s = true -> (rank s < n)%nat ->
  exists s', rtc step s s' /\ startLoop s' = PReturned /\ loop_ s' = true.
Proof.
  induction n as [|n IH]; intros s Hg Hn; [lia|].
  destruct (startLoop s) eqn:E; try (destruct (good_progress s Hg) as (s1 & H); [by rewrite E|];
    destruct (IH s1) as (s2 & H2 & H3); [by eapply any_step_good; [left|]|pose proof (step_rank _ _ H Hg); lia|];
    exists s2; split; [by eapply rtc_l|done]).
  exists s. split_and!; [done|done|]. clear -Hg E. destruct s as [l m p c]. cbn in *. subst.
  by destruct m, c, l.
Qed.

(** C27: [startLoop] hands out the other thread's loop and never deadlocks: in every
    interleaving it has not returned a null loop, and as long as it has not returned
    some thread can take a step, every step (spurious wakeups apart) decreases a
    measure, so it returns. *)
Theorem startLoop_returns_loop s : rtc any_step EventLoopThread s ->
  (startLoop s = PReturned -> loop_ s = true) /\
  (startLoop s <> PReturned -> exists s', step s s') /\
  (forall s', step s s' -> (rank s' < rank s)%nat) /\
  exists s', rtc step s s' /\ startLoop s' = PReturned /\ loop_ s' = true.
Proof.
  intros H%reachable_good. split_and!.
  - destruct s as [l m p c]. cbn. intros ->. by destruct l, m, c.
  - by apply good_progress.
  - intros s' Hs. by apply step_rank.
  - apply (returns_from (S (rank s))); [done|lia].
Qed.

(** The child publishes while the parent waits. *)
Lemma startLoop_returns_loop_witness : exists s, rtc any_step EventLoopThread s /\ startLoop s = PWaiting /\
  exists s', rtc step s s' /\ startLoop s' = PReturned /\ loop_ s' = true.
Proof.
  assert (rtc any_step EventLoopThread (mk true ByChild PWaiting CNotify)) as H.
  { eapply rtc_l; [left; constructor|]. eapply rtc_l; [left; apply p_lock|]. eapply rtc_l; [left; apply p_wait|].
    eapply rtc_l; [left; apply c_construct|]. eapply rtc_l; [left; apply c_lock|]. eapply rtc_l; [left; apply c_publish|].
    apply rtc_refl. }
  eexists. split; [exact H|]. split; [reflexivity|]. apply (startLoop_returns_loop _ H).
Defined.

End EventLoopThread.

(** ** EventLoopThreadPool: connections are dealt out round-robin *)
Module EventLoopThreadPool.

(** Loops are numbered in the order of their start; [None] is the base loop. *)
Record t := mk { started_ : bool; numThreads_ : Z; next_ : Z; loops_ : list nat }.

Definition EventLoopThreadPool : t := mk false 0 0 [].

Definition setThreadNum (numThreads : Z) (p : t) : t := mk (started_ p) numThreads (next_ p) (loops_ p).

(** [inLoop]: the call is made in the base loop's thread; [LOG_FATAL] aborts otherwise. *)
Definition start (inLoop : bool) (p : t) : outcome t :=
  _ ← check (negb (started_ p));
  _ ← (if inLoop then Ret tt else Crash FatalLog);
  Ret (mk true (numThreads_ p) (next_ p) (loops_ p ++ seq 0 (Z.to_nat (numThreads_ p)))).

Definition getNextLoop (inLoop : bool) (p : t) : outcome (option nat * t) :=
  _ ← (if inLoop then Ret tt else Crash FatalLog);
  match loops_ p with
  | [] => Ret (None, p)
  | _ :: _ =>
      loop ← (if (0 <=? next_ p) && (next_ p <? zlen (loops_ p)) then
                Ret (nth (Z.to_nat (next_ p)) (loops_ p) 0%nat) else Crash OutOfRange);
      next ← i32 (next_ p + 1);
      let next := if zlen (loops_ p) <=? next then 0 else next in
      Ret (Some loop, mk (started_ p) (numThreads_ p) next (loops_ p))
  end.

Fixpoint deal (k : nat) (p : t) : outcome (list (option nat) * t) :=
  match k with
  | O => Ret ([], p)
  | S k' => '(l, p1) ← getNextLoop true p; '(ls, p2) ← deal k' p1; Ret (l :: ls, p2)
  end.

Lemma nth_seq_0 n i : (i < n)%nat -> nth i (seq 0 n) 0%nat = i.
Proof. intros H. by rewrite seq_nth. Qed.

Lemma deal_from n k : forall i, (0 < n)%nat -> (i < n)%nat -> Z.of_nat n < 2 ^ 31 ->
  exists p', deal k (mk true (Z.of_nat n) (Z.of_nat i) (seq 0 n)) =
    Ret (map (fun j => Some (j mod n)%nat) (seq i k), p').
Proof.
  induction k as [|k IH]; intros i Hn Hi Hb; [by eexists|]. cbn [deal getNextLoop].
  unfold getNextLoop. cbn [loops_ next_ started_ numThreads_]. rewrite bind_Ret.
  destruct (seq 0 n) as [|x xs] eqn:Es; [destruct n; [lia|done]|]. rewrite <- Es in IH |- *.
  assert (zlen (seq 0 n) = Z.of_nat n) as Hz by (unfold zlen; by rewrite length_seq).
  rewrite Hz, Nat2Z.id, nth_seq_0 by done. rewrite (proj2 (Z.leb_le 0 _)), (proj2 (Z.ltb_lt _ _)) by lia.
  cbn [andb]. rewrite bind_Ret, i32_ok, bind_Ret by lia. cbv zeta.
  replace (if _ <=? _ then 0 else Z.of_nat i + 1) with (Z.of_nat (S i mod n)).
  - destruct (IH (S i mod n)%nat Hn) as (p' & E); [apply Nat.mod_upper_bound; lia|done|].
    exists p'. rewrite bind_Ret. rewrite E, bind_Ret. f_equal. f_equal. cbn [seq map].
    rewrite (Nat.mod_small i n) by done. f_equal.
    apply list_eq. intros j. rewrite !list_lookup_fmap. destruct (decide (j < k)%nat) as [Hj|Hj].
    + rewrite !lookup_seq_lt by done. cbn. f_equal. f_equal. rewrite Nat.Div0.add_mod_idemp_l. f_equal.
    + rewrite !lookup_seq_ge by lia. done.
  - destruct (_ <=? _) eqn:E; bools.
    + replace (S i) with n by lia. rewrite Nat.Div0.mod_same. done.
    + rewrite Nat.mod_small by lia. lia.
Qed.

Lemma deal_base b n k : forall i, deal k (mk b n 0 []) = Ret (map (fun _ => None) (seq i k), mk b n 0 []).
Proof.
  induction k as [|k IH]; intros i; [done|]. cbn [deal]. unfold getNextLoop. cbn [loops_].
  rewrite !bind_Ret. rewrite (IH (S i)), bind_Ret. done.
Qed.

(** After [start], the k-th call of [getNextLoop] answers loop k mod [numThreads], and
    the base loop when there are no threads; starting a second time fails. *)
Theorem round_robin n k : 0 <= n < 2 ^ 31 ->
  returns (start true (setThreadNum n EventLoopThreadPool)) (fun p =>
    returns (deal k p) (fun '(ls, _) =>
      ls = map (fun j => if n =? 0 then None else Some (j mod Z.to_nat n)%nat) (seq 0 k)) /\
    start true p = Crash AssertFailed).
Proof.
  intros Hn. unfold start. rewrite check_bind, bind_Ret by done. cbn [returns setThreadNum EventLoopThreadPool numThreads_ next_ loops_ app].
  split; [|done]. destruct (n =? 0) eqn:E; bools.
  - subst. change (seq 0 (Z.to_nat 0)) with (@nil nat). by rewrite (deal_base _ _ k 0).
  - destruct (deal_from (Z.to_nat n) k 0) as (p' & Ed); [lia..|]. rewrite Z2Nat.id in Ed by lia.
    change (Z.of_nat 0) with 0 in Ed. rewrite Ed. done.
Qed.

Lemma round_robin_witness : returns (start true (setThreadNum 3 EventLoopThreadPool)) (fun p =>
    returns (deal 5 p) (fun '(ls, _) =>
      ls = map (fun j => if 3 =? 0 then None else Some (j mod Z.to_nat 3)%nat) (seq 0 5)) /\
    start true p = Crash AssertFailed).
Proof. apply (round_robin 3 5). lia. Defined.

End EventLoopThreadPool.
