(* ===== verification/Client.v ===== *)
(** * Connector.h/.cc and TcpClient.h/.cc: connecting, retrying and reconnecting

    The connector is kept with what it leaves in its loop: the functors it queued, its
    [startInLoop] timers, the sockets it has open and the ones it handed to its
    callback.  Each call of socket(2) and connect(2) answers a descriptor and an errno
    given with the event that causes it.  Timers run while the loop handles
    channels, and a queued [resetChannel] runs at the end of the iteration that queued
    it: a timer does not fire in between. *)

From S2P Require Import Prelude Poller TcpConnection.
Import Poller.

Definition EPERM : Z := 1.
Definition EINTR : Z := 4.
Definition EBADF : Z := 9.
Definition EAGAIN : Z := 11.
Definition EACCES : Z := 13.
Definition EFAULT : Z := 14.
Definition ENOTSOCK : Z := 88.
Definition EAFNOSUPPORT : Z := 97.
Definition EADDRINUSE : Z := 98.
Definition EADDRNOTAVAIL : Z := 99.
Definition ENETUNREACH : Z := 101.
Definition EISCONN : Z := 106.
Definition ECONNREFUSED : Z := 111.
Definition EALREADY : Z := 114.
Definition EINPROGRESS : Z := 115.

(** A [case] label list. *)
Definition one_of (l : list Z) (x : Z) : bool := existsb (Z.eqb x) l.

Module Connector.

Inductive States := kDisconnected | kConnecting | kConnected.

#[export] Instance States_eq_dec : EqDecision States.
Proof. solve_decision. Defined.

Definition kMaxRetryDelayMs : Z := 30 * 1000.
Definition kInitRetryDelayMs : Z := 500.

Inductive task := StartInLoop | ResetChannel.

#[export] Instance task_eq_dec : EqDecision task.
Proof. solve_decision. Defined.

Record t := mk {
  connect_ : bool;
  state_ : States;
  channel_ : option view;
  retryDelayMs_ : Z;
  functors : list task;
  timers : nat;                  (* pending startInLoop timers *)
  delays : list Z;               (* of the retries since the last restart *)
  sockets : list Z;              (* opened here, neither closed nor handed over *)
  handed : list Z                (* newConnectionCallback_ calls *)
}.

Definition Connector : t := mk false kDisconnected None kInitRetryDelayMs [] 0 [] [] [].

Definition set_connect b c := mk b (state_ c) (channel_ c) (retryDelayMs_ c) (functors c) (timers c) (delays c) (sockets c) (handed c).
Definition setState s c := mk (connect_ c) s (channel_ c) (retryDelayMs_ c) (functors c) (timers c) (delays c) (sockets c) (handed c).
Definition set_channel v c := mk (connect_ c) (state_ c) v (retryDelayMs_ c) (functors c) (timers c) (delays c) (sockets c) (handed c).
Definition set_functors q c := mk (connect_ c) (state_ c) (channel_ c) (retryDelayMs_ c) q (timers c) (delays c) (sockets c) (handed c).
Definition set_timers n c := mk (connect_ c) (state_ c) (channel_ c) (retryDelayMs_ c) (functors c) n (delays c) (sockets c) (handed c).
Definition open_socket fd c := mk (connect_ c) (state_ c) (channel_ c) (retryDelayMs_ c) (functors c) (timers c) (delays c) (fd :: sockets c) (handed c).
Definition close fd c := mk (connect_ c) (state_ c) (channel_ c) (retryDelayMs_ c) (functors c) (timers c) (delays c) (filter (fun x => x <> fd) (sockets c)) (handed c).
Definition newConnectionCallback_ fd c := mk (connect_ c) (state_ c) (channel_ c) (retryDelayMs_ c) (functors c) (timers c) (delays c) (filter (fun x => x <> fd) (sockets c)) (fd :: handed c).

Definition retry (sockfd : Z) (c : t) : t :=
  let c1 := setState kDisconnected (close sockfd c) in
  if connect_ c1 then
    mk (connect_ c1) (state_ c1) (channel_ c1) (Z.min (retryDelayMs_ c1 * 2) kMaxRetryDelayMs)
      (functors c1) (S (timers c1)) (delays c1 ++ [retryDelayMs_ c1]) (sockets c1) (handed c1)
  else c1.

Definition connecting (sockfd : Z) (c : t) : outcome t :=
  let c1 := setState kConnecting c in
  _ ← check (bool_decide (channel_ c1 = None));
  v ← TcpConnection.update Channel.enableWriting_ev (mkv sockfd 0 Fresh);
  Ret (set_channel (Some v) c1).

(** [sys]: the descriptor socket(2) answers and the errno of connect(2), 0 for success. *)
Definition connect (sys : Z * Z) (c : t) : outcome t :=
  let '(sockfd, savedErrno) := sys in
  _ ← (if sockfd <? 0 then Crash FatalLog else Ret tt);
  let c1 := open_socket sockfd c in
  if one_of [0; EINPROGRESS; EINTR; EISCONN] savedErrno then connecting sockfd c1
  else if one_of [EAGAIN; EADDRINUSE; EADDRNOTAVAIL; ECONNREFUSED; ENETUNREACH] savedErrno then Ret (retry sockfd c1)
  else Ret (close sockfd c1).

Definition startInLoop (sys : Z * Z) (c : t) : outcome t :=
  _ ← check (bool_decide (state_ c = kDisconnected));
  if connect_ c then connect sys c else Ret c.

Definition start (inLoop : bool) (sys : Z * Z) (c : t) : outcome t :=
  let c1 := set_connect true c in
  if inLoop then startInLoop sys c1 else Ret (set_functors (functors c1 ++ [StartInLoop]) c1).

Definition restart (sys : Z * Z) (c : t) : outcome t :=
  startInLoop sys (mk true kDisconnected (channel_ c) kInitRetryDelayMs (functors c) (timers c) [] (sockets c) (handed c)).

(** [loop_->cancel(timerId_)] does nothing: [EventLoop::cancel] is empty. *)
Definition stop (c : t) : t := set_connect false c.

Definition removeAndResetChannel (c : t) : outcome (Z * t) :=
  match channel_ c with
  | None => Crash NullPointer
  | Some v =>
      v1 ← TcpConnection.update Channel.disableAll_ev v;
      v2 ← TcpConnection.removeChannel v1;
      Ret (v_fd v2, set_functors (functors c ++ [ResetChannel]) (set_channel (Some v2) c))
  end.

Definition resetChannel (c : t) : t := set_channel None c.

(** [err]: what [getSocketError] answers; [self]: what [isSelfConnect] does. *)
Definition handleWrite (err : Z) (self : bool) (c : t) : outcome t :=
  if bool_decide (state_ c = kConnecting) then
    '(sockfd, c1) ← removeAndResetChannel c;
    if negb (err =? 0) then Ret (retry sockfd c1)
    else if self then Ret (retry sockfd c1)
    else
      let c2 := setState kConnected c1 in
      if connect_ c2 then Ret (newConnectionCallback_ sockfd c2) else Ret (close sockfd c2)
  else
    _ ← check (bool_decide (state_ c = kDisconnected)); Ret c.

Definition handleError (c : t) : outcome t :=
  _ ← check (bool_decide (state_ c = kConnecting));
  '(sockfd, c1) ← removeAndResetChannel c;
  Ret (retry sockfd c1).

(** The destructor's assertion. *)
Definition destroy (c : t) : outcome unit := check (bool_decide (channel_ c = None)).

(** ** The connector in its loop *)

Inductive event :=
| Stop
| NextFunctor (sys : Z * Z)
| TimerFires (sys : Z * Z)
| ChannelEvent (revents err : Z) (self : bool)
| Restart (sys : Z * Z).

(** The channel as the poller hands it to [handleEvent]: two callbacks are set. *)
Definition polled_channel (v : view) (revents : Z) : Channel.t :=
  Channel.mk (v_fd v) (v_events v) revents 0 false true false true true false.

Fixpoint run_callbacks (l : list Channel.callback) (err : Z) (self : bool) (c : t) : outcome t :=
  match l with
  | [] => Ret c
  | Channel.ErrorCb :: l' => c1 ← handleError c; run_callbacks l' err self c1
  | Channel.WriteCb :: l' => c1 ← handleWrite err self c; run_callbacks l' err self c1
  | _ :: l' => run_callbacks l' err self c
  end.

Definition step (e : event) (c : t) : outcome t :=
  match e with
  | Stop => Ret (stop c)
  | NextFunctor sys =>
      match functors c with
      | [] => Ret c
      | StartInLoop :: q => startInLoop sys (set_functors q c)
      | ResetChannel :: q => Ret (resetChannel (set_functors q c))
      end
  | TimerFires sys =>
      match timers c with
      | S n => if bool_decide (ResetChannel ∈ functors c) then Ret c else startInLoop sys (set_timers n c)
      | O => Ret c
      end
  | ChannelEvent revents err self =>
      match channel_ c with
      | Some v =>
          match v_status v with
          | Polled => run_callbacks (Channel.handleEvent (polled_channel v revents)) err self c
          | _ => Ret c
          end
      | None => Ret c
      end
  | Restart sys =>
      (* TcpClient restarts when the connection it was handed has closed *)
      if bool_decide (state_ c = kConnected) && bool_decide (channel_ c = None) then restart sys c else Ret c
  end.

Fixpoint steps (l : list event) (c : t) : outcome t :=
  match l with [] => Ret c | e :: l' => c1 ← step e c; steps l' c1 end.

(** ** Invariant *)

Definition backoff (k : nat) : Z := Z.min (kInitRetryDelayMs * 2 ^ Z.of_nat k) kMaxRetryDelayMs.

(** The channel is gone, or removed and about to be reset. *)
Definition parked (c : t) : Prop :=
  (channel_ c = None /\ functors c = []) \/
  (exists fd, channel_ c = Some (mkv fd 0 Removed) /\ functors c = [ResetChannel]).

(** Or the first attempt is queued. *)
Definition channel_idle (c : t) : Prop :=
  parked c \/ (channel_ c = None /\ functors c = [StartInLoop] /\ timers c = 0%nat).

(** At most one attempt is under way: queued, waiting for a timer or in progress. *)
Inductive shape (c : t) : Prop :=
| ShDisconnected : state_ c = kDisconnected -> (timers c <= 1)%nat -> channel_idle c -> sockets c = [] -> shape c
| ShConnecting fd : state_ c = kConnecting -> timers c = 0%nat -> functors c = [] ->
    channel_ c = Some (mkv fd Channel.kWriteEvent Polled) -> sockets c = [fd] -> shape c
| ShConnected : state_ c = kConnected -> timers c = 0%nat -> parked c -> sockets c = [] -> shape c.

Record inv (c : t) : Prop := {
  i_shape : shape c;
  i_delay : retryDelayMs_ c = backoff (length (delays c));
  i_delays : delays c = map backoff (seq 0 (length (delays c)))
}.

(** Every event's socket(2) succeeds. *)
Definition event_ok (e : event) : Prop :=
  match e with NextFunctor sys | TimerFires sys | Restart sys => 0 <= fst sys | _ => True end.

(** ** Lemmas *)

Lemma backoff_next k : Z.min (backoff k * 2) kMaxRetryDelayMs = backoff (S k).
Proof.
  unfold backoff. rewrite Nat2Z.inj_succ, Z.pow_succ_r by lia. unfold kInitRetryDelayMs, kMaxRetryDelayMs.
  assert (0 < 2 ^ Z.of_nat k) by (apply Z.pow_pos_nonneg; lia). lia.
Qed.

Lemma delays_snoc l : l = map backoff (seq 0 (length l)) ->
  l ++ [backoff (length l)] = map backoff (seq 0 (length (l ++ [backoff (length l)]))).
Proof. intros H. rewrite length_app, Nat.add_comm. cbn [length Nat.add]. rewrite seq_S, map_app. cbn. by rewrite <- H. Qed.

(** What a stopped connector keeps. *)
Definition frozen (c c' : t) : Prop := connect_ c = false -> connect_ c' = false /\ handed c' = handed c /\ delays c' = delays c.

Lemma filter_one fd : filter (fun x : Z => x <> fd) [fd] = [].
Proof. rewrite filter_cons_False by (by intros ?). done. Qed.

Definition delays_ok (c : t) : Prop :=
  retryDelayMs_ c = backoff (length (delays c)) /\ delays c = map backoff (seq 0 (length (delays c))).

Lemma retry_ok fd c : sockets c = [fd] -> timers c = 0%nat -> parked c -> delays_ok c ->
  inv (retry fd c) /\ frozen c (retry fd c) /\ state_ (retry fd c) = kDisconnected.
Proof.
  intros Hs Ht Hi [Id Il]. unfold retry. cbn [connect_ setState close]. destruct (connect_ c) eqn:E.
  - split_and!; [|by unfold frozen; rewrite E|done]. split; cbn [retryDelayMs_ delays setState close].
    + apply ShDisconnected; cbn [state_ timers sockets setState close]; [done|lia|by left|by rewrite Hs, filter_one].
    + rewrite Id, backoff_next. f_equal. rewrite length_app. cbn. lia.
    + rewrite Id. by apply delays_snoc.
  - split_and!; [|done|done]. split; [|done|done].
    apply ShDisconnected; cbn [state_ timers sockets setState close]; [done|lia|by left|by rewrite Hs, filter_one].
Qed.

Lemma startInLoop_ok sys c : 0 <= fst sys -> state_ c = kDisconnected -> timers c = 0%nat -> functors c = [] ->
  channel_ c = None -> sockets c = [] -> delays_ok c ->
  returns (startInLoop sys c) (fun c' => inv c' /\ frozen c c').
Proof.
  intros Hfd Hst Ht Hf Hc Hs [Hd Hl]. unfold startInLoop. rewrite check_bind by (by apply bool_decide_eq_true_2).
  destruct (connect_ c) eqn:E.
  2: { cbn. split; [|done]. split; [|done|done]. apply ShDisconnected; try done; [lia|by left; left]. }
  unfold connect. destruct sys as [fd errno]. cbn [fst] in Hfd. rewrite (proj2 (Z.ltb_ge fd 0)) by done. rewrite bind_Ret.
  destruct (retry_ok fd (open_socket fd c)) as (H1 & _ & _); [cbn; by rewrite Hs|done|by left|done|].
  assert (forall c', frozen c c') as Hfr by (intros c' ?; congruence).
  destruct (one_of _ errno).
  - unfold connecting. cbn [channel_ setState open_socket]. rewrite check_bind by (by apply bool_decide_eq_true_2).
    cbn. split; [|done]. split; [|done|done]. eapply (ShConnecting _ fd); cbn; try done. by rewrite Hs.
  - destruct (one_of _ errno); cbn [returns]; [by split|]. split; [|done]. split; [|done|done].
    apply ShDisconnected; cbn [state_ timers sockets close open_socket]; [done|lia|by left; left|by rewrite Hs, filter_one].
Qed.

(** Removing the channel of an attempt in progress. *)
Lemma connector_remove_ok c fd : channel_ c = Some (mkv fd Channel.kWriteEvent Polled) -> functors c = [] ->
  removeAndResetChannel c = Ret (fd, set_functors [ResetChannel] (set_channel (Some (mkv fd 0 Removed)) c)).
Proof. intros H Hf. unfold removeAndResetChannel. rewrite H, Hf. done. Qed.

(** The attempt in progress ends. *)
Lemma handleError_ok c fd : state_ c = kConnecting -> channel_ c = Some (mkv fd Channel.kWriteEvent Polled) ->
  sockets c = [fd] -> timers c = 0%nat -> functors c = [] -> delays_ok c ->
  returns (handleError c) (fun c' => inv c' /\ frozen c c' /\ state_ c' = kDisconnected).
Proof.
  intros Hs Hc Hso Ht Hf Hd. unfold handleError. rewrite check_bind by (by apply bool_decide_eq_true_2).
  rewrite (connector_remove_ok c fd), bind_Ret by done. cbn [returns].
  apply (retry_ok fd (set_functors [ResetChannel] (set_channel (Some (mkv fd 0 Removed)) c))); try done. right. by exists fd.
Qed.

Lemma handleWrite_ok c fd err self : state_ c = kConnecting -> channel_ c = Some (mkv fd Channel.kWriteEvent Polled) ->
  sockets c = [fd] -> timers c = 0%nat -> functors c = [] -> delays_ok c ->
  returns (handleWrite err self c) (fun c' => inv c' /\ frozen c c').
Proof.
  intros Hs Hc Hso Ht Hf Hd. unfold handleWrite. rewrite bool_decide_eq_true_2 by done.
  rewrite (connector_remove_ok c fd), bind_Ret by done. set (c1 := set_functors _ _).
  assert (inv (retry fd c1) /\ frozen c (retry fd c1)) as Hr.
  { destruct (retry_ok fd c1) as (? & ? & _); try done. right. by exists fd. }
  destruct (negb (err =? 0)); [done|]. destruct self; [done|]. cbn [connect_ setState c1 set_functors set_channel].
  assert (parked c1) as Hp by (right; by exists fd). destruct Hd as [Hd Hl].
  destruct (connect_ c) eqn:E; (split; [split; [|done|done]|by unfold frozen; rewrite E]);
    apply ShConnected; cbn [state_ timers sockets close newConnectionCallback_ setState c1 set_functors set_channel]; try done;
    by rewrite Hso, filter_one.
Qed.

(** After an error callback the write callback finds the connector disconnected. *)
Lemma channel_ok c v revents err self : inv c -> channel_ c = Some v -> v_status v = Polled ->
  returns (run_callbacks (Channel.handleEvent (polled_channel v revents)) err self c) (fun c' => inv c' /\ frozen c c').
Proof.
  intros [Is Id Il] Hc Hv. assert (delays_ok c) as Hd by done.
  destruct Is as [? ? [[[E ?]|[? [E ?]]]|(E & _)] _|fd Hs Ht Hf Hc' Hso|? ? [[E ?]|[? [E ?]]] _]; try congruence;
    [rewrite E in Hc; by injection Hc as <-| |rewrite E in Hc; by injection Hc as <-].
  unfold Channel.handleEvent. cbn [Channel.revents_ Channel.closeCallback_ Channel.errorCallback_ Channel.readCallback_ Channel.writeCallback_ polled_channel].
  assert (forall x : bool, (if x then @nil Channel.callback else []) = []) as Hnil by (by destruct x).
  rewrite !Hnil. cbn [app].
  assert (returns (Ret c) (fun c' => inv c' /\ frozen c c')) as Hidle by (split; [split; [by eapply ShConnecting|done|done]|done]).
  destruct (has revents (Z.lor POLLERR POLLNVAL)), (has revents POLLOUT); cbn [app run_callbacks]; try done.
  - eapply returns_seq; [by eapply handleError_ok|]. intros c1 (I1 & F1 & S1). unfold handleWrite.
    rewrite S1, bool_decide_eq_false_2, bool_decide_eq_true_2 by done. cbn. done.
  - eapply returns_seq; [by eapply handleError_ok|]. intros c1 (I1 & F1 & S1). done.
  - eapply returns_seq; [by eapply handleWrite_ok|]. intros c1 (I1 & F1). done.
Qed.

Lemma connector_step e c : inv c -> event_ok e ->
  returns (step e c) (fun c' => inv c' /\ match e with Restart _ => True | _ => frozen c c' end).
Proof.
  intros I He. pose proof I as [Is Id Il]. destruct e as [|sys|sys|revents err self|sys]; cbn [step event_ok] in *.
  - split; [|done]. split; [|done|done]. destruct Is; by econstructor.
  - destruct Is as [Hs Ht [[[E Hf]|[fd [E Hf]]]|(E & Hf & Ht')] Hso|fd Hs Ht Hf Hc' Hso|Hs Ht [[E Hf]|[fd [E Hf]]] Hso];
      rewrite Hf; try (by split).
    + split; [|done]. split; [|done|done]. apply ShDisconnected; try done. by left; left.
    + by apply (startInLoop_ok sys (set_functors [] c)).
    + split; [|done]. split; [|done|done]. apply ShConnected; try done. by left.
  - destruct (timers c) as [|n] eqn:Ht; [by split|]. case_bool_decide as Hr; [by split|].
    destruct Is as [Hs Ht' [[[E Hf]|[fd [E Hf]]]|(E & Hf & Ht'')] Hso|fd Hs Ht' Hf Hc' Hso|Hs Ht' ? Hso]; try congruence.
    + apply (startInLoop_ok sys (set_timers n c)); try done. cbn. lia.
    + rewrite Hf in Hr. set_solver.
  - destruct (channel_ c) as [v|] eqn:E; [|by split]. destruct (v_status v) eqn:Ev; try (by split). by apply channel_ok.
  - destruct (bool_decide _ && bool_decide _) eqn:E; [|by split]. apply andb_true_iff in E as [E1%bool_decide_eq_true E2%bool_decide_eq_true].
    destruct Is as [? ? ? ?|? ? ? ? ?|Hs Ht [[Ec Hf]|[fd [Ec Hf]]] Hso]; try congruence.
    eapply returns_mono; [|apply startInLoop_ok; try done]. by intros c' [? _].
Qed.

Lemma inv_Connector : inv Connector.
Proof. split; [|done|done]. apply ShDisconnected; try done; [cbn; lia|by left; left]. Qed.

Lemma start_ok inLoop sys : 0 <= fst sys -> returns (start inLoop sys Connector) inv.
Proof.
  intros H. unfold start. destruct inLoop.
  - eapply returns_mono; [|by apply startInLoop_ok]. by intros c [? _].
  - split; [|done|done]. apply ShDisconnected; try done; [cbn; lia|by right].
Qed.

Definition is_start (f : task) : bool := match f with StartInLoop => true | _ => false end.
Definition restarts (e : event) : bool := match e with Restart _ => true | _ => false end.

Lemma connector_steps l : forall c, inv c -> Forall event_ok l -> returns (steps l c) (fun c' => inv c' /\
  (Forall (fun e => restarts e = false) l -> frozen c c')).
Proof.
  induction l as [|e l IH]; intros c I He; cbn [steps]; [by split|]. inversion He; subst.
  eapply returns_seq; [by apply connector_step|]. intros c1 [I1 F1].
  eapply returns_mono; [|by apply IH]. intros c2 [I2 F2]. split; [done|]. intros Hr. inversion Hr as [|? ? Hr1 Hr2]; subst.
  specialize (F2 Hr2). intros E. assert (frozen c c1) as F by (by destruct e).
  destruct (F E) as (E1 & E2 & E3). destruct (F2 E1) as (-> & -> & ->). done.
Qed.

(** C29: the connector.  Whatever connect(2), SO_ERROR and the poller answer, and
    whenever it is stopped, a started connector fails no assertion; it has a socket
    open exactly while it is connecting (every other one was closed or handed over),
    at most one attempt is queued, waiting for a timer or in progress, and the
    delays between its attempts double from 500 ms up to 30 s.  Once stopped it
    neither hands over a connection nor schedules another attempt. *)
Theorem connector_retries inLoop sys l1 l2 : 0 <= fst sys -> Forall event_ok l1 -> Forall event_ok l2 ->
  Forall (fun e => restarts e = false) l2 ->
  returns (c ← start inLoop sys Connector; steps l1 c) (fun c1 =>
    (length (sockets c1) = if bool_decide (state_ c1 = kConnecting) then 1 else 0)%nat /\
    (timers c1 + length (sockets c1) + length (List.filter is_start (functors c1)) <= 1)%nat /\
    delays c1 = map backoff (seq 0 (length (delays c1))) /\
    returns (steps (Stop :: l2) c1) (fun c2 => handed c2 = handed c1 /\ delays c2 = delays c1)).
Proof.
  intros H H1 H2 Hr. eapply returns_seq; [by apply start_ok|]. intros c I.
  eapply returns_mono; [|by apply connector_steps]. intros c1 [I1 _].
  assert (returns (steps l2 (stop c1)) (fun c2 => handed c2 = handed c1 /\ delays c2 = delays c1)) as Hstop.
  { assert (inv (stop c1)) as Is by (by apply (connector_step Stop c1 I1)).
    eapply returns_mono; [|by apply (connector_steps l2 (stop c1))]. intros c2 [_ F]. by destruct (F Hr eq_refl) as (_ & ? & ?). }
  destruct I1 as [Is _ Il]. split_and!; try done.
  - destruct Is as [E ? ? Hso|? E ? ? ? Hso|E ? ? Hso]; by rewrite E, Hso.
  - destruct Is as [E Ht [[[? Hf]|[? [? Hf]]]|(? & Hf & Ht')] Hso|? E Ht Hf ? Hso|E Ht [[? Hf]|[? [? Hf]]] Hso];
      rewrite Hf, Hso; cbn; lia.
Qed.

Definition refused_twice : list event :=
  [NextFunctor (3, ECONNREFUSED); TimerFires (3, EINPROGRESS);
   ChannelEvent (Z.lor POLLERR POLLOUT) ECONNREFUSED false; NextFunctor (0, 0)].

(** Refused, tried again, refused through the channel with both callbacks, stopped; the
    second timer still fires. *)
Lemma connector_retries_witness : exists c1 c2,
  (c ← start false (3, 0) Connector; steps refused_twice c) = Ret c1 /\ delays c1 = [500; 1000] /\
  steps [Stop; TimerFires (4, 0)] c1 = Ret c2 /\ handed c2 = [] /\ delays c2 = [500; 1000].
Proof.
  pose proof (connector_retries false (3, 0) refused_twice [TimerFires (4, 0)]) as H.
  destruct (c ← start false (3, 0) Connector; steps refused_twice c) as [c1|] eqn:E; [|vm_compute in E; discriminate].
  assert (delays c1 = [500; 1000] /\ handed c1 = []) as [Ed Eh] by (vm_compute in E; injection E as <-; split; reflexivity).
  destruct H as (_ & _ & _ & H2); [cbn; lia|repeat constructor; cbn; lia..|repeat constructor|].
  destruct (steps [Stop; TimerFires (4, 0)] c1) as [c2|] eqn:E2; [|destruct H2].
  exists c1, c2. destruct H2 as [-> ->]. rewrite Ed, Eh. done.
Defined.

(** [stop] cannot cancel the retry timer, so starting again before it fires leaves
    two attempts, and the timer's [startInLoop] finds the connector connecting. *)
Lemma stop_then_start_fails :
  (c1 ← start true (3, ECONNREFUSED) Connector;
   c2 ← start true (3, EINPROGRESS) (stop c1);
   step (TimerFires (4, 0)) c2) = Crash AssertFailed.
Proof. vm_compute. reflexivity. Qed.

End Connector.

(** ** TcpClient *)
Module TcpClient.
Import Connector.

Record t := mk {
  connector_ : Connector.t;
  connection_ : option Z;             (* by its number *)
  retry_ : bool;
  want : bool;                        (* connect_ *)
  nextConnId_ : Z;
  destroying : list Z                 (* connections whose connectDestroyed was queued *)
}.

Definition TcpClient : t := mk Connector.Connector None false true 1 [].

Definition set_connector k c := mk k (connection_ c) (retry_ c) (want c) (nextConnId_ c) (destroying c).

Definition enableRetry (c : t) : t := mk (connector_ c) (connection_ c) true (want c) (nextConnId_ c) (destroying c).

Definition connect (inLoop : bool) (sys : Z * Z) (c : t) : outcome t :=
  k ← Connector.start inLoop sys (connector_ c);
  Ret (mk k (connection_ c) (retry_ c) true (nextConnId_ c) (destroying c)).

(** The connection, if any, is shut down: see [TcpConnection.shutdown]. *)
Definition disconnect (c : t) : t * option Z :=
  (mk (connector_ c) (connection_ c) (retry_ c) false (nextConnId_ c) (destroying c), connection_ c).

Definition stop (c : t) : t :=
  mk (Connector.stop (connector_ c)) (connection_ c) (retry_ c) false (nextConnId_ c) (destroying c).

Definition newConnection (c : t) : outcome t :=
  next ← i32 (nextConnId_ c + 1);
  Ret (mk (connector_ c) (Some (nextConnId_ c)) (retry_ c) (want c) next (destroying c)).

Definition removeConnection (conn : Z) (sys : Z * Z) (c : t) : outcome t :=
  _ ← check (bool_decide (connection_ c = Some conn));
  let c1 := mk (connector_ c) None (retry_ c) (want c) (nextConnId_ c) (destroying c ++ [conn]) in
  if retry_ c1 && want c1 then k ← restart sys (connector_ c1); Ret (set_connector k c1) else Ret c1.

Inductive event :=
| OfConnector (e : Connector.event)
| Disconnect
| ClientStop
| EnableRetry
| Closed (sys : Z * Z).              (* the current connection's close callback *)

Definition step (e : event) (c : t) : outcome t :=
  match e with
  | OfConnector e =>
      k ← Connector.step e (connector_ c);
      if (length (handed (connector_ c)) <? length (handed k))%nat then newConnection (set_connector k c)
      else Ret (set_connector k c)
  | Disconnect => Ret (fst (disconnect c))
  | ClientStop => Ret (stop c)
  | EnableRetry => Ret (enableRetry c)
  | Closed sys =>
      match connection_ c with
      | Some conn => if bool_decide (channel_ (connector_ c) = None) then removeConnection conn sys c else Ret c
      | None => Ret c
      end
  end.

Fixpoint steps (l : list event) (c : t) : outcome t :=
  match l with [] => Ret c | e :: l' => c1 ← step e c; steps l' c1 end.

Definition event_ok (e : event) : Prop :=
  match e with
  | OfConnector e => Connector.event_ok e /\ restarts e = false
  | Closed sys => 0 <= fst sys
  | _ => True
  end.

(** Connections so far, in the order of their numbers: all but the last are gone. *)
Record inv (c : t) : Prop := {
  i_connector : Connector.inv (connector_ c);
  i_connected : connection_ c <> None -> state_ (connector_ c) = kConnected;
  i_next : 1 <= nextConnId_ c;
  i_history : destroying c ++ option_list (connection_ c) = map Z.of_nat (seq 1 (Z.to_nat (nextConnId_ c - 1)))
}.

(** A connected connector stays so without handing over again, and one that hands over
    was connecting. *)
Lemma retry_handed fd k : handed (retry fd k) = handed k /\ state_ (retry fd k) <> kConnected.
Proof. unfold retry. cbn. by destruct (connect_ k). Qed.

Lemma startInLoop_handed sys k k' : startInLoop sys k = Ret k' ->
  state_ k = kDisconnected /\ handed k' = handed k /\ state_ k' <> kConnected.
Proof.
  unfold startInLoop. case_bool_decide as E; [|done]. cbn [check]. rewrite bind_Ret. intros H. split; [done|].
  destruct (connect_ k); [|injection H as <-; split; [done|congruence]].
  unfold Connector.connect in H. destruct sys as [fd errno]. destruct (fd <? 0); [done|]. rewrite bind_Ret in H.
  destruct (one_of _ errno).
  - unfold connecting in H. cbn [channel_ setState open_socket] in H. destruct (bool_decide _); [|done]. by injection H as <-.
  - destruct (one_of _ errno); injection H as <-; [by destruct (retry_handed fd (open_socket fd k)) as [-> ?]|].
    cbn. split; [done|congruence].
Qed.

Lemma remove_handed k fd k' : removeAndResetChannel k = Ret (fd, k') -> handed k' = handed k /\ connect_ k' = connect_ k.
Proof.
  unfold removeAndResetChannel. destruct (channel_ k); [|done]. destruct (TcpConnection.update _ _) as [v1|]; [|done].
  cbn [mbind outcome_bind]. destruct (TcpConnection.removeChannel v1); [|done]. by injection 1 as <- <-.
Qed.

Definition hands (k k' : Connector.t) : Prop :=
  (handed k' = handed k /\ (state_ k = kConnected <-> state_ k' = kConnected)) \/
  (state_ k = kConnecting /\ state_ k' = kConnected /\ length (handed k') = S (length (handed k))) \/
  (state_ k = kConnecting /\ handed k' = handed k).

Lemma handleError_hands k k' : handleError k = Ret k' -> state_ k = kConnecting /\ handed k' = handed k /\ state_ k' = kDisconnected.
Proof.
  unfold handleError. case_bool_decide as E; [|done]. cbn [check]. rewrite bind_Ret. intros H. split; [done|].
  destruct (removeAndResetChannel k) as [[fd k1]|] eqn:Er; [|done]. cbn in H. injection H as <-.
  apply remove_handed in Er as [<- _]. unfold retry. cbn. by destruct (connect_ k1).
Qed.

Lemma handleWrite_hands err self k k' : handleWrite err self k = Ret k' -> hands k k'.
Proof.
  unfold handleWrite. case_bool_decide as E.
  - destruct (removeAndResetChannel k) as [[fd k1]|] eqn:Er; [|done]. rewrite bind_Ret. intros H.
    apply remove_handed in Er as [Eh Ec]. pose proof (retry_handed fd k1) as [Hr _].
    destruct (negb (err =? 0)); [injection H as <-; right; right; split; [done|congruence]|].
    destruct self; [injection H as <-; right; right; split; [done|congruence]|].
    destruct (connect_ (setState kConnected k1)); injection H as <-; right; [left|right]; cbn; [by rewrite Eh|done].
  - destruct (bool_decide _); [|done]. cbn. injection 1 as <-. by left.
Qed.

Lemma step_hands e k k' : Connector.inv k -> restarts e = false -> Connector.step e k = Ret k' -> hands k k'.
Proof.
  intros [Is _ _] Hr H. destruct e as [|sys|sys|revents err self|sys]; try discriminate Hr; cbn [Connector.step] in H.
  - injection H as <-. by left.
  - destruct (functors k) as [|[] q]; [injection H as <-; by left| |injection H as <-; by left].
    apply startInLoop_handed in H as (E1 & E2 & E3). left. split; [done|]. split; [|done]. cbn in E1. congruence.
  - destruct (timers k); [injection H as <-; by left|]. destruct (bool_decide _); [injection H as <-; by left|].
    apply startInLoop_handed in H as (E1 & E2 & E3). left. split; [done|]. split; [|done]. cbn in E1. congruence.
  - destruct (channel_ k) as [v|] eqn:Ec; [|injection H as <-; by left].
    destruct (v_status v) eqn:Ev; try (injection H as <-; by left).
    unfold Channel.handleEvent in H. cbn [Channel.revents_ Channel.closeCallback_ Channel.errorCallback_ Channel.readCallback_ Channel.writeCallback_ polled_channel] in H.
    assert (forall x : bool, (if x then @nil Channel.callback else []) = []) as Hnil by (by destruct x).
    rewrite !Hnil in H. cbn [app] in H.
    destruct (has revents (Z.lor POLLERR POLLNVAL)), (has revents POLLOUT); cbn [app run_callbacks] in H;
      try (injection H as <-; by left).
    + destruct (handleError k) as [k1|] eqn:E1; [|done]. rewrite bind_Ret in H.
      apply handleError_hands in E1 as (E & Eh & Es). destruct (handleWrite err self k1) as [k2|] eqn:E2; [|done].
      injection H as <-. unfold handleWrite in E2. rewrite Es in E2. cbn in E2. injection E2 as <-. by right; right.
    + destruct (handleError k) as [k1|] eqn:E1; [|done]. injection H as <-.
      apply handleError_hands in E1 as (E & Eh & Es). by right; right.
    + destruct (handleWrite err self k) as [k1|] eqn:E1; [|done]. injection H as <-. by apply handleWrite_hands in E1.
Qed.

Lemma seq_extend n : 1 <= n -> map Z.of_nat (seq 1 (Z.to_nat (n + 1 - 1))) = map Z.of_nat (seq 1 (Z.to_nat (n - 1))) ++ [n].
Proof.
  intros H. replace (Z.to_nat (n + 1 - 1)) with (S (Z.to_nat (n - 1))) by lia. rewrite seq_S, map_app. cbn. do 2 f_equal. lia.
Qed.

Lemma client_step e c : inv c -> event_ok e -> nextConnId_ c < 2 ^ 31 - 1 ->
  returns (step e c) (fun c' => inv c' /\ nextConnId_ c' <= nextConnId_ c + 1).
Proof.
  intros [Ik Ic In Ih] He Hn. destruct e as [e| | | |sys]; cbn [step event_ok] in *.
  - destruct He as [He Hr]. pose proof (Connector.connector_step e _ Ik He) as Hk.
    destruct (Connector.step e (connector_ c)) as [k|] eqn:Ek; [|done]. destruct Hk as [Ik' _]. rewrite bind_Ret.
    apply step_hands in Ek; [|done|done].
    assert (connection_ c <> None -> handed k = handed (connector_ c) /\ state_ k = kConnected) as Hcon.
    { intros Hne. specialize (Ic Hne). destruct Ek as [[? ?]|[(? & _)|(? & _)]]; [|congruence..]. split; [done|tauto]. }
    destruct (_ <? _)%nat eqn:El.
    + apply Nat.ltb_lt in El. assert (connection_ c = None) as En.
      { destruct (connection_ c); [|done]. destruct Hcon as [E _]; [done|]. rewrite E in El. lia. }
      unfold newConnection. cbn [nextConnId_ set_connector]. rewrite i32_ok, bind_Ret by lia. cbn [returns]. split; [|cbn; lia].
      split; cbn [connector_ connection_ nextConnId_ destroying set_connector option_list]; [done| |lia|].
      * intros _. destruct Ek as [[E _]|[(_ & ? & _)|(_ & E)]]; [rewrite E in El; lia|done|rewrite E in El; lia].
      * rewrite En in Ih. cbn in Ih. rewrite app_nil_r in Ih. rewrite seq_extend by done. by rewrite <- Ih.
    + cbn [returns]. split; [|cbn; lia]. split; try done. intros Hne. by apply Hcon.
  - split; [by split|cbn; lia].
  - split; [|cbn; lia]. split; try done. exact (proj1 (Connector.connector_step Connector.Stop _ Ik Logic.I)).
  - split; [by split|cbn; lia].
  - destruct (connection_ c) as [conn|] eqn:Ec; [|by split; [split; rewrite ?Ec|lia]].
    case_bool_decide as Hch; [|by split; [split; rewrite ?Ec|lia]].
    assert (state_ (connector_ c) = kConnected) as Hs by (by apply Ic).
    unfold removeConnection. rewrite Ec. rewrite check_bind by (by apply bool_decide_eq_true_2).
    cbn [retry_ want connector_].
    assert (destroying c ++ [conn] = map Z.of_nat (seq 1 (Z.to_nat (nextConnId_ c - 1)))) as Hh by (by rewrite <- Ih).
    destruct (retry_ c && want c).
    + pose proof (Connector.connector_step (Restart sys) _ Ik He) as Hk. cbn [Connector.step] in Hk.
      rewrite !bool_decide_eq_true_2 in Hk by done. cbn [andb] in Hk.
      eapply returns_seq; [exact Hk|]. intros k [Ik' _]. cbn [returns]. split; [|cbn; lia].
      split; cbn; try done. by rewrite app_nil_r.
    + cbn [returns]. split; [|cbn; lia]. split; cbn; try done. by rewrite app_nil_r.
Qed.

Lemma client_steps l : forall c, inv c -> Forall event_ok l -> nextConnId_ c + zlen l < 2 ^ 31 ->
  returns (steps l c) inv.
Proof.
  induction l as [|e l IH]; intros c I He Hn; cbn [steps]; [done|]. rewrite zlen_cons in Hn. inversion He; subst.
  pose proof (zlen_nonneg l). eapply returns_seq; [apply client_step; [done|done|lia]|].
  intros c1 [I1 Hn1]. apply IH; [done|done|lia].
Qed.

(** C30: the client.  Over any run of a client that called [connect], no
    assertion of it or its connector fails (so the connection whose close callback
    runs is the current one), it never has two connections: every earlier one was
    removed and queued for destruction, in order, before the next was made; and
    while it has a connection its connector is idle. *)
Theorem client_one_connection inLoop sys l : 0 <= fst sys -> Forall event_ok l -> zlen l < 2 ^ 31 - 1 ->
  returns (c ← connect inLoop sys TcpClient; steps l c) (fun c =>
    destroying c ++ option_list (connection_ c) = map Z.of_nat (seq 1 (Z.to_nat (nextConnId_ c - 1))) /\
    (connection_ c <> None -> sockets (connector_ c) = [] /\ timers (connector_ c) = 0%nat)).
Proof.
  intros H He Hn. eapply (returns_seq _ _ (fun c => inv c /\ nextConnId_ c = 1)).
  - unfold connect. eapply returns_seq; [by apply Connector.start_ok|]. intros k I. cbn. split; [|done]. by split.
  - intros c [I E]. eapply returns_mono; [|apply client_steps; [done|done|lia]]. intros c' [Ik Ic _ Ih]. split; [done|].
    intros Hne. specialize (Ic Hne). destruct (Connector.i_shape _ Ik) as [E'|? E'|? Ht ? Hs]; [congruence..|done].
Qed.

(** A connection, its close, a reconnect that succeeds. *)
Lemma client_one_connection_witness : exists c,
  (c ← connect true (3, EINPROGRESS) TcpClient;
   steps [EnableRetry; OfConnector (ChannelEvent POLLOUT 0 false); OfConnector (NextFunctor (0, 0));
          Closed (5, EINPROGRESS); OfConnector (ChannelEvent POLLOUT 0 false)] c) = Ret c /\
  destroying c = [1] /\ connection_ c = Some 2 /\ sockets (connector_ c) = [].
Proof.
  pose proof (client_one_connection true (3, EINPROGRESS)
    [EnableRetry; OfConnector (ChannelEvent POLLOUT 0 false); OfConnector (NextFunctor (0, 0));
     Closed (5, EINPROGRESS); OfConnector (ChannelEvent POLLOUT 0 false)]) as H.
  destruct (c ← _; _) as [c|] eqn:E; [|vm_compute in E; discriminate].
  assert (destroying c = [1] /\ connection_ c = Some 2) as [E1 E2] by (vm_compute in E; injection E as <-; split; reflexivity).
  exists c. destruct H as (_ & H); [cbn; lia|repeat (apply List.Forall_cons; [by cbn|]); apply List.Forall_nil|vm_compute; reflexivity|].
  destruct H as [H _]; [by rewrite E2|]. done.
Defined.

End TcpClient.
