(* ===== verification/Server.v ===== *)
(** * SocketsOps' accept, Acceptor.h/.cc and TcpServer.h/.cc

    [Acceptor] runs over a descriptor table that hands out the lowest free number
    below a limit, as the kernel does, and a queue of connections waiting to be
    accepted.  [TcpServer] keeps its map of connections; each connection goes through
    the calls the server and the loops make for it, in threads that may differ. *)

From S2P Require Import Prelude Format Poller TcpConnection Client EventLoop.

Definition EMFILE : Z := 24.
Definition EPROTO : Z := 71.
Definition ECONNABORTED : Z := 103.

Module Acceptor.

(** The process's descriptors, their limit, and the connections waiting. *)
Record kernel := mkk { fds : gset Z; limit : Z; backlog : list Z }.

Definition lowest_free (k : kernel) : option Z :=
  List.find (fun fd => bool_decide (fd ∉ fds k)) (seqZ 0 (limit k)).

(** accept(2), or the error [fault]: the descriptor or errno. *)
Definition sys_accept (fault : option Z) (k : kernel) : (Z + Z) * kernel :=
  match fault with
  | Some errno => (inr errno, k)
  | None =>
      match lowest_free k, backlog k with
      | None, _ => (inr EMFILE, k)
      | Some _, [] => (inr EAGAIN, k)
      | Some fd, _ :: ps => (inl fd, mkk ({[ fd ]} ∪ fds k) (limit k) ps)
      end
  end.

Definition sys_close (fd : Z) (k : kernel) : kernel := mkk (fds k ∖ {[ fd ]}) (limit k) (backlog k).

(** open("/dev/null"): -1 when no descriptor is free. *)
Definition sys_open (k : kernel) : Z * kernel :=
  match lowest_free k with
  | Some fd => (fd, mkk ({[ fd ]} ∪ fds k) (limit k) (backlog k))
  | None => (-1, k)
  end.

(** [sockets::accept]: the errors it expects, [LOG_FATAL] on the others. *)
Definition accept (fault : option Z) (k : kernel) : outcome ((Z + Z) * kernel) :=
  match sys_accept fault k with
  | (inl connfd, k') => Ret (inl connfd, k')
  | (inr savedErrno, k') =>
      if one_of [EAGAIN; ECONNABORTED; EINTR; EPROTO; EPERM; EMFILE] savedErrno then Ret (inr savedErrno, k')
      else Crash FatalLog
  end.

Record t := mk {
  acceptSocket_ : Z;
  acceptChannel_ : Poller.view;
  newConnectionCallback_ : bool;
  listening_ : bool;
  idleFd_ : Z
}.

Definition Acceptor (k : kernel) : outcome (t * kernel) :=
  match lowest_free k with
  | None => Crash FatalLog
  | Some fd =>
      let '(idle, k') := sys_open (mkk ({[ fd ]} ∪ fds k) (limit k) (backlog k)) in
      _ ← check (0 <=? idle);
      Ret (mk fd (Poller.mkv fd 0 Poller.Fresh) false false idle, k')
  end.

Definition setNewConnectionCallback (a : t) : t :=
  mk (acceptSocket_ a) (acceptChannel_ a) true (listening_ a) (idleFd_ a).

(** [ok]: listen(2) succeeds. *)
Definition listen (ok : bool) (a : t) : outcome t :=
  _ ← (if ok then Ret tt else Crash FatalLog);
  v ← TcpConnection.update Channel.enableReading_ev (acceptChannel_ a);
  Ret (mk (acceptSocket_ a) v (newConnectionCallback_ a) true (idleFd_ a)).

(** The connection handed to [newConnectionCallback_], if any. *)
Definition handleRead (fault : option Z) (a : t) (k : kernel) : outcome (option Z * t * kernel) :=
  '(r, k1) ← accept fault k;
  match r with
  | inl connfd =>
      if newConnectionCallback_ a then Ret (Some connfd, a, k1) else Ret (None, a, sys_close connfd k1)
  | inr errno =>
      if errno =? EMFILE then
        let k2 := sys_close (idleFd_ a) k1 in
        let '(idle, k3) := match sys_accept None k2 with (inl fd, k3) => (fd, k3) | (inr _, k3) => (-1, k3) end in
        let k4 := sys_close idle k3 in
        let '(idle', k5) := sys_open k4 in
        Ret (None, mk (acceptSocket_ a) (acceptChannel_ a) (newConnectionCallback_ a) (listening_ a) idle', k5)
      else Ret (None, a, k1)
  end.

(** The destructor's channel operations. *)
Definition destroy (a : t) (k : kernel) : outcome kernel :=
  v1 ← TcpConnection.update Channel.disableAll_ev (acceptChannel_ a);
  _ ← TcpConnection.removeChannel v1;
  Ret (sys_close (acceptSocket_ a) (sys_close (idleFd_ a) k)).

Record inv (a : t) (k : kernel) : Prop := {
  i_range fd : fd ∈ fds k -> 0 <= fd < limit k;
  i_idle : idleFd_ a ∈ fds k;
  i_listen : acceptSocket_ a ∈ fds k;
  i_distinct : idleFd_ a <> acceptSocket_ a
}.

Lemma find_first {A} (f : A -> bool) l x : List.find f l = Some x -> x ∈ l /\ f x = true.
Proof. intros H. destruct (List.find_some f l H) as [? ?]. by split; [apply list_elem_of_In|]. Qed.

Lemma lowest_free_some k fd : lowest_free k = Some fd -> (fd ∉ fds k) /\ 0 <= fd < limit k.
Proof.
  unfold lowest_free. intros [H1 H2]%find_first. apply elem_of_seqZ in H1. apply bool_decide_eq_true in H2. split; [done|lia].
Qed.

Lemma lowest_free_none k fd : lowest_free k = None -> 0 <= fd < limit k -> fd ∈ fds k.
Proof.
  unfold lowest_free. intros H Hr. pose proof (List.find_none _ _ H fd) as Hf. rewrite <- list_elem_of_In, elem_of_seqZ in Hf.
  assert (bool_decide (fd ∉ fds k) = false) as E by (apply Hf; lia). apply bool_decide_eq_false in E.
  by apply dec_stable.
Qed.

(** A full table with one descriptor closed has exactly that one free. *)
Lemma lowest_free_only k fd : lowest_free k = None -> 0 <= fd < limit k ->
  forall b, lowest_free (mkk (fds k ∖ {[ fd ]}) (limit k) b) = Some fd.
Proof.
  intros H Hr b. destruct (lowest_free (mkk _ _ _)) as [x|] eqn:E.
  - apply lowest_free_some in E as [E1 E2]. cbn [fds limit] in *. pose proof (lowest_free_none k x H E2). f_equal.
    destruct (decide (x = fd)); [done|]. set_solver.
  - pose proof (lowest_free_none _ fd E Hr) as H1. cbn in H1. set_solver.
Qed.

(** C31: the acceptor never stalls.  When the listening socket is readable (a connection is
    waiting), [handleRead] takes exactly one connection off the queue: it hands it over under a
    new descriptor when there is one, and when the process has run out of
    descriptors it accepts and drops it with the descriptor kept in reserve, and
    leaves the table as it was with the reserve again in place. *)
Theorem acceptor_never_stalls a k p ps : inv a k -> newConnectionCallback_ a = true -> backlog k = p :: ps ->
  returns (handleRead None a k) (fun '(r, a', k') =>
    inv a' k' /\ backlog k' = ps /\
    match r with
    | Some connfd => (connfd ∉ fds k) /\ 0 <= connfd < limit k /\ fds k' = {[ connfd ]} ∪ fds k /\ a' = a
    | None => (forall fd, 0 <= fd < limit k -> fd ∈ fds k) /\ fds k' = fds k /\ a' = a
    end).
Proof.
  intros I Hcb Hb. unfold handleRead, accept, sys_accept. destruct (lowest_free k) as [fd|] eqn:El.
  - rewrite Hb, bind_Ret, Hcb. cbn [returns]. apply lowest_free_some in El as [E1 E2]. destruct I as [I1 I2 I3 I4].
    split_and!; try done; [|lia..]. split; cbn [fds limit]; set_solver.
  - cbn. assert (0 <= idleFd_ a < limit k) as Hr by (apply I, I). pose proof (lowest_free_only k (idleFd_ a) El Hr) as Hone.
    unfold sys_close. cbn [fds limit backlog]. rewrite Hone, Hb. cbn [fds limit backlog]. unfold sys_open.
    assert (({[idleFd_ a]} ∪ fds k ∖ {[idleFd_ a]}) ∖ {[idleFd_ a]} = fds k ∖ {[idleFd_ a]}) as -> by set_solver.
    rewrite Hone. cbn [returns fds limit backlog]. pose proof (i_idle _ _ I) as Hi.
    assert ({[idleFd_ a]} ∪ fds k ∖ {[idleFd_ a]} = fds k) as -> by (apply leibniz_equiv; symmetry; apply union_difference; set_solver).
    assert (mk (acceptSocket_ a) (acceptChannel_ a) (newConnectionCallback_ a) (listening_ a) (idleFd_ a) = a) as -> by (by destruct a).
    split_and!; try done; [destruct I; by split|]. intros fd. by apply lowest_free_none.
Qed.

Definition full_table : kernel := mkk {[ 0; 1; 2; 3; 4 ]} 5 [7; 8].
Definition listener : t := mk 3 (Poller.mkv 3 3 Poller.Polled) true true 4.

Lemma acceptor_never_stalls_witness :
  returns (handleRead None listener full_table) (fun '(r, a', k') =>
    inv a' k' /\ backlog k' = [8] /\
    match r with
    | Some connfd => (connfd ∉ fds full_table) /\ 0 <= connfd < 5 /\ fds k' = {[ connfd ]} ∪ fds full_table /\ a' = listener
    | None => (forall fd, 0 <= fd < 5 -> fd ∈ fds full_table) /\ fds k' = fds full_table /\ a' = listener
    end).
Proof.
  apply (acceptor_never_stalls listener full_table 7 [8]); [|reflexivity|reflexivity].
  split; cbn; [|set_solver|set_solver|lia]. intros fd H. assert (fd = 0 \/ fd = 1 \/ fd = 2 \/ fd = 3 \/ fd = 4) by set_solver. lia.
Defined.

(** Destroying an acceptor that never listened fails the poller's assertion: disabling
    a channel that was never added adds it. *)
Lemma destroy_before_listen_fails fd idle cb k :
  destroy (mk fd (Poller.mkv fd 0 Poller.Fresh) cb false idle) k = Crash AssertFailed.
Proof. reflexivity. Qed.

End Acceptor.

Module TcpServer.
Import EventLoopThreadPool.

(** Where a connection is: established, its removal queued in the server's loop, its
    [connectDestroyed] queued in its own loop, destroyed. *)
Inductive phase := Up | RemoveQueued | DestroyQueued | Gone.

#[export] Instance phase_eq_dec : EqDecision phase.
Proof. solve_decision. Defined.

(** A connection object: its name and its loop ([None] is the server's own). *)
Record conn := mkc { name : bytes; ioLoop : option nat; stage : phase }.

(** [conns] are the connection objects by number; the map holds their numbers. *)
Record t := mk {
  name_ : bytes;
  started_ : bool;
  threadPool_ : EventLoopThreadPool.t;
  nextConnId_ : Z;
  connections_ : gmap bytes Z;
  conns : gmap Z conn
}.

Definition TcpServer (nameArg : bytes) : t :=
  mk nameArg false EventLoopThreadPool.EventLoopThreadPool 1 ∅ ∅.

Definition setThreadNum (numThreads : Z) (s : t) : outcome t :=
  _ ← check (0 <=? numThreads);
  Ret (mk (name_ s) (started_ s) (EventLoopThreadPool.setThreadNum numThreads (threadPool_ s)) (nextConnId_ s)
    (connections_ s) (conns s)).

(** [start]; the acceptor listens the first time. *)
Definition start (inLoop : bool) (s : t) : outcome t :=
  if negb (started_ s) then
    pool ← EventLoopThreadPool.start inLoop (threadPool_ s);
    Ret (mk (name_ s) true pool (nextConnId_ s) (connections_ s) (conns s))
  else Ret s.

Definition conn_name (base : bytes) (n : Z) : bytes := base ++ snprintf 32 (lit "#" ++ show n).

Definition newConnection (s : t) : outcome t :=
  let id := nextConnId_ s in
  next ← i32 (nextConnId_ s + 1);
  let connName := conn_name (name_ s) id in
  '(io, pool) ← getNextLoop true (threadPool_ s);
  Ret (mk (name_ s) (started_ s) pool next (<[connName := id]> (connections_ s))
    (<[id := mkc connName io Up]> (conns s))).

Definition set_stage (id : Z) (p : phase) (s : t) : t :=
  mk (name_ s) (started_ s) (threadPool_ s) (nextConnId_ s) (connections_ s)
    (alter (fun c => mkc (name c) (ioLoop c) p) id (conns s)).

Definition removeConnectionInLoop (id : Z) (s : t) : outcome t :=
  match conns s !! id with
  | None => Crash UseAfterFree
  | Some c =>
      _ ← check (bool_decide (is_Some (connections_ s !! name c)));
      Ret (set_stage id DestroyQueued
        (mk (name_ s) (started_ s) (threadPool_ s) (nextConnId_ s) (delete (name c) (connections_ s)) (conns s)))
  end.

(** [removeConnection], called in the connection's loop: [runInLoop] of the server's. *)
Definition removeConnection (id : Z) (s : t) : outcome t :=
  match conns s !! id with
  | None => Crash UseAfterFree
  | Some c =>
      match ioLoop c with
      | None => removeConnectionInLoop id s
      | Some _ => Ret (set_stage id RemoveQueued s)
      end
  end.

(** The close callback of an established connection, the server's loop running a queued
    removal, a connection's loop running its [connectDestroyed]. *)
Inductive event := Accept | Close (id : Z) | RunRemove (id : Z) | RunDestroy (id : Z).

Definition at_stage (id : Z) (p : phase) (s : t) : bool :=
  match conns s !! id with Some c => bool_decide (stage c = p) | None => false end.

Definition step (e : event) (s : t) : outcome t :=
  match e with
  | Accept => newConnection s
  | Close id => if at_stage id Up s then removeConnection id s else Ret s
  | RunRemove id => if at_stage id RemoveQueued s then removeConnectionInLoop id s else Ret s
  | RunDestroy id => Ret (if at_stage id DestroyQueued s then set_stage id Gone s else s)
  end.

Fixpoint steps (l : list event) (s : t) : outcome t :=
  match l with [] => Ret s | e :: l' => s1 ← step e s; steps l' s1 end.

Definition registered (p : phase) : bool := match p with Up | RemoveQueued => true | _ => false end.

Record inv (base : bytes) (n : Z) (s : t) : Prop := {
  i_name : name_ s = base;
  i_next : 1 <= nextConnId_ s;
  i_pool : exists k, 0 <= k < Z.max 1 n /\ threadPool_ s = EventLoopThreadPool.mk true n k (seq 0 (Z.to_nat n)) /\
    (0 < n -> k = (nextConnId_ s - 1) mod n);
  i_conns id c : conns s !! id = Some c -> 1 <= id < nextConnId_ s /\ name c = conn_name base id /\
    ioLoop c = (if n =? 0 then None else Some (Z.to_nat ((id - 1) mod n)));
  i_all id : 1 <= id < nextConnId_ s -> is_Some (conns s !! id);
  i_map key id : connections_ s !! key = Some id <->
    exists c, conns s !! id = Some c /\ registered (stage c) = true /\ key = name c
}.

(** ** Lemmas *)

Lemma conn_name_inj base i j : 0 <= i < 2 ^ 31 -> 0 <= j < 2 ^ 31 -> conn_name base i = conn_name base j -> i = j.
Proof.
  intros Hi Hj E. unfold conn_name, snprintf in E. apply app_inv_head in E.
  assert (forall k, 0 <= k < 2 ^ 31 -> take (Z.to_nat (32 - 1)) (lit "#" ++ show k) = lit "#" ++ show k) as Ht.
  { intros k Hk. apply take_ge. assert (1 <= zlen (show k) <= 10) as Hz.
    { unfold show. rewrite (proj2 (Z.ltb_ge k 0)) by lia. apply zlen_show_nonneg; lia. }
    rewrite length_app. unfold zlen in Hz. cbn [length String.list_byte_of_string]. cbn. lia. }
  rewrite !Ht in E by done. apply app_inv_head in E. apply (f_equal read) in E. rewrite !read_show in E. congruence.
Qed.

Lemma getNextLoop_ok n k : 0 <= n < 2 ^ 31 -> 0 <= k < Z.max 1 n ->
  getNextLoop true (EventLoopThreadPool.mk true n k (seq 0 (Z.to_nat n))) =
  Ret (if n =? 0 then None else Some (Z.to_nat k),
       EventLoopThreadPool.mk true n (if n =? 0 then k else (k + 1) mod n) (seq 0 (Z.to_nat n))).
Proof.
  intros Hn Hk. unfold getNextLoop. rewrite bind_Ret. cbn [loops_ next_ numThreads_ EventLoopThreadPool.started_].
  destruct (n =? 0) eqn:E; bools; [by subst|].
  assert (zlen (seq 0 (Z.to_nat n)) = n) as Hz by (unfold zlen; rewrite length_seq; lia).
  destruct (seq 0 (Z.to_nat n)) as [|x xs] eqn:Es; [change (0 = n) in Hz; lia|]. rewrite <- Es in *.
  rewrite Hz, (proj2 (Z.leb_le 0 k)), (proj2 (Z.ltb_lt k n)) by lia. cbn [andb].
  rewrite bind_Ret, i32_ok, bind_Ret, nth_seq_0 by lia. cbv zeta. do 3 f_equal.
  destruct (n <=? k + 1) eqn:El; bools.
  - replace (k + 1) with n by lia. by rewrite Z_mod_same_full.
  - rewrite Z.mod_small; [done|lia].
Qed.

(** Moving a connection between stages. *)
Lemma set_stage_lookup id p s j : conns (set_stage id p s) !! j =
  if bool_decide (j = id) then (fun c => mkc (name c) (ioLoop c) p) <$> conns s !! j else conns s !! j.
Proof.
  unfold set_stage. cbn [conns]. case_bool_decide as E; [subst; by rewrite lookup_alter_eq|by rewrite lookup_alter_ne].
Qed.

Lemma inv_stage base n id p c s m : inv base n s -> conns s !! id = Some c ->
  (forall key j, m !! key = Some j <->
    exists c', conns (set_stage id p s) !! j = Some c' /\ registered (stage c') = true /\ key = name c') ->
  inv base n (set_stage id p (mk (name_ s) (started_ s) (threadPool_ s) (nextConnId_ s) m (conns s))).
Proof.
  intros [Ib In Ip Ic Ia Im] Hc Hm. split; cbn [nextConnId_ threadPool_ name_ set_stage connections_]; try done.
  - intros j cj. rewrite set_stage_lookup. cbn [conns].
    case_bool_decide as E; [|by apply Ic]. rewrite E, Hc. intros [= <-]. by destruct (Ic _ _ Hc).
  - intros j Hj. rewrite set_stage_lookup. cbn [conns].
    case_bool_decide; [rewrite fmap_is_Some|]; by apply Ia.
Qed.

Lemma map_unaffected base n id p c s : inv base n s -> conns s !! id = Some c -> registered p = registered (stage c) ->
  forall key j, connections_ s !! key = Some j <->
    exists c', conns (set_stage id p s) !! j = Some c' /\ registered (stage c') = true /\ key = name c'.
Proof.
  intros I Hc Hr key j. rewrite (i_map _ _ _ I), set_stage_lookup. case_bool_decide as E; [|done].
  rewrite E, Hc. split.
  - intros (c' & [= <-] & H1 & H2). eexists. split; [done|]. cbn. by rewrite Hr.
  - intros (c' & [= <-] & H1 & H2). cbn in *. exists c. by rewrite <- Hr.
Qed.

Lemma removeConnectionInLoop_ok base n id c s : inv base n s -> nextConnId_ s < 2 ^ 31 -> conns s !! id = Some c ->
  registered (stage c) = true ->
  returns (removeConnectionInLoop id s) (fun s' => inv base n s' /\ nextConnId_ s' = nextConnId_ s).
Proof.
  intros I Hn Hc Hr. unfold removeConnectionInLoop. rewrite Hc.
  assert (connections_ s !! name c = Some id) as Hm by (apply (i_map _ _ _ I); by exists c).
  rewrite check_bind by (apply bool_decide_eq_true_2; by eexists). cbn [returns]. split; [|done].
  eapply inv_stage; [done|done|]. intros key j. rewrite set_stage_lookup. rewrite lookup_delete_Some, (i_map _ _ _ I).
  destruct (i_conns _ _ _ I _ _ Hc) as (Hid & Hname & _).
  case_bool_decide as E.
  - rewrite E, Hc. split; [intros [Hne (c' & [= <-] & _ & ->)]; done|]. by intros (c' & [= <-] & ? & _).
  - split; [by intros [_ H]|]. intros (c' & Hc' & Hr' & ->). split; [|by exists c'].
    destruct (i_conns _ _ _ I _ _ Hc') as (Hj & Hname' & _). rewrite Hname, Hname'. intros E'.
    apply E. symmetry. eapply conn_name_inj; [..|exact E']; lia.
Qed.

Lemma newConnection_ok base n s : inv base n s -> 0 <= n < 2 ^ 31 -> nextConnId_ s < 2 ^ 31 - 1 ->
  returns (newConnection s) (fun s' => inv base n s' /\ nextConnId_ s' = nextConnId_ s + 1).
Proof.
  intros I Hn Hid. pose proof I as [Ib In (k & Hk & Ep & Hkn) Ic Ia Im]. unfold newConnection.
  rewrite i32_ok, bind_Ret by lia. cbv zeta. rewrite Ep, (getNextLoop_ok n k), bind_Ret by lia. cbn [returns]. split; [|done].
  assert (conns s !! nextConnId_ s = None) as Hf.
  { destruct (conns s !! nextConnId_ s) eqn:E; [|done]. apply Ic in E. lia. }
  split; cbn [nextConnId_ threadPool_ conns connections_ name_].
  - done.
  - lia.
  - exists (if n =? 0 then k else (k + 1) mod n). split; [|split; [done|]].
    + destruct (n =? 0) eqn:E; bools; [lia|]. pose proof (Z.mod_pos_bound (k + 1) n). lia.
    + intros Hp. rewrite (proj2 (Z.eqb_neq n 0)) by lia. rewrite Hkn by lia.
      rewrite Zplus_mod_idemp_l. f_equal. lia.
  - intros id c. destruct (decide (id = nextConnId_ s)) as [->|Hne].
    + rewrite lookup_insert_eq. intros [= <-]. cbn [name ioLoop]. rewrite Ib. split; [lia|]. split; [done|].
      destruct (n =? 0) eqn:E; bools; [done|]. by rewrite Hkn by lia.
    + rewrite lookup_insert_ne by done. intros H. destruct (Ic _ _ H) as (? & ? & ?). split_and!; try done; lia.
  - intros id H. destruct (decide (id = nextConnId_ s)) as [->|Hne]; [by rewrite lookup_insert_eq|].
    rewrite lookup_insert_ne by done. apply Ia. lia.
  - intros key id. rewrite lookup_insert_Some. split.
    + intros [[<- <-]|[Hne H]]; [rewrite lookup_insert_eq; by eexists|].
      apply Im in H as (c & Hc & Hr & ->). exists c. rewrite lookup_insert_ne by (intros <-; congruence). done.
    + intros (c & Hc & Hr & ->). destruct (decide (id = nextConnId_ s)) as [->|Hne].
      * rewrite lookup_insert_eq in Hc. injection Hc as <-. by left.
      * rewrite lookup_insert_ne in Hc by done. right. destruct (Ic _ _ Hc) as (Hr' & -> & _).
        split; [|apply Im; exists c; by destruct (Ic _ _ Hc) as (_ & <- & _)].
        rewrite Ib. intros E. apply Hne. symmetry. eapply conn_name_inj; [..|exact E]; lia.
Qed.

Lemma at_stage_true id p s : at_stage id p s = true -> exists c, conns s !! id = Some c /\ stage c = p.
Proof.
  unfold at_stage. destruct (conns s !! id) as [c|]; [|done]. intros H%bool_decide_eq_true. by exists c.
Qed.

Lemma eta s : mk (name_ s) (started_ s) (threadPool_ s) (nextConnId_ s) (connections_ s) (conns s) = s.
Proof. by destruct s. Qed.

Lemma server_step base n e s : inv base n s -> 0 <= n < 2 ^ 31 -> nextConnId_ s < 2 ^ 31 - 1 ->
  returns (step e s) (fun s' => inv base n s' /\ nextConnId_ s' <= nextConnId_ s + 1).
Proof.
  intros I Hn Hid. destruct e as [|id|id|id]; cbn [step].
  - eapply returns_mono; [|by apply newConnection_ok]. intros s' [? ?]. split; [done|lia].
  - destruct (at_stage id Up s) eqn:E; [|split; [done|lia]]. apply at_stage_true in E as (c & Hc & Hs).
    unfold removeConnection. rewrite Hc. destruct (ioLoop c).
    + split; [|cbn; lia]. rewrite <- (eta s). eapply inv_stage; [done|done|].
      apply (map_unaffected base n id RemoveQueued c s I Hc). by rewrite Hs.
    + eapply returns_mono; [|eapply removeConnectionInLoop_ok; try done; [lia|by rewrite Hs]]. intros s' [? ?]. split; [done|lia].
  - destruct (at_stage id RemoveQueued s) eqn:E; [|split; [done|lia]]. apply at_stage_true in E as (c & Hc & Hs).
    eapply returns_mono; [|eapply removeConnectionInLoop_ok; try done; [lia|by rewrite Hs]]. intros s' [? ?]. split; [done|lia].
  - cbn [returns]. destruct (at_stage id DestroyQueued s) eqn:E; [|split; [done|lia]]. apply at_stage_true in E as (c & Hc & Hs).
    split; [|cbn; lia]. rewrite <- (eta s). eapply inv_stage; [done|done|].
    apply (map_unaffected base n id Gone c s I Hc). by rewrite Hs.
Qed.

Lemma server_steps base n l : forall s, inv base n s -> 0 <= n < 2 ^ 31 -> nextConnId_ s + zlen l < 2 ^ 31 ->
  returns (steps l s) (inv base n).
Proof.
  induction l as [|e l IH]; intros s I Hn Hl; cbn [steps]; [done|]. rewrite zlen_cons in Hl. pose proof (zlen_nonneg l).
  eapply returns_seq; [apply server_step; [done|done|lia]|]. intros s1 [I1 H1]. apply IH; [done|done|lia].
Qed.

(** C32: the server's books.  With any number of I/O threads and any interleaving
    of accepts, close callbacks and the removals and destructions queued between the
    loops, no assertion fails: connections are numbered from 1 and dealt to the loops
    round-robin, their names are distinct, and the map holds exactly the connections
    whose removal has not run in the server's loop. *)
Theorem server_books base n l : 0 <= n < 2 ^ 31 - 1 -> zlen l < 2 ^ 31 - 1 ->
  returns (s0 ← setThreadNum n (TcpServer base); s1 ← start true s0; steps l s1) (fun s =>
    (forall id, 1 <= id < nextConnId_ s <-> is_Some (conns s !! id)) /\
    (forall id c, conns s !! id = Some c ->
       name c = conn_name base id /\ ioLoop c = (if n =? 0 then None else Some (Z.to_nat ((id - 1) mod n)))) /\
    (forall key id, connections_ s !! key = Some id <->
       exists c, conns s !! id = Some c /\ registered (stage c) = true /\ key = name c)).
Proof.
  intros Hn Hl. unfold setThreadNum. rewrite check_bind by (apply Z.leb_le; lia). rewrite bind_Ret.
  unfold start. cbn [started_ negb threadPool_ TcpServer]. unfold EventLoopThreadPool.start.
  rewrite !check_bind, !bind_Ret by done. cbn [EventLoopThreadPool.setThreadNum EventLoopThreadPool.EventLoopThreadPool numThreads_ next_ loops_ app].
  set (s1 := mk _ _ _ _ _ _). assert (inv base n s1) as I1.
  { split; cbn; [done|lia| | |lia|].
    - exists 0. split_and!; [lia..|done|]. intros. by rewrite Zmod_0_l.
    - intros id c H. by rewrite lookup_empty in H.
    - intros key id. rewrite lookup_empty. split; [done|]. intros (c & H & _). by rewrite lookup_empty in H. }
  eapply returns_mono; [|apply (server_steps base n l s1 I1); [lia|cbn; lia]].
  intros s [Ib In Ip Ic Ia Im]. split_and!; [|intros id c H; by destruct (Ic _ _ H) as (_ & ? & ?)|done].
  intros id. split; [apply Ia|]. intros [c H]. apply (Ic _ _ H).
Qed.

(** Two connections on two threads; the first closes: its removal runs in the server's
    loop, then its destruction in its own. *)
Lemma server_books_witness :
  returns (s0 ← setThreadNum 2 (TcpServer (lit "chat")); s1 ← start true s0;
           steps [Accept; Accept; Close 1; RunRemove 1; Accept; RunDestroy 1] s1) (fun s =>
    (forall id, 1 <= id < nextConnId_ s <-> is_Some (conns s !! id)) /\
    (forall id c, conns s !! id = Some c ->
       name c = conn_name (lit "chat") id /\ ioLoop c = (if 2 =? 0 then None else Some (Z.to_nat ((id - 1) mod 2)))) /\
    (forall key id, connections_ s !! key = Some id <->
       exists c, conns s !! id = Some c /\ registered (stage c) = true /\ key = name c)).
Proof.
  apply (server_books (lit "chat") 2 [Accept; Accept; Close 1; RunRemove 1; Accept; RunDestroy 1]); [lia|reflexivity].
Defined.

(** [start] is documented as thread safe, but starting the pool outside the loop's
    thread aborts. *)
Lemma start_in_other_thread_aborts base n : 0 <= n ->
  (s0 ← setThreadNum n (TcpServer base); start false s0) = Crash FatalLog.
Proof. intros H. unfold setThreadNum. by rewrite check_bind, bind_Ret by (by apply Z.leb_le). Qed.

End TcpServer.
