(* ===== verification/Hub.v ===== *)
(** * excercises/hub: the publish/subscribe hub

    [codec.cc] parses the text protocol out of a [Buffer], [hub.cc] keeps the topics and
    the subscriptions of each connection, [pubsub.cc] is the client side.
    [Buffer::findCRLF(const char* )], which the codec calls for the body of a
    publication, is not declared in Buffer.h: it is a parameter here, with the meaning
    its callers rely on as a hypothesis. *)

From S2P Require Import Prelude Endian NetBuffer Calendar TimeZone.

Module Codec.
Import Lines.

Inductive ParseResult := kError | kSuccess | kContinue.

#[export] Instance ParseResult_eq_dec : EqDecision ParseResult.
Proof. solve_decision. Defined.

Definition space : byte := " "%byte.

Section codec.
(** [buf->findCRLF(start)], with positions in the vector. *)
Variable findCRLF_from : Z -> Buffer.t -> outcome (option Z).

(** [parseMessage]: the result, the command, the topic, the content and the buffer. *)
Definition parseMessage (b : Buffer.t) : outcome (ParseResult * (bytes * bytes * bytes) * Buffer.t) :=
  crlf ← Buffer.findCRLF b;
  match crlf with
  | None => Ret (kContinue, ([], [], []), b)
  | Some crlf =>
      line ← load (Buffer.peek b) (crlf - Buffer.peek b) (Buffer.buffer_ b);
      match find_byte space line with
      | None => Ret (kError, ([], [], []), b)
      | Some i =>
          let cmd := take i line in
          let topic := drop (S i) line in
          if bool_decide (cmd = lit "pub") then
            let start := crlf + 2 in
            crlf2 ← findCRLF_from start b;
            match crlf2 with
            | Some e =>
                content ← load start (e - start) (Buffer.buffer_ b);
                b' ← Buffer.retrieveUntil (e + 2) b;
                Ret (kSuccess, (cmd, topic, content), b')
            | None => Ret (kContinue, (cmd, topic, []), b)
            end
          else
            b' ← Buffer.retrieveUntil (crlf + 2) b;
            Ret (kSuccess, (cmd, topic, []), b')
      end
  end.

Definition finds_CRLF : Prop := forall b start, Buffer.wf b ->
  Buffer.peek b <= start <= Buffer.beginWrite b ->
  findCRLF_from start b = Ret ((fun i : nat => start + Z.of_nat i) <$>
    search Buffer.kCRLF (drop (Z.to_nat (start - Buffer.peek b)) (Buffer.contents b))).
End codec.

(** ** The grammar: parsing a byte string *)

Inductive parsed := More | Bad | Got (cmd topic content : bytes) (len : nat).

Definition parse (l : bytes) : parsed :=
  match search Buffer.kCRLF l with
  | None => More
  | Some k =>
      match find_byte space (take k l) with
      | None => Bad
      | Some i =>
          let cmd := take i (take k l) in
          let topic := drop (S i) (take k l) in
          if bool_decide (cmd = lit "pub") then
            match search Buffer.kCRLF (drop (k + 2) l) with
            | None => More
            | Some m => Got cmd topic (take m (drop (k + 2) l)) (k + 2 + m + 2)
            end
          else Got cmd topic [] (k + 2)
      end
  end.

Lemma parse_len l c t b n : parse l = Got c t b n -> (0 < n <= length l)%nat.
Proof.
  unfold parse. destruct (search _ l) as [k|] eqn:E; [|done]. apply CRLF_bound in E.
  destruct (find_byte _ _); [|done]. case_bool_decide.
  - destruct (search _ (drop _ l)) as [m|] eqn:E2; [|done]. apply CRLF_bound in E2. rewrite length_drop in E2.
    intros [= <- <- <- <-]. lia.
  - intros [= <- <- <- <-]. lia.
Qed.

(** More input does not change a message already complete. *)
Lemma parse_stable l x c t b n : parse l = Got c t b n -> parse (l ++ x) = Got c t b n.
Proof.
  unfold parse. destruct (search _ l) as [k|] eqn:E; [|done]. pose proof (CRLF_bound _ _ E).
  rewrite (search_stable _ _ x _ E). rewrite take_app_le by lia.
  destruct (find_byte _ _); [|done]. case_bool_decide; [|done].
  destruct (search _ (drop _ l)) as [m|] eqn:E2; [|done]. pose proof (CRLF_bound _ _ E2).
  rewrite drop_app_le by lia. rewrite (search_stable _ _ x _ E2). by rewrite take_app_le by lia.
Qed.

Section refines.
Variable findCRLF_from : Z -> Buffer.t -> outcome (option Z).
Hypothesis law : finds_CRLF findCRLF_from.

(** [parseMessage] is [parse] on the readable bytes: it consumes a complete message
    and leaves the buffer alone otherwise. *)
Lemma parseMessage_ok b : Buffer.wf b ->
  returns (parseMessage findCRLF_from b) (fun '(r, (cmd, topic, content), b') =>
    match parse (Buffer.contents b) with
    | More => r = kContinue /\ b' = b
    | Bad => r = kError /\ b' = b
    | Got c t d n => r = kSuccess /\ (cmd, topic, content) = (c, t, d) /\ Buffer.wf b' /\
        Buffer.contents b' = drop n (Buffer.contents b) /\ Buffer.buffer_ b' = Buffer.buffer_ b
    end).
Proof.
  intros W. unfold parseMessage, parse. rewrite Buffer.contents_findCRLF, bind_Ret by done.
  set (l := Buffer.contents b). assert (zlen l = Buffer.beginWrite b - Buffer.peek b) as Hz by (by apply Buffer.zlen_contents).
  destruct (search Buffer.kCRLF l) as [k|] eqn:Ek; cbn [fmap option_fmap option_map]; [|by split].
  pose proof (CRLF_bound _ _ Ek) as Hk.
  replace (Buffer.peek b + Z.of_nat k - Buffer.peek b) with (Z.of_nat k) by lia.
  rewrite <- (Z.add_0_r (Buffer.peek b)) at 1. rewrite Buffer.load_readable, bind_Ret by (done || (unfold zlen; fold l; lia)).
  fold l. unfold slice. change (Z.to_nat 0) with 0%nat. rewrite drop_0, Nat2Z.id.
  destruct (find_byte space (take k l)) as [i|]; [|by split]. cbv zeta.
  case_bool_decide as Hc.
  - rewrite law by (done || unfold zlen in Hz; lia). fold l. rewrite bind_Ret.
    replace (Z.to_nat (Buffer.peek b + Z.of_nat k + 2 - Buffer.peek b)) with (k + 2)%nat by lia.
    destruct (search Buffer.kCRLF (drop (k + 2) l)) as [m|] eqn:Em; cbn [fmap option_fmap option_map]; [|by split].
    pose proof (CRLF_bound _ _ Em) as Hm. rewrite length_drop in Hm.
    replace (Buffer.peek b + Z.of_nat k + 2 + Z.of_nat m - (Buffer.peek b + Z.of_nat k + 2)) with (Z.of_nat m) by lia.
    replace (Buffer.peek b + Z.of_nat k + 2) with (Buffer.peek b + Z.of_nat (k + 2)) by lia.
    rewrite Buffer.load_readable, bind_Ret by (done || (unfold zlen; fold l; lia)). fold l.
    replace (Buffer.peek b + Z.of_nat (k + 2) + Z.of_nat m + 2) with (Buffer.peek b + Z.of_nat (k + 2 + m + 2)) by lia.
    eapply returns_seq; [apply retrieveUntil_ok; [done|fold l; lia]|]. intros b' (W' & E & Eb). cbn [returns].
    split_and!; try done. unfold slice. by rewrite !Nat2Z.id.
  - replace (Buffer.peek b + Z.of_nat k + 2) with (Buffer.peek b + Z.of_nat (k + 2)) by lia.
    eapply returns_seq; [apply retrieveUntil_ok; [done|fold l; lia]|]. intros b' (W' & E & Eb). cbn [returns].
    by split_and!.
Qed.
End refines.

End Codec.

(** ** hub.cc *)
Module Topic.

Record t := mk {
  topic_ : bytes;
  content_ : bytes;
  lastPubTime_ : Timestamp.t;
  audiences_ : gset Z              (* connections, by number *)
}.

Definition Topic (topic : bytes) : t := mk topic [] (Timestamp.Timestamp 0) ∅.

Definition makeMessage (x : t) : bytes := lit "pub " ++ topic_ x ++ Buffer.kCRLF ++ content_ x ++ Buffer.kCRLF.

(** The messages sent, as (connection, text) pairs. *)
Definition add (conn : Z) (x : t) : t * list (Z * bytes) :=
  let x' := mk (topic_ x) (content_ x) (lastPubTime_ x) ({[ conn ]} ∪ audiences_ x) in
  (x', if Timestamp.valid (lastPubTime_ x') then [(conn, makeMessage x')] else []).

Definition remove (conn : Z) (x : t) : t := mk (topic_ x) (content_ x) (lastPubTime_ x) (audiences_ x ∖ {[ conn ]}).

Definition publish (content : bytes) (time : Timestamp.t) (x : t) : t * list (Z * bytes) :=
  let x' := mk (topic_ x) content time (audiences_ x) in
  (x', map (fun conn => (conn, makeMessage x')) (elements (audiences_ x'))).

End Topic.

Module PubSubServer.
Import Codec.

(** The topics, the context of each connection that is up, the messages sent and the
    connections shut down. *)
Record t := mk {
  topics_ : gmap bytes Topic.t;
  contexts : gmap Z (gset bytes);
  outbox : list (Z * bytes);
  downs : list Z
}.

Definition PubSubServer : t := mk ∅ ∅ [] [].

Definition getTopic (topic : bytes) (s : t) : Topic.t :=
  match topics_ s !! topic with Some x => x | None => Topic.Topic topic end.

Definition setTopic (topic : bytes) (x : Topic.t) (s : t) : t :=
  mk (<[topic := x]> (topics_ s)) (contexts s) (outbox s) (downs s).

(** [any_cast] of a context that is not there gives a null pointer. *)
Definition connSub (conn : Z) (s : t) : outcome (gset bytes) :=
  match contexts s !! conn with Some c => Ret c | None => Crash NullPointer end.

Definition setSub (conn : Z) (c : gset bytes) (s : t) : t :=
  mk (topics_ s) (<[conn := c]> (contexts s)) (outbox s) (downs s).

Definition sent (l : list (Z * bytes)) (s : t) : t := mk (topics_ s) (contexts s) (outbox s ++ l) (downs s).

Definition shutdown (conn : Z) (s : t) : t := mk (topics_ s) (contexts s) (outbox s) (downs s ++ [conn]).

Definition doSubscribe (conn : Z) (topic : bytes) (s : t) : outcome t :=
  c ← connSub conn s;
  let s1 := setSub conn ({[ topic ]} ∪ c) s in
  let '(x, out) := Topic.add conn (getTopic topic s1) in
  Ret (sent out (setTopic topic x s1)).

Definition doUnsubscribe (conn : Z) (topic : bytes) (s : t) : outcome t :=
  let s1 := setTopic topic (Topic.remove conn (getTopic topic s)) s in
  c ← connSub conn s1;
  Ret (setSub conn (c ∖ {[ topic ]}) s1).

Definition doPublish (topic content : bytes) (time : Timestamp.t) (s : t) : outcome t :=
  let '(x, out) := Topic.publish content time (getTopic topic s) in
  Ret (sent out (setTopic topic x s)).

Fixpoint unsubscribe_all (conn : Z) (topics : list bytes) (s : t) : outcome t :=
  match topics with
  | [] => Ret s
  | topic :: rest => s1 ← doUnsubscribe conn topic s; unsubscribe_all conn rest s1
  end.

(** [onConnecton]; the context dies with a connection that is down. *)
Definition onConnecton (connected : bool) (conn : Z) (s : t) : outcome t :=
  if connected then Ret (setSub conn ∅ s)
  else
    c ← connSub conn s;
    s1 ← unsubscribe_all conn (elements c) s;
    Ret (mk (topics_ s1) (delete conn (contexts s1)) (outbox s1) (downs s1)).

(** One parsed command; [false] ends the loop. *)
Definition command (conn : Z) (cmd topic content : bytes) (receiveTime : Timestamp.t) (s : t) : outcome (bool * t) :=
  if bool_decide (cmd = lit "pub") then s1 ← doPublish topic content receiveTime s; Ret (true, s1)
  else if bool_decide (cmd = lit "sub") then s1 ← doSubscribe conn topic s; Ret (true, s1)
  else if bool_decide (cmd = lit "unsub") then s1 ← doUnsubscribe conn topic s; Ret (true, s1)
  else Ret (false, shutdown conn s).

Section server.
Variable findCRLF_from : Z -> Buffer.t -> outcome (option Z).

Definition onMessage_body (conn : Z) (receiveTime : Timestamp.t) (st : Buffer.t * t) :
    outcome ((Buffer.t * t) + (Buffer.t * t)) :=
  let '(buf, s) := st in
  '(result, (cmd, topic, content), buf1) ← parseMessage findCRLF_from buf;
  match result with
  | kSuccess =>
      '(go, s1) ← command conn cmd topic content receiveTime s;
      Ret (if go : bool then inl (buf1, s1) else inr (buf1, s1))
  | kError => Ret (inr (buf1, shutdown conn s))
  | kContinue => Ret (inr (buf1, s))
  end.

(** A message takes at least a byte off the buffer. *)
Definition onMessage (conn : Z) (receiveTime : Timestamp.t) (buf : Buffer.t) (s : t) : outcome (Buffer.t * t) :=
  Lines.on_message (onMessage_body conn receiveTime) buf s.
End server.

End PubSubServer.

(** ** pubsub.cc: the client's messages *)
Module PubSubClient.

Inductive request := Subscribe (topic : bytes) | Unsubscribe (topic : bytes) | Publish (topic content : bytes).

Definition subscribe (topic : bytes) : bytes := lit "sub " ++ topic ++ Buffer.kCRLF.
Definition unsubscribe (topic : bytes) : bytes := lit "unsub " ++ topic ++ Buffer.kCRLF.
Definition publish (topic content : bytes) : bytes := lit "pub " ++ topic ++ Buffer.kCRLF ++ content ++ Buffer.kCRLF.

Definition encode (r : request) : bytes :=
  match r with
  | Subscribe t => subscribe t
  | Unsubscribe t => unsubscribe t
  | Publish t c => publish t c
  end.

Definition connected (conn_ : option bool) : bool := match conn_ with Some up => up | None => false end.

(** [send]: the result, and whether the message was given to the connection;
    [bool succeed = "false"] is [true]. *)
Definition send (conn_ : option bool) : bool * bool :=
  let succeed := true in if connected conn_ then (true, true) else (succeed, false).

(** The only message a client can lose without noticing. *)
Lemma send_always_succeeds c : fst (send c) = true.
Proof. unfold send. by destruct (connected c). Qed.

End PubSubClient.

(** ** The protocol: requests arrive as they were sent *)
Module HubProtocol.
Import Lines Codec PubSubServer PubSubClient.

(** Topics and contents are lines. *)
Definition request_ok (r : request) : Prop :=
  match r with Subscribe t | Unsubscribe t => clean t | Publish t c => clean t /\ clean c end.

Definition perform (conn : Z) (time : Timestamp.t) (r : request) (s : PubSubServer.t) : outcome PubSubServer.t :=
  match r with
  | Subscribe t => doSubscribe conn t s
  | Unsubscribe t => doUnsubscribe conn t s
  | Publish t c => doPublish t c time s
  end.

(** *** Lines *)

Definition verb (r : request) : bytes :=
  match r with Subscribe _ => lit "sub" | Unsubscribe _ => lit "unsub" | Publish _ _ => lit "pub" end.
Definition topic_of (r : request) : bytes := match r with Subscribe t | Unsubscribe t | Publish t _ => t end.
Definition body_of (r : request) : bytes := match r with Publish _ c => c | _ => [] end.

Definition line (r : request) : bytes := verb r ++ space :: topic_of r.

Lemma line_clean r : request_ok r -> clean (line r).
Proof.
  intros H. assert (clean (topic_of r)) as Ht by (destruct r; [done|done|by destruct H]). clear H.
  unfold clean in *. unfold line. assert (forall v t, search Buffer.kCRLF t = None -> Forall (fun b => b <> x0d) v ->
    search Buffer.kCRLF (v ++ t) = None) as Hv.
  { clear. intros v t Ht. induction 1 as [|b v Hb _ IH]; [done|]. cbn [app search]. rewrite IH.
    destruct (is_prefix _ _) eqn:E; [|done]. apply is_prefix_spec in E as [? E]. cbn in E. by injection E as -> _. }
  change (verb r ++ space :: topic_of r) with (verb r ++ [space] ++ topic_of r). rewrite app_assoc. apply Hv; [done|].
  destruct r; cbn; repeat constructor; done.
Qed.

Lemma encode_line r : encode r = line r ++ Buffer.kCRLF ++ match r with Publish _ c => c ++ Buffer.kCRLF | _ => [] end.
Proof. destruct r; cbn; by rewrite ?app_nil_r. Qed.

Lemma find_space r : find_byte space (line r) = Some (length (verb r)).
Proof. unfold line. apply find_byte_app. destruct r; cbn; set_solver. Qed.

Lemma line_verb r : take (length (verb r)) (line r) = verb r.
Proof. unfold line. apply take_app_length. Qed.

Lemma line_topic r : drop (S (length (verb r))) (line r) = topic_of r.
Proof.
  unfold line. replace (S (length (verb r))) with (length (verb r ++ [space])) by (rewrite length_app; cbn; lia).
  change (verb r ++ space :: topic_of r) with (verb r ++ [space] ++ topic_of r). by rewrite app_assoc, drop_app_length.
Qed.

Lemma verb_pub r : bool_decide (verb r = lit "pub") = match r with Publish _ _ => true | _ => false end.
Proof. by destruct r. Qed.

(** A complete request is parsed, whatever follows. *)
Lemma parse_encode r x : request_ok r ->
  parse (encode r ++ x) = Got (verb r) (topic_of r) (body_of r) (length (encode r)).
Proof.
  intros H. unfold parse. rewrite encode_line, <- !app_assoc. rewrite search_line by (by apply line_clean).
  rewrite take_app_length, find_space. cbv zeta. rewrite line_verb, line_topic, verb_pub, (app_assoc (line r)).
  replace (length (line r) + 2)%nat with (length (line r ++ Buffer.kCRLF)) by (rewrite length_app; done).
  destruct r as [t|t|t c]; cbn [topic_of body_of]; [f_equal; rewrite !length_app; cbn; lia..|].
  rewrite drop_app_length. rewrite <- app_assoc, search_line by apply H. rewrite take_app_length. f_equal.
  rewrite !length_app. cbn. lia.
Qed.

(** A proper prefix of one waits for more. *)
Lemma parse_partial r p y x : request_ok r -> p ++ y = encode r ++ x -> (length p < length (encode r))%nat -> parse p = More.
Proof.
  intros H E Hl. unfold parse. destruct (search Buffer.kCRLF p) as [k|] eqn:Ek; [|done].
  pose proof (CRLF_bound _ _ Ek) as Hk. pose proof (search_stable _ _ y _ Ek) as Ek'.
  rewrite encode_line in E, Hl. rewrite <- !app_assoc in E. rewrite E in Ek'.
  rewrite search_line in Ek' by (by apply line_clean). injection Ek' as <-.
  assert (take (length (line r)) p = line r) as ->.
  { rewrite <- (take_app_le p y) by lia. by rewrite E, take_app_length. }
  rewrite find_space. cbv zeta. rewrite line_verb, verb_pub.
  destruct r as [t|t|t c]; [rewrite !length_app in Hl; cbn in Hl, Hk |- *; lia..|].
  rewrite (search_prefix c _ y x); [done|apply H| |].
  - rewrite <- drop_app_le by lia. rewrite E, <- !app_assoc, app_assoc.
    replace (length (line (Publish t c)) + 2)%nat with (length (line (Publish t c) ++ Buffer.kCRLF)) by (rewrite length_app; done).
    by rewrite drop_app_length.
  - rewrite length_drop. rewrite !length_app in Hl. cbn in Hl |- *. lia.
Qed.

(** *** The server *)

Definition up (conn : Z) (s : PubSubServer.t) : Prop := is_Some (contexts s !! conn).

Lemma perform_up conn time r s : up conn s -> returns (perform conn time r s) (up conn).
Proof.
  intros [c Hc]. destruct r; cbn; unfold doSubscribe, doUnsubscribe, doPublish, connSub; cbn [setTopic contexts];
    rewrite ?Hc; cbn; unfold up; cbn; rewrite ?lookup_insert_eq; by eexists.
Qed.

Lemma command_perform conn time r s :
  command conn (verb r) (topic_of r) (body_of r) time s = (s1 ← perform conn time r s; Ret (true, s1)).
Proof. by destruct r. Qed.

Definition performs (conn : Z) (time : Timestamp.t) := Lines.perform_all (perform conn time).

Definition serve (find : Z -> Buffer.t -> outcome (option Z)) (conn : Z) (time : Timestamp.t) :=
  Lines.serve (onMessage_body find conn time).

Section protocol.
Variable find : Z -> Buffer.t -> outcome (option Z).
Hypothesis law : finds_CRLF find.

Lemma body_wait conn time b s : Buffer.wf b -> parse (Buffer.contents b) = More ->
  onMessage_body find conn time (b, s) = Ret (inr (b, s)).
Proof using law.
  intros W E. unfold onMessage_body. pose proof (parseMessage_ok find law b W) as Hp. rewrite E in Hp.
  destruct (parseMessage find b) as [[[res [[cmd topic] content]] b1]|]; [|done]. cbn in *. by destruct Hp as [-> ->].
Qed.

Lemma body_command r conn time b s x : request_ok r -> up conn s -> Buffer.wf b -> Buffer.contents b = encode r ++ x ->
  exists b1 s1, onMessage_body find conn time (b, s) = Ret (inl (b1, s1)) /\ perform conn time r s = Ret s1 /\
    up conn s1 /\ Buffer.wf b1 /\ Buffer.contents b1 = x /\ Buffer.buffer_ b1 = Buffer.buffer_ b.
Proof using law.
  intros Hr Hup W Ex. unfold onMessage_body. pose proof (parseMessage_ok find law b W) as Hp.
  rewrite Ex, parse_encode in Hp by done.
  destruct (parseMessage find b) as [[[res [[cmd topic] content]] b1]|]; [|done]. cbn [returns] in Hp. rewrite bind_Ret.
  destruct Hp as (-> & [= -> -> ->] & W1 & E1 & Eb). rewrite drop_app_length in E1. rewrite command_perform.
  pose proof (perform_up conn time r s Hup) as Hpf. destruct (perform conn time r s) as [s1|]; [|done].
  cbn [returns] in Hpf. rewrite !bind_Ret. by exists b1, s1.
Qed.
End protocol.

(** The protocol.  A connection that sends any requests with line topics and
    contents, in whatever pieces TCP delivers them, has each of them performed exactly
    once and in order; nothing is left in the input buffer and the connection
    is not shut down. *)
Theorem hub_protocol_stream find conn time rs chunks s : finds_CRLF find -> Forall request_ok rs -> up conn s ->
  concat chunks = concat (map encode rs) -> zlen (concat chunks) <= 2 ^ 62 ->
  returns (b ← Buffer.Buffer; serve find conn time chunks b s) (fun '(b', s') =>
    performs conn time rs s = Ret s' /\ Buffer.contents b' = []).
Proof.
  intros law Hok Hup E Hz. apply (serve_stream encode request_ok _ (fun _ => up conn)); try done.
  - intros r _. destruct r; cbn; lia.
  - intros b s' W Hb. apply body_wait; [done..|]. by rewrite Hb.
  - intros r b s' x y Hr W Hx Hl. apply body_wait; [done..|]. by eapply parse_partial.
  - intros r rs' b s' x. by apply body_command.
Qed.

Definition std_find (start : Z) (b : Buffer.t) : outcome (option Z) :=
  Ret ((fun i : nat => start + Z.of_nat i) <$>
    search Buffer.kCRLF (drop (Z.to_nat (start - Buffer.peek b)) (Buffer.contents b))).

(** A subscription and a publication, cut in the middle of the body. *)
Lemma hub_protocol_stream_witness :
  returns (b ← Buffer.Buffer; serve std_find 1 (Timestamp.Timestamp 5) [lit "sub a"; Buffer.kCRLF ++ lit "pub a"; Buffer.kCRLF ++ lit "h"; lit "i" ++ Buffer.kCRLF] b
             (setSub 1 ∅ PubSubServer)) (fun '(b', s') =>
    performs 1 (Timestamp.Timestamp 5) [Subscribe (lit "a"); Publish (lit "a") (lit "hi")] (setSub 1 ∅ PubSubServer) = Ret s' /\
    Buffer.contents b' = []).
Proof.
  apply (hub_protocol_stream std_find 1 (Timestamp.Timestamp 5)).
  - intros b start _ _. reflexivity.
  - repeat constructor.
  - eexists. apply lookup_insert_eq.
  - reflexivity.
  - vm_compute. discriminate.
Defined.

End HubProtocol.

(** ** The books: who is subscribed to what *)
Module HubBooks.
Import PubSubServer PubSubClient HubProtocol.

Definition subscribed (conn : Z) (topic : bytes) (s : PubSubServer.t) : Prop :=
  exists c, contexts s !! conn = Some c /\ topic ∈ c.

(** What the users do: connections come up, ask for things and go down; a connection
    that is down asks for nothing. *)
Inductive event := Up (conn : Z) | Down (conn : Z) | Ask (conn : Z) (time : Timestamp.t) (r : request).

Definition step (e : event) (s : PubSubServer.t) : outcome PubSubServer.t :=
  match e with
  | Up conn => if bool_decide (is_Some (contexts s !! conn)) then Ret s else onConnecton true conn s
  | Down conn => if bool_decide (is_Some (contexts s !! conn)) then onConnecton false conn s else Ret s
  | Ask conn time r => if bool_decide (is_Some (contexts s !! conn)) then perform conn time r s else Ret s
  end.

Fixpoint steps (l : list event) (s : PubSubServer.t) : outcome PubSubServer.t :=
  match l with [] => Ret s | e :: l' => s1 ← step e s; steps l' s1 end.

(** A topic's audience and the connections' own sets agree. *)
Definition agree (s : PubSubServer.t) : Prop :=
  forall conn topic, conn ∈ Topic.audiences_ (getTopic topic s) <-> subscribed conn topic s.

(** *** Lemmas *)

Lemma getTopic_set topic x s t : getTopic t (setTopic topic x s) = if bool_decide (t = topic) then x else getTopic t s.
Proof.
  unfold getTopic, setTopic. cbn [topics_]. case_bool_decide as E; [subst; by rewrite lookup_insert_eq|by rewrite lookup_insert_ne].
Qed.

Lemma subscribed_set conn c s k t : subscribed k t (setSub conn c s) <-> if bool_decide (k = conn) then t ∈ c else subscribed k t s.
Proof.
  unfold subscribed, setSub. cbn [contexts]. case_bool_decide as E.
  - subst. rewrite lookup_insert_eq. split; [by intros (? & [= <-] & ?)|by exists c].
  - by rewrite lookup_insert_ne.
Qed.

Lemma agree_subscribe conn topic s : agree s -> up conn s ->
  returns (doSubscribe conn topic s) (fun s' => agree s' /\ up conn s' /\ dom (contexts s') = dom (contexts s)).
Proof.
  intros H [c Hc]. unfold doSubscribe, connSub. rewrite Hc, bind_Ret. cbn [returns].
  assert (dom (<[conn := {[topic]} ∪ c]> (contexts s)) = dom (contexts s)) as Hd.
  { apply dom_insert_lookup_L. by eexists. }
  split_and!; [|eexists; apply lookup_insert_eq|exact Hd].
  intros k t. change (getTopic t _) with (getTopic t (setTopic topic (fst (Topic.add conn (getTopic topic (setSub conn ({[topic]} ∪ c) s)))) (setSub conn ({[topic]} ∪ c) s))).
  change (subscribed k t (sent _ _)) with (subscribed k t (setSub conn ({[topic]} ∪ c) s)).
  rewrite getTopic_set, subscribed_set. change (getTopic t (setSub conn ({[topic]} ∪ c) s)) with (getTopic t s).
  assert (subscribed conn t s <-> t ∈ c) as Hsub by (unfold subscribed; rewrite Hc; naive_solver).
  case_bool_decide as Et; [subst t; cbn [fst Topic.add Topic.audiences_]|];
    [rewrite elem_of_union, elem_of_singleton|]; change (getTopic topic (setSub conn ({[topic]} ∪ c) s)) with (getTopic topic s);
    rewrite (H k); case_bool_decide as Ek; subst; rewrite ?Hsub; set_solver.
Qed.

Lemma agree_unsubscribe conn topic s : agree s -> up conn s ->
  returns (doUnsubscribe conn topic s) (fun s' => agree s' /\ up conn s' /\ dom (contexts s') = dom (contexts s) /\
    forall c, contexts s !! conn = Some c -> contexts s' !! conn = Some (c ∖ {[topic]})).
Proof.
  intros H [c Hc]. unfold doUnsubscribe, connSub. cbn [setTopic contexts]. rewrite Hc, bind_Ret. cbn [returns].
  assert (dom (<[conn := c ∖ {[topic]}]> (contexts s)) = dom (contexts s)) as Hd.
  { apply dom_insert_lookup_L. by eexists. }
  split_and!; [|eexists; apply lookup_insert_eq|exact Hd|].
  2: { intros c' [= <-]. apply lookup_insert_eq. }
  intros k t. rewrite subscribed_set. change (getTopic t (setSub _ _ ?x)) with (getTopic t x).
  change (mk (<[topic:=_]> (topics_ s)) (contexts s) (outbox s) (downs s)) with (setTopic topic (Topic.remove conn (getTopic topic s)) s).
  rewrite getTopic_set. change (subscribed k t (setTopic _ _ s)) with (subscribed k t s).
  assert (subscribed conn t s <-> t ∈ c) as Hsub by (unfold subscribed; rewrite Hc; naive_solver).
  case_bool_decide as Et; [subst t; cbn [Topic.remove Topic.audiences_]; rewrite elem_of_difference, elem_of_singleton|];
    rewrite (H k); case_bool_decide as Ek; subst; rewrite ?Hsub; set_solver.
Qed.

Lemma agree_publish topic content time s : agree s ->
  returns (doPublish topic content time s) (fun s' => agree s' /\ contexts s' = contexts s).
Proof.
  intros H. cbn. split; [|done]. intros k t.
  change (getTopic t _) with (getTopic t (setTopic topic (fst (Topic.publish content time (getTopic topic s))) s)).
  rewrite getTopic_set. change (subscribed k t _) with (subscribed k t s). case_bool_decide; [subst|]; apply H.
Qed.

Lemma agree_unsubscribe_all conn l : forall s, agree s -> up conn s ->
  returns (unsubscribe_all conn l s) (fun s' => agree s' /\ dom (contexts s') = dom (contexts s) /\
    forall c, contexts s !! conn = Some c -> contexts s' !! conn = Some (c ∖ list_to_set l)).
Proof.
  induction l as [|topic l IH]; intros s H Hup; cbn [unsubscribe_all].
  - cbn. split_and!; [done|done|]. intros c ->. f_equal. set_solver.
  - eapply returns_seq; [by apply agree_unsubscribe|]. intros s1 (H1 & Hup1 & Hd1 & Hc1).
    eapply returns_mono; [|by apply IH]. intros s2 (H2 & Hd2 & Hc2). split_and!; [done|congruence|].
    intros c Hc. rewrite (Hc2 _ (Hc1 _ Hc)). f_equal. set_solver.
Qed.

Lemma step_agree e s : agree s -> returns (step e s) agree.
Proof.
  intros H. destruct e as [conn|conn|conn time r]; cbn [step]; case_bool_decide as Hup; try done.
  - cbn. intros k t. rewrite subscribed_set. change (getTopic t (setSub _ _ s)) with (getTopic t s). rewrite (H k).
    case_bool_decide as E; [|done]. subst. split; [|set_solver]. intros (c & Hc & _). destruct Hup. by eexists.
  - unfold onConnecton. destruct Hup as [c Hc]. unfold connSub. rewrite Hc, bind_Ret.
    eapply returns_seq; [apply agree_unsubscribe_all; [done|by eexists]|]. intros s1 (H1 & _ & Hc1). cbn.
    specialize (Hc1 c Hc). intros k t. change (getTopic t (mk _ _ _ _)) with (getTopic t s1). rewrite (H1 k).
    unfold subscribed. cbn [contexts]. destruct (decide (k = conn)) as [->|Hne].
    + rewrite lookup_delete_eq, Hc1. split; [|by intros (? & ? & _)]. intros (c' & [= <-] & Ht). exfalso. set_solver.
    + by rewrite lookup_delete_ne.
  - destruct r as [t|t|t c]; cbn [perform].
    + eapply returns_mono; [|by apply agree_subscribe]. by intros s' (? & _).
    + eapply returns_mono; [|by apply agree_unsubscribe]. by intros s' (? & _).
    + eapply returns_mono; [|by apply agree_publish]. by intros s' (? & _).
Qed.

Lemma steps_agree l : forall s, agree s -> returns (steps l s) agree.
Proof.
  induction l as [|e l IH]; intros s H; cbn [steps]; [done|]. eapply returns_seq; [by apply step_agree|]. intros s1. apply IH.
Qed.

Lemma agree_empty : agree PubSubServer.
Proof. intros k t. unfold getTopic, subscribed. cbn. rewrite !lookup_empty. cbn. split; [set_solver|naive_solver]. Qed.

(** Every topic carries its own name. *)
Definition named (s : PubSubServer.t) : Prop := forall t, Topic.topic_ (getTopic t s) = t.

Lemma named_set topic x s : named s -> Topic.topic_ x = topic -> named (setTopic topic x s).
Proof. intros H E t. rewrite getTopic_set. case_bool_decide; [congruence|apply H]. Qed.

Lemma named_unsubscribe conn topic s s' : doUnsubscribe conn topic s = Ret s' -> named s -> named s'.
Proof.
  unfold doUnsubscribe, connSub. cbn [setTopic contexts]. destruct (contexts s !! conn); [|done]. injection 1 as <-.
  intros H. exact (named_set topic (Topic.remove conn (getTopic topic s)) s H (H topic)).
Qed.

Lemma step_named e s s' : step e s = Ret s' -> named s -> named s'.
Proof.
  destruct e as [conn|conn|conn time r]; cbn [step]; case_bool_decide as Hup; try (by injection 1 as <-).
  - unfold onConnecton. destruct (connSub conn s) as [c|]; [|done]. rewrite bind_Ret. generalize (elements c). clear.
    intros l. revert s. induction l as [|t l IH]; intros s E; cbn in E; [by injection E as <-|].
    destruct (doUnsubscribe conn t s) as [s1|] eqn:E1; [|done]. intros H. apply (IH s1 E). by eapply named_unsubscribe.
  - destruct r as [t|t|t c]; cbn [perform].
    + unfold doSubscribe. destruct (connSub conn s) as [c|]; [|done]. rewrite bind_Ret. intros [= <-] H.
      exact (named_set t (fst (Topic.add conn (getTopic t s))) s H (H t)).
    + by intros E H%(named_unsubscribe _ _ _ _ E).
    + intros [= <-] H. exact (named_set t (fst (Topic.publish c time (getTopic t s))) s H (H t)).
Qed.

Lemma steps_named l : forall s s', steps l s = Ret s' -> named s -> named s'.
Proof.
  induction l as [|e l IH]; intros s s' E H; cbn in E; [by injection E as <-|].
  destruct (step e s) as [s1|] eqn:E1; [|done]. eapply IH; [exact E|]. by eapply step_named.
Qed.

(** The books.  However connections come, ask and go, the hub dereferences no
    missing context; a topic's audience is exactly the connections up and subscribed to
    it, so one that has gone is in no audience; a publication is sent once to each of
    them and to nobody else, as the last content of its topic; and a new subscriber is
    sent that content at once. *)
Theorem hub_books l : returns (steps l PubSubServer) (fun s =>
  agree s /\
  (forall topic content time, returns (doPublish topic content time s) (fun s' => exists conns,
     outbox s' = outbox s ++ map (fun k => (k, PubSubClient.publish topic content)) conns /\
     NoDup conns /\ (forall k, k ∈ conns <-> subscribed k topic s) /\ Topic.content_ (getTopic topic s') = content)) /\
  (forall conn topic, up conn s -> Timestamp.valid (Topic.lastPubTime_ (getTopic topic s)) = true ->
     returns (doSubscribe conn topic s) (fun s' => outbox s' = outbox s ++ [(conn, Topic.makeMessage (getTopic topic s))]))).
Proof.
  pose proof (steps_agree l PubSubServer agree_empty) as Ha. destruct (steps l PubSubServer) as [s|] eqn:El; [|done].
  cbn [returns] in Ha |- *. pose proof (steps_named l PubSubServer s El (fun t => eq_refl)) as Hn. split_and!; [done| |].
  - intros topic content time. cbn. exists (elements (Topic.audiences_ (getTopic topic s))). split_and!.
    + do 2 f_equal. unfold Topic.makeMessage. cbn. by rewrite Hn.
    + apply NoDup_elements.
    + intros k. rewrite elem_of_elements. apply Ha.
    + unfold getTopic at 1. cbn. by rewrite lookup_insert_eq.
  - intros conn topic [c Hc] Hv. unfold doSubscribe, connSub. rewrite Hc, bind_Ret.
    cbn [Topic.add]. change (getTopic topic (setSub _ _ s)) with (getTopic topic s).
    cbn [Topic.lastPubTime_]. rewrite Hv. cbn. done.
Qed.

End HubBooks.
