(* ===== verification/HubNetwork.v ===== *)
(** * excercises/hub: clients and hub together

    The callbacks of pubsub.cc, and any number of clients connected to the hub of hub.cc by
    links that deliver the bytes of each direction in order, in pieces of any size and at any
    time.  The whole is shown to implement an abstract publish/subscribe service, in which a
    request takes effect at one moment and a subscriber hears every publication of its topics
    from then on, after the last content the topic had. *)

From S2P Require Import Prelude Endian NetBuffer Calendar TimeZone Hub.

(** ** pubsub.cc: the callbacks *)
Module HubClient.
Import Codec.

(** [conn_] (null or a connection, up or not), whether [subscribeCallback_] is set, what it was
    called with, and whether the connection was shut down. *)
Record t := mk { conn_ : option bool; subscribeCallback_ : bool; received : list (bytes * bytes); down : bool }.

Definition PubSubClient : t := mk None false [] false.

Definition onConnection (connected : bool) (c : t) : t :=
  mk (if connected then Some true else None) (subscribeCallback_ c) (received c) (down c).

Definition call (topic content : bytes) (c : t) : t :=
  if subscribeCallback_ c then mk (conn_ c) true (received c ++ [(topic, content)]) (down c) else c.

Definition onMessage_body (find : Z -> Buffer.t -> outcome (option Z)) (st : Buffer.t * t) :
    outcome ((Buffer.t * t) + (Buffer.t * t)) :=
  let '(buf, c) := st in
  '(result, (cmd, topic, content), buf1) ← parseMessage find buf;
  match result with
  | kSuccess => Ret (inl (buf1, if bool_decide (cmd = lit "pub") then call topic content c else c))
  | kError => Ret (inr (buf1, mk (conn_ c) (subscribeCallback_ c) (received c) true))
  | kContinue => Ret (inr (buf1, c))
  end.

(** What a request does to the client: the callback is kept, and whether the text is sent. *)
Definition request_sent (r : PubSubClient.request) (c : t) : t * bool :=
  let c1 := match r with PubSubClient.Subscribe _ => mk (conn_ c) true (received c) (down c) | _ => c end in
  (c1, snd (PubSubClient.send (conn_ c1))).

End HubClient.

(** ** The abstract service *)
Module Service.
Import PubSubClient.

Record t := mk { subs : gset (Z * bytes); last : gmap bytes bytes }.

Definition empty : t := mk ∅ ∅.

Definition op : Type := Z * request.

Definition step (o : op) (s : t) : t :=
  match o with
  | (k, Subscribe topic) => mk ({[(k, topic)]} ∪ subs s) (last s)
  | (k, Unsubscribe topic) => mk (subs s ∖ {[(k, topic)]}) (last s)
  | (_, Publish topic content) => mk (subs s) (<[topic := content]> (last s))
  end.

Definition run (ops : list op) : t := fold_left (fun s o => step o s) ops empty.

(** What client [k] hears of an operation. *)
Definition hears (k : Z) (o : op) (s : t) : list (bytes * bytes) :=
  match o with
  | (k', Subscribe topic) => if k' =? k then match last s !! topic with Some c => [(topic, c)] | None => [] end else []
  | (_, Unsubscribe _) => []
  | (_, Publish topic content) => if bool_decide ((k, topic) ∈ subs s) then [(topic, content)] else []
  end.

Fixpoint heard_from (k : Z) (s : t) (ops : list op) : list (bytes * bytes) :=
  match ops with [] => [] | o :: ops' => hears k o s ++ heard_from k (step o s) ops' end.
Definition heard (k : Z) (ops : list op) : list (bytes * bytes) := heard_from k empty ops.

(** The requests of client [k]. *)
Definition mine (k : Z) (ops : list op) : list request := map snd (List.filter (fun o : op => o.1 =? k) ops).

Lemma run_snoc ops o : run (ops ++ [o]) = step o (run ops).
Proof. unfold run. by rewrite fold_left_app. Qed.

Lemma heard_snoc k ops o : heard k (ops ++ [o]) = heard k ops ++ hears k o (run ops).
Proof.
  unfold heard, run. generalize empty. induction ops as [|o' ops IH]; intros s; cbn; [by rewrite app_nil_r |]. by rewrite IH, app_assoc.
Qed.

Lemma mine_snoc k ops k' r : mine k (ops ++ [(k', r)]) = mine k ops ++ (if k' =? k then [r] else []).
Proof. unfold mine. rewrite filter_app, map_app. cbn. by destruct (k' =? k). Qed.

End Service.

(** ** Hub, clients and links *)
Module HubNetwork.
Import Lines Codec PubSubServer PubSubClient HubProtocol HubBooks Service.

(** A client and its connection: the requests it made, the bytes of them that reached the hub,
    the hub's input buffer, the bytes of the hub's messages that reached the client. *)
Record link := Link {
  asked : list request;
  to_hub : nat;
  hub_buffer : Buffer.t;
  to_client : nat;
  client_buffer : Buffer.t;
  client : HubClient.t
}.

Record world := World { hub : PubSubServer.t; links : Z -> link }.

Definition set_link (k : Z) (l : link) (f : Z -> link) : Z -> link := fun k' => if k' =? k then l else f k'.

(** The bytes on their way. *)
Definition texts (k : Z) (s : PubSubServer.t) : list bytes := map snd (List.filter (fun m : Z * bytes => m.1 =? k) (outbox s)).
Definition up_transit (l : link) : bytes := drop (to_hub l) (concat (map encode (asked l))).
Definition down_transit (k : Z) (s : PubSubServer.t) (l : link) : bytes := drop (to_client l) (concat (texts k s)).

Inductive event :=
| Request (k : Z) (r : request)
| ToHub (k : Z) (n : nat) (time : Timestamp.t)
| ToClient (k : Z) (n : nat).

Section network.
Variable find : Z -> Buffer.t -> outcome (option Z).

Definition step (e : event) (w : world) : outcome world :=
  match e with
  | Request k r =>
      let l := links w k in
      let '(c, sent) := HubClient.request_sent r (client l) in
      Ret (World (hub w) (set_link k (Link (if sent : bool then asked l ++ [r] else asked l) (to_hub l) (hub_buffer l) (to_client l) (client_buffer l) c) (links w)))
  | ToHub k n time =>
      let l := links w k in
      let chunk := take n (up_transit l) in
      '(b, s) ← HubProtocol.serve find k time [chunk] (hub_buffer l) (hub w);
      Ret (World s (set_link k (Link (asked l) (to_hub l + length chunk) b (to_client l) (client_buffer l) (client l)) (links w)))
  | ToClient k n =>
      let l := links w k in
      let chunk := take n (down_transit k (hub w) l) in
      '(b, c) ← Lines.serve (HubClient.onMessage_body find) [chunk] (client_buffer l) (client l);
      Ret (World (hub w) (set_link k (Link (asked l) (to_hub l) (hub_buffer l) (to_client l + length chunk) b c) (links w)))
  end.

Fixpoint steps (es : list event) (w : world) : outcome world :=
  match es with [] => Ret w | e :: es' => w1 ← step e w; steps es' w1 end.
End network.

Fixpoint connect_all (ks : list Z) (s : PubSubServer.t) : outcome PubSubServer.t :=
  match ks with [] => Ret s | k :: ks' => s1 ← onConnecton true k s; connect_all ks' s1 end.

(** All clients connected, nothing sent. *)
Definition start (ks : list Z) : outcome world :=
  b ← Buffer.Buffer;
  s ← connect_all ks PubSubServer;
  Ret (World s (fun _ => Link [] 0 b 0 b (HubClient.onConnection true HubClient.PubSubClient))).

(** ** The hub implements the service *)

Definition text (m : bytes * bytes) : bytes := publish m.1 m.2.

Record represents (sp : Service.t) (s : PubSubServer.t) : Prop := {
  re_audience : forall k t, k ∈ Topic.audiences_ (getTopic t s) <-> (k, t) ∈ subs sp;
  re_named : forall t, Topic.topic_ (getTopic t s) = t;
  re_last : forall t, match last sp !! t with
                      | Some c => Timestamp.valid (Topic.lastPubTime_ (getTopic t s)) = true /\ Topic.content_ (getTopic t s) = c
                      | None => Timestamp.valid (Topic.lastPubTime_ (getTopic t s)) = false
                      end
}.

Lemma texts_sent k l s : texts k (sent l s) = texts k s ++ map snd (List.filter (fun m : Z * bytes => m.1 =? k) l).
Proof. unfold texts, sent. cbn [outbox]. by rewrite filter_app, map_app. Qed.

(** A message to everybody in a set goes once to each. *)
Lemma filter_everybody k (m : bytes) (l : list Z) : NoDup l ->
  map snd (List.filter (fun x : Z * bytes => x.1 =? k) (map (fun c => (c, m)) l)) = if bool_decide (k ∈ l) then [m] else [].
Proof.
  induction 1 as [|c l Hc _ IH]; [done |]. cbn. destruct (Z.eqb_spec c k) as [-> | Hne].
  - rewrite (bool_decide_eq_true_2 (k ∈ k :: l)) by left. cbn. rewrite IH, bool_decide_eq_false_2 by done. done.
  - rewrite IH. by rewrite (bool_decide_ext (k ∈ c :: l) (k ∈ l)) by (rewrite elem_of_cons; naive_solver).
Qed.

Lemma represents_set topic x sp sp' s : represents sp s -> Topic.topic_ x = topic ->
  (forall k t, (k, t) ∈ subs sp' <-> if bool_decide (t = topic) then k ∈ Topic.audiences_ x else (k, t) ∈ subs sp) ->
  (forall t, t <> topic -> last sp' !! t = last sp !! t) ->
  match last sp' !! topic with
  | Some c => Timestamp.valid (Topic.lastPubTime_ x) = true /\ Topic.content_ x = c
  | None => Timestamp.valid (Topic.lastPubTime_ x) = false
  end -> represents sp' (setTopic topic x s).
Proof.
  intros [Ha Hn Hl] Hx Hs Ho Ht. split.
  - intros k t. rewrite getTopic_set, Hs. case_bool_decide; [done | apply Ha].
  - intros t. rewrite getTopic_set. case_bool_decide; [congruence | apply Hn].
  - intros t. rewrite getTopic_set. case_bool_decide as E; [subst t; exact Ht |]. rewrite Ho by done. exact (Hl t).
Qed.

(** A representation does not look at contexts and messages. *)
Lemma represents_frame sp s s' : topics_ s' = topics_ s -> represents sp s -> represents sp s'.
Proof. intros E [Ha Hn Hl]. split; unfold getTopic in *; by rewrite E. Qed.

Lemma perform_represents k time r sp s : represents sp s -> up k s -> Timestamp.valid time = true ->
  returns (perform k time r s) (fun s' => represents (Service.step (k, r) sp) s' /\
    (forall k', texts k' s' = texts k' s ++ map text (hears k' (k, r) sp)) /\ (forall k', up k' s -> up k' s')).
Proof.
  intros HR [ctx Hc] Hv. pose proof HR as [Ha Hn Hl]. destruct r as [t|t|t c]; cbn [perform].
  - unfold doSubscribe, connSub. rewrite Hc, bind_Ret. cbn [Topic.add returns].
    change (getTopic t (setSub k ({[t]} ∪ ctx) s)) with (getTopic t s). set (x := Topic.mk _ _ _ _). split_and!.
    + apply (represents_frame _ (setTopic t x s)); [done |]. apply (represents_set t x sp); cbn; try done; [| exact (Hl t)].
      intros k' t'. rewrite elem_of_union, elem_of_singleton. case_bool_decide as E; [subst t' | naive_solver].
      rewrite elem_of_union, elem_of_singleton, Ha. naive_solver.
    + intros k'. rewrite texts_sent. change (texts k' (setTopic _ _ _)) with (texts k' s). f_equal. cbn [hears].
      specialize (Hl t). destruct (last sp !! t) as [c|].
      * destruct Hl as [Hl1 Hl2]. cbn. rewrite Hl1. cbn. destruct (k =? k'); [|done]. cbn. unfold Topic.makeMessage, text, publish. cbn. by rewrite Hn, Hl2.
      * cbn. rewrite Hl. cbn. by destruct (k =? k').
    + intros k' [c' Hc']. unfold up. cbn. destruct (decide (k' = k)) as [->|Hne]; [rewrite lookup_insert_eq | rewrite lookup_insert_ne by done]; by eexists.
  - unfold doUnsubscribe, connSub. cbn [setTopic contexts]. rewrite Hc, bind_Ret. cbn [returns]. split_and!.
    + apply (represents_frame _ (setTopic t (Topic.remove k (getTopic t s)) s)); [done |].
      apply (represents_set t _ sp); cbn; try done; [| exact (Hl t)].
      intros k' t'. rewrite elem_of_difference, elem_of_singleton. case_bool_decide as E; [subst t' | naive_solver].
      rewrite elem_of_difference, elem_of_singleton, Ha. naive_solver.
    + intros k'. cbn. by rewrite app_nil_r.
    + intros k' [c' Hc']. unfold up. cbn. destruct (decide (k' = k)) as [->|Hne]; [rewrite lookup_insert_eq | rewrite lookup_insert_ne by done]; by eexists.
  - unfold doPublish. cbn [Topic.publish returns]. set (x := Topic.mk _ _ _ _). split_and!.
    + apply (represents_frame _ (setTopic t x s)); [done |]. apply (represents_set t x sp); cbn; [done | apply Hn | | | by rewrite lookup_insert_eq].
      * intros k' t'. case_bool_decide as E; [subst t' | done]. by rewrite Ha.
      * intros t' Hne. by rewrite lookup_insert_ne.
    + intros k'. rewrite texts_sent. change (texts k' (setTopic _ _ _)) with (texts k' s). f_equal.
      rewrite filter_everybody by apply NoDup_elements. cbn [hears Topic.audiences_].
      rewrite (bool_decide_ext (k' ∈ elements (Topic.audiences_ x)) ((k', t) ∈ subs sp)) by (rewrite elem_of_elements; apply Ha).
      case_bool_decide; [|done]. cbn. unfold Topic.makeMessage, text, publish. cbn. by rewrite Hn.
    + intros k' Hk'. exact Hk'.
Qed.

(** ** What is heard *)

(** The operations of one client, performed one after the other. *)
Definition ops_of (k : Z) (rs : list request) : list op := map (fun r => (k, r)) rs.

Lemma performs_represents k time rs : forall ops s s', represents (run ops) s -> up k s -> Timestamp.valid time = true ->
  performs k time rs s = Ret s' -> represents (run (ops ++ ops_of k rs)) s' /\ (forall k', up k' s -> up k' s') /\
  (forall k', exists new, heard k' (ops ++ ops_of k rs) = heard k' ops ++ new /\ texts k' s' = texts k' s ++ map text new).
Proof.
  induction rs as [|r rs IH]; intros ops s s' HR Hup Hv Hp.
  { injection Hp as <-. cbn. rewrite app_nil_r. split_and!; try done. intros k'. exists []. by rewrite !app_nil_r. }
  unfold performs in Hp. cbn [perform_all] in Hp. apply bind_Ret_inv in Hp as (s1 & H1 & Hp).
  pose proof (perform_represents k time r (run ops) s HR Hup Hv) as HP. rewrite H1 in HP. destruct HP as (HR1 & Ht1 & Hu1).
  rewrite <-run_snoc in HR1. destruct (IH (ops ++ [(k, r)]) s1 s' HR1 (Hu1 k Hup) Hv Hp) as (HR2 & Hu2 & Ht2).
  assert (E : ops ++ ops_of k (r :: rs) = (ops ++ [(k, r)]) ++ ops_of k rs) by (by rewrite <-app_assoc). rewrite E. split_and!; [done | auto |].
  intros k'. destruct (Ht2 k') as (new & E1 & E2). exists (hears k' (k, r) (run ops) ++ new).
  by rewrite E1, E2, heard_snoc, Ht1, map_app, !app_assoc.
Qed.

Lemma mine_by k k' ops rs : mine k' (ops ++ ops_of k rs) = mine k' ops ++ (if k =? k' then rs else []).
Proof.
  unfold mine, ops_of. rewrite filter_app, map_app. f_equal. induction rs as [|r rs IH]; [by destruct (k =? k') |]. cbn.
  destruct (k =? k'); cbn; [by rewrite IH | done].
Qed.

(** Topics and contents that are heard were in requests. *)
Lemma heard_clean ops : (forall o, o ∈ ops -> request_ok o.2) ->
  (forall t c, last (run ops) !! t = Some c -> clean t /\ clean c) /\ (forall k m, m ∈ heard k ops -> clean m.1 /\ clean m.2).
Proof.
  induction ops as [|o ops IH] using rev_ind; intros Hok.
  { split; [by intros t c | by intros k m ?%elem_of_nil]. }
  destruct IH as [IH1 IH2]. { intros o' Ho'. apply Hok, elem_of_app. by left. }
  assert (Ho : request_ok o.2) by (apply Hok, elem_of_app; right; left). rewrite run_snoc. split.
  - intros t c. destruct o as [k [t'|t'|t' c']]; cbn [Service.step last]; try apply IH1.
    destruct (decide (t' = t)) as [->|Hne]; [rewrite lookup_insert_eq; by intros [= <-] | rewrite lookup_insert_ne by done; apply IH1].
  - intros k m. rewrite heard_snoc, elem_of_app. intros [Hm|Hm]; [by apply (IH2 k) |].
    destruct o as [k' [t'|t'|t' c']]; cbn [hears] in Hm.
    + destruct (k' =? k); [|by apply elem_of_nil in Hm]. destruct (last (run ops) !! t') as [c|] eqn:El; [|by apply elem_of_nil in Hm].
      apply list_elem_of_singleton in Hm as ->. by apply IH1.
    + by apply elem_of_nil in Hm.
    + case_bool_decide; [|by apply elem_of_nil in Hm]. apply list_elem_of_singleton in Hm as ->. exact Ho.
Qed.

(** Who never subscribes hears nothing. *)
Lemma heard_nothing k ops : (forall t, Subscribe t ∉ mine k ops) -> heard k ops = [] /\ forall t, (k, t) ∉ subs (run ops).
Proof.
  induction ops as [|[k' r] ops IH] using rev_ind; intros Hs; [done |]. rewrite heard_snoc, run_snoc.
  destruct IH as [IH1 IH2]. { intros t Ht. apply (Hs t). rewrite mine_snoc. apply elem_of_app. by left. }
  assert (Hr : k' = k -> forall t, r <> Subscribe t).
  { intros -> t ->. apply (Hs t). rewrite mine_snoc, Z.eqb_refl. apply elem_of_app. right. left. }
  rewrite IH1. destruct r as [t'|t'|t' c']; cbn [hears Service.step subs app].
  - destruct (Z.eqb_spec k' k) as [E|Hne]; [by destruct (Hr E t') |]. split; [done |]. intros t. rewrite elem_of_union, elem_of_singleton.
    intros [[= -> _]|H]; [done | by apply (IH2 t)].
  - split; [done |]. intros t. rewrite elem_of_difference. intros [H _]. by apply (IH2 t).
  - rewrite bool_decide_eq_false_2 by done. done.
Qed.

(** ** The client's message callback *)
Section delivery.
Variable find : Z -> Buffer.t -> outcome (option Z).
Hypothesis law : finds_CRLF find.

Definition receive (m : bytes * bytes) (c : HubClient.t) : outcome HubClient.t := Ret (HubClient.call m.1 m.2 c).
Definition listening (ms : list (bytes * bytes)) (c : HubClient.t) : Prop := ms = [] \/ HubClient.subscribeCallback_ c = true.

Lemma client_wait b c : Buffer.wf b -> parse (Buffer.contents b) = More -> HubClient.onMessage_body find (b, c) = Ret (inr (b, c)).
Proof using law.
  intros W E. unfold HubClient.onMessage_body. pose proof (parseMessage_ok find law b W) as Hp. rewrite E in Hp.
  destruct (parseMessage find b) as [[[res [[cmd topic] content]] b1]|]; [|done]. cbn in *. by destruct Hp as [-> ->].
Qed.

Lemma client_message m b c x : clean m.1 /\ clean m.2 -> Buffer.wf b -> Buffer.contents b = text m ++ x ->
  exists b1, HubClient.onMessage_body find (b, c) = Ret (inl (b1, HubClient.call m.1 m.2 c)) /\ Buffer.wf b1 /\ Buffer.contents b1 = x /\
    Buffer.buffer_ b1 = Buffer.buffer_ b.
Proof using law.
  intros Hm W Ex. unfold HubClient.onMessage_body. pose proof (parseMessage_ok find law b W) as Hp.
  change (text m) with (encode (Publish m.1 m.2)) in Ex. rewrite Ex, parse_encode in Hp by done.
  destruct (parseMessage find b) as [[[res [[cmd topic] content]] b1]|]; [|done]. cbn [returns] in Hp. rewrite bind_Ret.
  destruct Hp as (-> & [= -> -> ->] & W1 & E1 & Eb). rewrite drop_app_length in E1. exists b1. by split_and!.
Qed.

Lemma received_all ms : forall c, listening ms c -> exists c', perform_all receive ms c = Ret c' /\
  HubClient.received c' = HubClient.received c ++ ms /\ HubClient.subscribeCallback_ c' = HubClient.subscribeCallback_ c /\
  HubClient.conn_ c' = HubClient.conn_ c /\ HubClient.down c' = HubClient.down c.
Proof.
  induction ms as [|m ms IH]; intros c [E|H]; try done; [exists c; by rewrite app_nil_r | exists c; by rewrite app_nil_r |].
  cbn [perform_all]. change (receive m c) with (Ret (HubClient.call m.1 m.2 c)). rewrite bind_Ret. unfold HubClient.call at 1. rewrite H. destruct (IH (HubClient.mk (HubClient.conn_ c) true (HubClient.received c ++ [(m.1, m.2)]) (HubClient.down c)))
    as (c' & E' & H1 & H2 & H3 & H4); [by right |]. exists c'. cbn in H1. rewrite <-app_assoc, <-surjective_pairing in H1. by rewrite H2.
Qed.

(** One delivery to the client: the messages that are complete are passed on, in order. *)
Lemma client_delivery d y ms b c : Forall (fun m => clean m.1 /\ clean m.2) ms -> listening ms c -> Buffer.wf b ->
  Buffer.contents b ++ d ++ y = concat (map text ms) -> zlen (Buffer.buffer_ b) + zlen d <= vector_max_size -> (d ++ y = [] -> ms = []) ->
  exists ms1 ms2 b' c', ms = ms1 ++ ms2 /\ Lines.serve (HubClient.onMessage_body find) [d] b c = Ret (b', c') /\
    HubClient.received c' = HubClient.received c ++ ms1 /\ HubClient.subscribeCallback_ c' = HubClient.subscribeCallback_ c /\
    HubClient.conn_ c' = HubClient.conn_ c /\ HubClient.down c' = HubClient.down c /\
    Buffer.wf b' /\ zlen (Buffer.buffer_ b') <= zlen (Buffer.buffer_ b) + zlen d /\
    Buffer.contents b' ++ y = concat (map text ms2) /\ (y = [] -> ms2 = []).
Proof using law.
  intros Hok HI W E Hz Hn.
  destruct (serve_one text (fun m => clean m.1 /\ clean m.2) receive listening (HubClient.onMessage_body find))
    with (c := d) (y := y) (rs := ms) (b := b) (s := c) as (ms1 & ms2 & b' & c' & -> & Es & Ep & HI2 & W2 & Hz2 & E2 & Hy); try done.
  - intros m _. cbn. lia.
  - intros b0 c0 W0 Hb0. apply client_wait; [done |]. by rewrite Hb0.
  - intros m b0 c0 x y0 Hm W0 Hx Hl. apply client_wait; [done |]. by apply (parse_partial (Publish m.1 m.2) _ y0 x).
  - intros m ms' b0 c0 x Hm [?|Hcb] W0 Hx; [done |]. destruct (client_message m b0 c0 x Hm W0 Hx) as (b1 & -> & H1 & H2 & H3).
    exists b1, (HubClient.call m.1 m.2 c0). split_and!; try done. right. unfold HubClient.call. by rewrite Hcb.
  - assert (HI1 : listening ms1 c) by (destruct HI as [HI|HI]; [apply app_nil in HI as [-> _]; by left | by right]).
    destruct (received_all ms1 c HI1) as (c0 & Ec & H1 & H2 & H3 & H4). rewrite Ec in Ep. injection Ep as <-.
    exists ms1, ms2, b', c0. by split_and!.
Qed.

Lemma hub_delivery k time d y rs b s : Forall request_ok rs -> up k s -> Buffer.wf b ->
  Buffer.contents b ++ d ++ y = concat (map encode rs) -> zlen (Buffer.buffer_ b) + zlen d <= vector_max_size -> (d ++ y = [] -> rs = []) ->
  exists rs1 rs2 b' s', rs = rs1 ++ rs2 /\ HubProtocol.serve find k time [d] b s = Ret (b', s') /\ performs k time rs1 s = Ret s' /\
    Buffer.wf b' /\ zlen (Buffer.buffer_ b') <= zlen (Buffer.buffer_ b) + zlen d /\
    Buffer.contents b' ++ y = concat (map encode rs2) /\ (y = [] -> rs2 = []).
Proof using law.
  intros Hok Hup W E Hz Hn.
  destruct (serve_one encode request_ok (perform k time) (fun _ => up k) (onMessage_body find k time))
    with (c := d) (y := y) (rs := rs) (b := b) (s := s) as (rs1 & rs2 & b' & s' & -> & Es & Ep & _ & W2 & Hz2 & E2 & Hy); try done.
  - intros r _. destruct r; cbn; lia.
  - intros b0 s0 W0 Hb. apply body_wait; [done..|]. by rewrite Hb.
  - intros r b0 s0 x y0 Hr W0 Hx Hl. apply body_wait; [done..|]. by eapply parse_partial.
  - intros r rs' b0 s0 x. by apply body_command.
  - exists rs1, rs2, b', s'. by split_and!.
Qed.
End delivery.

(** ** The invariant *)

Record link_ok (k : Z) (ops : list op) (s : PubSubServer.t) (l : link) : Prop := {
  lo_asked : Forall request_ok (asked l);
  lo_counts : (to_hub l <= length (concat (map encode (asked l))))%nat /\ (to_client l <= length (concat (texts k s)))%nat;
  lo_hub : Buffer.wf (hub_buffer l) /\ zlen (Buffer.buffer_ (hub_buffer l)) <= 1032 + Z.of_nat (to_hub l);
  lo_client : Buffer.wf (client_buffer l) /\ zlen (Buffer.buffer_ (client_buffer l)) <= 1032 + Z.of_nat (to_client l);
  lo_conn : HubClient.conn_ (client l) = Some true /\ HubClient.down (client l) = false;
  lo_callback : HubClient.subscribeCallback_ (client l) = false -> forall t, Subscribe t ∉ asked l;
  lo_up : exists rest, asked l = mine k ops ++ rest /\ Buffer.contents (hub_buffer l) ++ up_transit l = concat (map encode rest) /\
    (up_transit l = [] -> rest = []);
  lo_down : exists rest, heard k ops = HubClient.received (client l) ++ rest /\
    Buffer.contents (client_buffer l) ++ down_transit k s l = concat (map text rest) /\ (down_transit k s l = [] -> rest = [])
}.

Record world_ok (ks : list Z) (ops : list op) (w : world) : Prop := {
  wo_hub : represents (run ops) (hub w);
  wo_up : forall k, k ∈ ks -> up k (hub w);
  wo_texts : forall k, texts k (hub w) = map text (heard k ops);
  wo_ops : forall o, o ∈ ops -> request_ok o.2;
  wo_links : forall k, k ∈ ks -> link_ok k ops (hub w) (links w k)
}.

Lemma cut_transit (n d : nat) (l : bytes) : drop d l = take n (drop d l) ++ drop (d + length (take n (drop d l))) l.
Proof.
  rewrite <-(take_drop n (drop d l)) at 1. f_equal. rewrite drop_drop, length_take, length_drop.
  destruct (Nat.le_gt_cases n (length l - d)); [by rewrite Nat.min_l by lia |]. rewrite !drop_ge by lia. done.
Qed.

Lemma text_nonempty ms : concat (map text ms) = [] -> ms = [].
Proof. by destruct ms. Qed.

Lemma texts_nothing k s l new : (to_client l <= length (concat (texts k s)))%nat ->
  forall s', texts k s' = texts k s ++ map text new -> down_transit k s' l = down_transit k s l ++ concat (map text new).
Proof. intros Hc s' E. unfold down_transit. rewrite E, concat_app. by rewrite drop_app_le. Qed.

(** More messages for a client that did not ask for anything meanwhile. *)
Lemma link_more k ops ops' s s' l new : link_ok k ops s l -> mine k ops' = mine k ops -> heard k ops' = heard k ops ++ new ->
  texts k s' = texts k s ++ map text new -> link_ok k ops' s' l.
Proof.
  intros [Ha [Hc1 Hc2] Hh Hcl Hcon Hcb Hu (rest & Hd1 & Hd2 & Hd3)] Hm Hhe Ht. pose proof (texts_nothing k s l new Hc2 s' Ht) as Hdt.
  split; try done.
  - split; [done |]. rewrite Ht, concat_app, length_app. lia.
  - by rewrite Hm.
  - exists (rest ++ new). rewrite Hhe, Hd1, Hdt, map_app, concat_app, <-Hd2, <-!app_assoc. split_and!; try done.
    intros [H1 H2]%app_nil. rewrite (Hd3 H1). by apply text_nonempty.
Qed.

Section steps.
Variables (find : Z -> Buffer.t -> outcome (option Z)) (ks : list Z).
Hypothesis law : finds_CRLF find.

Definition event_ok (e : event) : Prop :=
  match e with
  | Request k r => k ∈ ks /\ request_ok r
  | ToHub k _ time => k ∈ ks /\ Timestamp.valid time = true
  | ToClient k _ => k ∈ ks
  end.

Definition size_of (e : event) : Z := match e with Request _ _ => 0 | ToHub _ n _ | ToClient _ n => Z.of_nat n end.
Definition total (es : list event) : Z := fold_right (fun e n => size_of e + n) 0 es.

(** No more than [X] bytes went over a link so far. *)
Definition within (X : Z) (w : world) : Prop := forall k, Z.of_nat (to_hub (links w k)) <= X /\ Z.of_nat (to_client (links w k)) <= X.

Lemma ask_step k r ops w : world_ok ks ops w -> k ∈ ks -> request_ok r ->
  exists w', step find (Request k r) w = Ret w' /\ world_ok ks ops w' /\ forall X, within X w -> within X w'.
Proof.
  intros [Hh Hu Ht Ho Hl] Hk Hr. cbn [step]. destruct (HubClient.request_sent r (client (links w k))) as [c sent] eqn:Ec.
  eexists. split; [reflexivity |]. split.
  2:{ intros X HX k'. cbn [links]. unfold set_link. destruct (k' =? k); [apply (HX k) | apply (HX k')]. }
  split; cbn [hub links]; try done. intros k' Hk'. unfold set_link. destruct (Z.eqb_spec k' k) as [->|_]; [|by apply Hl].
  destruct (Hl k Hk) as [Ha [Hc1 Hc2] Hhb Hcl [Hcon Hdown] Hcb (rest & Hu1 & Hu2 & Hu3) Hd].
  unfold HubClient.request_sent in Ec. assert (Hcc : HubClient.conn_ c = Some true /\ HubClient.down c = false /\ sent = true /\
    HubClient.received c = HubClient.received (client (links w k)) /\ (HubClient.subscribeCallback_ c = false ->
      HubClient.subscribeCallback_ (client (links w k)) = false /\ forall t, r <> Subscribe t)).
  { destruct r; injection Ec as <- <-; cbn; unfold PubSubClient.send, PubSubClient.connected; rewrite Hcon; cbn; split_and!; done. }
  destruct Hcc as (E1 & E2 & -> & E3 & E4).
  assert (Hcat : concat (map encode (asked (links w k) ++ [r])) = concat (map encode (asked (links w k))) ++ encode r) by (rewrite map_app, concat_app; cbn; by rewrite app_nil_r).
  split; cbn [asked to_hub to_client hub_buffer client_buffer client]; try done.
  - apply Forall_app. split; [done | by constructor].
  - split; [|done]. rewrite Hcat, length_app. lia.
  - intros Hf. destruct (E4 Hf) as [H1 H2]. intros t [H|H]%elem_of_app; [by apply (Hcb H1 t) |]. apply list_elem_of_singleton in H. by destruct (H2 t).
  - exists (rest ++ [r]). unfold up_transit. cbn [asked to_hub]. rewrite Hcat, drop_app_le by done. fold (up_transit (links w k)).
    rewrite Hu1, map_app, concat_app, <-Hu2, <-!app_assoc. cbn [map concat]. rewrite app_nil_r. split_and!; try done.
    intros [_ H]%app_nil. by destruct r.
  - rewrite E3. exact Hd.
Qed.
Lemma hub_step k n time ops w X : world_ok ks ops w -> k ∈ ks -> Timestamp.valid time = true -> within X w -> X + Z.of_nat n <= 2 ^ 62 ->
  exists w' ops', step find (ToHub k n time) w = Ret w' /\ world_ok ks ops' w' /\ within (X + Z.of_nat n) w'.
Proof using law.
  intros [Hh Hu Ht Ho Hl] Hk Hv HX Hn. cbn [step]. pose proof (cut_transit n (to_hub (links w k)) (concat (map encode (asked (links w k))))) as Ec.
  fold (up_transit (links w k)) in Ec. set (d := take n (up_transit (links w k))) in *.
  assert (Hd : (length d <= n)%nat) by (unfold d; rewrite length_take; lia).
  destruct (Hl k Hk) as [Ha [Hc1 Hc2] [Whb Zhb] Hcl Hcon Hcb (rest & Hu1 & Hu2 & Hu3) Hdn]. destruct (HX k) as [HX1 HX2]. rewrite Ec in Hu2.
  destruct (hub_delivery find law k time d (drop (to_hub (links w k) + length d) (concat (map encode (asked (links w k))))) rest (hub_buffer (links w k)) (hub w))
    as (rs1 & rs2 & b' & s' & -> & Es & Ep & W' & Hz' & E' & Hy); try done.
  - rewrite Hu1 in Ha. by apply Forall_app in Ha as [_ Ha].
  - by apply Hu.
  - unfold vector_max_size, zlen in *. lia.
  - intros H. rewrite <-Ec in H. by apply Hu3.
  - rewrite Es, bind_Ret. destruct (performs_represents k time rs1 ops (hub w) s' Hh (Hu k Hk) Hv Ep) as (HR & Hup & Hnew).
    eexists _, (ops ++ ops_of k rs1). split; [reflexivity |]. split.
    2:{ intros k'. cbn [links]. unfold set_link. destruct (k' =? k); [cbn; lia |]. destruct (HX k'). lia. }
    assert (Hok1 : Forall request_ok rs1). { rewrite Hu1 in Ha. apply Forall_app in Ha as [_ Ha]. by apply Forall_app in Ha as [? _]. }
    split; cbn [hub links]; try done.
    + intros k' Hk'. apply Hup, Hu, Hk'.
    + intros k'. destruct (Hnew k') as (new & E1 & E2). by rewrite E1, E2, map_app, Ht.
    + intros o [H|H]%elem_of_app; [by apply Ho |]. apply list_elem_of_fmap in H as (r & -> & H). rewrite list.Forall_forall in Hok1. by apply Hok1.
    + intros k' Hk'. destruct (Hnew k') as (new & E1 & E2). unfold set_link. destruct (Z.eqb_spec k' k) as [->|Hne].
      * destruct Hdn as (rest & Hd1 & Hd2 & Hd3). pose proof (texts_nothing k (hub w) (links w k) new Hc2 s' E2) as Hdt.
        split; cbn [asked to_hub to_client hub_buffer client_buffer client]; try done.
        -- split; [|rewrite E2, concat_app, length_app; lia]. unfold d, up_transit. rewrite length_take, length_drop. lia.
        -- split; [done |]. unfold zlen in *. lia.
        -- exists rs2. rewrite mine_by, Z.eqb_refl, <-app_assoc. split_and!; try done.
        -- exists (rest ++ new). change (down_transit k s' _) with (down_transit k s' (links w k)).
           rewrite E1, Hd1, Hdt, map_app, concat_app, <-Hd2, <-!app_assoc. split_and!; try done.
           intros [H1 H2]%app_nil. rewrite (Hd3 H1). by apply text_nonempty.
      * apply (link_more k' ops _ (hub w) _ _ new); try done; [by apply Hl |]. rewrite mine_by. destruct (Z.eqb_spec k k') as [->|_]; [done | by rewrite app_nil_r].
Qed.

Lemma hear_step k n ops w X : world_ok ks ops w -> k ∈ ks -> within X w -> X + Z.of_nat n <= 2 ^ 62 ->
  exists w', step find (ToClient k n) w = Ret w' /\ world_ok ks ops w' /\ within (X + Z.of_nat n) w'.
Proof using law.
  intros [Hh Hu Ht Ho Hl] Hk HX Hn. cbn [step]. pose proof (cut_transit n (to_client (links w k)) (concat (texts k (hub w)))) as Ec.
  fold (down_transit k (hub w) (links w k)) in Ec. set (d := take n (down_transit k (hub w) (links w k))) in *.
  assert (Hd : (length d <= n)%nat) by (unfold d; rewrite length_take; lia).
  destruct (Hl k Hk) as [Ha [Hc1 Hc2] Hhb [Wcb Zcb] Hcon Hcb Hup (rest & Hd1 & Hd2 & Hd3)]. destruct (HX k) as [HX1 HX2]. rewrite Ec in Hd2.
  destruct (client_delivery find law d (drop (to_client (links w k) + length d) (concat (texts k (hub w)))) rest (client_buffer (links w k)) (client (links w k)))
    as (ms1 & ms2 & b' & c' & -> & Es & Er & Ecb & Econ & Edown & W' & Hz' & E' & Hy); try done.
  - apply list.Forall_forall. intros m Hm. apply (proj2 (heard_clean ops Ho) k). rewrite Hd1. apply elem_of_app. by right.
  - unfold listening. destruct (HubClient.subscribeCallback_ (client (links w k))) eqn:E; [by right | left].
    destruct Hup as (r & Hu1 & _). destruct (heard_nothing k ops) as [H0 _].
    { intros t Hin. apply (Hcb eq_refl t). rewrite Hu1. apply elem_of_app. by left. }
    rewrite H0 in Hd1. symmetry in Hd1. by apply app_nil in Hd1 as [_ ?].
  - unfold vector_max_size, zlen in *. lia.
  - intros H. rewrite <-Ec in H. by apply Hd3.
  - rewrite Es, bind_Ret. eexists. split; [reflexivity |]. split.
    2:{ intros k'. cbn [links]. unfold set_link. destruct (k' =? k); [cbn; lia |]. destruct (HX k'). lia. }
    split; cbn [hub links]; try done. intros k' Hk'. unfold set_link. destruct (Z.eqb_spec k' k) as [->|Hne]; [|by apply Hl].
    split; cbn [asked to_hub to_client hub_buffer client_buffer client]; try done.
    + split; [done |]. unfold d, down_transit. rewrite length_take, length_drop. lia.
    + split; [done |]. unfold zlen in *. lia.
    + rewrite Econ, Edown. done.
    + rewrite Ecb. done.
    + exists ms2. rewrite Er, <-app_assoc. by split_and!.
Qed.

Lemma steps_network es : forall X ops w, world_ok ks ops w -> Forall event_ok es -> within X w -> X + total es <= 2 ^ 62 ->
  returns (steps find es w) (fun w' => exists ops', world_ok ks ops' w').
Proof using law.
  induction es as [|e es IH]; intros X ops w HW He HX Hn; cbn [steps]; [by exists ops |].
  cbn [total fold_right] in Hn. fold (total es) in Hn. inversion He as [|? ? He1 He2]; subst.
  assert (Ht : 0 <= total es) by (clear; induction es as [|e es IH]; cbn; [lia |]; fold (total es); destruct e; cbn; lia).
  destruct e as [k r|k n time|k n]; cbn [event_ok size_of] in *.
  - destruct He1 as [Hk Hr]. destruct (ask_step k r ops w HW Hk Hr) as (w' & -> & HW' & HX'). rewrite bind_Ret. apply (IH X ops w'); auto; lia.
  - destruct He1 as [Hk Hv]. destruct (hub_step k n time ops w X HW Hk Hv HX ltac:(lia)) as (w' & ops' & -> & HW' & HX'). rewrite bind_Ret.
    apply (IH (X + Z.of_nat n) ops' w'); auto; lia.
  - destruct (hear_step k n ops w X HW He1 HX ltac:(lia)) as (w' & -> & HW' & HX'). rewrite bind_Ret. apply (IH (X + Z.of_nat n) ops w'); auto; lia.
Qed.
End steps.

Lemma connect_all_ok ks : forall s, represents Service.empty s -> outbox s = [] ->
  returns (connect_all ks s) (fun s' => represents Service.empty s' /\ outbox s' = [] /\ (forall k, k ∈ ks \/ up k s -> up k s')).
Proof.
  induction ks as [|k ks IH]; intros s HR Ho; cbn [connect_all].
  { cbn. split_and!; try done. intros k [H|H]; [by apply elem_of_nil in H | done]. }
  cbn [onConnecton]. rewrite bind_Ret. eapply returns_mono; [|apply (IH (setSub k ∅ s)); [by apply (represents_frame _ s) | done]].
  intros s' (HR' & Ho' & Hu'). split_and!; try done. intros k' [[->|H]%elem_of_cons|H]; apply Hu'.
  - right. eexists. apply lookup_insert_eq.
  - by left.
  - right. destruct H as [c Hc]. unfold up, setSub. cbn [contexts].
    destruct (decide (k = k')) as [->|Hne]; [rewrite lookup_insert_eq | rewrite lookup_insert_ne by done]; by eexists.
Qed.

Lemma start_network ks : returns (start ks) (fun w => world_ok ks [] w /\ within 0 w).
Proof.
  unfold start. pose proof Buffer.Buffer_ok as HB. destruct Buffer.Buffer as [b|]; [|done]. destruct HB as [W Hb _ _ Hv]. rewrite bind_Ret.
  cbn [Buffer.q_bytes Buffer.q_vol Buffer.empty_queue] in *.
  assert (H0 : represents Service.empty PubSubServer).
  { split; [|done|done]. intros k t. cbn. unfold Service.empty. cbn. set_solver. }
  eapply returns_seq; [by apply (connect_all_ok ks PubSubServer) |]. intros s (HR & Ho & Hu). cbn [returns]. split; [|done].
  split; cbn [hub links]; try done.
  - intros k Hk. apply Hu. by left.
  - intros k. unfold texts. by rewrite Ho.
  - intros o H. by apply elem_of_nil in H.
  - intros k Hk. assert (Hz : zlen (Buffer.buffer_ b) <= 1032) by (unfold Buffer.kCheapPrepend, Buffer.kInitialSize in *; lia).
    split; cbn [asked to_hub to_client hub_buffer client_buffer client]; try done.
    + split; cbn; lia.
    + intros _ t H. by apply elem_of_nil in H.
    + exists []. by rewrite Hb.
    + exists []. unfold down_transit, texts. by rewrite Hb, Ho.
Qed.

(** C33. The hub and any number of connected clients, with requests made and bytes of either
    direction delivered in any order and in any pieces, implement the publish/subscribe
    service: there is one sequence of operations, in which each client's requests come in the
    order it made them, all of them once no byte is on its way to the hub, such that every
    client's callback was called with the messages it hears in that sequence, in order, all of
    them once no byte is on its way to it; and no connection is shut down. *)
Theorem hub_network find ks es : finds_CRLF find -> Forall (event_ok ks) es -> total es <= 2 ^ 62 ->
  returns (w ← start ks; steps find es w) (fun w => exists ops, forall k, k ∈ ks ->
    let l := links w k in
    (exists rest, asked l = mine k ops ++ rest /\ (up_transit l = [] -> rest = [])) /\
    (exists rest, heard k ops = HubClient.received (client l) ++ rest /\ (down_transit k (hub w) l = [] -> rest = [])) /\
    HubClient.down (client l) = false).
Proof.
  intros law He Hn. eapply returns_seq; [apply start_network |]. intros w0 [H0 HX0].
  eapply returns_mono; [|by apply (steps_network find ks law es 0 [] w0 H0 He HX0)].
  intros w [ops HW]. exists ops. intros k Hk. destruct (wo_links _ _ _ HW k Hk) as [_ _ _ _ [_ Hd] _ (r1 & H1 & _ & H2) (r2 & H3 & _ & H4)].
  cbv zeta. split_and!; [by exists r1 | by exists r2 | done].
Qed.

(** A publication between two subscriptions; the hub's messages are still under way. *)
Definition three_requests : list event :=
  [Request 1 (Subscribe (lit "a")); Request 2 (Publish (lit "a") (lit "hi")); ToHub 1 3 (Timestamp.Timestamp 5);
   ToHub 2 100 (Timestamp.Timestamp 6); ToHub 1 100 (Timestamp.Timestamp 7); Request 2 (Subscribe (lit "a")); ToClient 1 4; ToHub 2 100 (Timestamp.Timestamp 8)].

Lemma hub_network_witness :
  returns (w ← start [1; 2]; steps std_find three_requests w) (fun w => exists ops, forall k, k ∈ [1; 2] ->
    let l := links w k in
    (exists rest, asked l = mine k ops ++ rest /\ (up_transit l = [] -> rest = [])) /\
    (exists rest, heard k ops = HubClient.received (client l) ++ rest /\ (down_transit k (hub w) l = [] -> rest = [])) /\
    HubClient.down (client l) = false).
Proof.
  apply (hub_network std_find [1; 2] three_requests).
  - intros b start _ _. reflexivity.
  - repeat (apply List.Forall_cons || apply List.Forall_nil); cbn [event_ok];
      repeat match goal with |- _ /\ _ => split | |- _ ∈ _ => rewrite !elem_of_cons; tauto end; repeat split; reflexivity.
  - vm_compute. discriminate.
Defined.

Example both_hear :
  (w ← (w ← start [1; 2]; steps std_find (three_requests ++ [ToClient 1 100; ToClient 2 100]) w);
   Ret (map (fun k => HubClient.received (client (links w k))) [1; 2])) = Ret [[(lit "a", lit "hi")]; [(lit "a", lit "hi")]].
Proof. vm_compute. reflexivity. Qed.

End HubNetwork.
