(* ===== verification/HubTools.v ===== *)
(** * excercises/hub/pub.cc and sub.cc: the command line clients of the hub

    Both read the address of the hub from the command line and use [PubSubClient]; what they give
    to their connection is served by the hub of Hub.v. *)

From S2P Require Import Prelude Endian NetBuffer Calendar Format TimeZone Hub HubNetwork.

Module HubTools.
Import Codec PubSubClient HubProtocol HubBooks.

(** ** The command line *)

Definition colon : byte := x3a.

(** [hub_ip:port]: the address and the port, none without a colon. *)
Definition hub_address (hostport : bytes) : outcome (option (bytes * Z)) :=
  match find_byte colon hostport with
  | None => Ret None
  | Some i => n ← atoi (drop (S i) hostport); Ret (Some (take i hostport, u16 n))
  end.

(** A text that names a host and a port is read as these; a port that has no 16 bits becomes
    another one. *)
Lemma hub_address_ok ip port : colon ∉ ip -> 0 <= port < 2 ^ 31 -> hub_address (ip ++ colon :: show port) = Ret (Some (ip, u16 port)).
Proof.
  intros Hip Hp. unfold hub_address. rewrite find_byte_app by done.
  change (ip ++ colon :: show port) with (ip ++ [colon] ++ show port). rewrite take_app_length.
  replace (S (length ip)) with (length (ip ++ [colon])) by (rewrite length_app; cbn; lia). rewrite app_assoc, drop_app_length.
  by rewrite atoi_show, bind_Ret by lia.
Qed.

(** ** The callbacks *)

(** The client, the requests given to its connection, calls of [client->stop()] and of
    [g_loop->quit()]. *)
Record t := mk { client : HubClient.t; given : list request; stops : nat; quits : nat }.

Definition PubSub : t := mk HubClient.PubSubClient [] 0 0.

(** [client->publish] and [client->subscribe] *)
Definition ask (r : request) (s : t) : t :=
  let '(c, sent) := HubClient.request_sent r (client s) in mk c (if sent then given s ++ [r] else given s) (stops s) (quits s).

Definition stop (s : t) : t := mk (client s) (given s) (S (stops s)) (quits s).
Definition quit (s : t) : t := mk (client s) (given s) (stops s) (S (quits s)).

Definition connected (s : t) : bool := PubSubClient.connected (HubClient.conn_ (client s)).

(** [connection] of pub.cc and of sub.cc *)
Definition pub_connection (g_topic g_content : bytes) (s : t) : t :=
  if connected s then stop (ask (Publish g_topic g_content) s) else quit s.

Definition sub_connection (g_topics : list bytes) (s : t) : t :=
  if connected s then foldl (fun s topic => ask (Subscribe topic) s) s g_topics else quit s.

(** [PubSubClient::onConnection] with its callback. *)
Definition onConnection (callback : t -> t) (up : bool) (s : t) : t :=
  callback (mk (HubClient.onConnection up (client s)) (given s) (stops s) (quits s)).

(** pub.cc with "-": every line is published, whether there is a connection yet or not. *)
Definition publish_lines (g_topic : bytes) (lines : list bytes) (s : t) : t :=
  foldl (fun s line => ask (Publish g_topic line) s) s lines.

(** What the connection carries. *)
Definition wire (s : t) : bytes := concat (map encode (given s)).

Lemma ask_connected r s : connected s = true -> given (ask r s) = given s ++ [r] /\ connected (ask r s) = true.
Proof. unfold ask, connected, HubClient.request_sent, send. intros H. destruct r; cbn; rewrite H; done. Qed.

Lemma ask_disconnected r s : connected s = false -> given (ask r s) = given s /\ connected (ask r s) = false.
Proof. unfold ask, connected, HubClient.request_sent, send. intros H. destruct r; cbn; rewrite H; done. Qed.

Lemma ask_all {A} (f : A -> request) l : forall s, given (foldl (fun s x => ask (f x) s) s l) = given s ++ (if connected s then map f l else []).
Proof.
  induction l as [|x l IH]; intros s; cbn [foldl map]; [by destruct (connected s); rewrite app_nil_r |]. rewrite IH.
  destruct (connected s) eqn:E; [destruct (ask_connected (f x) s E) as [-> ->] | destruct (ask_disconnected (f x) s E) as [-> ->]]; [by rewrite <-app_assoc | done].
Qed.

(** ** What the hub makes of it *)

Lemma performs_subscribe conn time topics : forall s, agree s -> up conn s ->
  returns (performs conn time (map Subscribe topics) s) (fun s' => agree s' /\ up conn s' /\
    forall topic, subscribed conn topic s' <-> (subscribed conn topic s \/ topic ∈ topics)).
Proof.
  induction topics as [|t0 topics IH]; intros s HA HU; cbn [map performs Lines.perform_all]; [split_and!; [done | done |]; set_solver |].
  change (perform conn time (Subscribe t0) s) with (PubSubServer.doSubscribe conn t0 s).
  pose proof (agree_subscribe conn t0 s HA HU) as HR. assert (HS : returns (PubSubServer.doSubscribe conn t0 s) (fun s' => forall topic, subscribed conn topic s' <-> (subscribed conn topic s \/ topic = t0))).
  { destruct HU as [c Hc]. unfold PubSubServer.doSubscribe, PubSubServer.connSub. rewrite Hc, bind_Ret. cbn [returns]. intros topic. unfold subscribed. cbn.
    rewrite lookup_insert_eq, Hc. split; [intros (? & [= <-] & H); set_solver | intros [(? & [= <-] & H) | ->]; eexists; (split; [done | set_solver])]. }
  destruct (PubSubServer.doSubscribe conn t0 s) as [s1|]; [|done]. cbn [returns] in HR, HS. rewrite bind_Ret. destruct HR as (HA1 & HU1 & _).
  eapply returns_mono; [|by apply IH]. intros s' (HA' & HU' & Hsub). split_and!; [done | done |]. intros topic. rewrite Hsub, HS, elem_of_cons. tauto.
Qed.

(** sub.cc: when the connection comes up the client asks for all its topics, and once the hub has
    read what it sent, in whatever pieces, the client is in the audience of exactly these
    topics. *)
Theorem sub_subscribes find conn time topics chunks s : finds_CRLF find -> Forall Lines.clean topics ->
  agree s -> up conn s -> (forall topic, ~ subscribed conn topic s) ->
  concat chunks = wire (onConnection (sub_connection topics) true PubSub) -> zlen (concat chunks) <= 2 ^ 62 ->
  returns (b ← Buffer.Buffer; serve find conn time chunks b s) (fun '(b', s') => Buffer.contents b' = [] /\
    forall topic, conn ∈ Topic.audiences_ (PubSubServer.getTopic topic s') <-> topic ∈ topics).
Proof.
  intros law Ht HA HU Hno Ec Hz. assert (Eg : given (onConnection (sub_connection topics) true PubSub) = map Subscribe topics).
  { unfold onConnection, sub_connection. cbn [connected client HubClient.onConnection HubClient.conn_ PubSubClient.connected]. by rewrite ask_all. }
  unfold wire in Ec. rewrite Eg in Ec. assert (Hok : Forall request_ok (map Subscribe topics)) by (by apply List.Forall_map).
  pose proof (hub_protocol_stream find conn time (map Subscribe topics) chunks s law Hok HU Ec Hz) as HS.
  eapply returns_mono; [|exact HS]. intros [b' s'] [Ep Eb]. split; [done |].
  pose proof (performs_subscribe conn time topics s HA HU) as HP. rewrite Ep in HP. destruct HP as (HA' & _ & Hsub).
  intros topic. rewrite (HA' conn topic), Hsub. specialize (Hno topic). tauto.
Qed.

Definition two_topics : list bytes := [lit "a"; lit "b"].

(** The client of connection 1 asks for two topics; the hub reads them in two pieces. *)
Lemma sub_subscribes_witness :
  returns (b ← Buffer.Buffer; serve std_find 1 (Timestamp.Timestamp 5) [lit "sub a" ++ Buffer.kCRLF ++ lit "s"; lit "ub b" ++ Buffer.kCRLF] b (PubSubServer.setSub 1 ∅ PubSubServer.PubSubServer))
    (fun '(b', s') => Buffer.contents b' = [] /\ forall topic, 1 ∈ Topic.audiences_ (PubSubServer.getTopic topic s') <-> topic ∈ two_topics).
Proof.
  assert (Hno : forall k topic, ~ subscribed k topic (PubSubServer.setSub 1 ∅ PubSubServer.PubSubServer)).
  { intros k topic. rewrite subscribed_set. case_bool_decide; [set_solver |]. intros (c & Hc & _). cbn in Hc. by rewrite lookup_empty in Hc. }
  apply (sub_subscribes std_find 1 (Timestamp.Timestamp 5) two_topics).
  - intros b start _ _. reflexivity.
  - repeat constructor.
  - intros k topic. split; [|by intros ?%Hno]. change (PubSubServer.getTopic topic _) with (PubSubServer.getTopic topic PubSubServer.PubSubServer).
    unfold PubSubServer.getTopic. cbn. rewrite lookup_empty. cbn. set_solver.
  - eexists. apply lookup_insert_eq.
  - intros topic. apply Hno.
  - reflexivity.
  - vm_compute. discriminate.
Defined.

(** pub.cc with a content: the connection carries the publication, once, before it is stopped,
    and the loop is left when the connection is down. *)
Lemma pub_publishes topic content :
  let s := onConnection (pub_connection topic content) true PubSub in
  given s = [Publish topic content] /\ stops s = 1%nat /\ quits s = 0%nat /\
  quits (onConnection (pub_connection topic content) false s) = 1%nat.
Proof. done. Qed.

(** pub.cc with "-" publishes the lines in order once there is a connection, and drops the lines
    it reads before: [start] only begins to connect, and [publish] answers true. *)
Lemma publish_lines_ok topic lines s : given (publish_lines topic lines s) = given s ++ (if connected s then map (Publish topic) lines else []).
Proof. unfold publish_lines. apply (ask_all (Publish topic)). Qed.

Lemma early_lines_lost topic lines : given (publish_lines topic lines PubSub) = [].
Proof. by rewrite publish_lines_ok. Qed.

End HubTools.
