(* ===== verification/SudokuStat.v ===== *)
(** * excercises/sudoku/stat.h and percentile.h: what the solver service measures

    [SudokuStat] counts responses per second in a window of the last 60 seconds kept in
    circular buffers.  The reference is the history of responses itself: the window
    is a function of it. *)

From S2P Require Import Prelude Calendar TimeZone.

(** [boost::circular_buffer]: [push_back] on a full one drops the front. *)
Definition cb_push (capacity : nat) (x : Z) (l : list Z) : list Z :=
  (if (length l <? capacity)%nat then l else drop 1 l) ++ [x].

(** [back() += x]: undefined on an empty buffer. *)
Definition add_at (i : nat) (x : Z) (l : list Z) : outcome (list Z) :=
  match l !! i with
  | Some y => z ← i64 (y + x); Ret (<[i := z]> l)
  | None => Crash OutOfRange
  end.

Definition add_back (x : Z) (l : list Z) : outcome (list Z) := add_at (length l - 1) x l.

Module SudokuStat.

Definition kSeconds : Z := 60.

Record t := mk {
  lastSecond_ : Z;
  requests_ : list Z;
  latencies_ : list Z;
  totalRequests_ : Z;
  totalResponses_ : Z;
  totalSolved_ : Z;
  badRequests_ : Z;
  droppedRequests_ : Z;
  totalLatency_ : Z;
  badLatency_ : Z
}.

Definition SudokuStat : t := mk 0 [] [] 0 0 0 0 0 0 0.

(** [reset] leaves [droppedRequests_] as it is. *)
Definition reset (s : t) : t := mk 0 [] [] 0 0 0 0 (droppedRequests_ s) 0 0.

Definition push (x : Z) (l : list Z) : list Z := cb_push (Z.to_nat kSeconds) x l.

(** [while (lastSecond_ < second)]: the gap is below [kSeconds]. *)
Fixpoint fill (n : nat) (l : list Z) : list Z := match n with O => l | S n' => fill n' (push 0 l) end.

Definition with_window (last : Z) (rs ls : list Z) (responses solved latency : Z) (s : t) : t :=
  mk last rs ls (totalRequests_ s) responses solved (badRequests_ s) (droppedRequests_ s) latency (badLatency_ s).

Definition recordResponse (now receive : Timestamp.t) (solved : bool) (s : t) : outcome t :=
  let second := Timestamp.secondsSinceEpoch now in
  elapsed_us ← i64 (Timestamp.microSecondsSinceEpoch_ now - Timestamp.microSecondsSinceEpoch_ receive);
  _ ← check (length (requests_ s) =? length (latencies_ s))%nat;
  responses ← i64 (totalResponses_ s + 1);
  solved' ← (if solved then i64 (totalSolved_ s + 1) else Ret (totalSolved_ s));
  if elapsed_us <? 0 then
    bad ← i64 (badLatency_ s + 1);
    Ret (mk (lastSecond_ s) (requests_ s) (latencies_ s) (totalRequests_ s) responses solved' (badRequests_ s)
           (droppedRequests_ s) (totalLatency_ s) bad)
  else
    latency ← i64 (totalLatency_ s + elapsed_us);
    let size := zlen (requests_ s) in
    firstSecond ← i64 (lastSecond_ s - size + 1);
    s' ← (if lastSecond_ s =? second then
            rs ← add_back 1 (requests_ s); ls ← add_back elapsed_us (latencies_ s);
            Ret (with_window (lastSecond_ s) rs ls responses solved' latency s)
          else if (lastSecond_ s + 1 =? second) || (lastSecond_ s =? 0) then
            rs ← add_back 1 (push 0 (requests_ s)); ls ← add_back elapsed_us (push 0 (latencies_ s));
            Ret (with_window second rs ls responses solved' latency s)
          else if lastSecond_ s <? second then
            let '(rs0, ls0) :=
              if second <? lastSecond_ s + kSeconds then
                let gap := Z.to_nat (second - lastSecond_ s) in (fill gap (requests_ s), fill gap (latencies_ s))
              else (push 0 [], push 0 []) in
            rs ← add_back 1 rs0; ls ← add_back elapsed_us ls0;
            Ret (with_window second rs ls responses solved' latency s)
          else if firstSecond <=? second then
            let idx := Z.to_nat (second - firstSecond) in
            _ ← check (idx <? length (requests_ s))%nat;
            rs ← add_at idx 1 (requests_ s); ls ← add_at idx elapsed_us (latencies_ s);
            Ret (with_window (lastSecond_ s) rs ls responses solved' latency s)
          else
            _ ← check (second <? firstSecond);
            Ret (with_window (lastSecond_ s) (requests_ s) (latencies_ s) responses solved' latency s));
    _ ← check (length (requests_ s') =? length (latencies_ s'))%nat;
    Ret s'.

Definition recordRequest (s : t) : outcome t :=
  n ← i64 (totalRequests_ s + 1);
  Ret (mk (lastSecond_ s) (requests_ s) (latencies_ s) n (totalResponses_ s) (totalSolved_ s) (badRequests_ s)
         (droppedRequests_ s) (totalLatency_ s) (badLatency_ s)).

Definition recordBadRequest (s : t) : outcome t :=
  n ← i64 (badRequests_ s + 1);
  Ret (mk (lastSecond_ s) (requests_ s) (latencies_ s) (totalRequests_ s) (totalResponses_ s) (totalSolved_ s) n
         (droppedRequests_ s) (totalLatency_ s) (badLatency_ s)).

Definition recordDroppedRequest (s : t) : outcome t :=
  n ← i64 (droppedRequests_ s + 1);
  Ret (mk (lastSecond_ s) (requests_ s) (latencies_ s) (totalRequests_ s) (totalResponses_ s) (totalSolved_ s)
         (badRequests_ s) n (totalLatency_ s) (badLatency_ s)).

(** ** The reference: the responses recorded, with their second and latency *)

Definition history : Type := list (Z * Z).

Fixpoint count (sec : Z) (h : history) : Z :=
  match h with [] => 0 | (s, _) :: h' => (if s =? sec then 1 else 0) + count sec h' end.
Fixpoint spent (sec : Z) (h : history) : Z :=
  match h with [] => 0 | (s, e) :: h' => (if s =? sec then e else 0) + spent sec h' end.
Fixpoint total (h : history) : Z := match h with [] => 0 | (_, e) :: h' => e + total h' end.

(** The window of a buffer ending in second [last]: entry [i] is for its own second. *)
Definition window (f : Z -> Z) (last : Z) (l : list Z) : Prop :=
  forall i x, l !! i = Some x -> x = f (last - zlen l + 1 + Z.of_nat i).

Record inv (h : history) (s : t) : Prop := {
  i_len : length (requests_ s) = length (latencies_ s);
  i_cap : zlen (requests_ s) <= kSeconds;
  i_empty : lastSecond_ s = 0 -> h = [] /\ requests_ s = [];
  i_some : 0 < lastSecond_ s -> requests_ s <> [];
  i_last : 0 <= lastSecond_ s < 2 ^ 60;
  i_seen r : r ∈ h -> 0 < fst r <= lastSecond_ s /\ 0 <= snd r;
  i_requests : window (fun sec => count sec h) (lastSecond_ s) (requests_ s);
  i_latencies : window (fun sec => spent sec h) (lastSecond_ s) (latencies_ s);
  i_latency : totalLatency_ s = total h
}.

(** The counters after at most [n] calls. *)
Record counts (n : Z) (s : t) : Prop := {
  c_requests : 0 <= totalRequests_ s <= n;
  c_responses : 0 <= totalResponses_ s <= n;
  c_solved : 0 <= totalSolved_ s <= n;
  c_badRequests : 0 <= badRequests_ s <= n;
  c_dropped : 0 <= droppedRequests_ s <= n;
  c_badLatency : 0 <= badLatency_ s <= n
}.

(** ** Calls *)
Inductive event :=
| Response (now receive : Timestamp.t) (solved : bool)
| Request | BadRequest | Dropped | Reset.

Definition step (e : event) (s : t) : outcome t :=
  match e with
  | Response now receive solved => recordResponse now receive solved s
  | Request => recordRequest s
  | BadRequest => recordBadRequest s
  | Dropped => recordDroppedRequest s
  | Reset => Ret (reset s)
  end.

Fixpoint steps (l : list event) (s : t) : outcome t :=
  match l with [] => Ret s | e :: l' => s1 ← step e s; steps l' s1 end.

Definition elapsed (now receive : Timestamp.t) : Z :=
  Timestamp.microSecondsSinceEpoch_ now - Timestamp.microSecondsSinceEpoch_ receive.

(** What the window should know: the responses since the last reset whose latency
    was not negative. *)
Definition remember (e : event) (h : history) : history :=
  match e with
  | Response now receive _ =>
      if elapsed now receive <? 0 then h else (Timestamp.secondsSinceEpoch now, elapsed now receive) :: h
  | Reset => []
  | _ => h
  end.

Fixpoint remember_all (l : list event) (h : history) : history :=
  match l with [] => h | e :: l' => remember_all l' (remember e h) end.

(** The second the window ends in and its length, for the responses in the order they were
    recorded (the latest first): it grows with the seconds that pass, up to [kSeconds], starts
    anew after a gap of [kSeconds], and is not extended backwards. *)
Fixpoint extent (h : history) : Z * Z :=
  match h with
  | [] => (0, 0)
  | (sec, _) :: h' =>
      let '(last, size) := extent h' in
      if last =? 0 then (sec, 1)
      else if sec <=? last then (last, size)
      else if sec <? last + kSeconds then (sec, Z.min kSeconds (size + (sec - last)))
      else (sec, 1)
  end.

(** The calls since the last [reset], and how many of some calls satisfy [p]. *)
Definition since (acc : list event) (e : event) : list event := match e with Reset => [] | _ => acc ++ [e] end.
Definition since_reset (l : list event) : list event := fold_left since l [].
Definition number (p : event -> bool) (l : list event) : Z := zlen (List.filter p l).

Definition is_request (e : event) : bool := match e with Request => true | _ => false end.
Definition is_response (e : event) : bool := match e with Response _ _ _ => true | _ => false end.
Definition is_solved (e : event) : bool := match e with Response _ _ solved => solved | _ => false end.
Definition is_bad (e : event) : bool := match e with BadRequest => true | _ => false end.
Definition is_dropped (e : event) : bool := match e with Dropped => true | _ => false end.
Definition is_negative (e : event) : bool := match e with Response now receive _ => elapsed now receive <? 0 | _ => false end.

(** Times between one second and about 18,000 years after the epoch. *)
Definition event_ok (e : event) : Prop :=
  match e with
  | Response now receive _ =>
      1000000 <= Timestamp.microSecondsSinceEpoch_ now < 2 ^ 59 /\ 0 <= Timestamp.microSecondsSinceEpoch_ receive < 2 ^ 59
  | _ => True
  end.

Definition cost (e : event) : Z :=
  match e with Response now receive _ => Z.max 0 (elapsed now receive) | _ => 0 end.
Fixpoint total_cost (l : list event) : Z := match l with [] => 0 | e :: l' => cost e + total_cost l' end.

(** ** Lemmas *)

Lemma count_bound sec h : 0 <= count sec h <= zlen h.
Proof. induction h as [|[s e] h IH]; [done|]. rewrite zlen_cons. cbn. destruct (s =? sec); lia. Qed.

Lemma spent_bound sec h : (forall r, r ∈ h -> 0 <= snd r) -> 0 <= spent sec h <= total h.
Proof.
  induction h as [|[s e] h IH]; intros H; [done|]. cbn. specialize (H (s, e) (list_elem_of_here _ _)) as He.
  assert (forall r, r ∈ h -> 0 <= snd r) as Hh by (intros r Hr; apply H; by apply list_elem_of_further).
  specialize (IH Hh). cbn in He. destruct (s =? sec); lia.
Qed.

Lemma count_later sec h last : (forall r, r ∈ h -> 0 < fst r <= last /\ 0 <= snd r) -> last < sec -> count sec h = 0 /\ spent sec h = 0.
Proof.
  intros H Hs. induction h as [|[s e] h IH]; [done|]. cbn.
  destruct (H (s, e) (list_elem_of_here _ _)) as [? _]. cbn in *. rewrite (proj2 (Z.eqb_neq s sec)) by lia.
  apply IH. intros r Hr. apply H. by apply list_elem_of_further.
Qed.

Lemma length_push x l : (length l <= 60)%nat -> (length (push x l) = Nat.min 60 (S (length l)))%nat.
Proof.
  intros H. unfold push, cb_push. change (Z.to_nat kSeconds) with 60%nat. rewrite length_app. cbn [length].
  destruct (length l <? 60)%nat eqn:E; [apply Nat.ltb_lt in E|apply Nat.ltb_ge in E; rewrite length_drop]; lia.
Qed.

Lemma window_push f last l : (length l <= 60)%nat -> window f last l -> f (last + 1) = 0 -> window f (last + 1) (push 0 l).
Proof.
  intros Hl Hw Hf i x. unfold zlen. rewrite length_push by done. unfold push, cb_push. change (Z.to_nat kSeconds) with 60%nat.
  destruct (length l <? 60)%nat eqn:E; [apply Nat.ltb_lt in E|apply Nat.ltb_ge in E]; rewrite lookup_app.
  - destruct (l !! i) as [y|] eqn:Ei.
    + intros [= <-]. rewrite (Hw i y Ei). f_equal. unfold zlen. lia.
    + apply lookup_ge_None in Ei. intros Hx. apply list_lookup_singleton_Some in Hx as [Hi <-].
      rewrite <- Hf. f_equal. lia.
  - rewrite lookup_drop. destruct (l !! (1 + i)%nat) as [y|] eqn:Ei.
    + intros [= <-]. rewrite (Hw _ y Ei). f_equal. unfold zlen. lia.
    + apply lookup_ge_None in Ei. intros Hx. apply list_lookup_singleton_Some in Hx as [Hi <-]. rewrite length_drop in Hi.
      rewrite <- Hf. f_equal. lia.
Qed.

Lemma window_fill f n : forall last l, (length l <= 60)%nat -> window f last l ->
  (forall sec, last < sec -> f sec = 0) ->
  window f (last + Z.of_nat n) (fill n l) /\ (length (fill n l) <= 60)%nat /\ ((0 < n)%nat -> fill n l <> []).
Proof.
  induction n as [|n IH]; intros last l Hl Hw Hf; cbn [fill].
  - rewrite Z.add_0_r. split_and!; [done|done|lia].
  - pose proof (length_push 0 l Hl) as Hp. destruct (IH (last + 1) (push 0 l)) as (H1 & H2 & H3); [lia| | |].
    + apply window_push; [done|done|]. apply Hf. lia.
    + intros sec Hs. apply Hf. lia.
    + replace (last + Z.of_nat (S n)) with (last + 1 + Z.of_nat n) by lia. split_and!; [done|done|]. intros _.
      destruct n; [|apply H3; lia]. cbn [fill]. intros E. rewrite E in Hp. cbn in Hp. lia.
Qed.

Lemma length_fill n : forall l l', length l = length l' -> (length l <= 60)%nat -> length (fill n l) = length (fill n l').
Proof.
  induction n as [|n IH]; intros l l' E Hl; cbn [fill]; [done|]. apply IH; rewrite !length_push; lia.
Qed.

(** Adding to the entry of second [sec]. *)
Lemma window_bump f f' last l i x : window f last l -> (i < length l)%nat ->
  - 2 ^ 63 <= f (last - zlen l + 1 + Z.of_nat i) + x < 2 ^ 63 ->
  (forall sec, f' sec = f sec + if last - zlen l + 1 + Z.of_nat i =? sec then x else 0) ->
  exists l', add_at i x l = Ret l' /\ window f' last l' /\ length l' = length l.
Proof.
  intros Hw Hi Hb Hf. unfold add_at. destruct (lookup_lt_is_Some_2 l i Hi) as [y Ey]. rewrite Ey.
  pose proof (Hw i y Ey) as ->. rewrite i64_bind by done. eexists. split; [done|]. split; [|apply length_insert].
  intros j z. unfold zlen. rewrite length_insert. fold (zlen l). destruct (decide (j = i)) as [->|Hne].
  - rewrite list_lookup_insert_eq by done. intros [= <-]. rewrite Hf. by rewrite Z.eqb_refl.
  - rewrite list_lookup_insert_ne by done. intros Hz. rewrite (Hw j z Hz), Hf.
    rewrite (proj2 (Z.eqb_neq _ _)) by lia. lia.
Qed.


(** The two buffers are bumped together at the same second. *)
Lemma bump_both h last rs ls i sec e :
  window (fun k => count k h) last rs -> window (fun k => spent k h) last ls -> length rs = length ls ->
  (i < length rs)%nat -> last - zlen rs + 1 + Z.of_nat i = sec -> (forall r, r ∈ h -> 0 <= snd r) ->
  zlen h + 1 < 2 ^ 63 -> 0 <= e -> total h + e < 2 ^ 63 ->
  exists rs' ls', add_at i 1 rs = Ret rs' /\ add_at i e ls = Ret ls' /\
    window (fun k => count k ((sec, e) :: h)) last rs' /\ window (fun k => spent k ((sec, e) :: h)) last ls' /\
    length rs' = length rs /\ length ls' = length rs.
Proof.
  intros Hr Hl Elen Hi Hsec Hnn Hh He Ht. pose proof (count_bound sec h). pose proof (spent_bound sec h Hnn).
  assert (zlen ls = zlen rs) as Ez by (unfold zlen; by rewrite Elen).
  destruct (window_bump _ (fun k => count k ((sec, e) :: h)) last rs i 1 Hr Hi) as (rs' & E1 & W1 & L1).
  { rewrite Hsec. lia. }
  { intros k. rewrite Hsec. cbn. lia. }
  destruct (window_bump _ (fun k => spent k ((sec, e) :: h)) last ls i e Hl) as (ls' & E2 & W2 & L2).
  { by rewrite <- Elen. }
  { rewrite Ez, Hsec. lia. }
  { intros k. rewrite Ez, Hsec. cbn. lia. }
  exists rs', ls'. split_and!; try done. congruence.
Qed.

Lemma seen_cons h last sec e last' : (forall r, r ∈ h -> 0 < fst r <= last /\ 0 <= snd r) -> last <= last' -> 0 < sec <= last' -> 0 <= e ->
  forall r, r ∈ (sec, e) :: h -> 0 < fst r <= last' /\ 0 <= snd r.
Proof. intros H Hl Hs He r [->|Hr]%elem_of_cons; [done|]. destruct (H r Hr). split; [lia|done]. Qed.

(** What the body of [recordResponse] leaves. *)
Definition recorded (h : history) (sec e last : Z) (rs ls : list Z) : Prop :=
  length rs = length ls /\ zlen rs <= kSeconds /\ 0 < last < 2 ^ 60 /\ rs <> [] /\
  (forall r, r ∈ (sec, e) :: h -> 0 < fst r <= last /\ 0 <= snd r) /\
  window (fun k => count k ((sec, e) :: h)) last rs /\ window (fun k => spent k ((sec, e) :: h)) last ls.

(** The last entry, after the window has been moved to end in [sec]. *)
Lemma bump_back h last rs ls sec e : rs <> [] -> length rs = length ls -> zlen rs <= kSeconds ->
  window (fun k => count k h) sec rs -> window (fun k => spent k h) sec ls ->
  (forall r, r ∈ h -> 0 < fst r <= last /\ 0 <= snd r) -> last <= sec -> 0 < sec < 2 ^ 60 ->
  zlen h + 1 < 2 ^ 63 -> 0 <= e -> total h + e < 2 ^ 63 ->
  exists rs' ls', add_back 1 rs = Ret rs' /\ add_back e ls = Ret ls' /\ recorded h sec e sec rs' ls'.
Proof.
  intros Hne Elen Hcap Wr Wl Hs Hl Hsec Hh He Ht. unfold add_back. rewrite <- Elen.
  assert (0 < length rs)%nat as Hpos by (destruct rs; [done|cbn; lia]).
  destruct (bump_both h sec rs ls (length rs - 1) sec e) as (rs' & ls' & E1 & E2 & W1 & W2 & L1 & L2); try done.
  - lia.
  - unfold zlen. lia.
  - intros r Hr. by apply Hs.
  - exists rs', ls'. split_and!; try done. unfold recorded. split_and!; try done; try lia.
    + unfold zlen in *. lia.
    + intros E. rewrite E in L1. cbn in L1. lia.
    + apply (seen_cons h last sec e sec Hs Hl); lia.
Qed.

Lemma push_window h last rs ls : length rs = length ls -> zlen rs <= kSeconds ->
  window (fun k => count k h) last rs -> window (fun k => spent k h) last ls ->
  (forall r, r ∈ h -> 0 < fst r <= last /\ 0 <= snd r) ->
  forall n, let rs' := fill n rs in let ls' := fill n ls in
  length rs' = length ls' /\ zlen rs' <= kSeconds /\ ((0 < n)%nat -> rs' <> []) /\
  window (fun k => count k h) (last + Z.of_nat n) rs' /\ window (fun k => spent k h) (last + Z.of_nat n) ls'.
Proof.
  intros Elen Hcap Wr Wl Hs n rs' ls'. assert (length rs <= 60)%nat as Hl by (unfold zlen, kSeconds in *; lia).
  destruct (window_fill _ n last rs Hl Wr) as (W1 & L1 & N1); [intros sec Hsec; by apply (count_later sec h last)|].
  destruct (window_fill (fun k => spent k h) n last ls) as (W2 & L2 & N2); [by rewrite <- Elen|done|intros sec Hsec; by apply (count_later sec h last)|].
  split_and!; try done; [by apply length_fill|unfold zlen, kSeconds; unfold rs'; lia].
Qed.

Lemma singleton_window h sec : (count sec h = 0 /\ spent sec h = 0) ->
  window (fun k => count k h) sec [0] /\ window (fun k => spent k h) sec [0].
Proof.
  intros [H1 H2]. split; intros i x [-> <-]%list_lookup_singleton_Some; cbn; replace (sec - zlen [0] + 1 + Z.of_nat 0) with sec by (change (zlen [0]) with 1; lia); done.
Qed.

Definition times_ok (now receive : Timestamp.t) : Prop :=
  1000000 <= Timestamp.microSecondsSinceEpoch_ now < 2 ^ 59 /\ 0 <= Timestamp.microSecondsSinceEpoch_ receive < 2 ^ 59.

Lemma second_range now receive : times_ok now receive -> 0 < Timestamp.secondsSinceEpoch now < 2 ^ 59.
Proof.
  intros [H _]. unfold Timestamp.secondsSinceEpoch, Timestamp.kMicroSecondsPerSecond.
  set (u := Timestamp.microSecondsSinceEpoch_ now) in *. pose proof (Z.quot_pos u (1000 * 1000)).
  assert (Z.quot u (1000 * 1000) <= u) by (apply Z.quot_le_upper_bound; lia).
  assert (1 <= Z.quot u (1000 * 1000)) by (apply Z.quot_le_lower_bound; lia). lia.
Qed.

(** The branches of [recordResponse]: each moves the window and counts the response. *)
Section branches.
Variables (h : history) (s : t) (sec e : Z).
Hypothesis I : inv h s.
Hypothesis Hsec : 0 < sec < 2 ^ 59.
Hypothesis Hh : zlen h + 1 < 2 ^ 63.
Hypothesis He : 0 <= e.
Hypothesis Ht : total h + e < 2 ^ 63.

Lemma same_second : lastSecond_ s = sec -> exists rs ls,
  add_back 1 (requests_ s) = Ret rs /\ add_back e (latencies_ s) = Ret ls /\ recorded h sec e sec rs ls.
Proof using I Hsec Hh He Ht.
  destruct I as [Il Ic Ie Ism Ila Isn Ir Ilt It]. intros E.
  apply (bump_back h sec); try done; try lia; [apply Ism; lia|by rewrite <- E..].
Qed.

Lemma next_second : lastSecond_ s + 1 = sec \/ lastSecond_ s = 0 -> exists rs ls,
  add_back 1 (push 0 (requests_ s)) = Ret rs /\ add_back e (push 0 (latencies_ s)) = Ret ls /\ recorded h sec e sec rs ls.
Proof using I Hsec Hh He Ht.
  destruct I as [Il Ic Ie Ism Ila Isn Ir Ilt It]. intros [E|E].
  - destruct (push_window h (lastSecond_ s) (requests_ s) (latencies_ s) Il Ic Ir Ilt Isn 1) as (L & Cap & Ne & W1 & W2).
    cbn [fill] in *. change (Z.of_nat 1) with 1 in *. rewrite E in *.
    apply (bump_back h (lastSecond_ s)); try done; try lia. apply Ne. lia.
  - destruct (Ie E) as [-> Er]. assert (latencies_ s = []) as Ell by (rewrite Er in Il; by destruct (latencies_ s)).
    rewrite Er, Ell. apply (bump_back [] 0 (push 0 []) (push 0 []) sec e); try done; try lia; [by apply singleton_window..|].
    intros r Hr. by apply elem_of_nil in Hr.
Qed.

Lemma jump_ahead : lastSecond_ s < sec -> exists rs ls rs0 ls0,
  (if sec <? lastSecond_ s + kSeconds
   then let gap := Z.to_nat (sec - lastSecond_ s) in (fill gap (requests_ s), fill gap (latencies_ s))
   else (push 0 [], push 0 [])) = (rs0, ls0) /\
  add_back 1 rs0 = Ret rs /\ add_back e ls0 = Ret ls /\ recorded h sec e sec rs ls.
Proof using I Hsec Hh He Ht.
  destruct I as [Il Ic Ie Ism Ila Isn Ir Ilt It]. intros E. destruct (sec <? lastSecond_ s + kSeconds).
  - destruct (push_window h (lastSecond_ s) (requests_ s) (latencies_ s) Il Ic Ir Ilt Isn (Z.to_nat (sec - lastSecond_ s)))
      as (L & Cap & Ne & W1 & W2). rewrite Z2Nat.id in W1, W2 by lia.
    replace (lastSecond_ s + (sec - lastSecond_ s)) with sec in W1, W2 by lia.
    destruct (bump_back h (lastSecond_ s) _ _ sec e (Ne ltac:(lia)) L Cap W1 W2) as (rs & ls & ? & ? & ?); try done; try lia.
    exists rs, ls. do 2 eexists. done.
  - destruct (singleton_window h sec) as [W1 W2]; [apply (count_later sec h (lastSecond_ s)); [done|lia]|].
    destruct (bump_back h (lastSecond_ s) [0] [0] sec e) as (rs & ls & ? & ? & ?); try done; try lia.
    exists rs, ls. do 2 eexists. done.
Qed.

Lemma jump_backwards : sec < lastSecond_ s -> lastSecond_ s - zlen (requests_ s) + 1 <= sec ->
  let idx := Z.to_nat (sec - (lastSecond_ s - zlen (requests_ s) + 1)) in (idx < length (requests_ s))%nat /\
  exists rs ls, add_at idx 1 (requests_ s) = Ret rs /\ add_at idx e (latencies_ s) = Ret ls /\
    recorded h sec e (lastSecond_ s) rs ls.
Proof using I Hsec Hh He Ht.
  destruct I as [Il Ic Ie Ism Ila Isn Ir Ilt It]. intros E E5 idx.
  assert (idx < length (requests_ s))%nat as Hi by (unfold idx, zlen in *; lia). split; [done|].
  destruct (bump_both h (lastSecond_ s) (requests_ s) (latencies_ s) idx sec e)
    as (rs & ls & -> & -> & W1 & W2 & L1 & L2); try done; try (unfold idx; lia); [intros r Hr; by apply Isn|].
  exists rs, ls. unfold recorded. split_and!; try done; try lia.
  - unfold zlen in *. lia.
  - intros E'. rewrite E' in L1. cbn in L1. lia.
  - apply (seen_cons h (lastSecond_ s)); try done; lia.
Qed.

Lemma too_old : 0 < lastSecond_ s -> sec < lastSecond_ s - zlen (requests_ s) + 1 ->
  recorded h sec e (lastSecond_ s) (requests_ s) (latencies_ s).
Proof using I Hsec Hh He Ht.
  destruct I as [Il Ic Ie Ism Ila Isn Ir Ilt It]. intros Hpos E. unfold recorded. pose proof (zlen_nonneg (requests_ s)).
  split_and!; try done; try lia; [by apply Ism|apply (seen_cons h (lastSecond_ s)); try done; lia|..]; intros i x Hx; cbn.
  - rewrite (proj2 (Z.eqb_neq _ _)) by lia. by apply Ir.
  - assert (zlen (latencies_ s) = zlen (requests_ s)) as Ez by (unfold zlen; by rewrite Il).
    rewrite (proj2 (Z.eqb_neq _ _)) by lia. by apply Ilt.
Qed.
End branches.

Lemma recordResponse_ok h s n now receive solved : inv h s -> counts n s -> n < 2 ^ 62 -> times_ok now receive ->
  zlen h <= n -> total h + Z.max 0 (elapsed now receive) < 2 ^ 63 ->
  returns (recordResponse now receive solved s) (fun s' =>
    inv (remember (Response now receive solved) h) s' /\ counts (n + 1) s').
Proof.
  intros I [C1 C2 C3 C4 C5 C6] Hn Ht Hh Htot. pose proof I as [Il Ic Ie Ism Ila Isn Ir Ilt It].
  pose proof (second_range now receive Ht) as Hsec. pose proof Ht as [Ht1 Ht2].
  unfold recordResponse. set (sec := Timestamp.secondsSinceEpoch now) in *.
  unfold elapsed in *. rewrite i64_bind by lia. fold (elapsed now receive) in *. set (e := elapsed now receive) in *.
  rewrite check_bind by (by apply Nat.eqb_eq). rewrite i64_bind by lia.
  assert (exists sv, (if solved then i64 (totalSolved_ s + 1) else Ret (totalSolved_ s)) = Ret sv /\ 0 <= sv <= n + 1) as (sv & -> & Hsv).
  { destruct solved; [rewrite i64_ok by lia|]; eexists; (split; [done|lia]). }
  rewrite bind_Ret. cbn [remember]. fold e sec. destruct (e <? 0) eqn:Ee; bools.
  { rewrite i64_bind by lia. cbn [returns]. split; [by split|]. split; cbn; lia. }
  assert (0 <= total h) as Htn by (pose proof (spent_bound 0 h (fun r Hr => proj2 (Isn r Hr))); lia).
  pose proof (zlen_nonneg (requests_ s)). assert (kSeconds = 60) as HK by done.
  rewrite It, i64_bind by lia. rewrite i64_bind by lia. cbv zeta.
  assert (zlen h + 1 < 2 ^ 63) as Hh' by lia. assert (total h + e < 2 ^ 63) as Ht' by lia.
  assert (forall last rs ls, recorded h sec e last rs ls -> returns
    (_ ← check (length rs =? length ls)%nat; Ret (with_window last rs ls (totalResponses_ s + 1) sv (total h + e) s))
    (fun s' => inv ((sec, e) :: h) s' /\ counts (n + 1) s')) as Hfin.
  { intros last rs ls (L & Cap & Hl & Hne & Hseen & W1 & W2). rewrite check_bind by (by apply Nat.eqb_eq).
    cbn [returns]. split; [split; cbn; try done; lia|split; cbn; lia]. }
  destruct (lastSecond_ s =? sec) eqn:E1; bools.
  { destruct (same_second h s sec e I Hsec Hh' Ee Ht' E1) as (rs & ls & -> & -> & R). rewrite !bind_Ret, E1. by apply Hfin. }
  destruct ((lastSecond_ s + 1 =? sec) || (lastSecond_ s =? 0)) eqn:E2.
  { destruct (next_second h s sec e I Hsec Hh' Ee Ht') as (rs & ls & -> & -> & R);
      [apply orb_true_iff in E2 as [E2|E2]; bools; auto|]. rewrite !bind_Ret. by apply Hfin. }
  apply orb_false_iff in E2 as [E2 E3]. bools. destruct (lastSecond_ s <? sec) eqn:E4; bools.
  { destruct (jump_ahead h s sec e I Hsec Hh' Ee Ht' E4) as (rs & ls & rs0 & ls0 & E & E5 & E6 & R). cbv zeta in E.
    rewrite E, E5, E6, !bind_Ret. by apply Hfin. }
  destruct (lastSecond_ s - zlen (requests_ s) + 1 <=? sec) eqn:E5; bools.
  - destruct (jump_backwards h s sec e I Hsec Hh' Ee Ht' ltac:(lia) E5) as (Hi & rs & ls & E6 & E7 & R).
    rewrite check_bind by (by apply Nat.ltb_lt). rewrite E6, E7, !bind_Ret. by apply Hfin.
  - rewrite check_bind, bind_Ret by (apply Z.ltb_lt; lia). apply Hfin. apply (too_old h s sec e I Hsec Hh' Ee Ht'); lia.
Qed.

Lemma step_ok_stat h s n e : inv h s -> counts n s -> n < 2 ^ 62 -> event_ok e -> zlen h <= n ->
  total h + cost e < 2 ^ 63 ->
  returns (step e s) (fun s' => inv (remember e h) s' /\ counts (n + 1) s').
Proof.
  intros I C Hn He Hh Ht. destruct e as [now receive solved| | | |]; cbn [step cost] in *.
  { by apply recordResponse_ok. }
  4: { cbn. destruct C. split; [|by split; cbn; lia]. split; cbn; try done; try lia. intros r Hr; by apply elem_of_nil in Hr. }
  all: pose proof C as []; unfold recordRequest, recordBadRequest, recordDroppedRequest; rewrite i64_bind by lia; cbn [returns remember];
    destruct I; (split; [by split|split; cbn; lia]).
Qed.

Lemma remember_length e h : zlen (remember e h) <= zlen h + 1.
Proof.
  destruct e; cbn; try lia; [|pose proof (zlen_nonneg h); change (zlen []) with 0; lia].
  destruct (_ <? 0); [lia|]. rewrite zlen_cons. lia.
Qed.

Lemma remember_total e h : (forall r, r ∈ h -> 0 <= snd r) -> total (remember e h) <= total h + cost e.
Proof.
  intros H. pose proof (spent_bound 0 h H). destruct e; cbn; try lia. destruct (_ <? 0) eqn:E; bools; cbn; lia.
Qed.

Lemma inv_empty : inv [] SudokuStat.
Proof. split; cbn; try done; try lia. intros r Hr. by apply elem_of_nil in Hr. Qed.

Lemma i64_inv x y : i64 x = Ret y -> y = x.
Proof. unfold i64. destruct (in_i64 x); intros E; [by injection E | discriminate E]. Qed.

(** The counters after a response. *)
Lemma response_tallies now receive solved s s' : recordResponse now receive solved s = Ret s' ->
  totalResponses_ s' = totalResponses_ s + 1 /\ totalRequests_ s' = totalRequests_ s /\ badRequests_ s' = badRequests_ s /\
  droppedRequests_ s' = droppedRequests_ s /\ totalSolved_ s' = totalSolved_ s + (if solved then 1 else 0) /\
  badLatency_ s' = badLatency_ s + (if elapsed now receive <? 0 then 1 else 0).
Proof.
  unfold recordResponse, with_window. intros H.
  apply bind_Ret_inv in H as (us & Eus & H). apply i64_inv in Eus as ->. fold (elapsed now receive) in H.
  apply bind_Ret_inv in H as (? & _ & H). apply bind_Ret_inv in H as (n & En & H). apply i64_inv in En as ->.
  apply bind_Ret_inv in H as (sv & Esv & H). assert (sv = totalSolved_ s + (if solved then 1 else 0)) as -> by (destruct solved; [by apply i64_inv in Esv | injection Esv as <-; lia]).
  destruct (elapsed now receive <? 0); [apply bind_Ret_inv in H as (bad & Eb & H); apply i64_inv in Eb as ->; by injection H as <- |].
  apply bind_Ret_inv in H as (? & _ & H). apply bind_Ret_inv in H as (? & _ & H). apply bind_Ret_inv in H as (s2 & Es & H).
  apply bind_Ret_inv in H as (? & _ & H). injection H as <-. rewrite Z.add_0_r.
  repeat case_match; repeat (apply bind_Ret_inv in Es as (? & _ & Es)); by simplify_eq/=.
Qed.

Lemma response_counters now receive solved s s' : recordResponse now receive solved s = Ret s' ->
  totalResponses_ s' = totalResponses_ s + 1 /\ totalRequests_ s' = totalRequests_ s /\ badRequests_ s' = badRequests_ s /\
  droppedRequests_ s' = droppedRequests_ s.
Proof. intros H%response_tallies. naive_solver. Qed.

(** The counters after the calls [acc] since the last reset, [d] of them and of those before
    having been dropped requests. *)
Definition tallied (acc : list event) (d : Z) (s : t) : Prop :=
  totalRequests_ s = number is_request acc /\ totalResponses_ s = number is_response acc /\ totalSolved_ s = number is_solved acc /\
  badRequests_ s = number is_bad acc /\ badLatency_ s = number is_negative acc /\ droppedRequests_ s = d.

Lemma number_snoc p l e : number p (l ++ [e]) = number p l + (if p e then 1 else 0).
Proof. unfold number. rewrite List.filter_app, zlen_app. cbn. by destruct (p e). Qed.

Lemma step_tallied e acc d s s' : step e s = Ret s' -> tallied acc d s -> tallied (since acc e) (d + (if is_dropped e then 1 else 0)) s'.
Proof.
  intros H (T1 & T2 & T3 & T4 & T5 & T6). unfold tallied. destruct e as [now receive solved| | | |]; cbn [step since is_dropped] in *.
  { apply response_tallies in H as (-> & -> & -> & -> & -> & ->). rewrite !number_snoc. cbn. lia. }
  4: { injection H as <-. cbn. by rewrite Z.add_0_r. }
  all: unfold recordRequest, recordBadRequest, recordDroppedRequest in H; apply bind_Ret_inv in H as (n & En & H); apply i64_inv in En as ->; injection H as <-;
    rewrite !number_snoc; cbn; lia.
Qed.

Lemma steps_tallied l : forall acc d s s', steps l s = Ret s' -> tallied acc d s -> tallied (fold_left since l acc) (d + number is_dropped l) s'.
Proof.
  induction l as [|e l IH]; intros acc d s s' H T; cbn [steps fold_left] in *; [injection H as <-; by rewrite Z.add_0_r |].
  apply bind_Ret_inv in H as (s1 & H1 & H). pose proof (step_tallied e acc d s s1 H1 T) as T1. specialize (IH _ _ _ _ H T1).
  replace (d + number is_dropped (e :: l)) with (d + (if is_dropped e then 1 else 0) + number is_dropped l); [exact IH |].
  unfold number. cbn. destruct (is_dropped e); [rewrite zlen_cons|]; lia.
Qed.

(** ** The length of the window *)

Lemma add_at_length i x l l' : add_at i x l = Ret l' -> zlen l' = zlen l.
Proof. unfold add_at. destruct (l !! i) as [y|]; [|done]. intros (z & _ & E)%bind_Ret_inv. injection E as <-. unfold zlen. by rewrite length_insert. Qed.

Lemma fill_size n : forall l, zlen l <= kSeconds -> zlen (fill n l) = Z.min kSeconds (zlen l + Z.of_nat n).
Proof.
  unfold kSeconds. induction n as [|n IH]; intros l Hl; cbn [fill]; [lia |]. pose proof (length_push 0 l ltac:(unfold zlen in Hl; lia)) as Hp.
  rewrite IH by (unfold zlen in *; lia). unfold zlen in *. lia.
Qed.

Lemma response_extent h now receive solved s s' : inv h s -> 0 < Timestamp.secondsSinceEpoch now -> recordResponse now receive solved s = Ret s' ->
  extent h = (lastSecond_ s, zlen (requests_ s)) -> extent (remember (Response now receive solved) h) = (lastSecond_ s', zlen (requests_ s')).
Proof.
  intros I Hsec H Ex. pose proof I as [Il Ic Ie Ism Ila _ _ _ _]. unfold recordResponse, with_window in H.
  apply bind_Ret_inv in H as (us & Eus & H). apply i64_inv in Eus as ->. fold (elapsed now receive) in H. cbn [remember].
  apply bind_Ret_inv in H as (? & _ & H). apply bind_Ret_inv in H as (n & _ & H). apply bind_Ret_inv in H as (sv & _ & H).
  destruct (elapsed now receive <? 0) eqn:Ee; [apply bind_Ret_inv in H as (bad & _ & H); by injection H as <- |]. cbn [extent]. rewrite Ex.
  set (sec := Timestamp.secondsSinceEpoch now) in *.
  apply bind_Ret_inv in H as (? & _ & H). apply bind_Ret_inv in H as (first & Ef & H). apply i64_inv in Ef as ->. cbv zeta in H.
  apply bind_Ret_inv in H as (s2 & Es & H). apply bind_Ret_inv in H as (? & _ & H). injection H as <-.
  assert (HK : kSeconds = 60) by done. destruct (lastSecond_ s =? sec) eqn:E1; bools.
  { apply bind_Ret_inv in Es as (rs & Er & Es). apply bind_Ret_inv in Es as (ls & _ & Es). injection Es as <-. apply add_at_length in Er. cbn.
    rewrite (proj2 (Z.eqb_neq (lastSecond_ s) 0)), (proj2 (Z.leb_le sec (lastSecond_ s))) by lia. by rewrite Er. }
  destruct ((lastSecond_ s + 1 =? sec) || (lastSecond_ s =? 0)) eqn:E2.
  { apply orb_true_iff in E2. rewrite !Z.eqb_eq in E2.
    apply bind_Ret_inv in Es as (rs & Er & Es). apply bind_Ret_inv in Es as (ls & _ & Es). injection Es as <-. apply add_at_length in Er. cbn.
    change (push 0 (requests_ s)) with (fill 1 (requests_ s)) in Er. rewrite fill_size in Er by done. rewrite Er.
    destruct (lastSecond_ s =? 0) eqn:E0; bools; [destruct (Ie E0) as [_ ->]; done |].
    rewrite (proj2 (Z.leb_gt sec (lastSecond_ s))), (proj2 (Z.ltb_lt sec _)) by lia. do 2 f_equal. lia. }
  apply orb_false_iff in E2 as [E2 E3]. rewrite E3. bools. destruct (lastSecond_ s <? sec) eqn:E4; bools.
  { rewrite (proj2 (Z.leb_gt sec (lastSecond_ s))) by lia. destruct (sec <? lastSecond_ s + kSeconds) eqn:E5; bools;
      apply bind_Ret_inv in Es as (rs & Er & Es); apply bind_Ret_inv in Es as (ls & _ & Es); injection Es as <-; apply add_at_length in Er; cbn;
      [rewrite fill_size, Z2Nat.id in Er by (done || lia); by rewrite Er | by rewrite Er]. }
  rewrite (proj2 (Z.leb_le sec (lastSecond_ s))) by lia. destruct (lastSecond_ s - zlen (requests_ s) + 1 <=? sec).
  - apply bind_Ret_inv in Es as (? & _ & Es). apply bind_Ret_inv in Es as (rs & Er & Es). apply bind_Ret_inv in Es as (ls & _ & Es).
    injection Es as <-. apply add_at_length in Er. cbn. by rewrite Er.
  - apply bind_Ret_inv in Es as (? & _ & Es). by injection Es as <-.
Qed.

Lemma step_extent h e s s' : inv h s -> event_ok e -> step e s = Ret s' ->
  extent h = (lastSecond_ s, zlen (requests_ s)) -> extent (remember e h) = (lastSecond_ s', zlen (requests_ s')).
Proof.
  intros I He H Ex. destruct e as [now receive solved| | | |]; cbn [step remember] in *.
  { apply (response_extent h now receive solved s s'); try done. by apply (second_range now receive). }
  4: by injection H as <-.
  all: unfold recordRequest, recordBadRequest, recordDroppedRequest in H; apply bind_Ret_inv in H as (n & _ & H); by injection H as <-.
Qed.

Lemma steps_ok_stat l : forall h s n, inv h s -> counts n s -> Forall event_ok l -> zlen h <= n ->
  n + zlen l < 2 ^ 62 -> total h + total_cost l < 2 ^ 63 -> extent h = (lastSecond_ s, zlen (requests_ s)) ->
  returns (steps l s) (fun s' => inv (remember_all l h) s' /\ extent (remember_all l h) = (lastSecond_ s', zlen (requests_ s'))).
Proof.
  induction l as [|e l IH]; intros h s n I C He Hh Hn Ht Hx; cbn [steps remember_all total_cost] in *; [done|].
  rewrite zlen_cons in Hn. pose proof (zlen_nonneg l). inversion He; subst.
  assert (0 <= total_cost l) by (clear; induction l as [|e l IH]; cbn; [lia|destruct e; cbn; lia]).
  pose proof (step_ok_stat h s n e I C ltac:(lia) H2 Hh ltac:(lia)) as HS. pose proof (step_extent h e s) as HE. destruct (step e s) as [s1|]; [|done].
  cbn [returns] in HS. destruct HS as [I1 C1]. specialize (HE s1 I H2 eq_refl Hx). rewrite bind_Ret.
  pose proof (remember_length e h). pose proof (remember_total e h (fun r Hr => proj2 (i_seen _ _ I r Hr))).
  apply (IH _ _ (n + 1)); try done; lia.
Qed.

Lemma window_all f last l : window f last l -> l = map (fun i => f (last - zlen l + 1 + Z.of_nat i)) (seq 0 (length l)).
Proof.
  intros H. apply list_eq. intros i. rewrite list_lookup_fmap. destruct (l !! i) as [x|] eqn:E.
  - rewrite (lookup_seq_lt 0 (length l) i) by (by eapply lookup_lt_Some). cbn. by rewrite (H i x E).
  - apply lookup_ge_None in E. by rewrite (lookup_seq_ge 0 (length l) i).
Qed.

(** C35: the statistics.  Over any sequence of calls with times in range the
    assertions hold and nothing overflows.  [lastSecond_] and the length of the two buffers are
    those of [extent]: the window ends in the latest second with a response, has one entry per
    second, at most 60, and starts anew only after 60 seconds without a response.  Each entry is
    exactly the number, or the summed latency, of the responses of its second since the last
    reset, whatever the order in which they arrive (responses with a negative latency are only
    counted as such).  Every counter is the number of its calls since the last reset, but
    for the dropped requests, which [reset] keeps. *)
Theorem stat_window l : Forall event_ok l -> zlen l < 2 ^ 61 -> total_cost l < 2 ^ 63 ->
  returns (steps l SudokuStat) (fun s =>
    let h := remember_all l [] in
    let first := lastSecond_ s - zlen (requests_ s) + 1 in
    (lastSecond_ s, zlen (requests_ s)) = extent h /\ zlen (requests_ s) <= kSeconds /\ (forall r, r ∈ h -> fst r <= lastSecond_ s) /\
    requests_ s = map (fun i => count (first + Z.of_nat i) h) (seq 0 (length (requests_ s))) /\
    latencies_ s = map (fun i => spent (first + Z.of_nat i) h) (seq 0 (length (requests_ s))) /\
    totalRequests_ s = number is_request (since_reset l) /\ totalResponses_ s = number is_response (since_reset l) /\
    totalSolved_ s = number is_solved (since_reset l) /\ badRequests_ s = number is_bad (since_reset l) /\
    badLatency_ s = number is_negative (since_reset l) /\ totalLatency_ s = total h /\ droppedRequests_ s = number is_dropped l).
Proof.
  intros He Hl Ht. pose proof (steps_tallied l [] 0 SudokuStat) as HT. pose proof (steps_ok_stat l [] SudokuStat 0) as HS.
  destruct (steps l SudokuStat) as [s|]; [|apply HS; try done; [apply inv_empty | lia]].
  destruct (HT s eq_refl) as (T1 & T2 & T3 & T4 & T5 & T6); [done|]. destruct HS as [[Il Ic _ _ _ Isn Ir Ilt It] Ex]; try done; [apply inv_empty | lia |].
  cbn [returns]. cbv zeta. rewrite Ex. split_and!; try done; [intros r Hr; by apply Isn|exact (window_all _ _ _ Ir)|].
  rewrite Il. rewrite (window_all _ _ _ Ilt) at 1. by assert (zlen (latencies_ s) = zlen (requests_ s)) as -> by (unfold zlen; by rewrite Il).
Qed.

(** Three responses in two seconds, one of them late, then a gap. *)
Lemma stat_window_witness :
  let l := [Response (Timestamp.Timestamp 5000007) (Timestamp.Timestamp 5000000) true;
            Response (Timestamp.Timestamp 6000009) (Timestamp.Timestamp 6000000) true;
            Response (Timestamp.Timestamp 5900000) (Timestamp.Timestamp 5899990) false; Request;
            Response (Timestamp.Timestamp 9000001) (Timestamp.Timestamp 9000000) true] in
  exists s, steps l SudokuStat = Ret s /\ requests_ s = [2; 1; 0; 0; 1] /\ latencies_ s = [17; 9; 0; 0; 1] /\
    requests_ s = map (fun i => count (5 + Z.of_nat i) (remember_all l [])) (seq 0 5) /\
    totalRequests_ s = 1 /\ totalResponses_ s = 4 /\ totalSolved_ s = 3.
Proof.
  intros l. pose proof (stat_window l) as H. destruct (steps l SudokuStat) as [s|] eqn:E; [|vm_compute in E; discriminate].
  assert (requests_ s = [2; 1; 0; 0; 1] /\ latencies_ s = [17; 9; 0; 0; 1] /\ lastSecond_ s = 9) as (E1 & E2 & E3)
    by (vm_compute in E; injection E as <-; repeat split).
  destruct H as (_ & _ & _ & H & _ & H5 & H6 & H7 & _).
  - repeat (apply List.Forall_cons; [vm_compute; repeat split; discriminate || exact I|]). apply List.Forall_nil.
  - vm_compute. reflexivity.
  - vm_compute. reflexivity.
  - exists s. split; [reflexivity|]. split; [exact E1|]. split; [exact E2|]. rewrite E3 in H. rewrite E1 in H |- *.
    split; [exact H|]. split; [exact H5|]. split; [exact H6|exact H7].
Defined.

(** [reset] forgets everything but the dropped requests. *)
Lemma reset_keeps_dropped : (s ← recordDroppedRequest SudokuStat; Ret (droppedRequests_ (reset s))) = Ret 1.
Proof. reflexivity. Qed.

End SudokuStat.

(** ** percentile.h *)
Module Percentile.

(** The Nearest Rank method on a sorted vector. *)
Definition getPercentile (latencies : list Z) (percent : Z) : outcome Z :=
  _ ← check (0 <? zlen latencies);
  idx ← (if 0 <? percent then
           let idx := u64 (u64 (zlen latencies * percent + 99) / 100 - 1) in
           _ ← check (idx <? zlen latencies); Ret idx
         else Ret 0);
  match latencies !! Z.to_nat idx with Some x => Ret x | None => Crash OutOfRange end.

(** For percentages up to 100 the rank is in range, and it is the least one with that
    share of the values at or before it. *)
Lemma percentile_rank l p : 0 < p <= 100 -> 0 < zlen l < 2 ^ 56 ->
  exists k x, getPercentile l p = Ret x /\ l !! k = Some x /\
    zlen l * p <= 100 * (Z.of_nat k + 1) < zlen l * p + 100.
Proof.
  intros Hp Hl. set (n := zlen l) in *. unfold getPercentile. fold n. rewrite check_bind by (apply Z.ltb_lt; lia).
  rewrite (proj2 (Z.ltb_lt 0 p)) by lia. cbv zeta. rewrite (u64_id (n * p + 99)) by nia.
  set (q := (n * p + 99) / 100). assert (n * p <= 100 * q < n * p + 100) as Hq.
  { pose proof (Z.div_mod (n * p + 99) 100). pose proof (Z.mod_pos_bound (n * p + 99) 100). fold q in H. lia. }
  assert (1 <= q <= n) as Hr by nia. rewrite u64_id by lia. rewrite check_bind, bind_Ret by (apply Z.ltb_lt; lia).
  destruct (lookup_lt_is_Some_2 l (Z.to_nat (q - 1))) as [x Hx]; [unfold n, zlen in *; lia|].
  exists (Z.to_nat (q - 1)), x. rewrite Hx. split_and!; try done; lia.
Qed.

End Percentile.
