(* ===== verification/SudokuReport.v ===== *)
(** * The reports of excercises/sudoku/stat.h and percentile.h

    [SudokuStat::report] formats the counters and the two windows with a [LogStream] of 4000
    bytes: it is proved that the text always fits.  [Percentile] summarises the latencies of
    one second of a load test. *)

From stdpp Require Import sorting.
From S2P Require Import Prelude Endian Format LogStream Calendar TimeZone SudokuStat.

Module StatReport.
Import SudokuStat LogStream FixedBuffer.

(** [int64_t x = 0; for (...) x += l[i];] *)
Fixpoint sum_i64 (l : list Z) (acc : Z) : outcome Z :=
  match l with [] => Ret acc | x :: l' => acc' ← i64 (acc + x); sum_i64 l' acc' end.

Definition newline : item := IChar x0a.
Definition entry (name : bytes) (v : Z) : list item := [ICStr (Some (name ++ lit " ")); IInt v; newline].
Definition window_items (name : bytes) (l : list Z) : list item :=
  ICStr (Some name) :: concat (map (fun x => [IChar x20; IInt x]) l) ++ [newline].

(** What [report] inserts, in order. *)
Definition report_items (queueSize : Z) (s : SudokuStat.t) : outcome (list item) :=
  requests ← sum_i64 (requests_ s) 0;
  latency ← sum_i64 (latencies_ s) 0;
  let latencyAvg60s := if requests =? 0 then 0 else Z.quot latency requests in
  let latencyAvg := if totalResponses_ s =? 0 then 0 else Z.quot (totalLatency_ s) (totalResponses_ s) in
  Ret (entry (lit "task_queue_size") queueSize ++
       entry (lit "total_requests") (totalRequests_ s) ++
       entry (lit "total_responses") (totalResponses_ s) ++
       entry (lit "total_solved") (totalSolved_ s) ++
       entry (lit "bad_requests") (badRequests_ s) ++
       entry (lit "dropped_requests") (droppedRequests_ s) ++
       entry (lit "latency_sum_us") (totalLatency_ s) ++
       (if 0 <? badLatency_ s then [ICStr (Some (lit "bad_latency")); IInt (badLatency_ s); newline] else []) ++
       entry (lit "last_second") (lastSecond_ s) ++
       window_items (lit "requests_per_second") (requests_ s) ++
       entry (lit "requests_60s") requests ++
       window_items (lit "latency_sum_us_per_second") (latencies_ s) ++
       entry (lit "latency_sum_us_60s") latency ++
       entry (lit "latency_us_60s") latencyAvg60s ++
       entry (lit "latency_us_avg") latencyAvg).

Definition report (uninitialised : bytes) (queueSize : Z) (s : SudokuStat.t) : outcome bytes :=
  items ← report_items queueSize s;
  b ← insert_all items (FixedBuffer uninitialised);
  Ret (toString b).

(** ** The sums of the windows *)

Lemma sum_i64_ok l : forall acc, Forall (fun x => 0 <= x) l -> 0 <= acc -> acc + fold_right Z.add 0 l < 2 ^ 63 ->
  sum_i64 l acc = Ret (acc + fold_right Z.add 0 l).
Proof.
  induction l as [|x l IH]; intros acc Hl Ha Hs; cbn [sum_i64 fold_right] in *; [by rewrite Z.add_0_r |].
  apply list.Forall_cons in Hl as [Hx Hl]. assert (0 <= fold_right Z.add 0 l).
  { clear -Hl. induction Hl; cbn [fold_right]; lia. }
  rewrite i64_bind by lia. rewrite IH by (try done; lia). f_equal. lia.
Qed.

(** A response is in one second of the window at most. *)
Fixpoint weigh (w : Z * Z -> Z) (sec : Z) (h : history) : Z :=
  match h with [] => 0 | r :: h' => (if fst r =? sec then w r else 0) + weigh w sec h' end.

Lemma weigh_sum w h secs : (forall r, r ∈ h -> 0 <= w r) -> NoDup secs ->
  0 <= fold_right Z.add 0 (map (fun sec => weigh w sec h) secs) <= fold_right Z.add 0 (map w h).
Proof.
  intros Hh HN. induction h as [|r h IH]; cbn [weigh map fold_right].
  { clear HN. induction secs as [|x l IHl]; cbn in *; lia. }
  specialize (IH (fun r' Hr' => Hh r' (list_elem_of_further _ _ _ Hr'))). pose proof (Hh r (list_elem_of_here _ _)) as Hr.
  assert (E : fold_right Z.add 0 (map (fun sec => (if fst r =? sec then w r else 0) + weigh w sec h) secs) =
              (if bool_decide (fst r ∈ secs) then w r else 0) + fold_right Z.add 0 (map (fun sec => weigh w sec h) secs)).
  { clear IH. induction HN as [|x l Hx HN IHl]; [done |]. cbn [map fold_right]. rewrite IHl. destruct (Z.eqb_spec (fst r) x) as [<- | Hne].
    - rewrite bool_decide_eq_false_2 by done. rewrite bool_decide_eq_true_2 by left. lia.
    - assert (Ex : fst r ∈ l <-> fst r ∈ x :: l) by (rewrite elem_of_cons; naive_solver). rewrite (bool_decide_ext _ _ Ex). lia. }
  rewrite E. case_bool_decide; lia.
Qed.

Lemma count_weigh sec h : count sec h = weigh (fun _ => 1) sec h.
Proof. induction h as [|[s e] h IH]; [done |]. cbn. by rewrite IH. Qed.
Lemma spent_weigh sec h : spent sec h = weigh snd sec h.
Proof. induction h as [|[s e] h IH]; [done |]. cbn. by rewrite IH. Qed.
Lemma total_sum h : total h = fold_right Z.add 0 (map snd h).
Proof. induction h as [|[s e] h IH]; [done |]. cbn. by rewrite IH. Qed.
Lemma zlen_sum (h : history) : zlen h = fold_right Z.add 0 (map (fun _ => 1) h).
Proof. induction h as [|r h IH]; [done |]. rewrite zlen_cons, IH. done. Qed.

Lemma window_sum f g w h last l : (forall sec, f sec h = weigh w sec h) -> g = fold_right Z.add 0 (map w h) -> (forall r, r ∈ h -> 0 <= w r) ->
  window (fun sec => f sec h) last l -> Forall (fun x => 0 <= x) l /\ 0 <= fold_right Z.add 0 l <= g.
Proof.
  intros Hf -> Hw HW. pose proof (window_all _ _ _ HW) as E. set (secs := map (fun i => last - zlen l + 1 + Z.of_nat i) (seq 0 (length l))).
  assert (El : l = map (fun sec => weigh w sec h) secs).
  { unfold secs. rewrite map_map. rewrite E at 1. apply map_ext. intros i. apply Hf. }
  assert (HN : NoDup secs) by (apply NoDup_fmap_2; [intros i j; lia | apply NoDup_ListNoDup, seq_NoDup]).
  split; [|rewrite El; by apply weigh_sum]. rewrite El. apply list.Forall_forall. intros x (sec & -> & _)%list_elem_of_fmap.
  clear -Hw. induction h as [|r h IH]; cbn; [done |]. specialize (IH (fun r' Hr' => Hw r' (list_elem_of_further _ _ _ Hr'))).
  pose proof (Hw r (list_elem_of_here _ _)). destruct (fst r =? sec); lia.
Qed.

(** ** The report fits *)

Lemma zlen_show64 v : - 2 ^ 63 <= v < 2 ^ 64 -> zlen (show v) <= 20.
Proof.
  intros H. unfold show. destruct (v <? 0) eqn:E; bools.
  - pose proof (zlen_show_nonneg (- v) 19). rewrite zlen_app. change (zlen (lit "-")) with 1. lia.
  - pose proof (zlen_show_nonneg v 20). lia.
Qed.

Definition size_of (l : list item) : Z := zlen (concat (map show_item l)).

Lemma size_app l1 l2 : size_of (l1 ++ l2) = size_of l1 + size_of l2.
Proof. unfold size_of. by rewrite map_app, concat_app, zlen_app. Qed.

Lemma size_entry name v : - 2 ^ 63 <= v < 2 ^ 64 -> size_of (entry name v) <= zlen name + 22.
Proof.
  intros Hv. pose proof (zlen_show64 v Hv). unfold size_of, entry. cbn [map concat show_item newline]. rewrite !zlen_app.
  change (zlen (lit " ")) with 1. change (zlen [x0a]) with 1. change (zlen []) with 0. lia.
Qed.

Lemma size_window name l : Forall (fun v => - 2 ^ 63 <= v < 2 ^ 64) l -> size_of (window_items name l) <= zlen name + 21 * zlen l + 1.
Proof.
  intros Hl. unfold window_items. change (ICStr (Some name) :: ?x) with ([ICStr (Some name)] ++ x). rewrite !size_app.
  change (size_of [newline]) with 1. assert (size_of [ICStr (Some name)] = zlen name) as -> by (unfold size_of; cbn; by rewrite app_nil_r).
  assert (size_of (concat (map (fun x => [IChar x20; IInt x]) l)) <= 21 * zlen l); [|lia].
  induction Hl as [|x l Hx Hl IH]; [done |]. cbn [map concat]. rewrite size_app, zlen_cons. pose proof (zlen_show64 x Hx).
  assert (size_of [IChar x20; IInt x] = 1 + zlen (show x)) as -> by (unfold size_of; cbn [map concat show_item]; rewrite app_nil_r, zlen_app; done). lia.
Qed.

Lemma entry_ok name v : - 2 ^ 63 <= v < 2 ^ 64 -> Forall item_ok (entry name v).
Proof. intros Hv. unfold entry. do 3 (apply List.Forall_cons; [done |]). apply List.Forall_nil. Qed.

Lemma window_items_ok name l : Forall (fun v => - 2 ^ 63 <= v < 2 ^ 64) l -> Forall item_ok (window_items name l).
Proof.
  intros Hl. unfold window_items. constructor; [done |]. apply list.Forall_app. split; [|apply List.Forall_cons; [done | apply List.Forall_nil]].
  induction Hl; [constructor |]. cbn [map concat]. apply list.Forall_app. split; [do 2 (apply List.Forall_cons; [done |]); apply List.Forall_nil | done].
Qed.

Lemma quot_range a b : 0 <= a < 2 ^ 63 -> 0 <= b -> - 2 ^ 63 <= (if b =? 0 then 0 else Z.quot a b) < 2 ^ 64.
Proof.
  intros Ha Hb. destruct (Z.eqb_spec b 0); [lia |]. pose proof (Z.quot_pos a b ltac:(lia) ltac:(lia)).
  pose proof (Z.quot_le_upper_bound a b a ltac:(lia) ltac:(nia)). lia.
Qed.

(** The report is complete: 15 numbers of at most 20 characters and two windows of 60 fit into
    the 4000 bytes of the stream, so nothing of it is dropped. *)
Lemma report_complete h s n queueSize uninitialised : inv h s -> counts n s -> n < 2 ^ 62 -> zlen h <= n -> total h < 2 ^ 63 ->
  0 <= queueSize < 2 ^ 64 -> zlen uninitialised = kSmallBuffer -> exists items,
  report_items queueSize s = Ret items /\ report uninitialised queueSize s = Ret (concat (map show_item items)).
Proof.
  intros I C Hn Hh Ht Hq Hu. pose proof I as [Il Ic _ _ Ila Isn Ir Ilt It]. pose proof C as [C1 C2 C3 C4 C5 C6].
  destruct (window_sum count (zlen h) (fun _ => 1) h (lastSecond_ s) (requests_ s)) as [R1 R2]; try done; [by intros; apply count_weigh | apply zlen_sum |].
  destruct (window_sum spent (total h) snd h (lastSecond_ s) (latencies_ s)) as [L1 L2]; try done; [by intros; apply spent_weigh | apply total_sum | intros r Hr; by apply Isn |].
  assert (Hm : forall l g, Forall (fun x => 0 <= x) l -> 0 <= fold_right Z.add 0 l <= g -> g < 2 ^ 63 -> Forall (fun v => - 2 ^ 63 <= v < 2 ^ 64) l).
  { intros l g Hl. revert g. induction Hl as [|x l Hx Hl IH]; intros g Hg Hb; [constructor |]. cbn [fold_right] in Hg.
    assert (0 <= fold_right Z.add 0 l) by (clear -Hl; induction Hl; cbn [fold_right]; lia). constructor; [lia | apply (IH g); lia]. }
  assert (Hm1 := Hm _ _ R1 R2 ltac:(lia)). assert (Hm2 := Hm _ _ L1 L2 ltac:(lia)).
  assert (Ha : 0 <= totalLatency_ s < 2 ^ 63) by lia.
  pose proof (quot_range (fold_right Z.add 0 (latencies_ s)) (fold_right Z.add 0 (requests_ s)) ltac:(lia) ltac:(lia)) as Hq1.
  pose proof (quot_range (totalLatency_ s) (totalResponses_ s) Ha ltac:(lia)) as Hq2.
  unfold report, report_items. rewrite !sum_i64_ok by (done || lia). rewrite !Z.add_0_l, !bind_Ret. cbv zeta. eexists. split; [reflexivity |].
  set (items := entry (lit "task_queue_size") queueSize ++ _).
  assert (Hok : Forall item_ok items).
  { unfold items. repeat (apply list.Forall_app; split); try (apply entry_ok; lia); try (by apply window_items_ok).
    destruct (0 <? badLatency_ s); [|apply List.Forall_nil]. do 3 (apply List.Forall_cons; [cbn; done || lia |]). apply List.Forall_nil. }
  assert (Hfit : zlen (concat (map show_item items)) + kMaxNumericSize <= kSmallBuffer).
  { fold (size_of items). unfold items. rewrite !size_app.
    assert (Hb : size_of (if 0 <? badLatency_ s then [ICStr (Some (lit "bad_latency")); IInt (badLatency_ s); newline] else []) <= 32).
    { destruct (0 <? badLatency_ s); [|done]. pose proof (zlen_show64 (badLatency_ s) ltac:(lia)). unfold size_of. cbn [map concat show_item newline].
      rewrite !zlen_app. change (zlen (lit "bad_latency")) with 11. change (zlen [x0a]) with 1. change (zlen []) with 0. lia. }
    repeat match goal with |- context [size_of (entry ?n ?v)] => pose proof (size_entry n v ltac:(lia)); generalize dependent (size_of (entry n v)); intros end.
    pose proof (size_window (lit "requests_per_second") _ Hm1). pose proof (size_window (lit "latency_sum_us_per_second") _ Hm2).
    assert (zlen (latencies_ s) = zlen (requests_ s)) by (unfold zlen; by rewrite Il). unfold kSeconds in Ic. unfold kMaxNumericSize, kSmallBuffer.
    repeat match goal with H : context [zlen (lit ?x)] |- _ => let v := eval vm_compute in (zlen (lit x)) in change (zlen (lit x)) with v in H end. lia. }
  assert (W : wf kSmallBuffer (FixedBuffer uninitialised)) by (unfold wf, kSmallBuffer in *; cbn; lia).
  pose proof (insert_all_ok items _ W Hok) as HI. destruct (insert_all items (FixedBuffer uninitialised)) as [b|]; [|done]. destruct HI as [Wb E].
  rewrite bind_Ret. f_equal. change (text (FixedBuffer uninitialised)) with (@nil byte) in E. rewrite (spec_all_fits items []) in E by done. cbn [app] in E.
  rewrite <-E. unfold toString, length_of, text. destruct Wb as [_ Wc]. by rewrite s32_id by (unfold kSmallBuffer in *; lia).
Qed.

Example empty_report : report (replicate 4000 x00) 7 SudokuStat =
  Ret (concat (map (fun l => lit l ++ [x0a]) ["task_queue_size 7"; "total_requests 0"; "total_responses 0"; "total_solved 0"; "bad_requests 0";
    "dropped_requests 0"; "latency_sum_us 0"; "last_second 0"; "requests_per_second"; "requests_60s 0"; "latency_sum_us_per_second";
    "latency_sum_us_60s 0"; "latency_us_60s 0"; "latency_us_avg 0"]%string)).
Proof. vm_compute. reflexivity. Qed.

End StatReport.

(** ** percentile.h *)
Module PercentileReport.
Import LogStream.

(** [std::accumulate(latencies.begin(), latencies.end(), 0)] adds in [int]. *)
Fixpoint accumulate (l : list Z) (acc : Z) : outcome Z :=
  match l with [] => Ret acc | x :: l' => acc' ← i32 (acc + x); accumulate l' acc' end.

(** The constructor: the sorted latencies (the vector is sorted in place) and the items of [stat]. *)
Definition Percentile (latencies : list Z) (infly : Z) : outcome (list Z * list item) :=
  let head := [ICStr (Some (lit "recv ")); IString (pads 6 (zlen latencies)); ICStr (Some (lit " in-fly ")); IInt infly] in
  match latencies with
  | [] => Ret ([], head)
  | _ =>
      let sorted := merge_sort Z.le latencies in
      let min := nth 0 sorted 0 in
      let max := List.last sorted 0 in
      sum ← accumulate sorted 0;
      let mean := Z.quot sum (s32 (zlen sorted)) in
      median ← Percentile.getPercentile sorted 50;
      p90 ← Percentile.getPercentile sorted 90;
      p99 ← Percentile.getPercentile sorted 99;
      Ret (sorted, head ++ [ICStr (Some (lit " min ")); IInt min; ICStr (Some (lit " max ")); IInt max; ICStr (Some (lit " avg ")); IInt mean;
                            ICStr (Some (lit " median ")); IInt median; ICStr (Some (lit " p90 ")); IInt p90; ICStr (Some (lit " p99 ")); IInt p99])
  end.

Lemma accumulate_ok l : forall acc, Forall (fun x => 0 <= x) l -> 0 <= acc -> acc + fold_right Z.add 0 l < 2 ^ 31 ->
  accumulate l acc = Ret (acc + fold_right Z.add 0 l).
Proof.
  induction l as [|x l IH]; intros acc Hl Ha Hs; cbn [accumulate fold_right] in *; [by rewrite Z.add_0_r |].
  apply list.Forall_cons in Hl as [Hx Hl]. assert (0 <= fold_right Z.add 0 l) by (clear -Hl; induction Hl; cbn [fold_right]; lia).
  rewrite i32_ok, bind_Ret by lia. rewrite IH by (try done; lia). f_equal. lia.
Qed.

Lemma sum_perm l l' : l ≡ₚ l' -> fold_right Z.add 0 l = fold_right Z.add 0 l'.
Proof. induction 1; cbn [fold_right]; lia. Qed.

Lemma sorted_lookup l i j x y : StronglySorted Z.le l -> (i <= j)%nat -> l !! i = Some x -> l !! j = Some y -> x <= y.
Proof.
  intros HS. revert i j. induction HS as [|z l HS IH HF]; intros i j Hij Hi Hj; [done |].
  destruct i as [|i], j as [|j]; cbn in *; try lia; [simplify_eq; lia | | by apply (IH i j); [lia | ..]].
  injection Hi as <-. rewrite list.Forall_forall in HF. apply HF. by eapply list_elem_of_lookup_2.
Qed.

(** With a sum that is an [int] the summary is there, over the same latencies in order, and its
    percentiles are in order too. *)
Lemma percentile_summary latencies infly : latencies <> [] -> zlen latencies < 2 ^ 31 -> Forall (fun x => 0 <= x) latencies ->
  fold_right Z.add 0 latencies < 2 ^ 31 -> exists sorted items median p90 p99,
  Percentile latencies infly = Ret (sorted, items) /\ sorted ≡ₚ latencies /\ StronglySorted Z.le sorted /\
  Percentile.getPercentile sorted 50 = Ret median /\ Percentile.getPercentile sorted 90 = Ret p90 /\ Percentile.getPercentile sorted 99 = Ret p99 /\
  nth 0 sorted 0 <= median <= p90 /\ p90 <= p99 <= List.last sorted 0.
Proof.
  intros Hne Hz Hpos Hsum. set (sorted := merge_sort Z.le latencies). assert (P : sorted ≡ₚ latencies) by apply merge_sort_Permutation.
  assert (HS : StronglySorted Z.le sorted) by (apply (StronglySorted_merge_sort _)).
  assert (Hl : zlen sorted = zlen latencies) by (unfold zlen; by rewrite P).
  assert (Hl0 : 0 < zlen sorted) by (rewrite Hl; unfold zlen; destruct latencies; [done | cbn [length]; lia]).
  destruct (Percentile.percentile_rank sorted 50) as (k50 & m50 & E50 & L50 & R50); [lia | lia |].
  destruct (Percentile.percentile_rank sorted 90) as (k90 & m90 & E90 & L90 & R90); [lia | lia |].
  destruct (Percentile.percentile_rank sorted 99) as (k99 & m99 & E99 & L99 & R99); [lia | lia |].
  assert (HF : Forall (fun x => 0 <= x) sorted) by (by rewrite P). assert (Hs : fold_right Z.add 0 sorted < 2 ^ 31) by (by rewrite (sum_perm _ _ P)).
  assert (Hmin : sorted !! 0%nat = Some (nth 0 sorted 0)) by (destruct sorted; [done | done]).
  assert (Hmax : sorted !! (length sorted - 1)%nat = Some (List.last sorted 0)).
  { clear -Hl0. induction sorted as [|x l _] using rev_ind; [done |]. rewrite List.last_last, length_app. cbn [length].
    rewrite lookup_app_r by lia. by replace (length l + 1 - 1 - length l)%nat with 0%nat by lia. }
  pose proof (lookup_lt_Some _ _ _ L99). eexists sorted, _, m50, m90, m99. split_and!; try done.
  - unfold Percentile. fold sorted. clearbody sorted. destruct latencies as [|x0 l0]; [done |].
    rewrite accumulate_ok by (done || lia). rewrite bind_Ret, E50, bind_Ret, E90, bind_Ret, E99, bind_Ret. reflexivity.
  - apply (sorted_lookup sorted 0 k50); [done | lia | done | done].
  - apply (sorted_lookup sorted k50 k90); [done | lia | done | done].
  - apply (sorted_lookup sorted k90 k99); [done | lia | done | done].
  - apply (sorted_lookup sorted k99 (length sorted - 1)); [done | lia | done | done].
Qed.

(** The sum is an [int]: latencies of more than 2147 seconds together overflow it. *)
Example accumulate_overflows : Percentile (replicate 72 30000000) 0 = Crash IntOverflow.
Proof. vm_compute. reflexivity. Qed.

End PercentileReport.
