(* ===== verification/Sudoku.v ===== *)
(** * excercises/sudoku/sudoku.cc: the dancing-links solver

    A node is its position in [nodes_] (the root is 0), and each link is a map from
    positions to positions; [columns_] holds the columns that exist.  Loops over circular
    lists are bounded by the number of nodes there can be. *)

From S2P Require Import Prelude Endian NetBuffer.

Definition kCells : Z := 81.
Definition kNoSolution : bytes := lit "NoSolution".

Module SudokuSolver.

Definition kMaxNodes : Z := 1 + 81 * 4 + 9 * 9 * 9 * 4.
Definition kRow : Z := 100.
Definition kCol : Z := 200.
Definition kBox : Z := 300.

Record t := mk {
  left : gmap Z Z;
  right : gmap Z Z;
  up : gmap Z Z;
  down : gmap Z Z;
  col : gmap Z Z;
  name : gmap Z Z;
  size : gmap Z Z;
  columns_ : gmap Z Z;
  stack_ : list Z;                 (* last pushed first *)
  cur_node_ : Z
}.

Definition root_ : Z := 0.

Definition set_left k v s := mk (<[k := v]> (left s)) (right s) (up s) (down s) (col s) (name s) (size s) (columns_ s) (stack_ s) (cur_node_ s).
Definition set_right k v s := mk (left s) (<[k := v]> (right s)) (up s) (down s) (col s) (name s) (size s) (columns_ s) (stack_ s) (cur_node_ s).
Definition set_up k v s := mk (left s) (right s) (<[k := v]> (up s)) (down s) (col s) (name s) (size s) (columns_ s) (stack_ s) (cur_node_ s).
Definition set_down k v s := mk (left s) (right s) (up s) (<[k := v]> (down s)) (col s) (name s) (size s) (columns_ s) (stack_ s) (cur_node_ s).
Definition set_col k v s := mk (left s) (right s) (up s) (down s) (<[k := v]> (col s)) (name s) (size s) (columns_ s) (stack_ s) (cur_node_ s).
Definition set_size k v s := mk (left s) (right s) (up s) (down s) (col s) (name s) (<[k := v]> (size s)) (columns_ s) (stack_ s) (cur_node_ s).
Definition set_columns k v s := mk (left s) (right s) (up s) (down s) (col s) (name s) (size s) (<[k := v]> (columns_ s)) (stack_ s) (cur_node_ s).
Definition set_stack l s := mk (left s) (right s) (up s) (down s) (col s) (name s) (size s) (columns_ s) l (cur_node_ s).

(** A link of a node; a pointer that was never set is null. *)
Definition link (m : gmap Z Z) (n : Z) : outcome Z :=
  match m !! n with Some x => Ret x | None => Crash NullPointer end.

Definition loop_fuel : nat := Z.to_nat (kMaxNodes + 1).

Definition new_column (n : Z) (s : t) : outcome (Z * t) :=
  _ ← check (cur_node_ s <? kMaxNodes);
  let c := cur_node_ s in
  Ret (c, mk (<[c := c]> (left s)) (<[c := c]> (right s)) (<[c := c]> (up s)) (<[c := c]> (down s)) (<[c := c]> (col s))
            (<[c := n]> (name s)) (<[c := 0]> (size s)) (columns_ s) (stack_ s) (c + 1)).

Definition put_left (old nnew : Z) (s : t) : outcome t :=
  l ← link (left s) old;
  let s1 := set_right nnew old (set_left nnew l s) in
  l1 ← link (left s1) old;
  let s2 := set_right l1 nnew s1 in
  Ret (set_left old nnew s2).

Definition put_up (old nnew : Z) (s : t) : outcome t :=
  u ← link (up s) old;
  let s1 := set_down nnew old (set_up nnew u s) in
  u1 ← link (up s1) old;
  let s2 := set_down u1 nnew s1 in
  let s3 := set_up old nnew s2 in
  z ← link (size s3) old;
  Ret (set_col nnew old (set_size old (z + 1) s3)).

Definition append_column (n : Z) (s : t) : outcome t :=
  _ ← check (bool_decide (columns_ s !! n = None));
  '(c, s1) ← new_column n s;
  s2 ← put_left root_ c s1;
  Ret (set_columns n c s2).

Definition new_row (column : Z) (s : t) : outcome (Z * t) :=
  match columns_ s !! column with
  | None => Crash AssertFailed
  | Some c =>
      _ ← check (cur_node_ s <? kMaxNodes);
      let r := cur_node_ s in
      let s1 := mk (<[r := r]> (left s)) (<[r := r]> (right s)) (<[r := r]> (up s)) (<[r := r]> (down s)) (<[r := c]> (col s))
                  (<[r := column]> (name s)) (<[r := 0]> (size s)) (columns_ s) (stack_ s) (r + 1) in
      s2 ← put_up c r s1;
      Ret (r, s2)
  end.

Definition get_row_col (row val : Z) : Z := kRow + row * 10 + val.
Definition get_col_col (col val : Z) : Z := kCol + col * 10 + val.
Definition get_box_col (box val : Z) : Z := kBox + box * 10 + val.

(** ** The constructor *)

Definition cells : list Z := seqZ 0 81.
Definition digits9 : list Z := seqZ 1 9.
Definition row_of (i : Z) : Z := i / 9.
Definition col_of (i : Z) : Z := i mod 9.
Definition box_of (i : Z) : Z := row_of i / 3 * 3 + col_of i / 3.

Definition cell (board : list Z) (i : Z) : Z := nth (Z.to_nat i) board 0.

(** [rows[i][v]], [cols[i][v]] and [boxes[i][v]]. *)
Definition used (unit_of : Z -> Z) (board : list Z) (i v : Z) : bool :=
  existsb (fun c => (unit_of c =? i) && (cell board c =? v)) cells.

Fixpoint fold_outcome {A} (f : A -> t -> outcome t) (l : list A) (s : t) : outcome t :=
  match l with [] => Ret s | x :: l' => s1 ← f x s; fold_outcome f l' s1 end.

Definition columns_of (board : list Z) : list Z :=
  List.filter (fun i => cell board i =? 0) cells ++
  concat (map (fun i => concat (map (fun v =>
    (if used row_of board i v then [] else [get_row_col i v]) ++
    (if used col_of board i v then [] else [get_col_col i v]) ++
    (if used box_of board i v then [] else [get_box_col i v])) digits9)) (seqZ 0 9)).

Definition candidates (board : list Z) : list (Z * Z) :=
  concat (map (fun i => if cell board i =? 0 then
    concat (map (fun v =>
      if used row_of board (row_of i) v || used col_of board (col_of i) v || used box_of board (box_of i) v
      then [] else [(i, v)]) digits9) else []) cells).

Definition add_candidate (iv : Z * Z) (s : t) : outcome t :=
  let '(i, v) := iv in
  '(n0, s1) ← new_row i s;
  '(nr, s2) ← new_row (get_row_col (row_of i) v) s1;
  '(nc, s3) ← new_row (get_col_col (col_of i) v) s2;
  '(nb, s4) ← new_row (get_box_col (box_of i) v) s3;
  s5 ← put_left n0 nr s4;
  s6 ← put_left n0 nc s5;
  put_left n0 nb s6.

Definition empty : t := mk ∅ ∅ ∅ ∅ ∅ ∅ ∅ ∅ [] 0.

Definition SudokuSolver (board : list Z) : outcome t :=
  '(_, s1) ← new_column 0 empty;
  s2 ← fold_outcome append_column (columns_of board) s1;
  fold_outcome add_candidate (candidates board) s2.

(** ** The search *)

(** The inner loop of [cover]: [j] runs right from [row]. *)
Definition unlink (j : Z) (s : t) : outcome t :=
  u ← link (up s) j;
  d ← link (down s) j;
  let s1 := set_up d u s in
  u1 ← link (up s1) j;
  d1 ← link (down s1) j;
  let s2 := set_down u1 d1 s1 in
  c ← link (col s2) j;
  z ← link (size s2) c;
  Ret (set_size c (z - 1) s2).

Fixpoint cover_row (fuel : nat) (row j : Z) (s : t) : outcome t :=
  match fuel with
  | O => Crash OutOfFuel
  | S f => if j =? row then Ret s else s1 ← unlink j s; j' ← link (right s1) j; cover_row f row j' s1
  end.

Fixpoint cover_rows (fuel : nat) (c row : Z) (s : t) : outcome t :=
  match fuel with
  | O => Crash OutOfFuel
  | S f =>
      if row =? c then Ret s
      else j ← link (right s) row; s1 ← cover_row loop_fuel row j s; row' ← link (down s1) row; cover_rows f c row' s1
  end.

Definition cover (c : Z) (s : t) : outcome t :=
  r ← link (right s) c; l ← link (left s) c;
  let s1 := set_left r l s in
  l1 ← link (left s1) c; r1 ← link (right s1) c;
  let s2 := set_right l1 r1 s1 in
  d ← link (down s2) c;
  cover_rows loop_fuel c d s2.

Definition relink (j : Z) (s : t) : outcome t :=
  c ← link (col s) j;
  z ← link (size s) c;
  let s1 := set_size c (z + 1) s in
  d ← link (down s1) j;
  let s2 := set_up d j s1 in
  u ← link (up s2) j;
  Ret (set_down u j s2).

Fixpoint uncover_row (fuel : nat) (row j : Z) (s : t) : outcome t :=
  match fuel with
  | O => Crash OutOfFuel
  | S f => if j =? row then Ret s else s1 ← relink j s; j' ← link (left s1) j; uncover_row f row j' s1
  end.

Fixpoint uncover_rows (fuel : nat) (c row : Z) (s : t) : outcome t :=
  match fuel with
  | O => Crash OutOfFuel
  | S f =>
      if row =? c then Ret s
      else j ← link (left s) row; s1 ← uncover_row loop_fuel row j s; row' ← link (up s1) row; uncover_rows f c row' s1
  end.

Definition uncover (c : Z) (s : t) : outcome t :=
  u ← link (up s) c;
  s1 ← uncover_rows loop_fuel c u s;
  r ← link (right s1) c;
  let s2 := set_left r c s1 in
  l ← link (left s2) c;
  Ret (set_right l c s2).

Fixpoint min_column (fuel : nat) (c min_size cc : Z) (s : t) : outcome Z :=
  match fuel with
  | O => Crash OutOfFuel
  | S f =>
      if cc =? root_ then Ret c
      else
        z ← link (size s) cc;
        next ← link (right s) cc;
        if z <? min_size then (if z <=? 1 then Ret cc else min_column f cc z next s)
        else min_column f c min_size next s
  end.

Definition get_min_column (s : t) : outcome Z :=
  c ← link (right s) root_;
  min_size ← link (size s) c;
  if 1 <? min_size then next ← link (right s) c; min_column loop_fuel c min_size next s else Ret c.

(** The cell and the value of a chosen row. *)
Fixpoint decode (fuel : nat) (n cell val : Z) (s : t) : outcome (Z * Z) :=
  match fuel with
  | O => Crash OutOfFuel
  | S f =>
      if (cell =? -1) || (val =? -1) then
        nm ← link (name s) n;
        n' ← link (right s) n;
        if nm <? 100 then decode f n' nm val s else decode f n' cell (nm mod 10) s
      else Ret (cell, val)
  end.

Fixpoint fill_board (rows : list Z) (board : list Z) (s : t) : outcome (list Z) :=
  match rows with
  | [] => Ret board
  | n :: rest =>
      '(c, v) ← decode loop_fuel n (-1) (-1) s;
      fill_board rest (<[Z.to_nat c := v]> board) s
  end.

(** The loops over [row->right] and [row->left] of [solve]. *)
Fixpoint cover_others (fuel : nat) (row j : Z) (s : t) : outcome t :=
  match fuel with
  | O => Crash OutOfFuel
  | S f => if j =? row then Ret s
           else c ← link (col s) j; s1 ← cover c s; j' ← link (right s1) j; cover_others f row j' s1
  end.

Fixpoint uncover_others (fuel : nat) (row j : Z) (s : t) : outcome t :=
  match fuel with
  | O => Crash OutOfFuel
  | S f => if j =? row then Ret s
           else c ← link (col s) j; s1 ← uncover c s; j' ← link (left s1) j; uncover_others f row j' s1
  end.

(** [solve]: [depth] bounds the recursion (each level covers a column), [rows] the loop
    over the rows of the chosen column. *)
Section try_rows.
Variable solve : t -> list Z -> outcome (bool * list Z * t).

Fixpoint try_rows (fuel : nat) (column row : Z) (board : list Z) (s : t) : outcome (bool * list Z * t) :=
  match fuel with
  | O => Crash OutOfFuel
  | S f =>
      if row =? column then s1 ← uncover column s; Ret (false, board, s1)
      else
        let s1 := set_stack (row :: stack_ s) s in
        j ← link (right s1) row;
        s2 ← cover_others loop_fuel row j s1;
        '(found, board', s3) ← solve s2 board;
        if (found : bool) then Ret (true, board', s3)
        else
          let s4 := set_stack (drop 1 (stack_ s3)) s3 in
          j' ← link (left s4) row;
          s5 ← uncover_others loop_fuel row j' s4;
          row' ← link (down s5) row;
          try_rows f column row' board' s5
  end.
End try_rows.

Fixpoint solve (depth : nat) (s : t) (board : list Z) : outcome (bool * list Z * t) :=
  match depth with
  | O => Crash OutOfFuel
  | S depth' =>
      l ← link (left s) root_;
      if l =? root_ then board' ← fill_board (rev (stack_ s)) board s; Ret (true, board', s)
      else
        column ← get_min_column s;
        s1 ← cover column s;
        row ← link (down s1) column;
        try_rows (solve depth') loop_fuel column row board s1
  end.

(** A level per column and the last one. *)
Definition depth_fuel : nat := 326.

End SudokuSolver.
(** ** solveSudoku *)

Definition board_of (puzzle : bytes) : list Z := map (fun b => b2Z b - 48) puzzle.

Definition solveSudoku (puzzle : bytes) : outcome bytes :=
  _ ← check (zlen puzzle =? kCells);
  let board := board_of puzzle in
  if forallb (fun x => (0 <=? x) && (x <=? 9)) board then
    s ← SudokuSolver.SudokuSolver board;
    '(found, board', _) ← SudokuSolver.solve SudokuSolver.depth_fuel s board;
    Ret (if (found : bool) then map (fun x => Z2b (x + 48)) board' else kNoSolution)
  else Ret kNoSolution.

Definition easy_puzzle : bytes :=
  lit "530070000600195000098000060800060003400803001700020006060000280000419005000080079".

Definition easy_answer : bytes :=
  lit "534678912672195348198342567859761423426853791713924856961537284287419635345286179".

Example easy_solution : solveSudoku easy_puzzle = Ret easy_answer.
Proof. vm_compute. reflexivity. Qed.
