(* ===== verification/DancingLinks.v ===== *)
(** * The links of the solver: covering a column and uncovering it

    [cover] and [uncover] of excercises/sudoku/sudoku.cc (modelled in Sudoku.v) on circular
    lists described by the lists of their nodes. *)

From S2P Require Import Prelude Sudoku.

Module DancingLinks.
Import SudokuSolver.

(** ** Covering a column and uncovering it *)

(** [chain m a l b]: from [a] the link [m] runs through [l] and ends in [b]. *)
Fixpoint chain (m : gmap Z Z) (a : Z) (l : list Z) (b : Z) : Prop :=
  match l with
  | [] => m !! a = Some b
  | x :: l' => m !! a = Some x /\ chain m x l' b
  end.

Lemma chain_hd m a l b : chain m a l b -> m !! a = Some (hd b l).
Proof. destruct l; simpl; tauto. Qed.

Lemma link_some m a x : m !! a = Some x -> link m a = Ret x.
Proof. unfold link. by intros ->. Qed.

Lemma chain_mono m m' a l b :
  (forall x y, y ∈ l ++ [b] -> m !! x = Some y -> m' !! x = Some y) -> chain m a l b -> chain m' a l b.
Proof.
  induction l as [|x l IH] in a |- *; simpl; intros H; [intros E; apply H; [set_solver | done] |].
  intros [E C]; split; [apply H; [set_solver | done] |]. apply IH; [|done].
  intros x' y' Hy; apply H; set_solver.
Qed.

(** A circular list is closed under its link. *)
Lemma chain_closed m a l b x y : chain m a l b -> x ∈ a :: l -> m !! x = Some y -> y ∈ l ++ [b].
Proof.
  induction l as [|z l IH] in a |- *; simpl.
  - intros E Hx Ey. apply list_elem_of_singleton in Hx as ->. rewrite E in Ey. set_solver.
  - intros [E C] Hx Ey. apply elem_of_cons in Hx as [-> | Hx]; [rewrite E in Ey; set_solver |].
    right. eapply IH; eauto.
Qed.

Lemma fold_outcome_app {A} (f : A -> t -> outcome t) l1 l2 s :
  fold_outcome f (l1 ++ l2) s = (s1 ← fold_outcome f l1 s; fold_outcome f l2 s1).
Proof. induction l1 as [|x l1 IH] in s |- *; simpl; [done | destruct (f x s); simpl; auto]. Qed.

(** A node that is in its vertical list, with the column it counts for. *)
Definition linked (s : t) (j : Z) : Prop :=
  exists u d k z, up s !! j = Some u /\ down s !! j = Some d /\ down s !! u = Some j /\ up s !! d = Some j /\
    col s !! j = Some k /\ size s !! k = Some z.

(** What unlinking nodes outside [X] keeps of a state: every horizontal link, and every
    vertical link that leads to a node of [X]. *)
Definition keeps (X : list Z) (s s' : t) : Prop :=
  left s' = left s /\ right s' = right s /\
  forall y, y ∈ X -> (forall x, down s !! x = Some y -> down s' !! x = Some y) /\
                   (forall x, up s !! x = Some y -> up s' !! x = Some y).

Lemma keeps_links_refl X s : keeps X s s.
Proof. by repeat split. Qed.

Lemma keeps_links_trans X s1 s2 s3 : keeps X s1 s2 -> keeps X s2 s3 -> keeps X s1 s3.
Proof.
  intros (L1 & R1 & V1) (L2 & R2 & V2). repeat split; [congruence | congruence | |];
    intros x E; apply (V2 y), (V1 y); auto.
Qed.

Lemma unlink_eq s j u d k z :
  up s !! j = Some u -> down s !! j = Some d -> up s !! d = Some j -> down s !! u = Some j ->
  col s !! j = Some k -> size s !! k = Some z ->
  unlink j s = Ret (set_size k (z - 1) (set_down u d (set_up d u s))) /\ <[d := u]> (up s) !! j = Some u /\
  <[u := d]> (down s) !! j = Some d.
Proof.
  intros Eu Ed Eud Edu Ek Ez.
  assert (Hj : <[d := u]> (up s) !! j = Some u).
  { destruct (decide (d = j)) as [-> | ?]; [by rewrite lookup_insert_eq | by rewrite lookup_insert_ne]. }
  split_and!; [| done |].
  - unfold unlink, link. rewrite Eu, Ed. simpl. rewrite Hj, Ed. simpl. rewrite Ek. simpl. by rewrite Ez.
  - destruct (decide (u = j)) as [-> | ?]; [by rewrite lookup_insert_eq | by rewrite lookup_insert_ne].
Qed.

(** One node: what [unlink] keeps, and that [relink] undoes it. *)
Lemma unlink_one X s j : linked s j -> j ∉ X ->
  exists s', unlink j s = Ret s' /\ keeps X s s' /\ relink j s' = Ret s /\ forall i, linked s i -> i <> j -> linked s' i.
Proof.
  intros (u & d & k & z & Eu & Ed & Edu & Eud & Ek & Ez) HX.
  destruct (unlink_eq s j u d k z) as (Es & Hj & Hj'); try done.
  exists (set_size k (z - 1) (set_down u d (set_up d u s))).
  split_and!; [done | ..].
  - repeat split; simpl; intros x E; rewrite lookup_insert_ne; [done | congruence | done | congruence].
  - unfold relink, link. simpl. rewrite Ek. simpl. rewrite lookup_insert_eq. simpl. rewrite Hj'. simpl.
    rewrite insert_insert_eq, (insert_id (up s)) by done. rewrite Eu. simpl.
    destruct s; simpl in *; unfold set_down, set_up, set_size; simpl. f_equal. f_equal.
    + by rewrite insert_insert_eq, insert_id.
    + by rewrite insert_insert_eq, insert_id.
    + rewrite insert_insert_eq, insert_id; [done |]. rewrite Ez. f_equal; lia.
  - intros i (u' & d' & k' & z' & Eu' & Ed' & Edu' & Eud' & Ek' & Ez') Hi.
    assert (Hz : exists z2, <[k := z - 1]> (size s) !! k' = Some z2).
    { destruct (decide (k = k')) as [-> | ?]; [rewrite lookup_insert_eq | rewrite lookup_insert_ne by done]; eauto. }
    destruct Hz as [z2 Hz].
    exists (if decide (i = d) then u else u'), (if decide (i = u) then d else d'), k', z2. simpl. split_and!; try done.
    + case_decide as Hd; [subst; by rewrite lookup_insert_eq | by rewrite lookup_insert_ne].
    + case_decide as Hd; [subst; by rewrite lookup_insert_eq | by rewrite lookup_insert_ne].
    + case_decide as Hd; [subst; by rewrite lookup_insert_eq |]. rewrite lookup_insert_ne; [done | congruence].
    + case_decide as Hd; [subst; by rewrite lookup_insert_eq |]. rewrite lookup_insert_ne; [done | congruence].
Qed.

Lemma unlinks_ok X J s : Forall (linked s) J -> NoDup J -> (forall j, j ∈ J -> j ∉ X) ->
  exists s', fold_outcome unlink J s = Ret s' /\ keeps X s s' /\ fold_outcome relink (rev J) s' = Ret s /\
    forall i, linked s i -> i ∉ J -> linked s' i.
Proof.
  induction J as [|j J IH] in s |- *; intros HL HN HX.
  - exists s. simpl. split_and!; [done | apply keeps_links_refl | done | auto].
  - apply list.Forall_cons in HL as [Hj HL]. apply list.NoDup_cons in HN as [Hn HN].
    destruct (unlink_one X s j Hj) as (s1 & E1 & K1 & U1 & F1); [apply HX; left |].
    destruct (IH s1) as (s2 & E2 & K2 & U2 & F2); [| done | intros; apply HX; by right |].
    { rewrite list.Forall_forall in HL |- *. intros i Hi. apply F1; [auto | congruence]. }
    exists s2. simpl. rewrite E1. simpl. split_and!; [done | eapply keeps_links_trans; eauto | | ].
    + rewrite fold_outcome_app, U2. simpl. by rewrite U1.
    + intros i Hi Hni. apply F2; [apply F1; [done | set_solver] | set_solver].
Qed.

(** The row loops are folds over the nodes of the row. *)
Ltac run_links := repeat (match goal with |- context [match ?m !! ?k with _ => _ end] => destruct (m !! k); simpl; try done end).

Lemma relink_left j s s' : relink j s = Ret s' -> left s' = left s.
Proof. unfold relink, link. run_links. by intros [= <-]. Qed.

Lemma unlink_right j s s' : unlink j s = Ret s' -> right s' = right s.
Proof. unfold unlink, link. run_links. by intros [= <-]. Qed.

Lemma unlink_col j s s' : unlink j s = Ret s' -> col s = col s'.
Proof. unfold unlink, link. run_links. by intros [= <-]. Qed.

(** What neither covering nor uncovering changes. *)
Definition static (s s' : t) : Prop := col s' = col s /\ name s' = name s /\ stack_ s' = stack_ s.

Lemma static_trans s1 s2 s3 : static s1 s2 -> static s2 s3 -> static s1 s3.
Proof. unfold static. intuition congruence. Qed.

Lemma unlink_static j s s' : unlink j s = Ret s' -> static s s'.
Proof. unfold unlink, link. run_links. by intros [= <-]. Qed.

Lemma unlinks_static J s s' : fold_outcome unlink J s = Ret s' -> static s s'.
Proof.
  induction J as [|j J IH] in s |- *; simpl; [by intros [= <-] |].
  destruct (unlink j s) as [s1|] eqn:E; [|done]. simpl. intros H.
  eapply static_trans; [by eapply unlink_static | by apply IH].
Qed.

(** The header of [c] taken out of the list of columns. *)
Definition header_unlinked (c : Z) (s s' : t) : Prop :=
  exists l r, left s !! c = Some l /\ right s !! c = Some r /\ left s' = <[r := l]> (left s) /\ right s' = <[l := r]> (right s).

Lemma cover_row_fold J fuel row a s s' : chain (right s) a J row -> row ∉ J -> (length J < fuel)%nat ->
  fold_outcome unlink J s = Ret s' -> cover_row fuel row (hd row J) s = Ret s'.
Proof.
  induction J as [|j J IH] in fuel, a, s |- *; intros HC HR HF E; (destruct fuel as [|f]; [simpl in HF; lia |]); simpl in *.
  - rewrite Z.eqb_refl. done.
  - destruct HC as [_ HC]. rewrite (proj2 (Z.eqb_neq j row)) by set_solver.
    destruct (unlink j s) as [s1|] eqn:E1; [simpl in E |-  * | done].
    apply unlink_right in E1. unfold link. rewrite E1, (chain_hd _ _ _ _ HC). simpl.
    eapply IH; [by rewrite E1 | set_solver | lia | done].
Qed.

Lemma uncover_row_fold J fuel row a s s' : chain (left s) a J row -> row ∉ J -> (length J < fuel)%nat ->
  fold_outcome relink J s = Ret s' -> uncover_row fuel row (hd row J) s = Ret s'.
Proof.
  induction J as [|j J IH] in fuel, a, s |- *; intros HC HR HF E; (destruct fuel as [|f]; [simpl in HF; lia |]); simpl in *.
  - rewrite Z.eqb_refl. done.
  - destruct HC as [_ HC]. rewrite (proj2 (Z.eqb_neq j row)) by set_solver.
    destruct (relink j s) as [s1|] eqn:E1; [simpl in E |-  * | done].
    apply relink_left in E1. unfold link. rewrite E1, (chain_hd _ _ _ _ HC). simpl.
    eapply IH; [by rewrite E1 | set_solver | lia | done].
Qed.

(** ** A column loses the nodes that are unlinked *)

(** The vertical list of column [k] and its count. *)
Record column_list (s : t) (k : Z) (L : list Z) : Prop := {
  cl_down : chain (down s) k L k;
  cl_up : chain (up s) k (rev L) k;
  cl_nodup : NoDup (k :: L);
  cl_size : size s !! k = Some (zlen L)
}.

Lemma chain_app m a A x B b : chain m a (A ++ x :: B) b <-> chain m a A x /\ chain m x B b.
Proof. induction A as [|y A IH] in a |- *; simpl; [done |]. rewrite IH. tauto. Qed.

Lemma hd_rev_last (l : list Z) k : hd k (rev l) = List.last l k.
Proof. induction l as [|x l IH] using rev_ind; [done |]. by rewrite rev_app_distr, List.last_last. Qed.

Lemma last_elem (l : list Z) k : List.last l k ∈ k :: l.
Proof.
  induction l as [|x l IH] using rev_ind; simpl; [left |].
  rewrite List.last_last, elem_of_cons, elem_of_app. right; right; left.
Qed.

Lemma chain_redirect m a A b d : chain m a A b -> NoDup (a :: A) -> chain (<[List.last A a := d]> m) a A d.
Proof.
  induction A as [|x A IH] in a |- *; cbn [chain]; [intros; apply lookup_insert_eq |].
  intros [E C] HN. apply list.NoDup_cons in HN as [Ha HN].
  assert (El : List.last (x :: A) a = List.last A x).
  { clear. induction A as [|y A IH] in x |- *; [done |]. simpl in *. destruct A; [done | apply (IH x)]. }
  rewrite El. split; [| by apply IH]. rewrite lookup_insert_ne; [done |].
  intros <-. apply Ha, last_elem.
Qed.

Lemma chain_insert_out m u d a l b : u ∉ a :: l -> chain m a l b -> chain (<[u := d]> m) a l b.
Proof.
  induction l as [|x l IH] in a |- *; simpl; intros Hu; [rewrite lookup_insert_ne; [done | set_solver] |].
  intros [E C]. split; [rewrite lookup_insert_ne; [done | set_solver] | apply IH; [set_solver | done]].
Qed.

Lemma filter_other (l : list Z) j : j ∉ l -> List.filter (fun n => negb (n =? j)) l = l.
Proof.
  induction l as [|x l IH]; intros Hj; simpl; [done |].
  rewrite (proj2 (Z.eqb_neq x j)) by set_solver. simpl. f_equal. apply IH. set_solver.
Qed.

(** Taking [j] out of a circular list. *)
Lemma chain_splice m k A j B : chain m k (A ++ j :: B) k -> NoDup (k :: A ++ j :: B) ->
  chain (<[List.last A k := hd k B]> m) k (A ++ B) k.
Proof.
  intros HC HN. apply chain_app in HC as [H1 H2].
  assert (HN1 : NoDup (k :: A)).
  { apply list.NoDup_cons in HN as [Hk HN]. apply list.NoDup_cons; split; [set_solver | by apply list.NoDup_app in HN as [? _]]. }
  destruct B as [|x B]; simpl.
  - rewrite app_nil_r. by eapply chain_redirect.
  - apply chain_app. split; [by eapply chain_redirect |]. destruct H2 as [_ H2].
    assert (Hu : List.last A k ∉ x :: B).
    { intros Hu. pose proof (last_elem A k) as Hl. apply list.NoDup_cons in HN as [Hk HN].
      apply list.NoDup_app in HN as (_ & Hd & _). apply elem_of_cons in Hl as [Hl | Hl].
      - rewrite Hl in Hu. apply Hk, elem_of_app. right. by right.
      - apply (Hd _ Hl). by right. }
    by apply chain_insert_out.
Qed.

(** Unlinking [j] takes it out of its own column, whose count follows, and leaves any other
    column alone. *)
Lemma unlink_column s j k L s' : linked s j -> j <> k -> (col s !! j = Some k <-> j ∈ L) -> column_list s k L ->
  unlink j s = Ret s' -> column_list s' k (List.filter (fun n => negb (n =? j)) L).
Proof.
  intros (u & d & k' & z & Eu & Ed & Edu & Eud & Ek & Ez) Hk HL [Cd Cu HN Hz] E.
  destruct (unlink_eq s j u d k' z) as (Es & _ & _); try done. rewrite Es in E. injection E as <-.
  destruct (decide (j ∈ L)) as [Hj | Hj].
  - assert (k' = k) as -> by (apply HL in Hj; congruence). assert (z = zlen L) as -> by congruence.
    apply list_elem_of_split in Hj as (A & B & ->).
    assert (Hf : List.filter (fun n => negb (n =? j)) (A ++ j :: B) = A ++ B).
    { apply list.NoDup_cons in HN as [_ HN]. apply list.NoDup_app in HN as (_ & Hd & HB).
      apply list.NoDup_cons in HB as [HB _]. rewrite List.filter_app. simpl. rewrite Z.eqb_refl. simpl.
      rewrite !filter_other; [done | done |]. intros Hi. apply (Hd j Hi). by left. }
    rewrite Hf. pose proof Cd as Cd'. pose proof Cu as Cu'. rewrite rev_app_distr in Cu, Cu'. simpl in Cu, Cu'.
    rewrite <-app_assoc in Cu, Cu'. simpl in Cu, Cu'.
    apply chain_app in Cd' as [_ H1]. apply chain_app in Cu' as [_ H2].
    apply chain_hd in H1, H2. assert (d = hd k B) as -> by congruence. assert (u = hd k (rev A)) as -> by congruence.
    assert (HN' : NoDup (k :: rev B ++ j :: rev A)).
    { assert (P : rev B ++ j :: rev A ≡ₚ A ++ j :: B).
      { rewrite <-!Permutation_middle, <-!Permutation_rev. apply perm_skip, Permutation_app_comm. }
      by rewrite P. }
    split; simpl.
    + rewrite hd_rev_last. by eapply chain_splice.
    + rewrite rev_app_distr. pose proof (chain_splice _ _ _ _ _ Cu HN') as G.
      by rewrite <-hd_rev_last, rev_involutive in G.
    + apply list.NoDup_cons in HN as [Hk' HN]. apply list.NoDup_cons. split; [set_solver |].
      rewrite <-Permutation_middle in HN. by apply list.NoDup_cons in HN as [_ ?].
    + rewrite lookup_insert_eq. f_equal. rewrite !zlen_app, zlen_cons. lia.
  - rewrite filter_other by done. assert (Hk' : k' <> k) by (intros ->; tauto).
    split; simpl; [| | done | by rewrite lookup_insert_ne].
    + eapply chain_mono; [|apply Cd]. intros x y Hy Ex. rewrite lookup_insert_ne; [done |]. intros <-.
      assert (y = j) as -> by congruence. apply elem_of_app in Hy as [? | ?%list_elem_of_singleton]; congruence.
    + eapply chain_mono; [|apply Cu]. intros x y Hy Ex. rewrite lookup_insert_ne; [done |]. intros <-.
      assert (y = j) as -> by congruence. apply elem_of_app in Hy as [Hy | ?%list_elem_of_singleton]; [|congruence].
      by apply list_elem_of_In, in_rev, list_elem_of_In in Hy.
Qed.

(** ** A column of the matrix *)

Definition row_nodes (rows : list (Z * list Z)) : list Z := concat (map snd rows).

(** Column [c] with its [rows], each a node of the column and the rest of its row: the
    vertical list of [c], the circular list of every row, and the header's place in the list
    of columns. *)
Record column_ok (c : Z) (rows : list (Z * list Z)) (s : t) : Prop := {
  co_down : chain (down s) c (map fst rows) c;
  co_up : chain (up s) c (rev (map fst rows)) c;
  co_rows : Forall (fun rJ => chain (right s) rJ.1 rJ.2 rJ.1 /\ chain (left s) rJ.1 (rev rJ.2) rJ.1) rows;
  co_nodup : NoDup (c :: map fst rows ++ row_nodes rows);
  co_bound : Forall (fun n => 0 <= n < kMaxNodes) (map fst rows ++ row_nodes rows);
  co_linked : Forall (linked s) (row_nodes rows);
  co_header : exists l r, left s !! c = Some l /\ right s !! c = Some r /\ right s !! l = Some c /\ left s !! r = Some c
}.

Lemma nodes_fuel l : NoDup l -> Forall (fun n => 0 <= n < kMaxNodes) l -> (length l < loop_fuel)%nat.
Proof.
  intros HN HB. apply Nat.le_lt_trans with (length (seqZ 0 kMaxNodes)).
  - apply submseteq_length, NoDup_submseteq; [done |]. intros n Hn. rewrite list.Forall_forall in HB.
    apply elem_of_seqZ. specialize (HB n Hn). lia.
  - rewrite length_seqZ. unfold loop_fuel, kMaxNodes. lia.
Qed.

#[local] Opaque loop_fuel.

(** Membership facts about lists of nodes, from their parts. *)
Ltac members := intros; rewrite ?elem_of_app, ?elem_of_cons, ?elem_of_nil in *;
  first [tauto | match goal with H : forall n, _ -> n ∈ _ |- _ => apply H; rewrite ?elem_of_app, ?elem_of_cons in *; tauto
                 | H : forall n, _ -> n ∉ _ |- _ => apply H; rewrite ?elem_of_app, ?elem_of_cons in *; tauto end].

Lemma row_nodes_in rows (rJ : Z * list Z) j : rJ ∈ rows -> j ∈ rJ.2 -> j ∈ row_nodes rows.
Proof.
  intros H Hj. apply list_elem_of_In, in_concat. exists rJ.2. split; [| by apply list_elem_of_In].
  by apply in_map, list_elem_of_In.
Qed.

Lemma row_nodes_length rows (rJ : Z * list Z) : rJ ∈ rows -> (length rJ.2 <= length (row_nodes rows))%nat.
Proof.
  intros H. apply list_elem_of_split in H as (A & B & ->). unfold row_nodes.
  rewrite map_app, concat_app, length_app. simpl. rewrite length_app. lia.
Qed.

(** Covering the rows of a column: [R] are the rows still to be covered. *)
Lemma cover_rows_fold (X : list Z) c R fuel s s' a :
  (forall n, n ∈ c :: map fst R -> n ∈ X) -> (forall n, n ∈ row_nodes R -> n ∉ X) ->
  chain (down s) a (map fst R) c -> c ∉ map fst R -> (length R < fuel)%nat ->
  Forall (fun rJ => chain (right s) rJ.1 rJ.2 rJ.1 /\ (rJ.1 ∉ rJ.2) /\ (length rJ.2 < loop_fuel)%nat) R ->
  Forall (linked s) (row_nodes R) -> NoDup (row_nodes R) ->
  fold_outcome unlink (row_nodes R) s = Ret s' -> cover_rows fuel c (hd c (map fst R)) s = Ret s'.
Proof.
  induction R as [|[r J] R IH] in fuel, s, a |- *; intros HX HD HC Hc HF HR HL HN E;
    (destruct fuel as [|f]; [simpl in HF; lia |]); simpl.
  - by rewrite Z.eqb_refl.
  - change (row_nodes ((r, J) :: R)) with (J ++ row_nodes R) in *. simpl in *.
    rewrite (proj2 (Z.eqb_neq r c)) by set_solver. apply list.Forall_cons in HR as [(Hr & Hr' & Hf) HR].
    simpl in *. destruct HC as [_ HC]. apply list.Forall_app in HL as [HLJ HL].
    apply list.NoDup_app in HN as (HNJ & Hdis & HN).
    destruct (unlinks_ok X J s HLJ HNJ) as (s1 & E1 & K1 & _ & F1); [members |].
    rewrite fold_outcome_app, E1 in E. simpl in E. rewrite (link_some _ _ _ (chain_hd _ _ _ _ Hr)). simpl.
    rewrite (cover_row_fold J loop_fuel r r s s1 Hr Hr' Hf E1). simpl.
    destruct K1 as (_ & K1r & K1v).
    assert (HC' : chain (down s1) r (map fst R) c).
    { eapply chain_mono; [|done]. intros x y Hy. apply K1v. members. }
    rewrite (link_some _ _ _ (chain_hd _ _ _ _ HC')). simpl. apply (IH f s1 r); [members | members | done | members | lia | by rewrite K1r | | done | done].
    rewrite list.Forall_forall in HL |- *. intros i Hi. apply F1; [auto |]. intros Hi'. by apply (Hdis i).
Qed.

(** Uncovering undoes it, the last row first: [R] lists the rows covered so far, last first. *)
Lemma uncover_rows_undo (X : list Z) c R fuel s s' a :
  (forall n, n ∈ c :: map fst R -> n ∈ X) -> (forall n, n ∈ row_nodes (rev R) -> n ∉ X) ->
  chain (up s) a (map fst R) c -> c ∉ map fst R -> (length R < fuel)%nat ->
  Forall (fun rJ => chain (left s) rJ.1 (rev rJ.2) rJ.1 /\ (rJ.1 ∉ rJ.2) /\ (length rJ.2 < loop_fuel)%nat) R ->
  Forall (linked s) (row_nodes (rev R)) -> NoDup (row_nodes (rev R)) ->
  fold_outcome unlink (row_nodes (rev R)) s = Ret s' -> uncover_rows fuel c (hd c (map fst R)) s' = Ret s.
Proof.
  induction R as [|[r J] R IH] in fuel, s', a |- *; intros HX HD HC Hc HF HR HL HN E;
    (destruct fuel as [|f]; [simpl in HF; lia |]); simpl.
  - rewrite Z.eqb_refl. by injection E as ->.
  - assert (Er : row_nodes (rev ((r, J) :: R)) = row_nodes (rev R) ++ J).
    { unfold row_nodes. simpl. rewrite map_app, concat_app. simpl. by rewrite app_nil_r. }
    rewrite Er in *. simpl in *. rewrite (proj2 (Z.eqb_neq r c)) by set_solver.
    apply list.Forall_cons in HR as [(Hr & Hr' & Hf) HR]. simpl in *. destruct HC as [_ HC].
    apply list.Forall_app in HL as [HL HLJ]. apply list.NoDup_app in HN as (HN & Hdis & HNJ).
    destruct (unlinks_ok X (row_nodes (rev R)) s HL HN) as (s1 & E1 & K1 & _ & F1); [members |].
    rewrite fold_outcome_app, E1 in E. simpl in E.
    destruct (unlinks_ok X J s1) as (s2 & E2 & K2 & U2 & _); [| done | members |].
    { rewrite list.Forall_forall in HLJ |- *. intros i Hi. apply F1; [auto |]. intros Hi'. by apply (Hdis i). }
    assert (s2 = s') as -> by congruence.
    pose proof (keeps_links_trans _ _ _ _ K1 K2) as (KL & _ & _). destruct K1 as (_ & _ & K1v).
    rewrite <-KL in Hr. rewrite (link_some _ _ _ (chain_hd _ _ _ _ Hr)). simpl.
    rewrite (uncover_row_fold (rev J) loop_fuel r r s' s1 Hr); [| by rewrite list_elem_of_In, <-in_rev, <-list_elem_of_In | by rewrite length_rev | done].
    simpl. assert (HC' : chain (up s1) r (map fst R) c).
    { eapply chain_mono; [|done]. intros x y Hy. apply K1v. members. }
    rewrite (link_some _ _ _ (chain_hd _ _ _ _ HC')). simpl. apply (IH f s1 r); [members | members | done | members | lia | done | done | done | done].
Qed.

(** The header taken out of the list of columns. *)
Lemma header_out c rows s : column_ok c rows s ->
  exists l r s1, left s !! c = Some l /\ right s !! c = Some r /\ right s !! l = Some c /\ left s !! r = Some c /\
    s1 = set_right l r (set_left r l s) /\ left s1 !! c = Some l /\ right s1 !! c = Some r /\
    Forall (fun rJ => chain (right s1) rJ.1 rJ.2 rJ.1 /\ chain (left s1) rJ.1 (rev rJ.2) rJ.1) rows.
Proof.
  intros [Hd Hu HR HN HB HL (l & r & El & Er & Erl & Elr)].
  exists l, r, (set_right l r (set_left r l s)). split_and!; try done; simpl.
  - destruct (decide (r = c)) as [-> | ?]; [by rewrite lookup_insert_eq | by rewrite lookup_insert_ne].
  - destruct (decide (l = c)) as [-> | ?]; [by rewrite lookup_insert_eq | by rewrite lookup_insert_ne].
  - apply list.NoDup_cons in HN as [Hc _]. rewrite elem_of_app in Hc. rewrite list.Forall_forall in HR |- *.
    intros [x J] Hx. destruct (HR _ Hx) as [C1 C2]. simpl in *.
    assert (Hc' : forall y, y ∈ J ++ [x] -> y <> c).
    { intros y Hy ->. apply Hc. apply elem_of_app in Hy as [Hy | Hy].
      - right. by apply (row_nodes_in _ (x, J)).
      - left. apply list_elem_of_singleton in Hy as ->. apply list_elem_of_In, in_map_iff. exists (x, J).
        split; [done | by apply list_elem_of_In]. }
    split; (eapply chain_mono; [|done]); intros a b Hb E; rewrite lookup_insert_ne; try done; intros <-.
    + apply (Hc' b); [done | congruence].
    + apply (Hc' b); [| congruence]. apply elem_of_app in Hb as [Hb | Hb]; apply elem_of_app; [left | by right].
      by apply list_elem_of_In, in_rev, list_elem_of_In.
Qed.

(** Putting it back. *)
Lemma header_in c l r s : left s !! c = Some l -> right s !! c = Some r -> right s !! l = Some c -> left s !! r = Some c ->
  (l1 ← link (<[r := c]> (<[r := l]> (left s))) c;
   Ret (set_right l1 c (set_left r c (set_right l r (set_left r l s))))) = Ret s.
Proof.
  intros El Er Erl Elr. rewrite (link_some _ _ l).
  - simpl. destruct s; unfold set_right, set_left; simpl in *. by rewrite !insert_insert_eq, !insert_id.
  - rewrite insert_insert_eq. destruct (decide (r = c)) as [-> | ?];
      [rewrite lookup_insert_eq; congruence | by rewrite lookup_insert_ne].
Qed.

Lemma unlinks_column J s k L s' : Forall (linked s) J -> NoDup J -> k ∉ J ->
  (forall j, j ∈ J -> col s !! j = Some k <-> j ∈ L) -> column_list s k L ->
  fold_outcome unlink J s = Ret s' -> column_list s' k (List.filter (fun n => negb (bool_decide (n ∈ J))) L).
Proof.
  induction J as [|j J IH] in s, L |- *; intros HL HN Hk HJ HC E.
  - injection E as <-. replace (List.filter _ L) with L; [done |]. clear.
    induction L as [|x L IH]; cbn [List.filter]; [done |]. rewrite bool_decide_eq_false_2 by apply not_elem_of_nil. cbn [negb]. by rewrite <-IH.
  - apply list.Forall_cons in HL as [Hj HL]. apply list.NoDup_cons in HN as [Hn HN].
    destruct (unlink_one [] s j Hj) as (s1 & E1 & K1 & U1 & F1); [set_solver |].
    simpl in E. rewrite E1 in E. simpl in E.
    assert (HC1 : column_list s1 k (List.filter (fun n => negb (n =? j)) L)).
    { eapply unlink_column; [done | set_solver | apply HJ; left | done | done]. }
    apply (IH s1 _) in HC1; [| | done | set_solver | | done].
    + replace (List.filter _ L) with (List.filter (fun n => negb (bool_decide (n ∈ J))) (List.filter (fun n => negb (n =? j)) L));
        [done |]. clear. induction L as [|x L IHL]; cbn [List.filter]; [done |]. rewrite <-IHL.
      destruct (Z.eqb_spec x j) as [-> | Hx]; cbn [negb List.filter].
      * rewrite bool_decide_eq_true_2 by left. done.
      * rewrite (bool_decide_ext (x ∈ j :: J) (x ∈ J)) by set_solver. done.
    + rewrite list.Forall_forall in HL |- *. intros i Hi. apply F1; [auto | congruence].
    + intros i Hi. rewrite <-(unlink_col _ _ _ E1), HJ by (by right).
      rewrite !list_elem_of_In, filter_In. split; [| tauto]. intros ?. split; [done |].
      rewrite (proj2 (Z.eqb_neq i j)); [done | congruence].
Qed.

(** Covering a column succeeds; it takes the rows of the column, and nothing else, out of
    every other column, whose count stays right; and uncovering restores every link and every
    count, whatever the state of the search: this is what lets [solve] backtrack. *)
Lemma cover_uncover c rows s : column_ok c rows s ->
  exists s1, cover c s = Ret s1 /\ uncover c s1 = Ret s /\
    header_unlinked c s s1 /\ static s s1 /\ chain (down s1) c (map fst rows) c /\
    (forall k L, column_list s k L -> k ∉ row_nodes rows ->
       (forall j, j ∈ row_nodes rows -> col s !! j = Some k <-> j ∈ L) ->
       column_list s1 k (List.filter (fun n => negb (bool_decide (n ∈ row_nodes rows))) L)).
Proof.
  intros HO. destruct (header_out c rows s HO) as (l & r & s0 & El & Er & Erl & Elr & Es0 & El0 & Er0 & HR0).
  destruct HO as [Hd Hu HR HN HB HL _].
  assert (Hv : up s0 = up s /\ down s0 = down s /\ col s0 = col s /\ size s0 = size s) by (by subst s0).
  destruct Hv as (Eu & Ed & Ec & Ez).
  assert (HL0 : Forall (linked s0) (row_nodes rows)).
  { eapply list.Forall_impl; [apply HL |]. unfold linked. intros j. by rewrite Eu, Ed, Ec, Ez. }
  apply list.NoDup_cons in HN as [Hc HN]. pose proof (nodes_fuel _ HN HB) as HF.
  rewrite length_app, length_map in HF. apply list.NoDup_app in HN as (HN1 & Hdis & HN2).
  assert (HX : forall n, n ∈ row_nodes rows -> n ∉ c :: map fst rows) by (intros n Hn Hn'; apply elem_of_cons in Hn' as [-> | Hn']; [apply Hc, elem_of_app; by right | by apply (Hdis n)]).
  destruct (unlinks_ok (c :: map fst rows) (row_nodes rows) s0) as (s1 & E1 & K1 & U1 & F1); [done .. |].
  assert (row_apart : forall rJ, rJ ∈ rows -> rJ.1 ∉ rJ.2).
  { intros [x J] Hx Hi. apply (Hdis x); [| by apply (row_nodes_in _ (x, J))].
    apply list_elem_of_In, in_map_iff. exists (x, J). split; [done | by apply list_elem_of_In]. }
  assert (row_short : forall rJ, rJ ∈ rows -> (length rJ.2 < loop_fuel)%nat).
  { intros rJ Hx. pose proof (row_nodes_length rows rJ Hx). lia. }
  exists s1. split_and!.
  - unfold cover. rewrite (link_some _ _ _ Er), (link_some _ _ _ El). simpl.
    rewrite (link_some (<[r := l]> _) c l), (link_some _ _ _ Er) by (subst s0; exact El0). simpl. fold (set_left r l s).
    rewrite <-Es0, (link_some _ _ (hd c (map fst rows))) by (by apply chain_hd in Hd). simpl.
    eapply (cover_rows_fold (c :: map fst rows)); try done; [by rewrite Ed | members | lia |].
    rewrite list.Forall_forall in HR0 |- *. intros rJ HrJ. split_and!; [by apply HR0 | by apply row_apart | by apply row_short].
  - unfold uncover. rewrite (link_some _ _ (hd c (map fst (rev rows)))).
    2: { destruct K1 as (_ & _ & K1v). rewrite map_rev. eapply chain_hd, chain_mono; [| by rewrite <-Eu in Hu; apply Hu].
         intros x y Hy. apply K1v. revert Hy. rewrite !elem_of_app, !list_elem_of_In, <-in_rev. simpl. tauto. }
    simpl. rewrite (uncover_rows_undo (c :: map fst rows) c (rev rows) loop_fuel s0 s1 c); simpl.
    + rewrite (link_some _ _ _ Er0). simpl. subst s0. by apply header_in.
    + intros n. rewrite map_rev, !elem_of_cons, (list_elem_of_In (rev _) n), <-in_rev, <-list_elem_of_In. tauto.
    + by rewrite rev_involutive.
    + rewrite map_rev. by rewrite Eu.
    + rewrite map_rev, list_elem_of_In, <-in_rev, <-list_elem_of_In. members.
    + rewrite length_rev; lia.
    + apply List.Forall_rev. rewrite list.Forall_forall in HR0 |- *. intros rJ HrJ. split_and!; [by apply HR0 | by apply row_apart | by apply row_short].
    + by rewrite rev_involutive.
    + by rewrite rev_involutive.
    + by rewrite rev_involutive.
  - exists l, r. destruct K1 as (-> & -> & _). by subst s0.
  - apply (static_trans _ s0); [by subst s0 | by eapply unlinks_static].
  - destruct K1 as (_ & _ & K1v). apply (chain_mono (down s0)); [| by rewrite Ed]. intros x y Hy. apply K1v. revert Hy. rewrite elem_of_app, list_elem_of_singleton, elem_of_cons. tauto.
  - intros k L HC Hk HJ. eapply unlinks_column; try done; [by rewrite Ec |].
    destruct HC. split; [by rewrite Ed | by rewrite Eu | done | by rewrite Ez].
Qed.

End DancingLinks.
