(* ===== verification/ExactCover.v ===== *)
(** * The search of the solver as exact cover

    The matrix of the solver: headers [hs], rows of nodes, the column and the name of every
    node.  [rep H s] says that the links of [s] are those of the matrix with exactly the columns
    of [H] uncovered.  Against it, [cover] removes a column, and [solve] of
    excercises/sudoku/sudoku.cc finds a set of rows that covers every column of [H] once, or
    restores the links when there is none. *)

From S2P Require Import Prelude Sudoku DancingLinks.

Module ExactCover.
Import SudokuSolver DancingLinks.

(** ** Rows as circular lists *)

Fixpoint before (x : Z) (l : list Z) : list Z :=
  match l with [] => [] | y :: l' => if y =? x then [] else y :: before x l' end.
Fixpoint after (x : Z) (l : list Z) : list Z :=
  match l with [] => [] | y :: l' => if y =? x then l' else after x l' end.

(** The nodes of row [r] met going right from [n]. *)
Definition others (n : Z) (r : list Z) : list Z := after n r ++ before n r.

Lemma split_row n r : n ∈ r -> r = before n r ++ n :: after n r.
Proof.
  induction r as [|x r IH]; intros Hn; [by apply elem_of_nil in Hn |]. simpl.
  destruct (Z.eqb_spec x n) as [-> | Hx]; [done |]. simpl. f_equal. apply IH.
  by apply elem_of_cons in Hn as [-> | Hn].
Qed.

Lemma others_perm n r : n ∈ r -> n :: others n r ≡ₚ r.
Proof.
  intros H. unfold others. rewrite (split_row n r H) at 3. rewrite <-Permutation_middle.
  apply perm_skip, Permutation_app_comm.
Qed.

Lemma others_in n r j : n ∈ r -> NoDup r -> j ∈ others n r <-> j ∈ r /\ j <> n.
Proof.
  intros Hn HN. pose proof (others_perm n r Hn) as P.
  assert (Hj : j ∈ r <-> j = n \/ j ∈ others n r) by (by rewrite <-elem_of_cons, P).
  rewrite <-P in HN. apply list.NoDup_cons in HN as [HN _]. rewrite Hj. split; [| tauto].
  intros Hjo. split; [by right | by intros ->].
Qed.

Definition cyc (m : gmap Z Z) (r : list Z) : Prop := match r with [] => True | x :: l => chain m x l x end.
Definition cyc_back (m : gmap Z Z) (r : list Z) : Prop := match r with [] => True | x :: l => chain m x (rev l) x end.

Lemma cyc_at m r n : cyc m r -> n ∈ r -> chain m n (others n r) n.
Proof.
  intros HC Hn. pose proof (split_row n r Hn) as E. unfold others. revert E.
  generalize (before n r) (after n r). intros A B ->. destruct A as [|x A]; simpl in *; [by rewrite app_nil_r |].
  apply chain_app in HC as [H1 H2]. by apply chain_app.
Qed.

Lemma cyc_back_at m r n : cyc_back m r -> n ∈ r -> chain m n (rev (others n r)) n.
Proof.
  intros HC Hn. pose proof (split_row n r Hn) as E. unfold others. revert E.
  generalize (before n r) (after n r). intros A B ->. destruct A as [|x A]; simpl in *; [by rewrite app_nil_r |].
  rewrite rev_app_distr in HC |- *. simpl in HC |- *. rewrite <-app_assoc in HC |- *. simpl in HC |- *.
  apply chain_app in HC as [H1 H2]. by apply chain_app.
Qed.

Lemma chain_last m a A b : chain m a A b -> m !! List.last A a = Some b.
Proof.
  induction A as [|x A IH] in a |- *; [done |]. intros [_ C]. apply IH in C.
  assert (List.last (x :: A) a = List.last A x) as ->; [|done].
  clear. induction A as [|y A IH] in x |- *; [done |]. simpl in *. destruct A; [done | apply (IH x)].
Qed.

Lemma last_rev_hd (l : list Z) k : List.last (rev l) k = hd k l.
Proof. by rewrite <-hd_rev_last, rev_involutive. Qed.

(** The neighbours of a node of a doubly linked circular list. *)
Lemma neighbours m m' a A j B : chain m a (A ++ j :: B) a -> chain m' a (rev (A ++ j :: B)) a ->
  m !! j = Some (hd a B) /\ m' !! j = Some (List.last A a) /\ m !! List.last A a = Some j /\ m' !! hd a B = Some j.
Proof.
  intros H1 H2. rewrite rev_app_distr in H2. simpl in H2. rewrite <-app_assoc in H2. simpl in H2.
  apply chain_app in H1 as [H1 H1'], H2 as [H2 H2'].
  rewrite <-(hd_rev_last A). rewrite <-(last_rev_hd B). split_and!.
  - rewrite last_rev_hd. by apply chain_hd in H1'.
  - by apply chain_hd in H2'.
  - rewrite hd_rev_last. by apply chain_last.
  - by apply chain_last.
Qed.

Lemma column_list_linked s k L j : column_list s k L -> j ∈ L -> col s !! j = Some k -> linked s j.
Proof.
  intros [Hd Hu _ Hz] Hj Hc. apply list_elem_of_split in Hj as (A & B & ->).
  destruct (neighbours _ _ _ _ _ _ Hd Hu) as (E1 & E2 & E3 & E4).
  exists (List.last A k), (hd k B), k, (zlen (A ++ j :: B)). by split_and!.
Qed.

(** ** Lists of rows *)

Lemma concat_in {A} (l : list (list A)) x : x ∈ concat l <-> exists r, r ∈ l /\ x ∈ r.
Proof.
  rewrite list_elem_of_In, in_concat. split; intros (r & H1 & H2); exists r; rewrite !list_elem_of_In in *; tauto.
Qed.

Lemma concat_unique {A} (l : list (list A)) r r' x : NoDup (concat l) -> r ∈ l -> r' ∈ l -> x ∈ r -> x ∈ r' -> r = r'.
Proof.
  induction l as [|y l IH]; intros HN Hr Hr' Hx Hx'; [by apply elem_of_nil in Hr |]. simpl in HN.
  apply list.NoDup_app in HN as (_ & Hd & HN).
  apply elem_of_cons in Hr as [-> | Hr], Hr' as [-> | Hr']; [done | | | by apply IH].
  - destruct (Hd x Hx). apply concat_in. eauto.
  - destruct (Hd x Hx'). apply concat_in. eauto.
Qed.

Lemma NoDup_part {A} (l : list (list A)) r : NoDup (concat l) -> r ∈ l -> NoDup r.
Proof.
  intros HN Hr. apply list_elem_of_split in Hr as (l1 & l2 & ->). rewrite concat_app in HN. simpl in HN.
  by apply list.NoDup_app in HN as (_ & _ & [? _]%list.NoDup_app).
Qed.

Lemma concat_filter_sub {A} (f : list A -> bool) l : concat (List.filter f l) `sublist_of` concat l.
Proof.
  induction l as [|r l IH]; simpl; [done |]. destruct (f r); simpl; [by apply sublist_app | by apply sublist_inserts_l].
Qed.

(** ** The stack takes no part in covering *)

Lemma set_stack_back l s : set_stack (stack_ s) (set_stack l s) = s.
Proof. by destruct s. Qed.

Definition on_stack (l : list Z) (o : outcome t) : outcome t := s ← o; Ret (set_stack l s).

Ltac stack_links := unfold link; repeat (match goal with |- context [match ?m !! ?k with _ => _ end] => destruct (m !! k); simpl; try done end).

Lemma unlink_stack l j s : unlink j (set_stack l s) = on_stack l (unlink j s).
Proof. unfold unlink, on_stack. simpl. stack_links. Qed.

Lemma relink_stack l j s : relink j (set_stack l s) = on_stack l (relink j s).
Proof. unfold relink, on_stack. simpl. stack_links. Qed.

Lemma cover_row_stack l fuel row j s : cover_row fuel row j (set_stack l s) = on_stack l (cover_row fuel row j s).
Proof.
  induction fuel as [|f IH] in j, s |- *; [done |]. simpl. destruct (j =? row); [done |]. rewrite unlink_stack.
  destruct (unlink j s) as [s1|]; [|done]. simpl. unfold link. destruct (right s1 !! j); [|done]. apply IH.
Qed.

Lemma uncover_row_stack l fuel row j s : uncover_row fuel row j (set_stack l s) = on_stack l (uncover_row fuel row j s).
Proof.
  induction fuel as [|f IH] in j, s |- *; [done |]. simpl. destruct (j =? row); [done |]. rewrite relink_stack.
  destruct (relink j s) as [s1|]; [|done]. simpl. unfold link. destruct (left s1 !! j); [|done]. apply IH.
Qed.

#[local] Opaque loop_fuel.

Lemma cover_rows_stack l fuel c row s : cover_rows fuel c row (set_stack l s) = on_stack l (cover_rows fuel c row s).
Proof.
  induction fuel as [|f IH] in row, s |- *; [done |]. simpl. destruct (row =? c); [done |].
  destruct (link (right s) row) as [j|]; [|done]. simpl. rewrite cover_row_stack.
  destruct (cover_row _ _ _ s) as [s1|]; [|done]. simpl. unfold link. destruct (down s1 !! row); [|done]. apply IH.
Qed.

Lemma uncover_rows_stack l fuel c row s : uncover_rows fuel c row (set_stack l s) = on_stack l (uncover_rows fuel c row s).
Proof.
  induction fuel as [|f IH] in row, s |- *; [done |]. simpl. destruct (row =? c); [done |].
  destruct (link (left s) row) as [j|]; [|done]. simpl. rewrite uncover_row_stack.
  destruct (uncover_row _ _ _ s) as [s1|]; [|done]. simpl. unfold link. destruct (up s1 !! row); [|done]. apply IH.
Qed.

Lemma cover_stack l c s : cover c (set_stack l s) = on_stack l (cover c s).
Proof.
  unfold cover. simpl. destruct (link (right s) c) as [r|]; [|done]. simpl. destruct (link (left s) c) as [u|]; [|done]. simpl.
  destruct (link (<[r := u]> (left s)) c) as [l1|]; [|done]. simpl.
  destruct (link (down s) c) as [d|]; [|done]. simpl. apply (cover_rows_stack l _ _ _ (set_right _ _ (set_left _ _ s))).
Qed.

Lemma uncover_stack l c s : uncover c (set_stack l s) = on_stack l (uncover c s).
Proof.
  unfold uncover. simpl. destruct (link (up s) c) as [u|]; [|done]. simpl. rewrite uncover_rows_stack.
  destruct (uncover_rows _ _ _ s) as [s1|]; [|done]. simpl. unfold link. simpl. destruct (right s1 !! c); [|done]. simpl.
  by destruct (_ !! c).
Qed.

(** ** The matrix and its representation *)
Section matrix.
Variables (hs : list Z) (rows : list (list Z)) (c nm : Z -> Z).

(** Headers, nodes and the root are different, inside the arena; the nodes of a row are in
    different columns. *)
Record matrix_ok : Prop := {
  mx_nodup : NoDup (0 :: hs ++ concat rows);
  mx_bound : Forall (fun n => 0 <= n < kMaxNodes) (hs ++ concat rows);
  mx_cols : forall r, r ∈ rows -> NoDup (map c r) /\ forall n, n ∈ r -> c n ∈ hs
}.
Hypothesis mx : matrix_ok.

(** All columns of a row are uncovered. *)
Definition row_in (H : list Z) (r : list Z) : bool := forallb (fun n => bool_decide (c n ∈ H)) r.
Definition pick (k : Z) (r : list Z) : list Z := List.filter (fun n => c n =? k) r.

(** The nodes of column [k] in the rows that are left. *)
Definition alive (H : list Z) (k : Z) : list Z := concat (map (pick k) (List.filter (row_in H) rows)).

Record rep (H : list Z) (s : t) : Prop := {
  rp_sub : forall k, k ∈ H -> k ∈ hs;
  rp_nodup : NoDup H;
  rp_right : chain (right s) 0 H 0;
  rp_left : chain (left s) 0 (rev H) 0;
  rp_cols : forall k, k ∈ H -> column_list s k (alive H k);
  rp_rows : forall r, r ∈ rows -> cyc (right s) r /\ cyc_back (left s) r;
  rp_col : forall n, n ∈ concat rows -> col s !! n = Some (c n);
  rp_name : forall n, n ∈ concat rows -> name s !! n = Some (nm n)
}.

(** *** Facts about the matrix *)

Lemma nodes_nodup : NoDup (concat rows).
Proof using mx. destruct mx as [HN _ _]. apply list.NoDup_cons in HN as [_ HN]. by apply list.NoDup_app in HN as (_ & _ & ?). Qed.

Lemma header_not_node k r n : k ∈ 0 :: hs -> r ∈ rows -> n ∈ r -> k <> n.
Proof using mx.
  intros Hk Hr Hn ->. destruct mx as [HN _ _]. assert (n ∈ concat rows) by (apply concat_in; eauto).
  apply list.NoDup_cons in HN as [H0 HN]. apply list.NoDup_app in HN as (_ & Hd & _). apply elem_of_cons in Hk as [-> | Hk].
  - apply H0, elem_of_app. by right.
  - by apply (Hd n).
Qed.

Lemma row_in_true H r : row_in H r = true <-> forall n, n ∈ r -> c n ∈ H.
Proof.
  unfold row_in. rewrite forallb_forall. split; intros Hr n Hn.
  - eapply bool_decide_eq_true_1, Hr. by apply list_elem_of_In.
  - apply bool_decide_eq_true_2, Hr. by apply list_elem_of_In.
Qed.

Lemma pick_in k r n : n ∈ pick k r <-> n ∈ r /\ c n = k.
Proof. unfold pick. rewrite !list_elem_of_In, filter_In, Z.eqb_eq. done. Qed.

Lemma pick_cases k r : NoDup (map c r) -> pick k r = [] \/ exists n, n ∈ r /\ c n = k /\ pick k r = [n].
Proof.
  induction r as [|x r IH]; simpl; intros HN; [by left |]. apply list.NoDup_cons in HN as [Hx HN]. unfold pick in *. simpl.
  destruct (Z.eqb_spec (c x) k) as [E | E].
  - right. exists x. split; [left |]. split; [done |]. f_equal.
    destruct (IH HN) as [-> | (n & Hn & En & _)]; [done |]. destruct Hx. rewrite E, <-En. by apply list_elem_of_fmap_2.
  - destruct (IH HN) as [-> | (n & Hn & En & ->)]; [by left |]. right. exists n. split; [by right | done].
Qed.

Lemma alive_in H k n : n ∈ alive H k <-> exists r, r ∈ rows /\ row_in H r = true /\ n ∈ r /\ c n = k.
Proof.
  unfold alive. rewrite concat_in. split.
  - intros (l & Hl & Hn). apply list_elem_of_fmap in Hl as (r & -> & Hr). apply list_elem_of_In, filter_In in Hr as [Hr Hin].
    apply pick_in in Hn as [Hn En]. exists r. split_and!; try done. by apply list_elem_of_In.
  - intros (r & Hr & Hin & Hn & En). exists (pick k r). split; [|by apply pick_in].
    apply list_elem_of_fmap_2. by apply list_elem_of_In, filter_In; split; [apply list_elem_of_In|].
Qed.

(** The rows of column [k], as [cover] walks them. *)
Definition crows (H : list Z) (k : Z) : list (Z * list Z) :=
  concat (map (fun r => map (fun n => (n, others n r)) (pick k r)) (List.filter (row_in H) rows)).

Lemma crows_fst H k : map fst (crows H k) = alive H k.
Proof.
  unfold crows, alive. induction (List.filter (row_in H) rows) as [|r l IH]; simpl; [done |].
  rewrite map_app, IH, map_map. f_equal. apply map_id.
Qed.

Lemma crows_in H k x : x ∈ crows H k <->
  exists r n, r ∈ rows /\ row_in H r = true /\ n ∈ r /\ c n = k /\ x = (n, others n r).
Proof.
  unfold crows. rewrite concat_in. split.
  - intros (l & Hl & Hx). apply list_elem_of_fmap in Hl as (r & -> & Hr). apply list_elem_of_In, filter_In in Hr as [Hr Hin].
    apply list_elem_of_fmap in Hx as (n & -> & Hn). apply pick_in in Hn as [Hn En].
    exists r, n. split_and!; try done. by apply list_elem_of_In.
  - intros (r & n & Hr & Hin & Hn & En & ->). eexists. split.
    + apply list_elem_of_fmap_2. apply list_elem_of_In, filter_In. split; [by apply list_elem_of_In | done].
    + apply (list_elem_of_fmap_2 (fun n => (n, others n r))). by apply pick_in.
Qed.

Lemma crows_perm H k : exists f, map fst (crows H k) ++ row_nodes (crows H k) ≡ₚ concat (List.filter f rows).
Proof using mx.
  exists (fun r => row_in H r && bool_decide (k ∈ map c r)). unfold crows, row_nodes.
  assert (HC : forall r, r ∈ rows -> NoDup (map c r)) by (intros r Hr; by apply (mx_cols mx)). revert HC.
  induction rows as [|r l IH]; simpl; intros HC; [done |].
  specialize (IH (fun r' Hr' => HC r' (list_elem_of_further _ _ _ Hr'))). destruct (row_in H r) eqn:Er; simpl; [|done].
  rewrite !map_app, !concat_app. destruct (pick_cases k r (HC r (list_elem_of_here _ _))) as [Ep | (n & Hn & En & Ep)]; rewrite Ep; simpl.
  - rewrite bool_decide_eq_false_2; [done |]. intros Hk. apply list_elem_of_fmap in Hk as (n & -> & Hn).
    assert (n ∈ pick (c n) r) by (by apply pick_in). rewrite Ep in H0. by apply elem_of_nil in H0.
  - rewrite bool_decide_eq_true_2 by (rewrite <-En; by apply list_elem_of_fmap_2). simpl. rewrite app_nil_r.
    rewrite <-IH. rewrite <-(others_perm n r Hn) at 2. simpl. apply perm_skip.
    rewrite !app_assoc. apply Permutation_app_tail. apply Permutation_app_comm.
Qed.

Lemma crows_node H k j : j ∈ row_nodes (crows H k) <->
  exists r n, r ∈ rows /\ row_in H r = true /\ n ∈ r /\ c n = k /\ j ∈ others n r.
Proof.
  unfold row_nodes. rewrite concat_in. split.
  - intros (l & Hl & Hj). apply list_elem_of_fmap in Hl as (x & -> & Hx).
    apply crows_in in Hx as (r & n & Hr & Hin & Hn & En & ->). exists r, n. by split_and!.
  - intros (r & n & Hr & Hin & Hn & En & Hj). exists (others n r). split; [|done].
    apply (list_elem_of_fmap_2' snd) with (n, others n r); [|done]. apply crows_in. exists r, n. by split_and!.
Qed.

(** A node of a row of column [k] in another column. *)
Lemma crows_other H k r j : r ∈ rows -> row_in H r = true -> j ∈ r -> c j <> k ->
  j ∈ row_nodes (crows H k) <-> k ∈ map c r.
Proof using mx.
  intros Hr Hin Hj Hk. pose proof nodes_nodup as HN. rewrite crows_node. split.
  - intros (r' & n & Hr' & _ & Hn & En & Ho).
    apply others_in in Ho as [Ho _]; [|done|by apply (NoDup_part rows)].
    rewrite (concat_unique rows r r' j) by done. rewrite <-En. by apply list_elem_of_fmap_2.
  - intros Hkr. apply list_elem_of_fmap in Hkr as (n & -> & Hn). exists r, n. split_and!; try done.
    apply others_in; [done | by apply (NoDup_part rows) | split; [done | congruence]].
Qed.

(** What is left in another column. *)
Lemma alive_covered H H' k k' : H ≡ₚ k :: H' -> NoDup H -> k' <> k ->
  List.filter (fun n => negb (bool_decide (n ∈ row_nodes (crows H k)))) (alive H k') = alive H' k'.
Proof using mx.
  intros P HN Hk. unfold alive.
  assert (Hin : forall r, row_in H' r = row_in H r && negb (bool_decide (k ∈ map c r))).
  { intros r. apply eq_true_iff_eq. rewrite andb_true_iff, negb_true_iff, bool_decide_eq_false, !row_in_true.
    rewrite P in HN. apply list.NoDup_cons in HN as [Hk' HN]. split.
    - intros Hr. split; [intros n Hn; rewrite P; right; by apply Hr |].
      intros Hkr. apply list_elem_of_fmap in Hkr as (n & -> & Hn). by apply Hk', Hr.
    - intros [Hr Hkr] n Hn. pose proof (Hr n Hn) as Hc. rewrite P in Hc. apply elem_of_cons in Hc as [Hc | Hc]; [|done].
      destruct Hkr. rewrite <-Hc. by apply list_elem_of_fmap_2. }
  assert (HR : forall r, r ∈ rows -> r ∈ rows) by done. revert HR. generalize rows at 1 3 4. intros l HR.
  induction l as [|r l IH]; [done |].
  specialize (IH (fun r' Hr' => HR r' (list_elem_of_further _ _ _ Hr'))). cbn [List.filter].
  rewrite Hin. destruct (row_in H r) eqn:Er; cbn [andb]; [|exact IH]. cbn [map concat]. rewrite List.filter_app, IH.
  assert (Hr : r ∈ rows) by (apply HR; left).
  assert (Hp : forall n, n ∈ pick k' r -> bool_decide (n ∈ row_nodes (crows H k)) = bool_decide (k ∈ map c r)).
  { intros n Hn. apply pick_in in Hn as [Hn En]. apply bool_decide_ext. apply crows_other; [done.. | congruence]. }
  destruct (bool_decide (k ∈ map c r)) eqn:Ek; cbn [negb].
  - assert (List.filter (fun n => negb (bool_decide (n ∈ row_nodes (crows H k)))) (pick k' r) = []) as ->; [|done].
    revert Hp. generalize (pick k' r). intros l0. induction l0 as [|n l0 IH0]; intros Hp; [done |]. cbn [List.filter].
    rewrite Hp by left. cbn [negb]. apply IH0. intros n' Hn'. apply Hp. by right.
  - cbn [map concat]. f_equal. revert Hp. generalize (pick k' r). intros l0. induction l0 as [|n l0 IH0]; intros Hp; [done |].
    cbn [List.filter]. rewrite Hp by left. cbn [negb]. f_equal. apply IH0. intros n' Hn'. apply Hp. by right.
Qed.

(** A represented column is one that [cover] can handle. *)
Lemma rep_column H s k : rep H s -> k ∈ H -> column_ok k (crows H k) s.
Proof using mx.
  intros R Hk. pose proof (rp_cols _ _ R k Hk) as [Hd Hu HN Hz]. pose proof nodes_nodup as HNr.
  destruct (crows_perm H k) as [f P].
  assert (Hsub : forall n, n ∈ map fst (crows H k) ++ row_nodes (crows H k) -> exists r, r ∈ rows /\ n ∈ r).
  { intros n Hn. rewrite P in Hn. apply concat_in in Hn as (r & Hr & Hn). exists r. split; [|done].
    apply list_elem_of_In, filter_In in Hr as [Hr _]. by apply list_elem_of_In. }
  split.
  - by rewrite crows_fst.
  - by rewrite crows_fst.
  - apply list.Forall_forall. intros x Hx. apply crows_in in Hx as (r & n & Hr & _ & Hn & _ & ->). simpl.
    destruct (rp_rows _ _ R r Hr) as [H1 H2]. split; [by apply cyc_at | by apply cyc_back_at].
  - apply list.NoDup_cons. split.
    + intros Hk'. destruct (Hsub k Hk') as (r & Hr & Hn). apply (header_not_node k r k); try done.
      right. by apply (rp_sub _ _ R).
    + rewrite P. by eapply sublist_NoDup, concat_filter_sub.
  - apply list.Forall_forall. intros n Hn. destruct (Hsub n Hn) as (r & Hr & Hn').
    destruct mx as [_ HB _]. rewrite list.Forall_forall in HB. apply HB, elem_of_app. right. apply concat_in. eauto.
  - apply list.Forall_forall. intros j Hj. apply crows_node in Hj as (r & n & Hr & Hin & Hn & _ & Ho).
    apply others_in in Ho as [Ho _]; [|done|by apply (NoDup_part rows)].
    assert (Hcj : c j ∈ H) by (by apply (proj1 (row_in_true H r) Hin)).
    apply (column_list_linked s (c j) (alive H (c j))).
    + by apply (rp_cols _ _ R).
    + apply alive_in. by exists r.
    + apply (rp_col _ _ R), concat_in. eauto.
  - apply list_elem_of_split in Hk as (A & B & EH). pose proof (rp_right _ _ R) as H1. pose proof (rp_left _ _ R) as H2.
    rewrite EH in H1, H2. destruct (neighbours _ _ _ _ _ _ H1 H2) as (E1 & E2 & E3 & E4).
    exists (List.last A 0), (hd 0 B). by split_and!.
Qed.

(** [cover] on the represented matrix. *)
Lemma cover_rep H s k : rep H s -> k ∈ H -> exists H' s1,
  H ≡ₚ k :: H' /\ rep H' s1 /\ cover k s = Ret s1 /\ uncover k s1 = Ret s /\
  chain (down s1) k (alive H k) k /\ static s s1.
Proof using mx.
  intros R Hk. destruct (cover_uncover k _ s (rep_column H s k R Hk)) as (s1 & E1 & E2 & (l & r & El & Er & Es1l & Es1r) & St & Hdn & Hcols).
  rewrite crows_fst in Hdn. apply list_elem_of_split in Hk as (A & B & EH). exists (A ++ B), s1.
  pose proof R as [Rsub Rnd Rr Rl Rc Rrows Rcol Rname]. rewrite EH in Rr, Rl.
  destruct (neighbours _ _ _ _ _ _ Rr Rl) as (F1 & F2 & F3 & F4). rewrite El in F2. rewrite Er in F1. injection F1 as ->. injection F2 as ->.
  assert (P : H ≡ₚ k :: A ++ B) by (by rewrite EH, Permutation_middle).
  assert (HN0 : NoDup (0 :: A ++ k :: B)).
  { rewrite <-EH. apply list.NoDup_cons. split; [|done]. intros H0%Rsub. destruct mx as [HN _ _].
    apply list.NoDup_cons in HN as [HN _]. apply HN, elem_of_app. by left. }
  assert (HNh : NoDup (k :: A ++ B)) by (by rewrite <-P).
  assert (Hout : forall x r, x ∈ 0 :: H -> r ∈ rows -> x ∉ r).
  { intros x r' Hx Hr Hxr. apply (header_not_node x r' x); try done.
    apply elem_of_cons in Hx as [-> | Hx]; [left | right; by apply Rsub]. }
  assert (Hl : List.last A 0 ∈ 0 :: H).
  { pose proof (last_elem A 0) as Hla. rewrite EH. apply elem_of_cons in Hla as [-> | Hla]; [left |]. right. apply elem_of_app. by left. }
  assert (Hh : hd 0 B ∈ 0 :: H).
  { rewrite EH. destruct B as [|b B]; simpl; [left |]. right. apply elem_of_app. right. right. left. }
  destruct St as (Sc & Sn & Sk).
  split_and!; try done. split.
  - intros k' Hk'. apply Rsub. rewrite P. by right.
  - by apply list.NoDup_cons in HNh as [_ ?].
  - rewrite Es1r. eapply chain_splice; [exact Rr | done].
  - rewrite Es1l, rev_app_distr. rewrite <-hd_rev_last. rewrite rev_app_distr in Rl. simpl in Rl. rewrite <-app_assoc in Rl. simpl in Rl.
    rewrite <-last_rev_hd. eapply chain_splice; [exact Rl |].
    assert (P' : rev B ++ k :: rev A ≡ₚ A ++ k :: B).
    { rewrite <-!Permutation_middle, <-!Permutation_rev. apply perm_skip, Permutation_app_comm. }
    by rewrite P'.
  - intros k' Hk'. assert (k' <> k) by (intros ->; by apply list.NoDup_cons in HNh as [? _]).
    rewrite <-(alive_covered H (A ++ B) k k') by done. apply Hcols.
    + apply Rc. rewrite P. by right.
    + intros Hn. apply crows_node in Hn as (r & n & Hr & _ & Hn & _ & Ho).
      apply others_in in Ho as [Ho _]; [|done|apply (NoDup_part rows); [apply nodes_nodup | done]].
      apply (Hout k' r); try done. right. rewrite P. by right.
    + intros j Hj. apply crows_node in Hj as (r & n & Hr & Hin & Hn & _ & Ho).
      apply others_in in Ho as [Ho _]; [|done|apply (NoDup_part rows); [apply nodes_nodup | done]].
      assert (Hjr : j ∈ concat rows) by (apply concat_in; eauto). rewrite (Rcol j Hjr), alive_in. split.
      * intros [= Ej]. by exists r.
      * intros (_ & _ & _ & _ & ->). done.
  - intros r Hr. destruct (Rrows r Hr) as [C1 C2]. rewrite Es1r, Es1l. destruct r as [|x r]; [done |]. split; simpl.
    + apply chain_insert_out; [by apply (Hout _ (x :: r)) | done].
    + apply chain_insert_out; [| done]. rewrite elem_of_cons, list_elem_of_In, <-in_rev, <-list_elem_of_In, <-elem_of_cons.
      by apply (Hout _ (x :: r)).
  - by rewrite Sc.
  - by rewrite Sn.
Qed.

(** *** Covering the columns of a row *)

Lemma rep_stack H s l : rep H s -> rep H (set_stack l s).
Proof. intros []. split; try done. intros k Hk. by destruct (rp_cols0 k Hk). Qed.

Lemma chain_next m a A j B : chain m a (A ++ j :: B) a -> link m j = Ret (hd a B).
Proof. intros [_ C]%chain_app. by apply link_some, chain_hd. Qed.

Lemma row_fuel r : r ∈ rows -> (length r < loop_fuel)%nat.
Proof using mx.
  intros Hr. apply nodes_fuel; [apply (NoDup_part rows); [apply nodes_nodup | done] |]. destruct mx as [_ HB _].
  rewrite list.Forall_forall in *. intros n Hn. apply HB, elem_of_app. right. apply concat_in. eauto.
Qed.

Lemma row_neq n r j : r ∈ rows -> n ∈ r -> j ∈ others n r -> (j =? n) = false.
Proof using mx.
  intros Hr Hn Hj. apply others_in in Hj as [_ Hj]; [by apply Z.eqb_neq | done |].
  apply (NoDup_part rows); [apply nodes_nodup | done].
Qed.

Lemma others_node n r j : r ∈ rows -> n ∈ r -> j ∈ others n r -> j ∈ concat rows.
Proof.
  intros Hr Hn Hj. apply concat_in. exists r. split; [done |]. rewrite <-(others_perm n r Hn). by right.
Qed.

(** One step to the left of [uncover_others]. *)
Lemma uncover_other n r D j L H s s1 st f : r ∈ rows -> n ∈ r -> others n r = D ++ j :: L -> rep H s ->
  col s1 = col s -> uncover (c j) s1 = Ret s ->
  uncover_others (S f) n j (set_stack st s1) = uncover_others f n (hd n (rev D)) (set_stack st s).
Proof using mx.
  intros Hr Hn Ho R Sc Eu. assert (Hj : j ∈ others n r) by (rewrite Ho; apply elem_of_app; right; left).
  cbn [uncover_others]. rewrite (row_neq n r j) by done. cbn [set_stack col].
  rewrite (link_some _ _ (c j)) by (rewrite Sc; by eapply (rp_col _ _ R), others_node). rewrite bind_Ret.
  rewrite uncover_stack, Eu. unfold on_stack. rewrite !bind_Ret. cbn [set_stack left].
  destruct (rp_rows _ _ R r Hr) as [_ C2]. apply (cyc_back_at _ _ _ C2) in Hn. rewrite Ho, rev_app_distr in Hn. cbn [rev] in Hn.
  rewrite <-app_assoc in Hn. by rewrite (chain_next _ _ _ _ _ Hn).
Qed.

(** The two loops over a row: the first covers the columns, the second undoes it, whatever
    the stack holds then. *)
Lemma cover_others_rep n r L : forall D H s, r ∈ rows -> n ∈ r -> others n r = D ++ L -> rep H s ->
  NoDup (map c L) -> (forall j, j ∈ L -> c j ∈ H) -> exists H' s',
  H ≡ₚ map c L ++ H' /\ rep H' s' /\ static s s' /\
  (forall f, (length L < f)%nat -> cover_others f n (hd n L) s = Ret s') /\
  (forall f st, uncover_others (length L + f) n (hd n (rev (D ++ L))) (set_stack st s') =
                uncover_others f n (hd n (rev D)) (set_stack st s)).
Proof using mx.
  induction L as [|j L IH]; intros D H s Hr Hn Ho R HN HL.
  - exists H, s. split_and!; [done.. | |]; [|by rewrite app_nil_r].
    intros [|f] Hf; [simpl in Hf; lia |]. simpl. by rewrite Z.eqb_refl.
  - assert (Hj : j ∈ others n r) by (rewrite Ho; apply elem_of_app; right; left).
    destruct (cover_rep H s (c j) R (HL j (list_elem_of_here _ _))) as (H1 & s1 & P & R1 & Ec & Eu & _ & St).
    simpl in HN. apply list.NoDup_cons in HN as [Hcj HN].
    destruct (IH (D ++ [j]) H1 s1) as (H' & s' & P' & R' & St' & Ec' & Eu'); try done.
    { by rewrite <-app_assoc. }
    { intros j' Hj'. assert (Hc : c j' ∈ H) by (apply HL; by right). rewrite P in Hc. apply elem_of_cons in Hc as [Hc | Hc]; [|done].
      destruct Hcj. rewrite <-Hc. by apply list_elem_of_fmap_2. }
    exists H', s'. split_and!.
    + by rewrite P, P'.
    + done.
    + by eapply static_trans.
    + intros [|f] Hf; [lia |]. cbn [cover_others hd]. rewrite (row_neq n r j) by done.
      rewrite (link_some _ _ (c j)) by (by eapply (rp_col _ _ R), others_node). rewrite bind_Ret, Ec, bind_Ret.
      destruct (rp_rows _ _ R1 r Hr) as [C1 _]. pose proof (cyc_at _ _ _ C1 Hn) as C. rewrite Ho in C.
      rewrite (chain_next _ _ _ _ _ C), bind_Ret. apply Ec'. simpl in Hf. lia.
    + intros f st. rewrite <-app_assoc in Eu'. specialize (Eu' (S f) st). rewrite Nat.add_succ_r in Eu'.
      cbn [length Nat.add app] in Eu' |- *. rewrite Eu', rev_app_distr. cbn [rev hd app].
      apply (uncover_other n r D j L H s s1); try done. apply St.
Qed.

(** *** The choice of a column *)

Lemma header_bound k : k ∈ hs -> 0 < k < kMaxNodes.
Proof using mx.
  intros Hk. destruct mx as [HN HB _]. rewrite list.Forall_forall in HB.
  assert (Hb : 0 <= k < kMaxNodes) by (apply HB, elem_of_app; by left).
  assert (k <> 0); [|lia]. intros ->. apply list.NoDup_cons in HN as [HN _]. apply HN, elem_of_app. by left.
Qed.

Lemma rep_fuel H s : rep H s -> (length H < loop_fuel)%nat.
Proof using mx.
  intros R. apply nodes_fuel; [apply (rp_nodup _ _ R) |]. apply list.Forall_forall. intros k Hk.
  pose proof (header_bound k (rp_sub _ _ R k Hk)). lia.
Qed.

Lemma min_column_rep H s : rep H s -> forall L D, H = D ++ L -> forall f k z, k ∈ H -> (length L < f)%nat ->
  exists k', k' ∈ H /\ min_column f k z (hd 0 L) s = Ret k'.
Proof using mx.
  intros R. induction L as [|k' L IH]; intros D EH [|f] k z Hk Hf; simpl in Hf; try lia; [by exists k |].
  assert (Hk' : k' ∈ H) by (rewrite EH; apply elem_of_app; right; left).
  cbn [min_column hd]. pose proof (header_bound k' (rp_sub _ _ R k' Hk')) as Hb. unfold root_.
  destruct (Z.eqb_spec k' 0); [lia |]. rewrite (link_some _ _ _ (cl_size _ _ _ (rp_cols _ _ R k' Hk'))), bind_Ret.
  pose proof (rp_right _ _ R) as C. rewrite EH in C. rewrite (chain_next _ _ _ _ _ C), bind_Ret.
  assert (EH' : H = (D ++ [k']) ++ L) by (by rewrite <-app_assoc).
  case_match; [case_match; [by exists k' |] |]; apply (IH _ EH'); auto with lia.
Qed.

Lemma get_min_column_rep H s : rep H s -> H <> [] -> exists k, k ∈ H /\ get_min_column s = Ret k.
Proof using mx.
  intros R Hne. destruct H as [|k L] eqn:EH; [done |]. assert (Hk : k ∈ k :: L) by left. unfold get_min_column, root_.
  pose proof (rp_right _ _ R) as C. rewrite (link_some _ _ _ (chain_hd _ _ _ _ C)). cbn [hd]. rewrite bind_Ret.
  rewrite (link_some _ _ _ (cl_size _ _ _ (rp_cols _ _ R k Hk))), bind_Ret. case_match; [|by exists k].
  rewrite (chain_next _ _ [] _ _ C), bind_Ret. pose proof (rep_fuel _ _ R) as Hf. simpl in Hf.
  apply (min_column_rep _ _ R L [k]); [done | done | lia].
Qed.

Lemma root_empty H s : rep H s -> exists l, link (left s) root_ = Ret l /\ (l =? root_) = bool_decide (H = []).
Proof using mx.
  intros R. eexists. split; [apply link_some, (chain_hd _ _ _ _ (rp_left _ _ R)) |]. unfold root_.
  destruct H as [|k L] using rev_ind; [done |]. rewrite rev_app_distr. cbn [rev app hd].
  assert (k ∈ L ++ [k]) as Hk by (apply elem_of_app; right; left).
  pose proof (header_bound k (rp_sub _ _ R k Hk)). rewrite bool_decide_eq_false_2 by (by destruct L). apply Z.eqb_neq. lia.
Qed.

(** *** Exact covers *)

(** The rows of [S] cover every column of [H] once, and no other column. *)
Definition exact (H : list Z) (S : list (list Z)) : Prop :=
  (forall r, r ∈ S -> r ∈ rows) /\ concat (map (map c) S) ≡ₚ H.

Lemma exact_nil : exact [] [].
Proof. split; [|done]. intros r Hr. by apply elem_of_nil in Hr. Qed.

Lemma exact_add H H' r S : r ∈ rows -> H ≡ₚ map c r ++ H' -> exact H' S -> exact H (r :: S).
Proof. intros Hr P [Hs E]. split; [by intros r' [-> | Hr']%elem_of_cons; [|apply Hs] |]. simpl. by rewrite E. Qed.

Lemma exact_rest H H' r S : exact H S -> r ∈ S -> H ≡ₚ map c r ++ H' -> exists S', exact H' S'.
Proof.
  intros [Hs E] Hr P. apply list_elem_of_split in Hr as (A & B & ->). exists (A ++ B). split.
  - intros r' Hr'. apply Hs. rewrite elem_of_app in *. rewrite elem_of_cons. tauto.
  - rewrite map_app, concat_app in E |- *. simpl in E. rewrite P in E.
    apply (Permutation_app_inv_l (map c r)). rewrite <-E. rewrite !app_assoc. apply Permutation_app_tail, Permutation_app_comm.
Qed.

Lemma exact_hit H S k : exact H S -> k ∈ H -> exists n r, n ∈ alive H k /\ r ∈ S /\ n ∈ r.
Proof.
  intros [Hs E] Hk. rewrite <-E in Hk. apply concat_in in Hk as (l & Hl & Hk). apply list_elem_of_fmap in Hl as (r & -> & Hr).
  apply list_elem_of_fmap in Hk as (n & -> & Hn). exists n, r. split_and!; try done. apply alive_in. exists r. split_and!; try done.
  - by apply Hs.
  - apply row_in_true. intros n' Hn'. rewrite <-E. apply concat_in. exists (map c r). split; by apply list_elem_of_fmap_2.
Qed.

(** *** The search *)
Section search.
(** The cell and the value a row stands for, as [decode] reads them in any state. *)
Variable dec : list Z -> Z * Z.
Hypothesis decodes : forall H s r n, rep H s -> r ∈ rows -> n ∈ r -> decode loop_fuel n (-1) (-1) s = Ret (dec r).

Definition place (S : list (list Z)) (b : list Z) : list Z :=
  fold_left (fun b r => <[Z.to_nat (dec r).1 := (dec r).2]> b) S b.

Definition chosen : list Z -> list (list Z) -> Prop := Forall2 (fun n r => r ∈ rows /\ n ∈ r).

Lemma fill_board_rep H s ns S b : rep H s -> chosen ns S -> fill_board ns b s = Ret (place S b).
Proof using decodes.
  intros R Hc. induction Hc as [|n r ns S [Hr Hn] Hc IH] in b |- *; [done |].
  cbn [fill_board]. rewrite (decodes H s r n R Hr Hn), bind_Ret. destruct (dec r) as [i v] eqn:E. rewrite IH. unfold place. simpl. by rewrite E.
Qed.

(** What a call of [solve] or [try_rows] gives: the links restored when no set of rows covers
    [H], and otherwise the board filled with the rows of an exact cover. *)
Definition searched (H : list Z) (S0 : list (list Z)) (board : list Z) (s : t) (o : outcome (bool * list Z * t)) : Prop :=
  (o = Ret (false, board, s) /\ forall S, ~ exact H S) \/
  (exists S s', o = Ret (true, place (S0 ++ S) board, s') /\ exact H S).

Lemma alive_row H n k : NoDup H -> n ∈ alive H k -> exists r, r ∈ rows /\ n ∈ r /\
  (forall H', H ≡ₚ k :: H' -> (forall j, j ∈ others n r -> c j ∈ H') /\ NoDup (map c (others n r)) /\
    forall H'', H' ≡ₚ map c (others n r) ++ H'' -> H ≡ₚ map c r ++ H'').
Proof using mx.
  intros HN Hn. apply alive_in in Hn as (r & Hr & Hin & Hn & En). exists r. split_and!; try done. intros H' P.
  pose proof (others_perm n r Hn) as Po. destruct (mx_cols mx r Hr) as [HNr _]. rewrite <-Po in HNr. simpl in HNr.
  apply list.NoDup_cons in HNr as [Hnr HNr]. split_and!; [|done|].
  - intros j Hj. pose proof (proj1 (row_in_true H r) Hin j) as Hjc. rewrite <-Po, P in Hjc.
    specialize (Hjc (list_elem_of_further _ _ _ Hj)). apply elem_of_cons in Hjc as [Hjc | ?]; [|done].
    destruct Hnr. rewrite En, <-Hjc. by apply list_elem_of_fmap_2.
  - intros H'' P''. rewrite P, P''. rewrite <-Po at 2. simpl. by rewrite En.
Qed.

Definition solves (depth : nat) : Prop := forall H s ns0 S0 board, rep H s -> (length H < depth)%nat ->
  stack_ s = rev ns0 -> chosen ns0 S0 -> searched H S0 board s (solve depth s board).

Section rows_of_column.
Context (depth : nat) (IHd : solves depth) (H H' : list Z) (k : Z) (s s1 : t) (ns0 : list Z) (S0 : list (list Z)) (board : list Z).
Context (R : rep H s) (P : H ≡ₚ k :: H') (R1 : rep H' s1) (Eu : uncover k s1 = Ret s) (Hdn : chain (down s1) k (alive H k) k).
Context (Hlen : (length H' < depth)%nat) (Hst : stack_ s1 = rev ns0) (Hch : chosen ns0 S0).

(** Trying one row: an exact cover with it, or the state before it. *)
Lemma try_row n r f row' : n ∈ alive H k -> r ∈ rows -> n ∈ r -> link (down s1) n = Ret row' ->
  (exists S s', try_rows (solve depth) (Datatypes.S f) k n board s1 = Ret (true, place (S0 ++ S) board, s') /\ exact H S) \/
  (try_rows (solve depth) (Datatypes.S f) k n board s1 = try_rows (solve depth) f k row' board s1 /\ forall S, exact H S -> r ∉ S).
Proof using mx decodes IHd R P R1 Hlen Hst Hch.
  intros Ha Hr Hn Hrow. pose proof (rp_nodup _ _ R) as HNH. destruct (alive_row H n k HNH Ha) as (r' & Hr' & Hn' & Hcols).
  rewrite <-(concat_unique rows r r' n) in Hcols by (try done; apply nodes_nodup).
  destruct (Hcols H' P) as (Hin & HNo & Hperm). pose proof (rep_stack _ _ (n :: stack_ s1) R1) as R1'.
  destruct (cover_others_rep n r (others n r) [] H' _ Hr Hn eq_refl R1' HNo Hin) as (H'' & s2 & P'' & R2 & St & Ec & Eun).
  pose proof (row_fuel r Hr) as Hf. pose proof (others_perm n r Hn) as Po. apply Permutation_length in Po. simpl in Po.
  assert (Hk : n <> k). { intros ->. apply (header_not_node k r k); try done. right. apply (rp_sub _ _ R). rewrite P. left. }
  cbn [try_rows]. destruct (Z.eqb_spec n k); [done |]. cbn [set_stack right].
  destruct (rp_rows _ _ R1 r Hr) as [C1 C2]. pose proof (cyc_at _ _ _ C1 Hn) as C1'. pose proof (cyc_back_at _ _ _ C2 Hn) as C2'.
  rewrite (link_some _ _ _ (chain_hd _ _ _ _ C1')), bind_Ret, Ec, bind_Ret by lia.
  assert (Hs2 : stack_ s2 = rev (ns0 ++ [n])) by (destruct St as (_ & _ & ->); simpl; by rewrite rev_app_distr, Hst).
  assert (Hch2 : chosen (ns0 ++ [n]) (S0 ++ [r])) by (apply Forall2_app; [done | by constructor]).
  assert (Hl2 : (length H'' < depth)%nat) by (apply Permutation_length in P''; rewrite length_app in P''; lia).
  destruct (IHd H'' s2 (ns0 ++ [n]) (S0 ++ [r]) board R2 Hl2 Hs2 Hch2) as [[-> Hno] | (S & s' & -> & HS)]; rewrite bind_Ret.
  - right. split; [| intros S HS Hrs; destruct (exact_rest H H'' r S HS Hrs (Hperm H'' P'')) as [S' HS']; by apply (Hno S')].
    cbn [set_stack left]. rewrite Hs2, rev_app_distr. cbn [rev app drop].
    destruct (rp_rows _ _ R2 r Hr) as [_ C3]. pose proof (cyc_back_at _ _ _ C3 Hn) as C3'.
    rewrite (link_some _ _ _ (chain_hd _ _ _ _ C3')), bind_Ret. change (others n r) with ([] ++ others n r).
    replace loop_fuel with (length (others n r) + Datatypes.S (loop_fuel - length (others n r) - 1))%nat by lia. rewrite Eun.
    cbn [rev hd uncover_others]. rewrite Z.eqb_refl, bind_Ret. rewrite drop_0, <-Hst, set_stack_back. by rewrite Hrow.
  - left. exists (r :: S), s'. split; [by rewrite <-app_assoc | by apply (exact_add H H'' r S Hr (Hperm H'' P''))].
Qed.

Lemma try_rows_rep L : forall D f, alive H k = D ++ L -> (forall n r S, n ∈ D -> n ∈ r -> exact H S -> r ∉ S) -> (length L < f)%nat ->
  searched H S0 board s (try_rows (solve depth) f k (hd k L) board s1).
Proof using All.
  induction L as [|n L IH]; intros D [|f] EA HD Hf; simpl in Hf; try lia.
  - left. cbn [try_rows hd]. rewrite Z.eqb_refl, Eu. split; [done |]. intros S HS.
    destruct (exact_hit H S k HS) as (n & r & Hn & Hr & Hnr); [rewrite P; left |]. rewrite EA, app_nil_r in Hn. by apply (HD n r S).
  - assert (Ha : n ∈ alive H k) by (rewrite EA; apply elem_of_app; right; left).
    pose proof Ha as (r & Hr & _ & Hn & _)%alive_in. pose proof Hdn as Hrow. rewrite EA in Hrow. apply chain_next in Hrow.
    cbn [hd]. destruct (try_row n r f _ Ha Hr Hn Hrow) as [? | [-> Hno]]; [by right |].
    apply (IH (D ++ [n])); [by rewrite <-app_assoc | | lia]. intros n' r' S Hn' Hnr HS Hrs.
    apply elem_of_app in Hn' as [Hn' | Hn'%list_elem_of_singleton]; [by apply (HD n' r' S) |]. subst n'.
    apply (Hno S HS). rewrite (concat_unique rows r r' n); try done; [apply nodes_nodup |]. by apply HS.
Qed.
End rows_of_column.

Lemma alive_fuel H k : NoDup (alive H k) -> (length (alive H k) < loop_fuel)%nat.
Proof using mx.
  intros HN. apply nodes_fuel; [done |]. destruct mx as [_ HB _]. rewrite list.Forall_forall in *. intros n Hn.
  apply HB, elem_of_app. right. apply concat_in. apply alive_in in Hn as (r & Hr & _ & Hn & _). eauto.
Qed.

(** [solve] decides whether the uncovered columns have an exact cover. *)
Theorem solve_rep depth : solves depth.
Proof using mx decodes.
  induction depth as [|depth IH]; intros H s ns0 S0 board R Hlen Hst Hch; [lia |].
  cbn [solve]. destruct (root_empty H s R) as (l & -> & El). rewrite bind_Ret, El. case_bool_decide as EH.
  - right. exists [], s. rewrite app_nil_r, Hst, rev_involutive, (fill_board_rep H s ns0 S0) by done. rewrite EH.
    split; [done | apply exact_nil].
  - destruct (get_min_column_rep H s R EH) as (k & Hk & ->). rewrite bind_Ret.
    destruct (cover_rep H s k R Hk) as (H' & s1 & P & R1 & -> & Eu & Hdn & St). rewrite bind_Ret.
    rewrite (link_some _ _ _ (chain_hd _ _ _ _ Hdn)), bind_Ret. pose proof (Permutation_length P) as Pl. simpl in Pl.
    apply (try_rows_rep depth IH H H' k s s1 ns0 S0 board) with (D := []); try done; try lia.
    + destruct St as (_ & _ & ->). done.
    + intros n r S Hn. by apply elem_of_nil in Hn.
    + apply alive_fuel. by destruct (rp_cols _ _ R k Hk) as [_ _ [_ ?]%list.NoDup_cons _].
Qed.
End search.

End matrix.

End ExactCover.
