(* ===== verification/SudokuMatrix.v ===== *)
(** * The matrix the constructor of the solver builds

    [append_column], [new_row], [put_left] and [put_up] of excercises/sudoku/sudoku.cc append
    to circular lists.  The constructor returns for every board, and its state represents the
    matrix with a column per constraint that is open and a row of four nodes per candidate. *)

From S2P Require Import Prelude Sudoku DancingLinks ExactCover.

Module SudokuMatrix.
Import SudokuSolver DancingLinks ExactCover.

(** ** Circular lists *)

(** Following [f] from [a] visits [A] in order and comes back; [b] runs the other way. *)
Definition ring (f b : gmap Z Z) (a : Z) (A : list Z) : Prop := chain f a A a /\ chain b a (rev A) a.

Lemma ring_single f b a : ring (<[a := a]> f) (<[a := a]> b) a [].
Proof. split; apply lookup_insert_eq. Qed.

Lemma ring_out f b a A x y z : x ∉ a :: A -> ring f b a A -> ring (<[x := y]> f) (<[x := z]> b) a A.
Proof.
  intros Hx [H1 H2]. split; apply chain_insert_out; try done.
  by rewrite elem_of_cons, list_elem_of_In, <-in_rev, <-list_elem_of_In, <-elem_of_cons.
Qed.

Lemma ring_out_f f b a A x y : x ∉ a :: A -> ring f b a A -> ring (<[x := y]> f) b a A.
Proof. intros Hx [H1 H2]. split; [by apply chain_insert_out | done]. Qed.

Lemma ring_out_b f b a A x y : x ∉ a :: A -> ring f b a A -> ring f (<[x := y]> b) a A.
Proof.
  intros Hx [H1 H2]. split; [done |]. apply chain_insert_out; [|done].
  by rewrite elem_of_cons, list_elem_of_In, <-in_rev, <-list_elem_of_In, <-elem_of_cons.
Qed.

Lemma ring_back f b a A : ring f b a A -> link b a = Ret (List.last A a).
Proof. intros [_ H]. apply link_some. rewrite (chain_hd _ _ _ _ H). by rewrite hd_rev_last. Qed.

(** The list with [x] put before [a], that is at the end. *)
Lemma ring_append f b a A x : ring f b a A -> NoDup (a :: A) -> x ∉ a :: A ->
  ring (<[List.last A a := x]> (<[x := a]> f)) (<[a := x]> (<[x := List.last A a]> b)) a (A ++ [x]).
Proof.
  intros [H1 H2] HN Hx. split.
  - apply chain_app. split.
    + apply (chain_redirect _ _ _ a); [|done]. by apply chain_insert_out.
    + simpl. rewrite lookup_insert_ne by (intros E; apply Hx; rewrite <-E; apply last_elem). apply lookup_insert_eq.
  - rewrite rev_app_distr. cbn [rev app chain]. split; [apply lookup_insert_eq |].
    assert (Hax : a <> x) by (intros ->; apply Hx; left).
    apply list.NoDup_cons in HN as [Ha HN].
    assert (Hxr : x ∉ rev A) by (intros Hr; apply Hx; right; by rewrite list_elem_of_In, in_rev, <-list_elem_of_In).
    assert (Har : a ∉ rev A) by (by rewrite list_elem_of_In, <-in_rev, <-list_elem_of_In).
    apply chain_insert_out; [by intros [? | ?]%elem_of_cons |]. pose proof (chain_hd _ _ _ _ H2) as Eh. rewrite hd_rev_last in Eh.
    destruct (rev A) as [|y B] eqn:E; simpl in *.
    + rewrite <-hd_rev_last, E. apply lookup_insert_eq.
    + rewrite <-hd_rev_last, E. cbn [hd]. split; [apply lookup_insert_eq |]. apply chain_insert_out; tauto.
Qed.

Lemma put_left_spec a x A s : ring (right s) (left s) a A -> x <> a ->
  put_left a x s = Ret (mk (<[a := x]> (<[x := List.last A a]> (left s))) (<[List.last A a := x]> (<[x := a]> (right s)))
    (up s) (down s) (col s) (name s) (size s) (columns_ s) (stack_ s) (cur_node_ s)).
Proof.
  intros HR Hx. unfold put_left. rewrite (ring_back _ _ _ _ HR), bind_Ret. cbn [set_right set_left left].
  pose proof (ring_back _ _ _ _ HR) as E. unfold link in *. rewrite lookup_insert_ne by done. rewrite E. done.
Qed.

Lemma put_up_spec k r L s : column_list s k L -> r <> k ->
  put_up k r s = Ret (mk (left s) (right s) (<[k := r]> (<[r := List.last L k]> (up s))) (<[List.last L k := r]> (<[r := k]> (down s)))
    (<[r := k]> (col s)) (name s) (<[k := zlen L + 1]> (size s)) (columns_ s) (stack_ s) (cur_node_ s)).
Proof.
  intros [Hd Hu HN Hz] Hr. assert (HR : ring (down s) (up s) k L) by done.
  unfold put_up. rewrite (ring_back _ _ _ _ HR), bind_Ret. cbn [set_up set_down up].
  pose proof (ring_back _ _ _ _ HR) as E. unfold link in *. rewrite lookup_insert_ne by done. rewrite E, bind_Ret.
  cbn [set_up set_down size]. by rewrite Hz.
Qed.

(** ** The headers *)

Fixpoint index_of (x : Z) (l : list Z) : Z :=
  match l with [] => 0 | y :: l' => if y =? x then 0 else 1 + index_of x l' end.

Lemma index_of_app x l l' : index_of x (l ++ l') = if bool_decide (x ∈ l) then index_of x l else zlen l + index_of x l'.
Proof.
  induction l as [|y l IH]; [done |]. cbn [index_of app]. rewrite zlen_cons. destruct (Z.eqb_spec y x) as [-> | Hy].
  - by rewrite bool_decide_eq_true_2 by left.
  - rewrite IH. assert (x ∈ y :: l <-> x ∈ l) as E by (rewrite elem_of_cons; naive_solver).
    rewrite (bool_decide_ext _ _ E). case_bool_decide; lia.
Qed.

Lemma index_of_bound x l : x ∈ l -> 0 <= index_of x l < zlen l.
Proof.
  induction l as [|y l IH]; intros Hx; [by apply elem_of_nil in Hx |]. cbn [index_of]. rewrite zlen_cons.
  pose proof (zlen_nonneg l). destruct (Z.eqb_spec y x); [lia |]. apply elem_of_cons in Hx as [-> | Hx]; [done |]. specialize (IH Hx). lia.
Qed.

Lemma index_of_inj x y l : x ∈ l -> y ∈ l -> index_of x l = index_of y l -> x = y.
Proof.
  induction l as [|z l IH]; intros Hx Hy; [by apply elem_of_nil in Hx |]. cbn [index_of].
  apply elem_of_cons in Hx as [<- | Hx], Hy as [<- | Hy]; try done.
  - rewrite Z.eqb_refl. destruct (Z.eqb_spec x y); [done |]. pose proof (index_of_bound _ _ Hy). lia.
  - rewrite Z.eqb_refl. destruct (Z.eqb_spec y x); [done |]. pose proof (index_of_bound _ _ Hx). lia.
  - destruct (Z.eqb_spec z x), (Z.eqb_spec z y); subst; try done; pose proof (index_of_bound _ _ Hy); pose proof (index_of_bound _ _ Hx); try lia.
    intros E. apply IH; [done.. | lia].
Qed.

Record headers (done : list Z) (s : t) : Prop := {
  hd_cur : cur_node_ s = 1 + zlen done;
  hd_ring : ring (right s) (left s) 0 (seqZ 1 (zlen done));
  hd_cols : forall k, k ∈ seqZ 1 (zlen done) -> column_list s k [];
  hd_columns : forall x, columns_ s !! x = if bool_decide (x ∈ done) then Some (1 + index_of x done) else None;
  hd_stack : stack_ s = []
}.

Lemma headers_new : exists s, new_column 0 empty = Ret (0, s) /\ headers [] s.
Proof.
  unfold new_column. cbn [cur_node_ empty]. eexists. split; [reflexivity |]. split; [done | split; reflexivity | | done..].
  intros k Hk. by apply elem_of_nil in Hk.
Qed.

Lemma seqZ_end m : 0 <= m -> seqZ 1 (m + 1) = seqZ 1 m ++ [1 + m].
Proof. intros Hm. rewrite seqZ_app by lia. done. Qed.

Lemma seqZ_NoDup_0 m : NoDup (0 :: seqZ 1 m).
Proof. apply list.NoDup_cons. split; [rewrite elem_of_seqZ; lia | apply NoDup_seqZ]. Qed.

Lemma header_append done x s : headers done s -> x ∉ done -> 1 + zlen done < kMaxNodes ->
  exists s', append_column x s = Ret s' /\ headers (done ++ [x]) s'.
Proof.
  intros [Hc HR Hcl Hcol Hst] Hx Hb. pose proof (zlen_nonneg done) as Hz. unfold append_column, new_column.
  rewrite Hcol, (bool_decide_eq_false_2 (x ∈ done)) by done. rewrite check_bind by done. rewrite Hc, check_bind by lia. rewrite bind_Ret.
  set (n := 1 + zlen done) in *. assert (Hn : n ∉ 0 :: seqZ 1 (zlen done)) by (rewrite elem_of_cons, elem_of_seqZ; lia).
  unfold root_. rewrite (put_left_spec _ _ (seqZ 1 (zlen done))); [|by apply ring_out | lia]. rewrite bind_Ret.
  eexists. split; [reflexivity |].
  assert (El : zlen (done ++ [x]) = zlen done + 1) by (rewrite zlen_app; done).
  split; rewrite ?El, ?seqZ_end by done; cbn.
  - lia.
  - apply ring_append; [by apply ring_out | apply seqZ_NoDup_0 | done].
  - intros k Hk. apply elem_of_app in Hk as [Hk | Hk%list_elem_of_singleton].
    + destruct (Hcl k Hk) as [H1 H2 H3 H4]. assert (n <> k) by (apply elem_of_seqZ in Hk; lia).
      split; cbn in *; rewrite ?lookup_insert_ne by done; done.
    + subst k. split; cbn; try apply lookup_insert_eq. apply list.NoDup_cons. split; [by intros ?%elem_of_nil | constructor].
  - intros y. rewrite index_of_app. destruct (decide (y = x)) as [-> | Hy].
    + rewrite lookup_insert_eq, bool_decide_eq_true_2 by (apply elem_of_app; right; left).
      rewrite bool_decide_eq_false_2 by done. cbn. rewrite Z.eqb_refl. f_equal. lia.
    + rewrite lookup_insert_ne by done. rewrite Hcol. assert (y ∈ done ++ [x] <-> y ∈ done) as E.
      { rewrite elem_of_app, list_elem_of_singleton. naive_solver. }
      rewrite (bool_decide_ext _ _ E). by case_bool_decide.
  - done.
Qed.

Lemma headers_all names : forall done s, headers done s -> NoDup (done ++ names) -> zlen (done ++ names) < kMaxNodes ->
  exists s', fold_outcome append_column names s = Ret s' /\ headers (done ++ names) s'.
Proof.
  induction names as [|x names IH]; intros done s Hh HN Hb; cbn [fold_outcome]; [exists s; by rewrite app_nil_r |].
  assert (Hx : x ∉ done). { apply list.NoDup_app in HN as (_ & HN & _). intros Hx. apply (HN x Hx). left. }
  destruct (header_append done x s Hh Hx) as (s1 & -> & Hh1).
  { rewrite zlen_app, zlen_cons in Hb. pose proof (zlen_nonneg names). lia. }
  rewrite bind_Ret. destruct (IH (done ++ [x]) s1 Hh1) as (s' & -> & Hh'); rewrite <-?app_assoc in *; [done.. | by exists s'].
Qed.

(** ** The rows *)

(** The state after [new_row] put node [r] at the end of column [k]. *)
Definition with_node (r k column : Z) (L : list Z) (s : t) : t :=
  mk (<[r := r]> (left s)) (<[r := r]> (right s)) (<[k := r]> (<[r := List.last L k]> (<[r := r]> (up s))))
     (<[List.last L k := r]> (<[r := k]> (<[r := r]> (down s)))) (<[r := k]> (<[r := k]> (col s))) (<[r := column]> (name s))
     (<[k := zlen L + 1]> (<[r := 0]> (size s))) (columns_ s) (stack_ s) (r + 1).

Lemma column_list_ring s k L : column_list s k L <-> ring (down s) (up s) k L /\ NoDup (k :: L) /\ size s !! k = Some (zlen L).
Proof. split; [by intros [] | by intros ([? ?] & ? & ?)]. Qed.

Lemma new_row_spec s k column L : columns_ s !! column = Some k -> cur_node_ s < kMaxNodes -> column_list s k L ->
  cur_node_ s ∉ k :: L -> new_row column s = Ret (cur_node_ s, with_node (cur_node_ s) k column L s).
Proof.
  intros Hc Hb HL Hr. unfold new_row. rewrite Hc, check_bind by lia.
  assert (Hk : cur_node_ s <> k) by (intros E; apply Hr; rewrite E; left).
  rewrite (put_up_spec _ _ L); [done | | done]. rewrite column_list_ring in *. destruct HL as (HR & HN & Hz).
  split_and!; cbn; [by apply ring_out | done | by rewrite lookup_insert_ne].
Qed.

Lemma with_node_same s r k column L : column_list s k L -> r ∉ k :: L -> column_list (with_node r k column L s) k (L ++ [r]).
Proof.
  rewrite !column_list_ring. intros (HR & HN & Hz) Hr. split_and!; cbn.
  - apply ring_append; [by apply ring_out | done | done].
  - change (k :: L ++ [r]) with ((k :: L) ++ [r]). rewrite <-Permutation_cons_append. by constructor.
  - rewrite lookup_insert_eq, zlen_app. done.
Qed.

Lemma with_node_other s r k column L k' L' : column_list s k' L' -> r ∉ k' :: L' -> k ∉ k' :: L' -> List.last L k ∉ k' :: L' ->
  column_list (with_node r k column L s) k' L'.
Proof.
  rewrite !column_list_ring. intros (HR & HN & Hz) Hr Hk Hl. split_and!; cbn; [|done|].
  - by apply ring_out_f, ring_out_b, ring_out, ring_out.
  - rewrite !lookup_insert_ne; [done | intros -> | intros ->]; [apply Hr | apply Hk]; left.
Qed.

(** The four columns of a candidate. *)
Definition names_of (iv : Z * Z) : list Z :=
  let '(i, v) := iv in [i; get_row_col (row_of i) v; get_col_col (col_of i) v; get_box_col (box_of i) v].

Section matrix.
Variables (cols : list Z) (cands : list (Z * Z)).

Definition hs : list Z := seqZ 1 (zlen cols).
Definition base : Z := 1 + zlen cols.
Definition hdr (x : Z) : Z := 1 + index_of x cols.

(** The name and the column of a node, by its position. *)
Definition nm (n : Z) : Z := nth (Z.to_nat ((n - base) mod 4)) (names_of (nth (Z.to_nat ((n - base) / 4)) cands (0, 0))) 0.
Definition c (n : Z) : Z := hdr (nm n).
Definition row_at (k : Z) : list Z := map (fun q => base + 4 * k + q) [0; 1; 2; 3].

Hypothesis cols_nodup : NoDup cols.
Hypothesis cands_cols : forall iv, iv ∈ cands -> NoDup (names_of iv) /\ forall x, x ∈ names_of iv -> x ∈ cols.
Hypothesis arena : base + 4 * zlen cands <= kMaxNodes.

Lemma hdr_in x : x ∈ cols -> hdr x ∈ hs.
Proof. intros Hx%index_of_bound. unfold hdr, hs. rewrite elem_of_seqZ. lia. Qed.

Lemma hdr_inj x y : x ∈ cols -> y ∈ cols -> hdr x = hdr y -> x = y.
Proof. unfold hdr. intros Hx Hy E. apply (index_of_inj x y cols); [done.. | lia]. Qed.

(** Nodes below [N] are in their columns [L], the rows [rs] below [M] are linked. *)
Record built (N M : Z) (L : Z -> list Z) (rs : list (list Z)) (s : t) : Prop := {
  bu_cur : cur_node_ s = N;
  bu_ring : ring (right s) (left s) 0 hs;
  bu_cols : forall k, k ∈ hs -> column_list s k (L k);
  bu_nodes : forall k n, k ∈ hs -> n ∈ L k -> base <= n < N /\ c n = k;
  bu_rows : forall r, r ∈ rs -> (forall n, n ∈ r -> base <= n < M) /\ cyc (right s) r /\ cyc_back (left s) r;
  bu_col : forall n, base <= n < N -> col s !! n = Some (c n);
  bu_name : forall n, base <= n < N -> name s !! n = Some (nm n);
  bu_columns : forall x, x ∈ cols -> columns_ s !! x = Some (hdr x);
  bu_stack : stack_ s = []
}.

Definition push (N : Z) (L : Z -> list Z) (k : Z) : list Z := L k ++ (if c N =? k then [N] else []).

Lemma cyc_out m r x y : x ∉ r -> cyc m r -> cyc (<[x := y]> m) r.
Proof. destruct r as [|a r]; [done |]. apply chain_insert_out. Qed.

Lemma cyc_back_out m r x y : x ∉ r -> cyc_back m r -> cyc_back (<[x := y]> m) r.
Proof.
  destruct r as [|a r]; [done |]. intros Hx. apply chain_insert_out.
  by rewrite elem_of_cons, list_elem_of_In, <-in_rev, <-list_elem_of_In, <-elem_of_cons.
Qed.

Lemma header_small k n : k ∈ hs -> base <= n -> n <> k /\ 0 < k < base.
Proof. unfold hs, base. rewrite elem_of_seqZ. lia. Qed.

(** A node is appended to its column. *)
Lemma built_new_row N M L rs s : built N M L rs s -> base <= N < kMaxNodes -> M <= N -> nm N ∈ cols ->
  exists s', new_row (nm N) s = Ret (N, s') /\ built (N + 1) M (push N L) rs s' /\
    right s' = <[N := N]> (right s) /\ left s' = <[N := N]> (left s).
Proof.
  intros [Hcur HR HC Hn Hrs Hcol Hname Hcs Hst] HN HM Hin. pose proof (hdr_in _ Hin) as Hh. fold (c N) in Hh.
  assert (Hout : forall k, k ∈ hs -> N ∉ k :: L k).
  { intros k Hk [-> | Hkn]%elem_of_cons; [pose proof (header_small k k Hk); lia | pose proof (Hn k N Hk Hkn); lia]. }
  exists (with_node N (c N) (nm N) (L (c N)) s). split_and!; [|split|done..].
  - rewrite <-Hcur at 2. rewrite <-Hcur at 2. apply new_row_spec; [by apply Hcs | lia | by apply HC | rewrite Hcur; by apply Hout].
  - done.
  - apply ring_out; [|done]. intros [-> | Hk]%elem_of_cons; [unfold base in HN; pose proof (zlen_nonneg cols); lia |].
    pose proof (header_small N N Hk). lia.
  - intros k Hk. unfold push. destruct (Z.eqb_spec (c N) k) as [<- | Hne].
    + apply with_node_same; [by apply HC | by apply Hout].
    + rewrite app_nil_r. apply with_node_other; [by apply HC | by apply Hout | |].
      * intros [? | Hk']%elem_of_cons; [done |]. destruct (Hn k _ Hk Hk'). pose proof (header_small (c N) (c N) Hh). lia.
      * intros Hl. pose proof (last_elem (L (c N)) (c N)) as Hl'. revert Hl Hl'. generalize (List.last (L (c N)) (c N)). intros z Hl Hl'.
        apply elem_of_cons in Hl as [-> | Hl], Hl' as [-> | Hl']; [done | | |].
        -- destruct (Hn _ _ Hh Hl'). pose proof (header_small k k Hk). lia.
        -- destruct (Hn _ _ Hk Hl). pose proof (header_small _ (c N) Hh). lia.
        -- destruct (Hn _ _ Hk Hl), (Hn _ _ Hh Hl'). congruence.
  - intros k n Hk. unfold push. rewrite elem_of_app. intros [Hkn | Hkn]; [destruct (Hn k n Hk Hkn); lia |].
    destruct (Z.eqb_spec (c N) k) as [<- | _]; [|by apply elem_of_nil in Hkn]. apply list_elem_of_singleton in Hkn as ->. lia.
  - intros r Hr. destruct (Hrs r Hr) as (Hb & C1 & C2). split; [done |].
    split; [apply cyc_out | apply cyc_back_out]; try done; intros Hx; specialize (Hb _ Hx); lia.
  - intros n Hb. cbn. destruct (decide (n = N)) as [-> | Hne]; [apply lookup_insert_eq |]. rewrite !lookup_insert_ne by done. apply Hcol. lia.
  - intros n Hb. cbn. destruct (decide (n = N)) as [-> | Hne]; [apply lookup_insert_eq |]. rewrite !lookup_insert_ne by done. apply Hname. lia.
  - done.
  - done.
Qed.

(** A node is appended to the row that is being linked. *)
Lemma built_put_left N M L rs s a A x : built N M L rs s -> ring (right s) (left s) a A -> NoDup (a :: A ++ [x]) -> base <= M ->
  (forall n, n ∈ a :: A ++ [x] -> M <= n) ->
  exists s', put_left a x s = Ret s' /\ built N M L rs s' /\ ring (right s') (left s') a (A ++ [x]).
Proof.
  intros [Hcur HR HC Hn Hrs Hcol Hname Hcs Hst] Hring HN HM Hb.
  assert (Hx : NoDup (a :: A) /\ x ∉ a :: A).
  { change (a :: A ++ [x]) with ((a :: A) ++ [x]) in HN. rewrite <-Permutation_cons_append in HN. by apply list.NoDup_cons in HN as [? ?]. }
  destruct Hx as [HNa Hx]. rewrite (put_left_spec a x A s Hring) by (intros ->; apply Hx; left).
  eexists. split; [reflexivity |]. split; [|by apply ring_append].
  assert (Ha : M <= a) by (apply Hb; left). assert (Hxb : M <= x) by (apply Hb; right; apply elem_of_app; right; left).
  assert (Hl : M <= List.last A a).
  { apply Hb. pose proof (last_elem A a) as Hl. apply elem_of_cons in Hl as [-> | Hl]; [left | right; apply elem_of_app; by left]. }
  assert (Hh : forall y, M <= y -> y ∉ 0 :: hs).
  { intros y Hy [-> | Hk]%elem_of_cons; [unfold base in HM; pose proof (zlen_nonneg cols); lia |]. pose proof (header_small y y Hk). lia. }
  split; try done; cbn.
  - apply ring_out_f; [by apply Hh |]. apply ring_out_b; [by apply Hh |]. apply ring_out; [by apply Hh | done].
  - intros k Hk. destruct (HC k Hk). done.
  - intros r Hr. destruct (Hrs r Hr) as (Hbr & C1 & C2). split; [done |].
    assert (Ho : forall y, M <= y -> y ∉ r) by (intros y Hy Hyr; specialize (Hbr _ Hyr); lia).
    split; [by do 2 (apply cyc_out; [by apply Ho |]) | by do 2 (apply cyc_back_out; [by apply Ho |])].
Qed.

Lemma built_push_row N L rs r s (M M' : Z) : built N M L rs s -> M <= M' -> (forall n, n ∈ r -> base <= n < M') ->
  cyc (right s) r -> cyc_back (left s) r -> built N M' L (rs ++ [r]) s.
Proof.
  intros [Hcur HR HC Hn Hrs Hcol Hname Hcs Hst] HM Hb C1 C2. split; try done.
  intros r' [Hr | ->%list_elem_of_singleton]%elem_of_app; [|done].
  destruct (Hrs r' Hr) as (Hb' & ?). split; [|done]. intros n Hn'. specialize (Hb' n Hn'). lia.
Qed.

Lemma built_ext N M L L' rs s : (forall k, L k = L' k) -> built N M L rs s -> built N M L' rs s.
Proof. intros E [Hcur HR HC Hn Hrs Hcol Hname Hcs Hst]. split; try done; intros k; rewrite <-E; eauto. Qed.

(** The nodes of the candidate at position [j]. *)
Lemma nm_at j q : 0 <= j -> 0 <= q < 4 -> nm (base + 4 * j + q) = nth (Z.to_nat q) (names_of (nth (Z.to_nat j) cands (0, 0))) 0.
Proof.
  intros Hj Hq. unfold nm. replace (base + 4 * j + q - base) with (q + j * 4) by lia.
  by rewrite Z.mod_add, Z.div_add, Z.mod_small, Z.div_small by lia.
Qed.

Definition pushes (N : Z) (L : Z -> list Z) : Z -> list Z := push (N + 3) (push (N + 2) (push (N + 1) (push N L))).

Lemma pushes_pick N L k : pushes N L k = L k ++ pick c k [N; N + 1; N + 2; N + 3].
Proof.
  unfold pushes, push, pick. cbn [List.filter]. repeat case_match; rewrite <-?app_assoc, ?app_nil_r; done.
Qed.

Lemma row_at_eq j : row_at j = [base + 4 * j; base + 4 * j + 1; base + 4 * j + 2; base + 4 * j + 3].
Proof. unfold row_at. cbn [map]. by rewrite Z.add_0_r. Qed.

Lemma seq4_ring N : NoDup [N; N + 1; N + 2; N + 3].
Proof. repeat (apply list.NoDup_cons; split; [rewrite ?elem_of_cons, ?elem_of_nil; lia |]). constructor. Qed.

Lemma built_links N L rs s : built (N + 4) N L rs s -> ring (right s) (left s) N [] -> base <= N ->
  exists s', (s5 ← put_left N (N + 1) s; s6 ← put_left N (N + 2) s5; put_left N (N + 3) s6) = Ret s' /\
    built (N + 4) (N + 4) L (rs ++ [[N; N + 1; N + 2; N + 3]]) s'.
Proof.
  intros HB HR Hb. pose proof (seq4_ring N) as HN4.
  assert (HN1 : NoDup [N; N + 1]) by (eapply sublist_NoDup; [exact HN4 | repeat constructor]).
  assert (HN2 : NoDup [N; N + 1; N + 2]) by (eapply sublist_NoDup; [exact HN4 | repeat constructor]).
  assert (Hge : forall n, n ∈ [N; N + 1; N + 2; N + 3] -> N <= n < N + 4) by (intros n; rewrite !elem_of_cons, elem_of_nil; lia).
  destruct (built_put_left _ _ _ _ _ _ [] (N + 1) HB HR HN1 Hb) as (s1 & -> & HB1 & HR1).
  { intros n Hn. apply Hge. cbn [app] in Hn. rewrite !elem_of_cons, elem_of_nil in *. tauto. }
  rewrite bind_Ret. destruct (built_put_left _ _ _ _ _ _ [N + 1] (N + 2) HB1 HR1 HN2 Hb) as (s2 & -> & HB2 & HR2).
  { intros n Hn. apply Hge. cbn [app] in Hn. rewrite !elem_of_cons, elem_of_nil in *. tauto. }
  rewrite bind_Ret. destruct (built_put_left _ _ _ _ _ _ [N + 1; N + 2] (N + 3) HB2 HR2 HN4 Hb) as (s3 & -> & HB3 & [C1 C2]).
  { intros n Hn. by apply Hge. }
  exists s3. split; [done |]. apply built_push_row with (M := N); try done; [lia |]. intros n Hn. specialize (Hge n Hn). lia.
Qed.

Lemma built_candidate j iv L rs s : let N := base + 4 * j in cands !! Z.to_nat j = Some iv -> 0 <= j < zlen cands ->
  built N N L rs s -> exists s', add_candidate iv s = Ret s' /\ built (N + 4) (N + 4) (pushes N L) (rs ++ [row_at j]) s'.
Proof.
  intros N Hiv Hj HB. assert (Hb : base <= N /\ N + 4 <= kMaxNodes) by (unfold N, base in *; lia).
  assert (Hnm : forall q, 0 <= q < 4 -> nm (N + q) = nth (Z.to_nat q) (names_of iv) 0).
  { intros q Hq. unfold N. rewrite nm_at by lia. by rewrite (nth_lookup_Some _ _ _ _ Hiv). }
  pose proof (cands_cols iv (list_elem_of_lookup_2 _ _ _ Hiv)) as [_ Hcols].
  assert (Hin : forall q, 0 <= q < 4 -> nm (N + q) ∈ cols).
  { intros q Hq. rewrite Hnm by done. apply Hcols. apply list_elem_of_In, nth_In. destruct iv; simpl; lia. }
  unfold add_candidate. destruct iv as [i v].
  pose proof (Hnm 0 ltac:(lia)) as E0. pose proof (Hnm 1 ltac:(lia)) as E1. pose proof (Hnm 2 ltac:(lia)) as E2. pose proof (Hnm 3 ltac:(lia)) as E3.
  simpl in E0, E1, E2, E3. rewrite <-E1, <-E2, <-E3. rewrite <-E0, Z.add_0_r.
  destruct (built_new_row _ _ _ _ _ HB) as (s1 & -> & HB1 & R1 & L1); [lia.. | |]; [specialize (Hin 0); rewrite Z.add_0_r in Hin; apply Hin; lia |].
  rewrite bind_Ret. destruct (built_new_row _ _ _ _ _ HB1) as (s2 & -> & HB2 & R2 & L2); [lia | lia | apply Hin; lia |].
  rewrite bind_Ret. replace (N + 1 + 1) with (N + 2) in * by lia.
  destruct (built_new_row _ _ _ _ _ HB2) as (s3 & -> & HB3 & R3 & L3); [lia | lia | apply Hin; lia |].
  rewrite bind_Ret. replace (N + 2 + 1) with (N + 3) in * by lia.
  destruct (built_new_row _ _ _ _ _ HB3) as (s4 & -> & HB4 & R4 & L4); [lia | lia | apply Hin; lia |].
  rewrite bind_Ret. replace (N + 3 + 1) with (N + 4) in * by lia.
  assert (HR : ring (right s4) (left s4) N []).
  { rewrite R4, R3, R2, R1, L4, L3, L2, L1. do 3 (apply ring_out; [rewrite list_elem_of_singleton; lia |]). apply ring_single. }
  destruct (built_links N _ _ _ HB4 HR) as (s' & -> & HB'); [lia |]. exists s'. by rewrite row_at_eq.
Qed.

Definition rows_to (k : Z) : list (list Z) := map row_at (seqZ 0 k).
Definition rows : list (list Z) := rows_to (zlen cands).
Definition col_to (rs : list (list Z)) (k : Z) : list Z := concat (map (pick c k) rs).

Lemma rows_to_end k : 0 <= k -> rows_to (k + 1) = rows_to k ++ [row_at k].
Proof. intros Hk. unfold rows_to. rewrite seqZ_app, map_app by lia. done. Qed.

Lemma headers_built s : headers cols s -> built base base (col_to []) [] s.
Proof using Type.
  intros [Hc HR Hcl Hcol Hst]. split; try done.
  - intros k n _ Hn. by apply elem_of_nil in Hn.
  - intros r Hr. by apply elem_of_nil in Hr.
  - intros n Hn. lia.
  - intros n Hn. lia.
  - intros x Hx. by rewrite Hcol, bool_decide_eq_true_2.
Qed.

Lemma built_all l : forall done s, cands = done ++ l -> let k := zlen done in
  built (base + 4 * k) (base + 4 * k) (col_to (rows_to k)) (rows_to k) s ->
  exists s', fold_outcome add_candidate l s = Ret s' /\
    built (base + 4 * zlen cands) (base + 4 * zlen cands) (col_to rows) rows s'.
Proof using arena cands_cols.
  induction l as [|iv l IH]; intros done s E k HB; cbn [fold_outcome].
  - rewrite app_nil_r in E. subst done. by exists s.
  - assert (Hk : 0 <= k < zlen cands).
    { unfold k. rewrite E, zlen_app, zlen_cons. pose proof (zlen_nonneg done). pose proof (zlen_nonneg l). lia. }
    destruct (built_candidate k iv (col_to (rows_to k)) (rows_to k) s) as (s1 & -> & HB1); [|done..|].
    { rewrite E. unfold k, zlen. rewrite Nat2Z.id. by rewrite lookup_app_r, Nat.sub_diag. }
    rewrite bind_Ret. apply (IH (done ++ [iv])); [by rewrite <-app_assoc |].
    rewrite (zlen_app done [iv]). change (zlen [iv]) with 1. fold k. rewrite rows_to_end by lia.
    replace (base + 4 * (k + 1)) with (base + 4 * k + 4) by lia. eapply built_ext; [|exact HB1].
    intros x. rewrite pushes_pick. unfold col_to. rewrite map_app, concat_app, row_at_eq. cbn [map concat]. by rewrite app_nil_r.
Qed.

(** *** The rows and the candidates *)

Lemma row_in_rows r : r ∈ rows <-> exists k, 0 <= k < zlen cands /\ r = row_at k.
Proof.
  unfold rows, rows_to. rewrite list_elem_of_fmap. split.
  - intros (k & -> & Hk%elem_of_seqZ). exists k. split; [lia | done].
  - intros (k & Hk & ->). exists k. split; [done | apply elem_of_seqZ; lia].
Qed.

Lemma map_nm_row k iv : 0 <= k -> cands !! Z.to_nat k = Some iv -> map nm (row_at k) = names_of iv.
Proof.
  intros Hk Hiv. unfold row_at. rewrite map_map. cbn [map]. rewrite !nm_at by lia. rewrite (nth_lookup_Some _ _ _ _ Hiv).
  by destruct iv as [i v].
Qed.

(** Every row stands for a candidate, every candidate has its row. *)
Lemma row_candidate r : r ∈ rows -> exists iv, iv ∈ cands /\ map nm r = names_of iv.
Proof.
  intros (k & Hk & ->)%row_in_rows. destruct (lookup_lt_is_Some_2 cands (Z.to_nat k)) as [iv Hiv]; [unfold zlen in Hk; lia |].
  exists iv. split; [by eapply list_elem_of_lookup_2 | apply map_nm_row; [lia | done]].
Qed.

Lemma candidate_row iv : iv ∈ cands -> exists r, r ∈ rows /\ map nm r = names_of iv.
Proof.
  intros [k Hk]%list_elem_of_lookup. pose proof (lookup_lt_Some _ _ _ Hk) as Hlt. exists (row_at (Z.of_nat k)). split.
  - apply row_in_rows. exists (Z.of_nat k). split; [unfold zlen; lia | done].
  - apply map_nm_row; [lia | by rewrite Nat2Z.id].
Qed.

Lemma map_c_row r iv : map nm r = names_of iv -> map c r = map hdr (names_of iv).
Proof. intros <-. by rewrite map_map. Qed.

Lemma map_hdr_nodup l : NoDup l -> (forall x, x ∈ l -> x ∈ cols) -> NoDup (map hdr l).
Proof using Type.
  intros HN Hin. induction HN as [|x l Hx HN IH]; simpl; constructor; [|apply IH; intros; apply Hin; by right].
  intros (y & E & Hy)%list_elem_of_fmap. apply hdr_inj in E; [by subst | apply Hin; left | apply Hin; by right].
Qed.

Lemma concat_rows k : 0 <= k -> concat (rows_to k) = seqZ base (4 * k).
Proof.
  intros Hk. rewrite <-(Z2Nat.id k) by done. induction (Z.to_nat k) as [|n IH]; [done |].
  replace (Z.of_nat (S n)) with (Z.of_nat n + 1) by lia. rewrite rows_to_end, concat_app, IH by lia. rewrite row_at_eq. simpl concat.
  replace (4 * (Z.of_nat n + 1)) with (4 * Z.of_nat n + 4) by lia. rewrite (seqZ_app _ (4 * Z.of_nat n) 4) by lia. f_equal.
  generalize (base + 4 * Z.of_nat n). intros x. change (seqZ x 4) with [0 + x; 1 + x; 2 + x; 3 + x]. repeat (f_equal; try lia).
Qed.

Lemma matrix_of_candidates : matrix_ok hs rows c.
Proof using arena cands_cols.
  assert (E : concat rows = seqZ base (4 * zlen cands)) by (apply concat_rows, zlen_nonneg).
  pose proof (zlen_nonneg cols) as Hz. pose proof (zlen_nonneg cands) as Hz'. split.
  - rewrite E. unfold hs, base. rewrite <-seqZ_app by lia. apply seqZ_NoDup_0.
  - rewrite E. unfold hs, base. rewrite <-seqZ_app by lia. apply list.Forall_forall. intros n Hn%elem_of_seqZ. unfold base in arena. lia.
  - intros r (iv & Hiv & Er)%row_candidate. destruct (cands_cols iv Hiv) as [HN Hin]. split.
    + rewrite (map_c_row r iv Er). by apply map_hdr_nodup.
    + intros n Hn. unfold c. apply hdr_in, Hin. rewrite <-Er. by apply list_elem_of_fmap_2.
Qed.

Lemma built_rep s : built (base + 4 * zlen cands) (base + 4 * zlen cands) (col_to rows) rows s -> rep hs rows c nm hs s.
Proof using arena cands_cols.
  intros [Hcur [HR1 HR2] HC Hn Hrs Hcol Hname Hcs Hst]. destruct matrix_of_candidates as [_ _ Hm].
  assert (Hb : forall n, n ∈ concat rows -> base <= n < base + 4 * zlen cands).
  { intros n. unfold rows. rewrite concat_rows by apply zlen_nonneg. rewrite elem_of_seqZ. lia. }
  split; try done.
  - apply NoDup_seqZ.
  - intros k Hk. specialize (HC k Hk). unfold alive.
    assert (List.filter (row_in c hs) rows = rows) as ->; [|done].
    apply forallb_filter_id, forallb_forall. intros r Hr. apply row_in_true. apply list_elem_of_In in Hr. by apply Hm.
  - intros r Hr. by destruct (Hrs r Hr) as (_ & ? & ?).
  - intros n Hn'. by apply Hcol, Hb.
  - intros n Hn'. by apply Hname, Hb.
Qed.

(** The constructor, given its columns and its candidates. *)
Lemma construct_rep : exists s1 s2 s, new_column 0 empty = Ret (0, s1) /\ fold_outcome append_column cols s1 = Ret s2 /\
  fold_outcome add_candidate cands s2 = Ret s /\ rep hs rows c nm hs s /\ stack_ s = [].
Proof using arena cands_cols cols_nodup.
  destruct headers_new as (s1 & E1 & H1). exists s1.
  destruct (headers_all cols [] s1 H1) as (s2 & E2 & H2); [done | unfold base in arena; cbn [app]; pose proof (zlen_nonneg cands); lia |].
  destruct (built_all cands [] s2) as (s & E3 & H3); [done | |].
  { change (zlen []) with 0. rewrite Z.mul_0_r, Z.add_0_r. by apply headers_built. }
  exists s2, s. split_and!; [done.. | by apply built_rep | apply (bu_stack _ _ _ _ _ H3)].
Qed.

End matrix.

End SudokuMatrix.
