(* ===== verification/SudokuBoard.v ===== *)
(** * solveSudoku decides the puzzle

    The rows, the columns and the boxes of a board; what a completed puzzle is; the exact
    covers of the matrix of a puzzle are its completions.  [solveSudoku] of
    excercises/sudoku/sudoku.cc therefore returns a completion, or "NoSolution" when there is
    none. *)

From S2P Require Import Prelude Endian NetBuffer Sudoku DancingLinks ExactCover SudokuMatrix.

Module SudokuBoard.
Import SudokuSolver ExactCover SudokuMatrix.

(** ** Units *)

(** The three ways to group the cells, with the names of their columns. *)
Definition units : list ((Z -> Z) * (Z -> Z -> Z)) := [(row_of, get_row_col); (col_of, get_col_col); (box_of, get_box_col)].

(** A completed puzzle: the givens are kept, and every row, column and box holds every digit. *)
Record completes (b b' : list Z) : Prop := {
  cp_length : zlen b' = kCells;
  cp_digits : forall i, i ∈ cells -> cell b' i ∈ digits9;
  cp_givens : forall i, i ∈ cells -> cell b i <> 0 -> cell b' i = cell b i;
  cp_units : forall unit_of k v, unit_of ∈ [row_of; col_of; box_of] -> k ∈ seqZ 0 9 -> v ∈ digits9 -> used unit_of b' k v = true
}.

Lemma in_cells i : i ∈ cells <-> 0 <= i < 81.
Proof. unfold cells. rewrite elem_of_seqZ. lia. Qed.

Lemma in_digits v : v ∈ digits9 <-> 1 <= v <= 9.
Proof. unfold digits9. rewrite elem_of_seqZ. lia. Qed.

Lemma unit_range i : i ∈ cells -> 0 <= row_of i < 9 /\ 0 <= col_of i < 9 /\ 0 <= box_of i < 9.
Proof.
  rewrite in_cells. intros Hi. unfold box_of, row_of, col_of. assert (0 <= i / 9 < 9) by (split; [apply Z.div_pos | apply Z.div_lt_upper_bound]; lia).
  assert (0 <= i mod 9 < 9) by (apply Z.mod_pos_bound; lia).
  assert (0 <= i / 9 / 3 < 3) by (split; [apply Z.div_pos | apply Z.div_lt_upper_bound]; lia).
  assert (0 <= i mod 9 / 3 < 3) by (split; [apply Z.div_pos | apply Z.div_lt_upper_bound]; lia). lia.
Qed.

Lemma unit_in u g i : (u, g) ∈ units -> i ∈ cells -> u i ∈ seqZ 0 9.
Proof.
  intros Hu Hi. pose proof (unit_range i Hi). rewrite elem_of_seqZ. unfold units in Hu. rewrite !elem_of_cons, elem_of_nil in Hu.
  destruct Hu as [[= -> _] | [[= -> _] | [[= -> _] | []]]]; lia.
Qed.

Lemma unit_name u g : (u, g) ∈ units -> exists d, d ∈ [100; 200; 300] /\ forall k v, g k v = d + k * 10 + v.
Proof.
  unfold units. rewrite !elem_of_cons, elem_of_nil. intros [[= -> ->] | [[= -> ->] | [[= -> ->] | []]]];
    eexists; (split; [|reflexivity]); rewrite !elem_of_cons; unfold kRow, kCol, kBox; tauto.
Qed.

(** The names of columns tell the columns apart. *)
Lemma unit_name_inj u g k v u' g' k' v' : (u, g) ∈ units -> (u', g') ∈ units -> k ∈ seqZ 0 9 -> k' ∈ seqZ 0 9 ->
  v ∈ digits9 -> v' ∈ digits9 -> g k v = g' k' v' -> u = u' /\ g = g' /\ k = k' /\ v = v'.
Proof.
  rewrite !in_digits, !elem_of_seqZ. unfold units. rewrite !elem_of_cons, !elem_of_nil.
  intros [[= -> ->] | [[= -> ->] | [[= -> ->] | []]]] [[= -> ->] | [[= -> ->] | [[= -> ->] | []]]] Hk Hk' Hv Hv';
    unfold get_row_col, get_col_col, get_box_col, kRow, kCol, kBox; intros E; try lia; split_and!; try done; lia.
Qed.

Lemma unit_name_big u g k v i : (u, g) ∈ units -> k ∈ seqZ 0 9 -> v ∈ digits9 -> i ∈ cells -> g k v <> i.
Proof.
  intros Hu. destruct (unit_name u g Hu) as (d & Hd & ->). rewrite in_digits, in_cells, elem_of_seqZ.
  rewrite !elem_of_cons, elem_of_nil in Hd. lia.
Qed.

Lemma names_of_in iv x : x ∈ names_of iv <-> x = iv.1 \/ exists u g, (u, g) ∈ units /\ x = g (u iv.1) iv.2.
Proof.
  destruct iv as [i v]. unfold names_of, units. rewrite !elem_of_cons, elem_of_nil. cbn [fst snd]. split.
  - intros [-> | [-> | [-> | [-> | []]]]]; [by left | right..]; eexists _, _; (split; [|reflexivity]); rewrite !elem_of_cons; tauto.
  - intros [-> | (u & g & Hu & ->)]; [by left |]. rewrite !elem_of_cons, elem_of_nil in Hu.
    destruct Hu as [[= -> ->] | [[= -> ->] | [[= -> ->] | []]]]; tauto.
Qed.

Lemma used_true u b k v : used u b k v = true <-> exists i, i ∈ cells /\ u i = k /\ cell b i = v.
Proof.
  unfold used. rewrite existsb_exists. split.
  - intros (i & Hi & [E1 E2]%andb_true_iff). exists i. rewrite list_elem_of_In. split_and!; [done | lia..].
  - intros (i & Hi & E1 & E2). exists i. rewrite <-list_elem_of_In. split; [done |]. apply andb_true_iff. lia.
Qed.

(** ** Columns and candidates of a board *)

Lemma filter_in {A} (f : A -> bool) l x : x ∈ List.filter f l <-> x ∈ l /\ f x = true.
Proof. by rewrite !list_elem_of_In, filter_In. Qed.

Lemma concat_map_in {A B} (f : A -> list B) l y : y ∈ concat (map f l) <-> exists x, x ∈ l /\ y ∈ f x.
Proof.
  rewrite concat_in. split.
  - intros (r & (x & -> & Hx)%list_elem_of_fmap & Hy). eauto.
  - intros (x & Hx & Hy). exists (f x). split; [by apply list_elem_of_fmap_2 | done].
Qed.

Lemma if_in {A} (b : bool) (x y : A) : y ∈ (if b then [] else [x]) <-> y = x /\ b = false.
Proof. destruct b; rewrite ?elem_of_nil, ?list_elem_of_singleton; naive_solver. Qed.

Lemma columns_in b x : x ∈ columns_of b <-> (x ∈ cells /\ cell b x = 0) \/
  exists u g k v, (u, g) ∈ units /\ k ∈ seqZ 0 9 /\ v ∈ digits9 /\ used u b k v = false /\ x = g k v.
Proof.
  unfold columns_of. rewrite elem_of_app, filter_in, Z.eqb_eq. apply or_iff_compat_l. rewrite concat_map_in. split.
  - intros (k & Hk & Hx). apply concat_map_in in Hx as (v & Hv & Hx). rewrite !elem_of_app, !if_in in Hx. unfold units.
    destruct Hx as [[-> Hf] | [[-> Hf] | [-> Hf]]]; eexists _, _, k, v; (split; [|split_and!; [done | done | exact Hf | reflexivity]]);
      rewrite !elem_of_cons; tauto.
  - intros (u & g & k & v & Hu & Hk & Hv & Hf & ->). exists k. split; [done |]. apply concat_map_in. exists v. split; [done |].
    rewrite !elem_of_app, !if_in. unfold units in Hu. rewrite !elem_of_cons, elem_of_nil in Hu.
    destruct Hu as [[= -> ->] | [[= -> ->] | [[= -> ->] | []]]]; tauto.
Qed.

Lemma candidate_in b i v : (i, v) ∈ candidates b <-> i ∈ cells /\ cell b i = 0 /\ v ∈ digits9 /\
  forall u g, (u, g) ∈ units -> used u b (u i) v = false.
Proof.
  unfold candidates. rewrite concat_map_in. split.
  - intros (i' & Hi & Hx). destruct (Z.eqb_spec (cell b i') 0) as [E |]; [|by apply elem_of_nil in Hx].
    apply concat_map_in in Hx as (v' & Hv & Hx). apply if_in in Hx as [[= -> ->] [[H1 H2]%orb_false_iff H3]%orb_false_iff].
    split_and!; [done.. |]. intros u g. unfold units. rewrite !elem_of_cons, elem_of_nil.
    by intros [[= -> ->] | [[= -> ->] | [[= -> ->] | []]]].
  - intros (Hi & E & Hv & Hu). exists i. split; [done |]. rewrite E, Z.eqb_refl. apply concat_map_in. exists v. split; [done |].
    apply if_in. split; [done |]. rewrite !orb_false_iff. unfold units in Hu.
    split_and!; eapply Hu; rewrite !elem_of_cons; [left | right; left | right; right; left]; reflexivity.
Qed.

(** Every column there can be, and every candidate. *)
Definition all_columns : list Z :=
  cells ++ concat (map (fun i => concat (map (fun v => [get_row_col i v; get_col_col i v; get_box_col i v]) digits9)) (seqZ 0 9)).
Definition all_candidates : list (Z * Z) := concat (map (fun i => concat (map (fun v => [(i, v)]) digits9)) cells).

Lemma sublist_concat_map {A B} (f g : A -> list B) l : (forall x, f x `sublist_of` g x) -> concat (map f l) `sublist_of` concat (map g l).
Proof. intros Hs. induction l as [|x l IH]; simpl; [done |]. by apply sublist_app. Qed.

Lemma sublist_if {A} (b : bool) (x : A) : (if b then [] else [x]) `sublist_of` [x].
Proof. destruct b; [apply sublist_nil_l | done]. Qed.

Lemma columns_sublist b : columns_of b `sublist_of` all_columns.
Proof.
  unfold columns_of, all_columns. apply sublist_app.
  - induction cells as [|x l IH]; simpl; [done |]. case_match; by constructor.
  - apply sublist_concat_map. intros i. apply sublist_concat_map. intros v.
    change [get_row_col i v; get_col_col i v; get_box_col i v] with ([get_row_col i v] ++ [get_col_col i v] ++ [get_box_col i v]).
    repeat apply sublist_app; apply sublist_if.
Qed.

Lemma candidates_sublist b : candidates b `sublist_of` all_candidates.
Proof.
  unfold candidates, all_candidates. apply sublist_concat_map. intros i. case_match; [|apply sublist_nil_l].
  apply sublist_concat_map. intros v. apply sublist_if.
Qed.

Lemma all_columns_nodup : NoDup all_columns.
Proof. apply (bool_decide_unpack _). vm_compute. exact I. Qed.

Lemma columns_nodup b : NoDup (columns_of b).
Proof. eapply sublist_NoDup; [apply all_columns_nodup | apply columns_sublist]. Qed.

Lemma columns_length b : zlen (columns_of b) <= 324.
Proof. pose proof (sublist_length _ _ (columns_sublist b)) as Hl. unfold zlen. assert (length all_columns = 324%nat) by (vm_compute; reflexivity). lia. Qed.

Lemma candidates_length b : zlen (candidates b) <= 729.
Proof. pose proof (sublist_length _ _ (candidates_sublist b)) as Hl. unfold zlen. assert (length all_candidates = 729%nat) by (vm_compute; reflexivity). lia. Qed.

Lemma board_arena b : base (columns_of b) + 4 * zlen (candidates b) <= kMaxNodes.
Proof. pose proof (columns_length b). pose proof (candidates_length b). unfold base, kMaxNodes. lia. Qed.

Lemma names_nodup i v : i ∈ cells -> v ∈ digits9 -> NoDup (names_of (i, v)).
Proof.
  intros Hi Hv. pose proof (unit_range i Hi) as Hr. rewrite in_cells in Hi. rewrite in_digits in Hv. unfold names_of, get_row_col, get_col_col, get_box_col, kRow, kCol, kBox.
  repeat (apply list.NoDup_cons; split; [rewrite ?elem_of_cons, ?elem_of_nil; lia |]). constructor.
Qed.

Lemma candidate_columns b iv : iv ∈ candidates b -> NoDup (names_of iv) /\ forall x, x ∈ names_of iv -> x ∈ columns_of b.
Proof.
  destruct iv as [i v]. intros (Hi & E & Hv & Hu)%candidate_in. split; [by apply names_nodup |].
  intros x Hx. apply columns_in. apply names_of_in in Hx as [-> | (u & g & Hg & ->)]; [by left |]. right. cbn [fst snd].
  exists u, g, (u i), v. split_and!; try done; [by eapply unit_in | by eapply Hu].
Qed.

(** ** No digit twice in a unit *)

Definition unit_cells (u : Z -> Z) (k : Z) : list Z := List.filter (fun i => u i =? k) cells.

Lemma unit_nine : Forall (fun u => Forall (fun k => length (unit_cells u k) = 9%nat) (seqZ 0 9)) [row_of; col_of; box_of].
Proof. repeat constructor. Qed.

Lemma unit_member u g : (u, g) ∈ units -> u ∈ [row_of; col_of; box_of].
Proof.
  unfold units. rewrite !elem_of_cons, elem_of_nil. intros [[= -> ->] | [[= -> ->] | [[= -> ->] | []]]]; tauto.
Qed.

Lemma NoDup_map_inj {A B} (f : A -> B) l x y : NoDup (map f l) -> x ∈ l -> y ∈ l -> f x = f y -> x = y.
Proof.
  induction l as [|z l IH]; intros HN Hx Hy E; [by apply elem_of_nil in Hx |]. simpl in HN. apply list.NoDup_cons in HN as [Hz HN].
  apply elem_of_cons in Hx as [-> | Hx], Hy as [-> | Hy]; [done | | | by apply IH]; destruct Hz; [rewrite E | rewrite <-E]; by apply list_elem_of_fmap_2.
Qed.

Lemma unit_once b b' u g i j : completes b b' -> (u, g) ∈ units -> i ∈ cells -> j ∈ cells -> u i = u j -> cell b' i = cell b' j -> i = j.
Proof.
  intros HC Hu Hi Hj Euj Ec. pose proof (unit_in u g i Hu Hi) as Hk.
  pose proof unit_nine as H9. rewrite list.Forall_forall in H9. specialize (H9 u (unit_member u g Hu)). rewrite list.Forall_forall in H9. specialize (H9 _ Hk).
  apply (NoDup_map_inj (cell b') (unit_cells u (u i))); [| by apply filter_in; split; [|apply Z.eqb_eq]..|done].
  assert (P : digits9 ⊆+ map (cell b') (unit_cells u (u i))).
  { apply NoDup_submseteq; [apply NoDup_seqZ |]. intros v Hv.
    pose proof (cp_units _ _ HC u (u i) v (unit_member u g Hu) Hk Hv) as (x & Hx & Ex & Ev)%used_true.
    rewrite <-Ev. apply list_elem_of_fmap_2. apply filter_in. split; [done | by apply Z.eqb_eq]. }
  apply submseteq_length_Permutation in P; [|rewrite length_map, H9; reflexivity]. rewrite <-P. apply NoDup_seqZ.
Qed.

(** ** Covers and completions *)

(** Candidates whose columns are the open constraints of [b], each once. *)
Definition covers (b : list Z) (A : list (Z * Z)) : Prop :=
  (forall iv, iv ∈ A -> iv ∈ candidates b) /\ concat (map names_of A) ≡ₚ columns_of b.

Definition fill (A : list (Z * Z)) (b : list Z) : list Z := fold_left (fun b iv => <[Z.to_nat iv.1 := iv.2]> b) A b.

Lemma fill_length A b : zlen (fill A b) = zlen b.
Proof.
  unfold fill, zlen. induction A as [|[i v] A IH] in b |- *; simpl; [done |]. by rewrite IH, length_insert.
Qed.

Lemma cell_insert b i j v : i ∈ cells -> j ∈ cells -> zlen b = kCells ->
  cell (<[Z.to_nat i := v]> b) j = if j =? i then v else cell b j.
Proof.
  rewrite !in_cells. unfold zlen, kCells, cell. intros Hi Hj Hb. destruct (Z.eqb_spec j i) as [-> | Hne].
  - apply nth_lookup_Some, list_lookup_insert_eq. lia.
  - rewrite !nth_lookup. rewrite list_lookup_insert_ne by lia. done.
Qed.

Lemma fill_other A b j : zlen b = kCells -> (forall iv, iv ∈ A -> iv.1 ∈ cells) -> j ∈ cells -> j ∉ map fst A -> cell (fill A b) j = cell b j.
Proof.
  unfold fill. induction A as [|[i v] A IH] in b |- *; intros Hb HA Hj Hn; [done |]. simpl. simpl in Hn. rewrite elem_of_cons in Hn. rewrite IH; try done; try tauto.
  - rewrite cell_insert; [|apply (HA (i, v)); left | done..]. destruct (Z.eqb_spec j i); [tauto | done].
  - unfold zlen. by rewrite length_insert.
  - intros iv Hiv. apply HA. by right.
Qed.

Lemma fill_cell A b i v : zlen b = kCells -> (forall iv, iv ∈ A -> iv.1 ∈ cells) -> NoDup (map fst A) -> (i, v) ∈ A -> cell (fill A b) i = v.
Proof.
  induction A as [|[j w] A IH] in b |- *; intros Hb HA HN Hi; [by apply elem_of_nil in Hi |].
  assert (Hl : forall x y, zlen (<[x := y]> b) = kCells) by (intros; unfold zlen; by rewrite length_insert).
  assert (HA' : forall iv, iv ∈ A -> iv.1 ∈ cells) by (intros iv Hiv; apply HA; by right).
  simpl in HN. apply list.NoDup_cons in HN as [Hj HN]. change (fill ((j, w) :: A) b) with (fill A (<[Z.to_nat j := w]> b)).
  apply elem_of_cons in Hi as [[= -> ->] | Hi]; [|by apply IH].
  assert (j ∈ cells) by (apply (HA (j, w)); left). rewrite fill_other by done. rewrite cell_insert by done. by rewrite Z.eqb_refl.
Qed.

Lemma firsts_sublist A : map fst A `sublist_of` concat (map names_of A).
Proof. induction A as [|[i v] A IH]; simpl; [done |]. apply sublist_skip. by do 3 apply sublist_cons. Qed.

Lemma candidate_cells b (A : list (Z * Z)) : (forall iv, iv ∈ A -> iv ∈ candidates b) -> forall iv, iv ∈ A -> iv.1 ∈ cells.
Proof. intros HA [i v] Hiv. by apply HA, candidate_in in Hiv as (? & _). Qed.

(** A cover fills the board. *)
Lemma covers_completes b A : zlen b = kCells -> Forall (fun x => 0 <= x <= 9) b -> covers b A -> completes b (fill A b).
Proof.
  intros Hb Hd [HA P]. pose proof (candidate_cells b A HA) as Hc.
  assert (HN : NoDup (map fst A)). { eapply sublist_NoDup; [|apply firsts_sublist]. rewrite P. apply columns_nodup. }
  assert (Hg : forall i, i ∈ cells -> cell b i <> 0 -> cell (fill A b) i = cell b i).
  { intros i Hi Hne. apply fill_other; try done. intros ([j v] & -> & Hj)%list_elem_of_fmap. by apply HA, candidate_in in Hj as (_ & ? & _). }
  assert (Hv : forall i v, (i, v) ∈ A -> cell (fill A b) i = v) by (intros; by apply fill_cell).
  assert (Hcov : forall x, x ∈ columns_of b -> exists i v, (i, v) ∈ A /\ x ∈ names_of (i, v)).
  { intros x Hx. rewrite <-P in Hx. apply concat_map_in in Hx as ([i v] & ? & ?). eauto. }
  split; [by rewrite fill_length | | done |].
  - intros i Hi. destruct (decide (cell b i = 0)) as [E | Hne].
    + destruct (Hcov i) as (j & v & HjA & Hj); [apply columns_in; by left |]. pose proof (HA _ HjA) as (Hjc & _ & Hdv & _)%candidate_in.
      apply names_of_in in Hj as [Hj | (u & g & Hu & Hj)]; cbn [fst snd] in Hj; [subst j; by rewrite (Hv i v) |].
      destruct (unit_name_big u g (u j) v i); try done. by eapply unit_in.
    + rewrite Hg by done. apply in_digits. rewrite list.Forall_forall in Hd. apply in_cells in Hi. unfold zlen, kCells in Hb.
      assert (0 <= cell b i <= 9); [|lia]. apply Hd. unfold cell. apply list_elem_of_In, nth_In. lia.
  - intros u k v Hu Hk Hvd. assert (exists g, (u, g) ∈ units) as [g Hg'].
    { unfold units. rewrite !elem_of_cons, elem_of_nil in Hu. destruct Hu as [-> | [-> | [-> | []]]]; eexists; rewrite !elem_of_cons; eauto. }
    apply used_true. destruct (used u b k v) eqn:E.
    + apply used_true in E as (i & Hi & Ei & Ev). exists i. split_and!; try done. rewrite Hg; [done | done |]. apply in_digits in Hvd. lia.
    + destruct (Hcov (g k v)) as (i & w & HiA & Hx); [apply columns_in; right; by exists u, g, k, v |].
      pose proof (HA _ HiA) as (Hic & _ & Hdw & _)%candidate_in. exists i. apply names_of_in in Hx as [Hx | (u' & g' & Hu' & Hx)]; cbn [fst snd] in Hx.
      * by destruct (unit_name_big u g k v i).
      * destruct (unit_name_inj u g k v u' g' (u' i) w) as (<- & <- & -> & ->); try done; [by eapply unit_in |]. split_and!; try done. by apply Hv.
Qed.

Lemma NoDup_concat_map {A B} (f : A -> list B) l : NoDup l -> (forall x, x ∈ l -> NoDup (f x)) ->
  (forall x y z, x ∈ l -> y ∈ l -> z ∈ f x -> z ∈ f y -> x = y) -> NoDup (concat (map f l)).
Proof.
  intros HN. induction HN as [|x l Hx HN IH]; intros H1 H2; simpl; [constructor |]. apply list.NoDup_app. split_and!.
  - apply H1. left.
  - intros z Hz (y & Hy & Hz')%concat_map_in. destruct Hx. rewrite (H2 x y z); [done | left | by right | done | done].
  - apply IH; [intros y Hy; apply H1; by right |]. intros y y' z Hy Hy'. apply H2; by right.
Qed.

(** A completed board gives a cover: the digits of the open cells. *)
Lemma completes_covers b b' : completes b b' -> exists A, covers b A.
Proof.
  intros HC. set (open := List.filter (fun i => cell b i =? 0) cells). exists (map (fun i => (i, cell b' i)) open).
  assert (Ho : forall i, i ∈ open <-> i ∈ cells /\ cell b i = 0) by (intros i; unfold open; by rewrite filter_in, Z.eqb_eq).
  assert (HA : forall iv, iv ∈ map (fun i => (i, cell b' i)) open -> iv ∈ candidates b).
  { intros iv (i & -> & [Hi E]%Ho)%list_elem_of_fmap. apply candidate_in. split_and!; try done; [by apply (cp_digits _ _ HC) |].
    intros u g Hu. apply not_true_iff_false. intros (j & Hj & Ej & Ev)%used_true.
    pose proof (cp_digits _ _ HC i Hi) as Hd%in_digits. assert (j = i) as ->; [|lia].
    apply (unit_once b b' u g j i); try done. rewrite <-Ev. apply (cp_givens _ _ HC); [done | lia]. }
  split; [done |]. apply NoDup_Permutation; [| apply columns_nodup |].
  - apply NoDup_concat_map.
    + apply NoDup_fmap_2; [intros i j; congruence |]. apply NoDup_ListNoDup, List.NoDup_filter, NoDup_ListNoDup, NoDup_seqZ.
    + intros [i v] Hiv. by apply (candidate_columns b), HA.
    + intros iv jw x Hiv Hjw Hx Hy. pose proof (HA _ Hiv) as Hci. pose proof (HA _ Hjw) as Hcj.
      apply list_elem_of_fmap in Hiv as (i & -> & Hi), Hjw as (j & -> & Hj).
      apply candidate_in in Hci as (Hic & _ & Hiv & _), Hcj as (Hjc & _ & Hjv & _). assert (i = j) as ->; [|done].
      apply names_of_in in Hx as [-> | (u & g & Hu & ->)], Hy as [Hy | (u' & g' & Hu' & Hy)]; cbn [fst snd] in *; [done | | |].
      * symmetry in Hy. apply (unit_name_big u' g' (u' j) (cell b' j) i) in Hy; try done. by eapply unit_in.
      * apply (unit_name_big u g (u i) (cell b' i) j) in Hy; try done. by eapply unit_in.
      * destruct (unit_name_inj u g (u i) (cell b' i) u' g' (u' j) (cell b' j)) as (<- & <- & Eu & Ec); try done; [by eapply unit_in.. |].
        by apply (unit_once b b' u g).
  - intros x. rewrite concat_map_in. split.
    + intros (iv & Hiv & Hx). by apply (candidate_columns b iv); [apply HA |].
    + intros [[Hx E] | (u & g & k & v & Hu & Hk & Hv & Hf & ->)]%columns_in.
      * exists (x, cell b' x). split; [apply (list_elem_of_fmap_2 (fun i => (i, cell b' i))), Ho; done | left].
      * pose proof (cp_units _ _ HC u k v (unit_member u g Hu) Hk Hv) as (i & Hi & <- & <-)%used_true.
        exists (i, cell b' i). split; [|apply names_of_in; right; by exists u, g].
        apply (list_elem_of_fmap_2 (fun i => (i, cell b' i))), Ho. split; [done |].
        destruct (decide (cell b i = 0)) as [? | Hne]; [done |]. apply not_true_iff_false in Hf. destruct Hf. apply used_true.
        exists i. split_and!; try done. by rewrite (cp_givens _ _ HC).
Qed.

(** ** The matrix of a board *)
Section board.
Variable b : list Z.
Abbreviation cols := (columns_of b).
Abbreviation cands := (candidates b).
Abbreviation nm := (nm cols cands).
Abbreviation rows := (rows cols cands).

Definition dec (r : list Z) : Z * Z := (nm (nth 0 r 0), nm (nth 1 r 0) mod 10).

(** The names of a row, from its candidate. *)
Lemma row_names r : r ∈ rows -> exists i v n0 n1 n2 n3, (i, v) ∈ cands /\ r = [n0; n1; n2; n3] /\ dec r = (i, v) /\
  map nm r = names_of (i, v) /\ 0 <= i < 81 /\ 1 <= v <= 9 /\ nm n0 = i /\
  forall n, n ∈ [n1; n2; n3] -> 100 <= nm n /\ nm n mod 10 = v.
Proof.
  intros (iv & Hiv & E)%row_candidate. destruct iv as [i v]. pose proof Hiv as (Hi & _ & Hv & _)%candidate_in.
  destruct r as [|n0 [|n1 [|n2 [|n3 [|]]]]]; try discriminate E. exists i, v, n0, n1, n2, n3.
  pose proof (unit_range i Hi) as Hu. rewrite in_cells in Hi. rewrite in_digits in Hv. cbn [map names_of] in E. injection E as E0 E1 E2 E3.
  assert (Hmod : forall d k, d mod 10 = 0 -> (d + k * 10 + v) mod 10 = v).
  { intros d k Hd. rewrite <-Z.add_assoc, (Z.add_comm (k * 10)), Z.add_assoc, Z.mod_add, Z.add_mod, Hd by lia. rewrite Z.add_0_l, Z.mod_mod, Z.mod_small by lia. done. }
  assert (Hall : forall n, n ∈ [n1; n2; n3] -> 100 <= nm n /\ nm n mod 10 = v).
  { intros n. rewrite !elem_of_cons, elem_of_nil. unfold get_row_col, get_col_col, get_box_col, kRow, kCol, kBox in *.
    intros [-> | [-> | [-> | []]]]; [rewrite E1 | rewrite E2 | rewrite E3]; (split; [lia | by apply Hmod]). }
  split_and!; try done; try lia; [|cbn [map names_of]; by rewrite E0, E1, E2, E3].
  unfold dec. cbn [nth]. rewrite E0. f_equal. apply Hall. left.
Qed.

Lemma decode_cell f n i s : name s !! n = Some i -> 0 <= i < 100 -> forall v n', right s !! n = Some n' -> v <> -1 -> 
  decode (S (S f)) n (-1) v s = Ret (i, v).
Proof.
  intros Hn Hi v n' Hr Hv. cbn [decode Z.eqb orb]. rewrite (DancingLinks.link_some _ _ _ Hn), bind_Ret, (DancingLinks.link_some _ _ _ Hr), bind_Ret.
  destruct (Z.ltb_spec i 100); [|lia]. cbn [decode]. destruct (Z.eqb_spec i (-1)); [lia |]. by destruct (Z.eqb_spec v (-1)).
Qed.

Lemma decode_value f n x s : name s !! n = Some x -> 100 <= x -> forall w n', right s !! n = Some n' ->
  decode (S f) n (-1) w s = decode f n' (-1) (x mod 10) s.
Proof.
  intros Hn Hx w n' Hr. cbn [decode Z.eqb orb]. rewrite (DancingLinks.link_some _ _ _ Hn), bind_Ret, (DancingLinks.link_some _ _ _ Hr), bind_Ret.
  by destruct (Z.ltb_spec x 100); [lia |].
Qed.

Lemma fuel_six : exists f, loop_fuel = S (S (S (S (S (S f))))).
Proof. exists (loop_fuel - 6)%nat. unfold loop_fuel, kMaxNodes. lia. Qed.

(** [decode] reads the same cell and value from every node of a row. *)
Lemma decode_row H s r n : rep (hs cols) rows (c cols cands) nm H s -> r ∈ rows -> n ∈ r -> decode loop_fuel n (-1) (-1) s = Ret (dec r).
Proof.
  intros R Hr Hn. destruct (row_names r Hr) as (i & v & n0 & n1 & n2 & n3 & _ & -> & -> & _ & Hi & Hv & E0 & Hall).
  assert (Hname : forall m, m ∈ [n0; n1; n2; n3] -> name s !! m = Some (nm m)).
  { intros m Hm. apply (rp_name _ _ _ _ _ _ R), concat_in. eauto. }
  destruct (rp_rows _ _ _ _ _ _ R _ Hr) as [(R0 & R1 & R2 & R3) _].
  destruct (Hall n1) as [B1 V1]; [left |]. destruct (Hall n2) as [B2 V2]; [right; left |]. destruct (Hall n3) as [B3 V3]; [right; right; left |].
  assert (N0 := Hname n0 ltac:(left)). assert (N1 := Hname n1 ltac:(right; left)). assert (N2 := Hname n2 ltac:(right; right; left)).
  assert (N3 := Hname n3 ltac:(right; right; right; left)). rewrite E0 in N0.
  destruct fuel_six as [f ->]. rewrite !elem_of_cons, elem_of_nil in Hn. destruct Hn as [-> | [-> | [-> | [-> | []]]]].
  - cbn [decode Z.eqb orb]. rewrite (DancingLinks.link_some _ _ _ N0), bind_Ret, (DancingLinks.link_some _ _ _ R0), bind_Ret.
    destruct (Z.ltb_spec i 100); [|lia]. rewrite orb_true_r. rewrite (DancingLinks.link_some _ _ _ N1), bind_Ret, (DancingLinks.link_some _ _ _ R1), bind_Ret.
    destruct (Z.ltb_spec (nm n1) 100); [lia |]. rewrite V1. destruct (Z.eqb_spec i (-1)); [lia |]. by destruct (Z.eqb_spec v (-1)); [lia |].
  - do 3 (erewrite decode_value by done). rewrite V3. eapply decode_cell; [done | lia | done | lia].
  - do 2 (erewrite decode_value by done). rewrite V3. eapply decode_cell; [done | lia | done | lia].
  - erewrite decode_value by done. rewrite V3. eapply decode_cell; [done | lia | done | lia].
Qed.

(** *** Exact covers of the matrix are covers of the board *)

Abbreviation hdr := (hdr cols).

Lemma rows_columns r : r ∈ rows -> dec r ∈ cands /\ map (c cols cands) r = map hdr (names_of (dec r)).
Proof.
  intros Hr. destruct (row_names r Hr) as (i & v & ? & ? & ? & ? & Hc & _ & -> & E & _). split; [done |]. by apply map_c_row.
Qed.

Lemma map_index l pre : NoDup (pre ++ l) -> map (fun x => 1 + index_of x (pre ++ l)) l = seqZ (1 + zlen pre) (zlen l).
Proof.
  induction l as [|x l IH] in pre |- *; intros HN; [done |]. specialize (IH (pre ++ [x])). rewrite <-app_assoc in IH. cbn [app] in IH.
  rewrite zlen_cons. pose proof (zlen_nonneg l). rewrite seqZ_cons by lia. cbn [map]. rewrite IH by done. rewrite (zlen_app pre [x]). change (zlen [x]) with 1. f_equal.
  - rewrite index_of_app, bool_decide_eq_false_2. { cbn [index_of]. rewrite Z.eqb_refl. lia. }
    apply list.NoDup_app in HN as (_ & HN & _). intros Hx. apply (HN x Hx). left.
  - f_equal; lia.
Qed.

Lemma headers_of_columns : map hdr cols = hs cols.
Proof. apply (map_index cols []). apply columns_nodup. Qed.

Lemma columns_of_rows S : (forall r, r ∈ S -> r ∈ rows) ->
  concat (map (map (c cols cands)) S) = map hdr (concat (map names_of (map dec S))).
Proof.
  induction S as [|r S IH]; intros HS; [done |]. cbn [map concat]. rewrite map_app, IH by (intros r' Hr'; apply HS; by right).
  by destruct (rows_columns r) as [_ ->]; [apply HS; left |].
Qed.

Lemma exact_covers S : exact rows (c cols cands) (hs cols) S -> covers b (map dec S).
Proof.
  intros [HS E]. rewrite columns_of_rows, <-headers_of_columns in E by done.
  assert (HA : forall iv, iv ∈ map dec S -> iv ∈ cands) by (intros iv (r & -> & Hr)%list_elem_of_fmap; by apply rows_columns, HS).
  assert (Hin : forall x, x ∈ concat (map names_of (map dec S)) -> x ∈ cols).
  { intros x (iv & Hiv & Hx)%concat_map_in. by apply (candidate_columns b iv); [apply HA |]. }
  split; [done |]. apply NoDup_Permutation; [| apply columns_nodup |].
  - apply (NoDup_fmap_1 hdr). change (hdr <$> concat (map names_of (map dec S))) with (map hdr (concat (map names_of (map dec S)))).
    rewrite E. apply map_hdr_nodup; [apply columns_nodup | done].
  - intros x. split; [apply Hin |]. intros Hx. assert (Hh : hdr x ∈ map hdr cols) by (by apply list_elem_of_fmap_2). rewrite <-E in Hh.
    apply list_elem_of_fmap in Hh as (y & Ey & Hy). by rewrite (hdr_inj cols x y); [| | apply Hin |].
Qed.

Lemma rows_of_candidates A : (forall iv, iv ∈ A -> iv ∈ cands) -> exists S, (forall r, r ∈ S -> r ∈ rows) /\ map dec S = A.
Proof.
  induction A as [|iv A IH]; intros HA; [exists []; split; [by intros r ?%elem_of_nil | done] |].
  destruct IH as (S & HS & <-); [intros iv' Hiv'; apply HA; by right |].
  destruct (candidate_row cols cands iv) as (r & Hr & E); [apply HA; left |]. exists (r :: S). split.
  - by intros r' [-> | Hr']%elem_of_cons; [|apply HS].
  - cbn [map]. f_equal. destruct (row_names r Hr) as (i & v & ? & ? & ? & ? & Hc & _ & -> & E' & Hi & Hv & _). rewrite E' in E.
    destruct iv as [j w]. unfold names_of, get_row_col in E. injection E as -> E _ _. f_equal. lia.
Qed.

Lemma covers_exact A : covers b A -> exists S, exact rows (c cols cands) (hs cols) S.
Proof.
  intros [HA P]. destruct (rows_of_candidates A HA) as (S & HS & E). exists S. split; [done |].
  by rewrite columns_of_rows, E, <-headers_of_columns, P.
Qed.

Lemma place_fill S b' : place dec S b' = fill (map dec S) b'.
Proof. unfold place, fill. induction S as [|r S IH] in b' |- *; [done |]. cbn [fold_left map]. apply IH. Qed.

(** The constructor and the search. *)
Lemma solver_spec : zlen b = kCells -> Forall (fun x => 0 <= x <= 9) b -> exists s, SudokuSolver b = Ret s /\
  ((exists s', solve depth_fuel s b = Ret (false, b, s') /\ forall b', ~ completes b b') \/
   (exists b' s', solve depth_fuel s b = Ret (true, b', s') /\ completes b b')).
Proof.
  intros Hb Hd.
  destruct (construct_rep cols cands) as (s1 & s2 & s & E1 & E2 & E3 & R & Hst); [apply columns_nodup | apply candidate_columns | apply board_arena |].
  pose proof (matrix_of_candidates cols cands (candidate_columns b) (board_arena b)) as mx.
  exists s. split; [unfold SudokuSolver; by rewrite E1, bind_Ret, E2, bind_Ret, E3 |].
  destruct (solve_rep (hs cols) rows (c cols cands) nm mx dec decode_row depth_fuel (hs cols) s [] [] b R) as [[E Hno] | (S & s' & E & HS)].
  - unfold hs. rewrite length_seqZ. pose proof (columns_length b). unfold depth_fuel. lia.
  - by rewrite Hst.
  - constructor.
  - left. exists s. split; [done |]. intros b' [A [S HS]%covers_exact]%completes_covers. by apply (Hno S).
  - right. exists (fill (map dec S) b), s'. rewrite E. cbn [app]. rewrite place_fill. split; [done |].
    apply covers_completes; [done.. |]. by apply exact_covers.
Qed.

End board.

(** ** solveSudoku *)

(** [answer] solves [puzzle], both as text. *)
Definition solution (puzzle answer : bytes) : Prop :=
  Forall (fun x => 0 <= x <= 9) (board_of puzzle) /\ completes (board_of puzzle) (board_of answer).

Lemma board_text l : (forall i, i ∈ cells -> cell l i ∈ digits9) -> zlen l = kCells -> board_of (map (fun x => Z2b (x + 48)) l) = l.
Proof.
  intros Hd Hl. unfold board_of. rewrite map_map. transitivity (map id l); [|apply map_id]. apply map_ext_in. intros x Hx.
  apply (In_nth _ _ 0) in Hx as (k & Hk & <-). specialize (Hd (Z.of_nat k)). unfold cell in Hd. rewrite Nat2Z.id, in_cells, in_digits in Hd.
  unfold zlen, kCells in Hl. rewrite b2Z_Z2b, Z.mod_small by lia. unfold id. lia.
Qed.

Lemma board_of_length puzzle : zlen (board_of puzzle) = zlen puzzle.
Proof. unfold zlen, board_of. by rewrite length_map. Qed.

Lemma solveSudoku_spec puzzle : zlen puzzle = kCells ->
  (exists answer, solveSudoku puzzle = Ret answer /\ solution puzzle answer) \/
  (solveSudoku puzzle = Ret kNoSolution /\ forall answer, ~ solution puzzle answer).
Proof.
  intros Hl. unfold solveSudoku, solution. rewrite check_bind by (by apply Z.eqb_eq).
  destruct (forallb _ (board_of puzzle)) eqn:Ef.
  - assert (Hd : Forall (fun x => 0 <= x <= 9) (board_of puzzle)).
    { apply list.Forall_forall. intros x Hx. rewrite forallb_forall in Ef. apply list_elem_of_In, Ef in Hx. lia. }
    destruct (solver_spec (board_of puzzle)) as (s & -> & [(s' & E & Hno) | (b' & s' & E & HC)]); [by rewrite board_of_length | done | |];
      rewrite bind_Ret, E, bind_Ret.
    + right. split; [done |]. intros answer [_ HC]. by apply (Hno (board_of answer)).
    + left. eexists. split; [reflexivity |]. split; [done |]. rewrite board_text; [done | apply HC | apply HC].
  - right. split; [done |]. intros answer [Hd _]. apply not_true_iff_false in Ef. destruct Ef. apply forallb_forall. intros x Hx.
    rewrite list.Forall_forall in Hd. apply list_elem_of_In, Hd in Hx. lia.
Qed.

(** What a client may expect of an answer. *)
Definition answers (puzzle answer : bytes) : Prop :=
  solution puzzle answer \/ (answer = kNoSolution /\ forall answer', ~ solution puzzle answer').

Lemma solveSudoku_answers puzzle : zlen puzzle = kCells -> exists answer, solveSudoku puzzle = Ret answer /\ answers puzzle answer.
Proof.
  intros [(a & E & HS) | [E Hno]]%solveSudoku_spec; [exists a; split; [done | by left] |].
  exists kNoSolution. split; [done | by right].
Qed.

(** C36. solveSudoku on any text: a puzzle of 81 characters gets an answer that keeps the
    givens and has every digit in every row, every column and every box, or "NoSolution"
    exactly when no such answer exists (a character that is not a digit and givens that clash
    included); the search always ends, inside the arena of nodes, and never follows a link
    that was not set; another length fails the assertion. *)
Theorem solveSudoku_decides puzzle :
  if zlen puzzle =? kCells then
    (exists answer, solveSudoku puzzle = Ret answer /\ solution puzzle answer) \/
    (solveSudoku puzzle = Ret kNoSolution /\ forall answer, ~ solution puzzle answer)
  else solveSudoku puzzle = Crash AssertFailed.
Proof.
  destruct (Z.eqb_spec (zlen puzzle) kCells) as [E | E]; [by apply solveSudoku_spec |].
  unfold solveSudoku. apply Z.eqb_neq in E. by rewrite E.
Qed.

End SudokuBoard.
