(* ===== verification/SudokuServer.v ===== *)
(** * excercises/sudoku/server_basic.cc: the solver as a service

    A request is a line, [id:puzzle] or just the puzzle; the reply repeats the id.  The
    connection is what the handlers see of it: whether it is still connected (its [send] and
    [shutdown] do nothing otherwise, as in TcpConnection.cc) and what was sent. *)

From S2P Require Import Prelude Endian NetBuffer Sudoku SudokuBoard.

Module SudokuServer.
Import Lines.

Record conn := mk { connected : bool; sent : list bytes }.

Definition send (message : bytes) (c : conn) : conn :=
  if connected c then mk true (sent c ++ [message]) else c.

Definition shutdown (c : conn) : conn := mk false (sent c).

Definition colon : byte := ":"%byte.

Definition processRequest (c : conn) (request : bytes) : outcome (bool * conn) :=
  let '(id, puzzle) := match find_byte colon request with
                       | Some i => (take i request, drop (S i) request)
                       | None => ([], request)
                       end in
  if zlen puzzle =? kCells then
    result ← solveSudoku puzzle;
    Ret (true, if zlen id =? 0 then send (result ++ Buffer.kCRLF) c
               else send (id ++ [colon] ++ result ++ Buffer.kCRLF) c)
  else Ret (false, c).

(** One turn of the loop; [len] is always the number of readable bytes. *)
Definition onMessage_body (st : Buffer.t * conn) : outcome ((Buffer.t * conn) + (Buffer.t * conn)) :=
  let '(buf, c) := st in
  let len := Buffer.readableBytes buf in
  if kCells + 2 <=? len then
    crlf ← Buffer.findCRLF buf;
    match crlf with
    | Some crlf =>
        request ← load (Buffer.peek buf) (crlf - Buffer.peek buf) (Buffer.buffer_ buf);
        buf1 ← Buffer.retrieveUntil (crlf + 2) buf;
        '(good, c1) ← processRequest c request;
        Ret (if good : bool then inl (buf1, c1)
             else inr (buf1, shutdown (send (lit "Bad Request!" ++ Buffer.kCRLF) c1)))
    | None =>
        if 100 <? len then Ret (inr (buf, shutdown (send (lit "Id too long!" ++ Buffer.kCRLF) c)))
        else Ret (inr (buf, c))
    end
  else Ret (inr (buf, c)).

Definition onMessage (buf : Buffer.t) (c : conn) : outcome (Buffer.t * conn) := on_message onMessage_body buf c.

(** ** Requests and their replies *)

Inductive request := Plain (puzzle : bytes) | Named (id puzzle : bytes).

Definition puzzle_of (r : request) : bytes := match r with Plain p | Named _ p => p end.

Definition line (r : request) : bytes :=
  match r with Plain p => p | Named id p => id ++ colon :: p end.

Definition encode (r : request) : bytes := line r ++ Buffer.kCRLF.

Definition reply (r : request) (result : bytes) : bytes :=
  match r with
  | Named (x :: id) _ => x :: id ++ [colon] ++ result ++ Buffer.kCRLF
  | _ => result ++ Buffer.kCRLF
  end.

(** A request that is a line, in which the colon found first ends the id, and which never
    has more than 100 bytes without its CRLF. *)
Record request_ok (r : request) : Prop := {
  ro_size : zlen (puzzle_of r) = kCells;
  ro_colon : match r with Plain p => colon ∉ p | Named id _ => colon ∉ id end;
  ro_line : clean (line r);
  ro_length : zlen (line r) <= 99
}.

(** What a request does to a connection. *)
Definition perform (r : request) (c : conn) : outcome conn :=
  a ← solveSudoku (puzzle_of r); Ret (send (reply r a) c).

Lemma processRequest_line r c : request_ok r ->
  processRequest c (line r) = (c1 ← perform r c; Ret (true, c1)).
Proof.
  intros [Hs Hc _ _]. unfold processRequest, perform. destruct r as [p|id p]; cbn [line puzzle_of] in *.
  - rewrite (proj2 (find_byte_None colon p) Hc). rewrite (proj2 (Z.eqb_eq _ _) Hs).
    by destruct (solveSudoku p).
  - rewrite (find_byte_app colon id p Hc), take_app_length.
    replace (S (length id)) with (length (id ++ [colon])) by (rewrite length_app; cbn; lia).
    change (id ++ colon :: p) with (id ++ [colon] ++ p). rewrite app_assoc, drop_app_length.
    rewrite (proj2 (Z.eqb_eq _ _) Hs). destruct (solveSudoku p); [|done]. rewrite !bind_Ret. by destruct id.
Qed.

Lemma encode_length r : request_ok r -> (83 <= length (encode r) <= 101)%nat.
Proof.
  intros [Hs _ _ Hl]. unfold encode. rewrite length_app. change (length Buffer.kCRLF) with 2%nat.
  unfold zlen, kCells in *. destruct r; cbn [line puzzle_of] in *; [|rewrite length_app in *; cbn [length] in *]; lia.
Qed.

(** A buffer with part of a request is left alone. *)
Lemma body_partial r b c x y : request_ok r -> Buffer.wf b -> Buffer.contents b ++ y = encode r ++ x ->
  (length (Buffer.contents b) < length (encode r))%nat -> onMessage_body (b, c) = Ret (inr (b, c)).
Proof.
  intros Hr W E Hl. pose proof (encode_length r Hr) as He. unfold onMessage_body.
  rewrite Buffer.readable_contents by done. destruct (kCells + 2 <=? zlen (Buffer.contents b)); [|done].
  rewrite Buffer.contents_findCRLF, bind_Ret by done. unfold encode in E, Hl, He. rewrite <- app_assoc in E.
  rewrite (search_prefix (line r) _ y x); [|by destruct Hr|done|by rewrite length_app in Hl].
  cbn [fmap option_fmap option_map]. rewrite (proj2 (Z.ltb_ge 100 _)); [done|unfold zlen; lia].
Qed.

(** A complete request is answered. *)
Lemma body_request r b c x : request_ok r -> Buffer.wf b -> Buffer.contents b = encode r ++ x ->
  exists b1 c1, onMessage_body (b, c) = Ret (inl (b1, c1)) /\ perform r c = Ret c1 /\ True /\ Buffer.wf b1 /\
    Buffer.contents b1 = x /\ Buffer.buffer_ b1 = Buffer.buffer_ b.
Proof.
  intros Hr W Hx. pose proof (encode_length r Hr) as He. unfold onMessage_body.
  assert (zlen (Buffer.contents b) = zlen (encode r) + zlen x) as Hz by (by rewrite Hx, zlen_app).
  rewrite Buffer.readable_contents by done. rewrite (proj2 (Z.leb_le (kCells + 2) _)); [|unfold zlen, kCells in *; lia].
  unfold encode in Hx. rewrite <- app_assoc in Hx.
  destruct (take_line (line r) x b W Hx (ro_line _ Hr)) as (Hf & HL & b1 & Hu & W1 & E1 & Eb).
  rewrite Hf, bind_Ret, HL, bind_Ret, Hu, bind_Ret, processRequest_line by done.
  destruct (SudokuBoard.solveSudoku_answers _ (ro_size _ Hr)) as (a & Ha & _). unfold perform. rewrite Ha, !bind_Ret. by exists b1, (send (reply r a) c).
Qed.

Lemma perform_all_replies rs answers l : Forall2 (fun r a => solveSudoku (puzzle_of r) = Ret a) rs answers ->
  perform_all perform rs (mk true l) = Ret (mk true (l ++ zip_with reply rs answers)).
Proof.
  intros H. revert l. induction H as [|r a rs answers Hr _ IH]; intros l; cbn [perform_all zip_with]; [by rewrite app_nil_r|].
  assert (Hp : perform r (mk true l) = Ret (mk true (l ++ [reply r a]))) by (unfold perform; by rewrite Hr).
  rewrite Hp, bind_Ret, IH. by rewrite <- app_assoc.
Qed.

Lemma all_answered rs : Forall request_ok rs -> exists results,
  Forall2 (fun r a => solveSudoku (puzzle_of r) = Ret a) rs results /\ Forall2 (fun r a => SudokuBoard.answers (puzzle_of r) a) rs results.
Proof.
  induction 1 as [|r rs Hr _ (results & H1 & H2)]; [by exists [] |].
  destruct (SudokuBoard.solveSudoku_answers _ (ro_size _ Hr)) as (a & Ha & Hs). exists (a :: results). by split; constructor.
Qed.

(** One read of the service. *)
Lemma service_one d y rs b c : Forall request_ok rs -> Buffer.wf b -> connected c = true ->
  Buffer.contents b ++ d ++ y = concat (map encode rs) -> zlen (Buffer.buffer_ b) + zlen d <= vector_max_size -> (d ++ y = [] -> rs = []) ->
  exists rs1 rs2 results b', rs = rs1 ++ rs2 /\ Forall2 (fun r a => solveSudoku (puzzle_of r) = Ret a) rs1 results /\
    serve onMessage_body [d] b c = Ret (b', mk true (sent c ++ zip_with reply rs1 results)) /\
    Buffer.wf b' /\ zlen (Buffer.buffer_ b') <= zlen (Buffer.buffer_ b) + zlen d /\
    Buffer.contents b' ++ y = concat (map encode rs2) /\ (y = [] -> rs2 = []).
Proof.
  intros Hok W Hc E Hz Hn.
  destruct (serve_one encode request_ok perform (fun _ _ => True) onMessage_body) with (c := d) (y := y) (rs := rs) (b := b) (s := c)
    as (rs1 & rs2 & b' & c' & -> & Es & Ep & _ & W' & Hz' & E' & Hy); try done.
  - intros r Hr. pose proof (encode_length r Hr). lia.
  - intros b0 c0 W0 Hb. unfold onMessage_body. by rewrite Buffer.readable_contents, Hb.
  - intros. by eapply body_partial.
  - intros r rs' b0 c0 x Hr _. by apply body_request.
  - apply list.Forall_app in Hok as [Hok _]. destruct (all_answered rs1 Hok) as (results & HA & _). exists rs1, rs2, results, b'.
    split_and!; try done. rewrite Es. destruct c as [up l]. cbn in Hc. subst up. rewrite (perform_all_replies rs1 results l HA) in Ep. by injection Ep as <-.
Qed.

(** C37. The service answers a stream of well-formed requests, in whatever pieces TCP delivers
    it, with exactly one reply per request, in the order of the requests, each with its id and
    an answer: a completed board for its puzzle, or "NoSolution" where none exists; the
    connection stays open and nothing is left in the buffer. *)
Theorem sudoku_service rs chunks : Forall request_ok rs ->
  concat chunks = concat (map encode rs) -> zlen (concat chunks) <= 2 ^ 62 ->
  returns (b ← Buffer.Buffer; serve onMessage_body chunks b (mk true [])) (fun '(b', c') => exists results,
    Forall2 (fun r a => SudokuBoard.answers (puzzle_of r) a) rs results /\
    c' = mk true (zip_with reply rs results) /\ Buffer.contents b' = []).
Proof.
  intros Hok E Hz. destruct (all_answered rs Hok) as (results & HA & HS).
  eapply returns_mono; [|apply (serve_stream encode request_ok perform (fun _ _ => True) onMessage_body) with (rs := rs); try done].
  - intros [b' c'] [Ep Hb]. exists results. split_and!; [done | | done].
    rewrite (perform_all_replies rs results [] HA) in Ep. by injection Ep.
  - intros r Hr. pose proof (encode_length r Hr). lia.
  - intros b c W Hb. unfold onMessage_body. by rewrite Buffer.readable_contents, Hb.
  - intros. by eapply body_partial.
  - intros r rs' b c x Hr _. by apply body_request.
Qed.

(** Two requests, one of them with an id, cut in the middle of the first puzzle and between
    the bytes of the last CRLF. *)
Lemma sudoku_service_witness :
  returns (b ← Buffer.Buffer; serve onMessage_body [lit "7:53007000060"; lit "0195000098000060800060003400803001700020006060000280000419005000080079" ++ Buffer.kCRLF ++ easy_puzzle ++ [x0d]; [x0a]] b (mk true []))
    (fun '(b', c') => exists results, Forall2 (fun r a => SudokuBoard.answers (puzzle_of r) a) [Named (lit "7") easy_puzzle; Plain easy_puzzle] results /\
      c' = mk true (zip_with reply [Named (lit "7") easy_puzzle; Plain easy_puzzle] results) /\ Buffer.contents b' = []).
Proof.
  apply (sudoku_service [Named (lit "7") easy_puzzle; Plain easy_puzzle]).
  - repeat (apply List.Forall_cons || apply List.Forall_nil); (split; [reflexivity | apply find_byte_None; reflexivity | reflexivity | discriminate]).
  - reflexivity.
  - vm_compute. discriminate.
Defined.

(** A line whose puzzle does not have 81 characters is refused and the connection shut down,
    once at least 83 bytes have arrived. *)
Lemma bad_request_refused l x b c : Buffer.wf b -> Buffer.contents b = l ++ Buffer.kCRLF ++ x -> clean l ->
  kCells + 2 <= zlen (Buffer.contents b) -> processRequest c l = Ret (false, c) ->
  returns (onMessage_body (b, c)) (fun r => exists b1, r = inr (b1, shutdown (send (lit "Bad Request!" ++ Buffer.kCRLF) c)) /\
    Buffer.contents b1 = x).
Proof.
  intros W Hx Hl Hz Hp. destruct (take_line l x b W Hx Hl) as (Hf & HL & b1 & Hr & W1 & E1 & Eb). unfold onMessage_body.
  rewrite Buffer.readable_contents, (proj2 (Z.leb_le _ _) Hz), Hf, bind_Ret, HL, bind_Ret, Hr, bind_Ret, Hp by done.
  cbn. by exists b1.
Qed.

Definition long_id : bytes := lit "a-request-identifier-of-34-letters".

Definition served (chunks : list bytes) : outcome (list bytes) :=
  '(_, c) ← (b ← Buffer.Buffer; serve onMessage_body chunks b (mk true [])); Ret (sent c).

(** Whether a long id is too long depends on how the request is cut into reads. *)
Lemma long_id_depends_on_reads :
  served [encode (Named long_id easy_puzzle)] = Ret [reply (Named long_id easy_puzzle) easy_answer] /\
  served [line (Named long_id easy_puzzle); Buffer.kCRLF] = Ret [lit "Id too long!" ++ Buffer.kCRLF].
Proof. split; vm_compute; reflexivity. Qed.

End SudokuServer.
