(* ===== verification/SudokuWire.v ===== *)
(** * The sudoku service at the other end of a connection

    What the compositions of a client with the service of server_basic.cc share: numbered
    requests that a client sends on a connection, of which the network delivers the bytes to the
    service in any pieces. *)

From S2P Require Import Prelude Endian NetBuffer Calendar Format TimeZone Sudoku SudokuBoard SudokuServer.

Module SudokuWire.
Import SudokuServer.

(** Bytes sent and not delivered yet. *)
Definition in_transit (delivered : nat) (c : conn) : bytes := drop delivered (concat (sent c)).

Lemma transit_take n d c : in_transit d c = take n (in_transit d c) ++ in_transit (d + length (take n (in_transit d c))) c.
Proof.
  unfold in_transit. rewrite length_take, length_drop. rewrite <-(take_drop n (drop d (concat (sent c)))) at 1. f_equal. rewrite drop_drop.
  destruct (decide (n <= length (concat (sent c)) - d)%nat) as [H|H]; [by rewrite Nat.min_l |]. rewrite !drop_ge; [done | lia..].
Qed.

Lemma transit_length n d c : (d <= length (concat (sent c)))%nat -> (d + length (take n (in_transit d c)) <= length (concat (sent c)))%nat.
Proof. unfold in_transit. rewrite length_take, length_drop. lia. Qed.

Lemma transit_app d c l : (d <= length (concat (sent c)))%nat -> in_transit d (mk true (sent c ++ l)) = in_transit d c ++ concat l.
Proof. intros H. unfold in_transit. cbn [sent]. by rewrite concat_app, drop_app_le. Qed.

(** A puzzle with a solution: its characters and those of the answer are digits. *)
Definition solvable (q : bytes) : Prop := zlen q = kCells /\ exists a, SudokuBoard.solution q a.

Lemma solvable_digits q : solvable q -> forall b, b ∈ q -> 48 <= b2Z b <= 57.
Proof.
  intros [_ [a [Hd _]]] b Hb. rewrite list.Forall_forall in Hd. unfold board_of in Hd.
  specialize (Hd (b2Z b - 48) (list_elem_of_fmap_2 (fun b => b2Z b - 48) _ _ Hb)). lia.
Qed.

Lemma solvable_answer q : solvable q -> exists a, solveSudoku q = Ret a /\ zlen a = kCells /\ forall b, b ∈ a -> 48 <= b2Z b <= 57.
Proof.
  intros [Hz [a Ha]]. destruct (SudokuBoard.solveSudoku_answers _ Hz) as (a' & E & [[_ HC] | [_ Hno]]); [|by destruct (Hno a)].
  exists a'. split; [done |]. pose proof (SudokuBoard.cp_length _ _ HC) as Hl. rewrite SudokuBoard.board_of_length in Hl.
  split; [done |]. intros b Hb. apply list_elem_of_lookup in Hb as [k Hk]. pose proof (lookup_lt_Some _ _ _ Hk) as Hlt.
  pose proof (SudokuBoard.cp_digits _ _ HC (Z.of_nat k)) as Hc. rewrite SudokuBoard.in_cells, SudokuBoard.in_digits in Hc.
  unfold SudokuSolver.cell in Hc. rewrite Nat2Z.id in Hc. unfold zlen, kCells in Hl. specialize (Hc ltac:(lia)).
  assert (Hb : board_of a' !! k = Some (b2Z b - 48)) by (unfold board_of; by rewrite list_lookup_fmap, Hk).
  rewrite (nth_lookup_Some _ _ _ _ Hb) in Hc. lia.
Qed.

(** A part of numbered things. *)
Lemma seq_split {A} (f : Z -> A) i n l1 l2 : 0 <= n -> map f (seqZ i n) = l1 ++ l2 ->
  0 <= zlen l1 <= n /\ l1 = map f (seqZ i (zlen l1)) /\ l2 = map f (seqZ (i + zlen l1) (n - zlen l1)).
Proof.
  intros Hn E. assert (Hl : zlen l1 + zlen l2 = n) by (rewrite <-zlen_app, <-E; unfold zlen; rewrite length_map, length_seqZ; lia).
  pose proof (zlen_nonneg l1). pose proof (zlen_nonneg l2). split; [lia |].
  replace n with (zlen l1 + (n - zlen l1)) in E by lia. rewrite seqZ_app, map_app in E by lia.
  apply app_inj_1 in E; [split; symmetry; apply E |]. rewrite length_map, length_seqZ. unfold zlen. lia.
Qed.

Section wire.
Variables (req : Z -> request) (bound : Z).

Definition ans (i : Z) : bytes := match solveSudoku (puzzle_of (req i)) with Ret a => a | Crash _ => [] end.
Definition rep_of (i : Z) : bytes := reply (req i) (ans i).
Definition requests (i n : Z) : bytes := concat (map (fun i => encode (req i)) (seqZ i n)).
Definition replies (i n : Z) : bytes := concat (map rep_of (seqZ i n)).

Lemma requests_app i n m : 0 <= n -> 0 <= m -> requests i (n + m) = requests i n ++ requests (i + n) m.
Proof. intros. unfold requests. by rewrite seqZ_app, map_app, concat_app by lia. Qed.

Lemma requests_one i : requests i 1 = encode (req i).
Proof. unfold requests. change (seqZ i 1) with [0 + i]. cbn [map concat]. by rewrite Z.add_0_l, app_nil_r. Qed.

Lemma replies_app i n m : 0 <= n -> 0 <= m -> replies i (n + m) = replies i n ++ replies (i + n) m.
Proof. intros. unfold replies. by rewrite seqZ_app, map_app, concat_app by lia. Qed.

Lemma replies_nil i m : replies i m = [] -> m <= 0.
Proof.
  intros H. destruct (decide (m <= 0)) as [? | Hm]; [done |]. exfalso. unfold replies in H. rewrite seqZ_cons in H by lia. cbn [map concat] in H.
  apply app_nil in H as [H _]. unfold rep_of, reply in H. destruct (req i) as [q|[|x l] q]; [| | done]; by apply app_nil in H as [_ ?].
Qed.

(** The service answers requests [ks] to [ks + m - 1]. *)
Lemma service_replies ks m results : Forall2 (fun r a => solveSudoku (puzzle_of r) = Ret a) (map req (seqZ ks m)) results ->
  concat (zip_with reply (map req (seqZ ks m)) results) = replies ks m.
Proof.
  intros H. unfold replies. generalize (seqZ ks m) as l, results, H. clear. intros l. induction l as [|i l IH]; intros results H; [done |].
  cbn [map] in H. apply Forall2_cons_inv_l in H as (a & results' & Ha & H & ->). cbn [map zip_with concat]. rewrite (IH results' H). f_equal.
  unfold rep_of, ans. by rewrite Ha.
Qed.

Hypothesis req_ok : forall i, 0 <= i < bound -> request_ok (req i).

Lemma reqs_length i n : 0 <= n -> 0 <= i -> i + n <= bound -> n <= zlen (requests i n).
Proof using req_ok.
  intros Hn Hi. rewrite <-(Z2Nat.id n) by done. generalize (Z.to_nat n). clear n Hn. intros n. induction n as [|n IH] in i, Hi |- *; intros Hb; [apply zlen_nonneg |].
  replace (Z.of_nat (S n)) with (1 + Z.of_nat n) by lia. rewrite requests_app, requests_one, zlen_app by lia.
  specialize (IH (i + 1) ltac:(lia) ltac:(lia)). pose proof (encode_length (req i) (req_ok i ltac:(lia))). unfold zlen in *. lia.
Qed.

(** Every request the service has taken off was delivered. *)
Lemma delivered_requests k n d c rest : 0 <= k -> 0 <= n -> k + n <= bound -> concat (sent c) = requests 0 (k + n) ->
  rest ++ in_transit d c = requests k n -> (d <= length (concat (sent c)))%nat -> k <= Z.of_nat d.
Proof using req_ok.
  intros Hk Hn Hb Hs E Hd. pose proof (reqs_length 0 k Hk ltac:(lia) ltac:(lia)) as Hq.
  rewrite (requests_app 0 k n), Z.add_0_l in Hs by lia. apply (f_equal length) in Hs, E. rewrite length_app in Hs, E.
  unfold in_transit in E. rewrite length_drop in E. unfold zlen in Hq. lia.
Qed.

(** *** The service's end

    The client has sent requests 0 to [M - 1] on [out], of which [d] bytes were delivered; the
    service, with buffer [sb] and connection [sv], has answered [ks] of them. *)
Record serving (M ks : Z) (out sv : conn) (sb : Buffer.t) (d : nat) : Prop := {
  sv_range : 0 <= ks <= M;
  sv_sent : concat (sent out) = requests 0 M;
  sv_up : connected sv = true;
  sv_replied : concat (sent sv) = replies 0 ks;
  sv_buf : Buffer.wf sb /\ zlen (Buffer.buffer_ sb) <= 1032 + Z.of_nat d;
  sv_requests : Buffer.contents sb ++ in_transit d out = requests ks (M - ks);
  sv_idle : in_transit d out = [] -> ks = M;
  sv_delivered : (d <= length (concat (sent out)))%nat /\ ks <= Z.of_nat d
}.

Lemma serving_delivery n M ks out sv sb d : serving M ks out sv sb d -> M <= bound -> Z.of_nat d + Z.of_nat n < 2 ^ 62 ->
  let chunk := take n (in_transit d out) in
  exists m l b', Lines.serve onMessage_body [chunk] sb sv = Ret (b', mk true (sent sv ++ l)) /\ concat l = replies ks m /\ 0 <= m /\
    serving M (ks + m) out (mk true (sent sv ++ l)) b' (d + length chunk).
Proof using req_ok.
  intros [Hr Hs Hsv Hrep [Wsb Hsb] Erq Hsi (D1 & D3)] HM Hn chunk.
  pose proof (transit_take n d out) as Et. fold chunk in Et. assert (Hd : (length chunk <= n)%nat) by (unfold chunk; rewrite length_take; lia). rewrite Et in Erq.
  destruct (service_one chunk (in_transit (d + length chunk) out) (map req (seqZ ks (M - ks))) sb sv)
    as (rs1 & rs2 & results & b' & Er & HA & Es & W' & Hz' & E' & Hy); try done.
  - apply list.Forall_forall. intros r (i & -> & Hi%elem_of_seqZ)%list_elem_of_fmap. apply req_ok. lia.
  - rewrite Erq. unfold requests. by rewrite map_map.
  - unfold vector_max_size, zlen in *. lia.
  - intros Hd0. rewrite <-Et in Hd0. rewrite (Hsi Hd0). by rewrite Z.sub_diag.
  - set (m := zlen rs1) in *. pose proof (seq_split req ks (M - ks) rs1 rs2 ltac:(lia) Er) as Hm. fold m in Hm.
    destruct Hm as (Hm & E1 & E2). rewrite E1 in HA.
    assert (Ec : concat (zip_with reply rs1 results) = replies ks m) by (rewrite E1; by apply service_replies).
    assert (E3 : Buffer.contents b' ++ in_transit (d + length chunk) out = requests (ks + m) (M - (ks + m))).
    { rewrite E', E2. unfold requests. rewrite map_map. by replace (M - (ks + m)) with (M - ks - m) by lia. }
    exists m, (zip_with reply rs1 results), b'. split_and!; [done | done | lia |].
    pose proof (transit_length n d out D1) as Ht. fold chunk in Ht. split; cbn [connected sent]; try done; [lia | | | |].
    + rewrite concat_app, Hrep, Ec. by rewrite <-replies_app by lia.
    + split; [done | unfold zlen in *; lia].
    + intros H0. specialize (Hy H0). rewrite E2 in Hy. apply (f_equal length) in Hy. rewrite length_map, length_seqZ in Hy. cbn in Hy. lia.
    + split; [done |]. apply (delivered_requests (ks + m) (M - (ks + m)) (d + length chunk) out (Buffer.contents b')); try lia; [|done].
      rewrite Hs. f_equal. lia.
Qed.

(** The client sends [m] more requests. *)
Lemma serving_more m M ks out out' sv sb d : serving M ks out sv sb d -> 0 <= m -> M + m <= bound -> concat (sent out') = requests 0 (M + m) ->
  serving (M + m) ks out' sv sb d.
Proof using req_ok.
  intros [Hr Hs Hsv Hrep Hb Erq Hsi (D1 & D3)] Hm Hbd Hs'.
  assert (Etr : in_transit d out' = in_transit d out ++ requests M m).
  { unfold in_transit. rewrite Hs', Hs in *. rewrite requests_app, Z.add_0_l by lia. by rewrite drop_app_le. }
  split; try done; [lia | | |].
  - rewrite Etr, app_assoc, Erq. replace M with (ks + (M - ks)) at 2 by lia. rewrite <-requests_app by lia. f_equal. lia.
  - rewrite Etr. intros [H0 H1]%app_nil. specialize (Hsi H0). pose proof (reqs_length M m ltac:(lia) ltac:(lia) ltac:(lia)) as Hq.
    rewrite H1 in Hq. change (zlen []) with 0 in Hq. lia.
  - split; [|done]. rewrite Hs'. rewrite Hs in D1. rewrite requests_app, length_app by lia. lia.
Qed.

Lemma serving_start M out : concat (sent out) = requests 0 M -> 0 <= M <= bound ->
  returns Buffer.Buffer (fun b => serving M 0 out (mk true []) b 0).
Proof using req_ok.
  intros Hs HM. eapply returns_mono; [|apply Buffer.Buffer_ok]. intros b [W E _ _ V]. cbn [Buffer.q_bytes Buffer.q_vol Buffer.empty_queue] in *.
  assert (Et : in_transit 0 out = requests 0 M) by (unfold in_transit; by rewrite Hs, drop_0).
  split; try done; try lia.
  - rewrite E, Et. by rewrite Z.sub_0_r.
  - rewrite Et. intros H0. pose proof (reqs_length 0 M ltac:(lia) ltac:(lia) ltac:(lia)) as Hq. rewrite H0 in Hq. change (zlen []) with 0 in Hq. lia.
Qed.

End wire.
End SudokuWire.
