(* ===== verification/SudokuClient.v ===== *)
(** * excercises/sudoku/pipeline.cc: a client of the service

    The pipeline client keeps a fixed number of requests in flight: it sends them when it is
    connected, and one more for every response.  It is composed with the service of
    server_basic.cc over a network that delivers the bytes of both directions in any pieces and
    in any interleaving. *)

From S2P Require Import Prelude Endian NetBuffer Calendar Format TimeZone Sudoku SudokuBoard SudokuServer SudokuWire.

Module PipelineClient.
Import SudokuServer.

Record t := SudokuClient {
  name_ : bytes;
  pipelines_ : Z;
  conn_ : bool;                        (* whether the pointer is set *)
  input_ : list bytes;
  count_ : Z;
  sendTime_ : gmap Z Timestamp.t;
  latencies_ : list Z
}.

Definition make (input : list bytes) (name : bytes) (pipelines : Z) : t := SudokuClient name pipelines false input 0 ∅ [].

(** [readInput] on the lines of the file: those of 81 characters, as C strings. *)
Definition readInput (lines : list bytes) : list bytes :=
  map TimeZone.c_string (List.filter (fun line => zlen line =? kCells) lines).

Definition set_conn (b : bool) (s : t) : t := SudokuClient (name_ s) (pipelines_ s) b (input_ s) (count_ s) (sendTime_ s) (latencies_ s).

(** The text of request [count]: the length that [snprintf] answers is that of the whole text,
    also when [buf] holds only 255 characters of it. *)
Definition dash : byte := "-"%byte.
Definition request_text (name : bytes) (count : Z) (req : bytes) : bytes :=
  TimeZone.c_string name ++ [dash] ++ pad0 8 count ++ [colon] ++ TimeZone.c_string req ++ Buffer.kCRLF.

(** One turn of the loop of [send]. *)
Definition add_request (now : Timestamp.t) (s : t) (requests : Buffer.t) : outcome (t * Buffer.t) :=
  match input_ s with
  | [] => Crash DivisionByZero
  | _ =>
      let req := nth (Z.to_nat (u64 (count_ s) mod zlen (input_ s))) (input_ s) [] in
      let text := request_text (name_ s) (count_ s) req in
      data ← load 0 (zlen text) (snprintf 256 text ++ [x00]);
      requests' ← Buffer.append data requests;
      count' ← i32 (count_ s + 1);
      Ret (SudokuClient (name_ s) (pipelines_ s) (conn_ s) (input_ s) count' (<[count_ s := now]> (sendTime_ s)) (latencies_ s), requests')
  end.

Fixpoint add_requests (n : nat) (now : Timestamp.t) (s : t) (requests : Buffer.t) : outcome (t * Buffer.t) :=
  match n with
  | O => Ret (s, requests)
  | S n' => '(s1, r1) ← add_request now s requests; add_requests n' now s1 r1
  end.

(** [Timestamp::now()], as a function of the number of the request. *)
Section client.
Variable clock : Z -> Timestamp.t.

Definition send (n : Z) (st : t * conn) : outcome (t * conn) :=
  let '(s, c) := st in
  requests ← Buffer.Buffer;
  '(s1, r1) ← add_requests (Z.to_nat n) (clock (count_ s)) s requests;
  if conn_ s1 then
    data ← load (Buffer.peek r1) (Buffer.readableBytes r1) (Buffer.buffer_ r1);
    Ret (s1, SudokuServer.send data c)
  else Crash NullPointer.

Definition onConnection (st : t * conn) : outcome (t * conn) :=
  let '(s, c) := st in
  if connected c then send (pipelines_ s) (set_conn true s, c) else Ret (set_conn false s, c).

Definition verify (response : bytes) (recvTime : Timestamp.t) (s : t) : outcome (bool * t) :=
  match find_byte colon response, find_byte dash response with
  | Some col, Some d =>
      if (d <? col)%nat then
        id ← atoi (TimeZone.c_string (drop (d + 1) response));
        match sendTime_ s !! id with
        | Some sent =>
            latency_us ← i64 (Timestamp.microSecondsSinceEpoch_ recvTime - Timestamp.microSecondsSinceEpoch_ sent);
            Ret (true, SudokuClient (name_ s) (pipelines_ s) (conn_ s) (input_ s) (count_ s) (delete id (sendTime_ s))
                         (latencies_ s ++ [s32 latency_us]))
        | None => Ret (true, s)
        end
      else Ret (true, s)
  | _, _ => Ret (true, s)
  end.

Definition onMessage_body (recvTime : Timestamp.t) (st : Buffer.t * (t * conn)) :
    outcome ((Buffer.t * (t * conn)) + (Buffer.t * (t * conn))) :=
  let '(buf, (s, c)) := st in
  let len := Buffer.readableBytes buf in
  if kCells + 2 <=? len then
    crlf ← Buffer.findCRLF buf;
    match crlf with
    | Some crlf =>
        response ← load (Buffer.peek buf) (crlf - Buffer.peek buf) (Buffer.buffer_ buf);
        buf1 ← Buffer.retrieveUntil (crlf + 2) buf;
        '(good, s1) ← verify response recvTime s;
        if (good : bool) then st1 ← send 1 (s1, c); Ret (inl (buf1, st1))
        else Ret (inr (buf1, (s1, shutdown c)))
    | None => if 100 <? len then Ret (inr (buf, (s, shutdown c))) else Ret (inr (buf, (s, c)))
    end
  else Ret (inr (buf, (s, c))).

(** [report]: the latencies are handed over, the requests in flight counted. *)
Definition report (latency : list Z) (infly : Z) (s : t) : outcome (list Z * Z * t) :=
  infly' ← i32 (infly + Z.of_nat (size (sendTime_ s)));
  Ret (latency ++ latencies_ s, infly', SudokuClient (name_ s) (pipelines_ s) (conn_ s) (input_ s) (count_ s) (sendTime_ s) []).

End client.

(** ** What is on the wire *)

(** Texts: no NUL, no carriage return, and neither of the separators. *)
Definition plain (l : bytes) : Prop := (x00 ∉ l) /\ (x0d ∉ l) /\ (colon ∉ l) /\ (dash ∉ l).

Lemma plain_app l1 l2 : plain (l1 ++ l2) <-> plain l1 /\ plain l2.
Proof. unfold plain. rewrite !elem_of_app. tauto. Qed.

Lemma digit_plain l : (forall b, b ∈ l -> 48 <= b2Z b <= 57) -> plain l.
Proof. intros H. unfold plain. split_and!; intros Hb%H; vm_compute in Hb; destruct Hb as [H1 H2]; by (apply H1 || apply H2). Qed.

Lemma c_string_id l : x00 ∉ l -> TimeZone.c_string l = l.
Proof. intros H. unfold TimeZone.c_string. by rewrite (proj2 (find_byte_None _ _) H). Qed.

Lemma no_cr_clean l : x0d ∉ l -> Lines.clean l.
Proof.
  intros H. unfold Lines.clean. destruct (search Buffer.kCRLF l) as [k|] eqn:E; [|done].
  apply search_Some in E as (l1 & l2 & -> & _). destruct H. rewrite !elem_of_app. right. left. left.
Qed.

Lemma pad0_digits w n : 0 <= n -> exists ds, mapM dec_digit (pad0 w n) = Some ds /\ value_of 10 ds = n /\ pad0 w n <> [].
Proof.
  intros Hn. pose proof (read_pad0 w n Hn) as H. unfold read_nonneg in H. destruct (pad0 w n); [done |].
  destruct (mapM dec_digit _) as [ds|]; [|done]. exists ds. by injection H as H.
Qed.

Lemma pad0_length n : 0 <= n < 2 ^ 31 -> 8 <= zlen (pad0 8 n) <= 10.
Proof.
  intros Hn. destruct (decide (n < 10 ^ 8)) as [H|H]; [rewrite pad0_width; lia |].
  unfold pad0. rewrite (proj2 (Z.ltb_ge n 0)), Z.abs_eq by lia. cbn [app]. pose proof (zlen_show_nonneg n 10 ltac:(lia) ltac:(lia)) as Hs.
  assert (8 < zlen (show_nonneg n)).
  { destruct (decide (8 < zlen (show_nonneg n))); [done |]. exfalso. unfold show_nonneg, zlen in *. rewrite length_map in *.
    pose proof (value_of_digits 10 n ltac:(lia) ltac:(lia)) as Hv. pose proof (digits_range 10 n ltac:(lia) ltac:(lia)) as Hr.
    assert (Hb : forall ds, Forall (fun d => 0 <= d < 10) ds -> value_of 10 ds < 10 ^ Z.of_nat (length ds)).
    { intros ds. induction ds as [|d ds IH] using rev_ind; intros Hd; [done |]. apply Forall_app in Hd as [Hd1 Hd2]. rewrite value_of_snoc, length_app.
      apply list.Forall_cons in Hd2 as [Hd2 _]. specialize (IH Hd1). cbn [length]. rewrite Nat2Z.inj_add, Z.pow_add_r by lia. change (10 ^ Z.of_nat 1) with 10. lia. }
    specialize (Hb _ Hr). rewrite Hv in Hb. assert (10 ^ Z.of_nat (length (digits 10 n)) <= 10 ^ 8) by (apply Z.pow_le_mono_r; lia). lia. }
  rewrite zlen_app, zlen_replicate. change (zlen []) with 0. lia.
Qed.

(** [atoi] reads the number of a request back. *)
Lemma atoi_pad0 n rest : 0 <= n < 2 ^ 31 -> atoi (pad0 8 n ++ colon :: rest) = Ret n.
Proof.
  intros Hn. destruct (pad0_digits 8 n) as (ds & Hm & Hv & Hne); [lia |]. unfold atoi. rewrite (strtol_digits _ ds) by done. rewrite Hv. apply i32_ok. lia.
Qed.

(** ** The client and the service over a network *)

Record world := World {
  client : t * conn;
  client_buffer : Buffer.t;
  server : conn;
  server_buffer : Buffer.t;
  to_server : nat;                     (* bytes delivered *)
  to_client : nat
}.

Inductive delivery := ToServer (n : nat) | ToClient (n : nat) (recvTime : Timestamp.t).

Definition bytes_of (d : delivery) : Z := match d with ToServer n | ToClient n _ => Z.of_nat n end.

Abbreviation in_transit := SudokuWire.in_transit.

Section pipeline.
Variables (name : bytes) (input : list bytes) (p : Z) (clock : Z -> Timestamp.t).

Definition deliver (d : delivery) (w : world) : outcome world :=
  match d with
  | ToServer n =>
      let chunk := take n (in_transit (to_server w) (client w).2) in
      '(b, c) ← Lines.serve SudokuServer.onMessage_body [chunk] (server_buffer w) (server w);
      Ret (World (client w) (client_buffer w) c b (to_server w + length chunk) (to_client w))
  | ToClient n recvTime =>
      let chunk := take n (in_transit (to_client w) (server w)) in
      '(b, st) ← Lines.serve (onMessage_body clock recvTime) [chunk] (client_buffer w) (client w);
      Ret (World st b (server w) (server_buffer w) (to_server w) (to_client w + length chunk))
  end.

Fixpoint deliveries (ds : list delivery) (w : world) : outcome world :=
  match ds with [] => Ret w | d :: ds' => w1 ← deliver d w; deliveries ds' w1 end.

Definition start : outcome world :=
  st ← onConnection clock (make input name p, mk true []);
  b1 ← Buffer.Buffer; b2 ← Buffer.Buffer;
  Ret (World st b1 (mk true []) b2 0 0).

Record setup_ok : Prop := {
  su_name : plain name /\ zlen name <= 6;
  su_input : input <> [];
  su_puzzles : forall q, q ∈ input -> SudokuWire.solvable q;
  su_pipelines : 0 < p < 2 ^ 31;
  su_clock : forall i, 0 <= Timestamp.microSecondsSinceEpoch_ (clock i) < 2 ^ 62
}.
Hypothesis setup : setup_ok.

(** Request number [i] and its reply. *)
Definition puz (i : Z) : bytes := nth (Z.to_nat (i mod zlen input)) input [].
Definition req (i : Z) : request := Named (name ++ [dash] ++ pad0 8 i) (puz i).
Definition ans (i : Z) : bytes := SudokuWire.ans req i.
Definition rep_of (i : Z) : bytes := SudokuWire.rep_of req i.
Definition requests (i n : Z) : bytes := SudokuWire.requests req i n.
Definition replies (i n : Z) : bytes := SudokuWire.replies req i n.

Lemma input_length : 0 < zlen input.
Proof using setup. pose proof (su_input setup) as Hi. clear setup. unfold zlen. destruct input as [|q l]; [done | cbn [length]; lia]. Qed.

Lemma puz_in i : puz i ∈ input.
Proof using setup.
  pose proof input_length. apply list_elem_of_In, nth_In. pose proof (Z.mod_pos_bound i (zlen input)). unfold zlen in *. lia.
Qed.

Lemma puz_ok i : zlen (puz i) = kCells /\ forall b, b ∈ puz i -> 48 <= b2Z b <= 57.
Proof using setup. pose proof (su_puzzles setup _ (puz_in i)) as H. split; [apply H | by apply SudokuWire.solvable_digits]. Qed.

Lemma ans_ok i : solveSudoku (puz i) = Ret (ans i) /\ zlen (ans i) = kCells /\ forall b, b ∈ ans i -> 48 <= b2Z b <= 57.
Proof using setup.
  destruct (SudokuWire.solvable_answer _ (su_puzzles setup _ (puz_in i))) as (a & E & H). unfold ans, SudokuWire.ans. cbn [req puzzle_of]. by rewrite E.
Qed.

Lemma id_ok i : 0 <= i < 2 ^ 31 -> (x00 ∉ name ++ [dash] ++ pad0 8 i) /\ (x0d ∉ name ++ [dash] ++ pad0 8 i) /\
  (colon ∉ name ++ [dash] ++ pad0 8 i) /\ 9 <= zlen (name ++ [dash] ++ pad0 8 i) <= 17.
Proof using setup.
  intros Hi. destruct (su_name setup) as [(N0 & N1 & N2 & N3) Hz]. destruct (pad0_digits 8 i) as (ds & Hm & _); [lia |].
  destruct (digit_plain _ (dec_digits_range _ _ Hm)) as (P0 & P1 & P2 & _). pose proof (pad0_length i Hi). pose proof (zlen_nonneg name).
  rewrite !elem_of_app, !list_elem_of_singleton. split_and!; try (intros [? | [? | ?]]; done); rewrite !zlen_app; change (zlen [dash]) with 1; lia.
Qed.

(** The service takes every request of the client. *)
Lemma req_ok i : 0 <= i < 2 ^ 31 -> request_ok (req i).
Proof using setup.
  intros Hi. destruct (puz_ok i) as [Hz Hd]. destruct (id_ok i Hi) as (I0 & I1 & I2 & Hl). destruct (digit_plain _ Hd) as (_ & P1 & _).
  split; cbn [puzzle_of req]; [done | done | |].
  - apply no_cr_clean. cbn [line req]. rewrite elem_of_app, elem_of_cons. intros [? | [? | ?]]; done.
  - cbn [line req]. rewrite zlen_app, zlen_cons, Hz. unfold kCells. lia.
Qed.

(** *** The client's operations *)

(** Requests [lo] to [hi - 1] are in flight. *)
Record flying (lo hi : Z) (s : t) : Prop := {
  fl_name : name_ s = name;
  fl_pipelines : pipelines_ s = p;
  fl_input : input_ s = input;
  fl_conn : conn_ s = true;
  fl_count : count_ s = hi;
  fl_times : forall i, match sendTime_ s !! i with
                       | Some tm => lo <= i < hi /\ 0 <= Timestamp.microSecondsSinceEpoch_ tm < 2 ^ 62
                       | None => ~ lo <= i < hi
                       end;
  fl_latencies : zlen (latencies_ s) = lo
}.

Lemma client_requests_app i n m : 0 <= n -> 0 <= m -> requests i (n + m) = requests i n ++ requests (i + n) m.
Proof. apply SudokuWire.requests_app. Qed.

Lemma client_requests_one i : requests i 1 = encode (req i).
Proof. apply SudokuWire.requests_one. Qed.

Lemma request_text_ok i : 0 <= i < 2 ^ 31 -> request_text name i (puz i) = encode (req i) /\ zlen (encode (req i)) <= 101.
Proof using setup.
  intros Hi. destruct (puz_ok i) as [Hz Hd]. destruct (id_ok i Hi) as (_ & _ & _ & Hl). destruct (digit_plain _ Hd) as (P0 & _).
  destruct (su_name setup) as [(N0 & _) _]. unfold request_text, encode, req. cbn [line]. rewrite !c_string_id by done.
  split; [by rewrite <- !app_assoc |]. rewrite (zlen_app _ Buffer.kCRLF), zlen_app, zlen_cons, Hz. change (zlen Buffer.kCRLF) with 2. unfold kCells. lia.
Qed.

Lemma add_request_ok now lo hi s b : flying lo hi s -> 0 <= lo <= hi -> hi < 2 ^ 31 - 1 -> Buffer.wf b ->
  0 <= Timestamp.microSecondsSinceEpoch_ now < 2 ^ 62 -> zlen (Buffer.buffer_ b) + 101 <= vector_max_size ->
  returns (add_request now s b) (fun '(s', b') => flying lo (hi + 1) s' /\ Buffer.wf b' /\
    Buffer.contents b' = Buffer.contents b ++ encode (req hi) /\ zlen (Buffer.buffer_ b') <= zlen (Buffer.buffer_ b) + 101).
Proof using setup.
  intros [Hn Hp Hi Hc Hco Ht Hl] Hlo Hhi W Hnow Hz. pose proof input_length as Hin. destruct (request_text_ok hi) as [Et Htz]; [lia |].
  unfold add_request. rewrite Hi, Hn, Hco. destruct input as [|q0 qs] eqn:Einp; [unfold zlen in Hin; cbn in Hin; lia |]. rewrite <-Einp in *.
  rewrite u64_id by lia. change (nth (Z.to_nat (hi mod zlen input)) input []) with (puz hi). rewrite Et.
  assert (Hld : load 0 (zlen (encode (req hi))) (snprintf 256 (encode (req hi)) ++ [x00]) = Ret (encode (req hi))).
  { pose proof (zlen_nonneg (encode (req hi))). unfold snprintf. rewrite take_ge by (unfold zlen in *; lia).
    rewrite load_ok by (rewrite ?zlen_app; change (zlen [x00]) with 1; lia). unfold slice, zlen. change (Z.to_nat 0) with 0%nat.
    by rewrite drop_0, Nat2Z.id, take_app_length. }
  rewrite Hld, bind_Ret. eapply returns_seq; [apply Buffer.append_ok; [done | lia] |]. intros b' (W' & E' & _ & Hz').
  rewrite i32_ok, bind_Ret by lia. split_and!; [|done|done|lia]. split; cbn; try done.
  intros i. destruct (decide (i = hi)) as [-> | Hne]; [rewrite lookup_insert_eq; lia |].
  rewrite lookup_insert_ne by done. specialize (Ht i). destruct (sendTime_ s !! i); lia.
Qed.

Lemma add_requests_ok now n lo : forall hi s b, flying lo hi s -> 0 <= lo <= hi -> hi + Z.of_nat n < 2 ^ 31 -> Buffer.wf b ->
  0 <= Timestamp.microSecondsSinceEpoch_ now < 2 ^ 62 -> zlen (Buffer.buffer_ b) + 101 * Z.of_nat n <= vector_max_size ->
  returns (add_requests n now s b) (fun '(s', b') => flying lo (hi + Z.of_nat n) s' /\ Buffer.wf b' /\
    Buffer.contents b' = Buffer.contents b ++ requests hi (Z.of_nat n) /\ zlen (Buffer.buffer_ b') <= zlen (Buffer.buffer_ b) + 101 * Z.of_nat n).
Proof using setup.
  induction n as [|n IH]; intros hi s b F Hlo Hhi W Hnow Hz; cbn [add_requests].
  - change (Z.of_nat 0) with 0. rewrite Z.add_0_r. split_and!; try done; [unfold requests; by rewrite app_nil_r | lia].
  - eapply returns_seq; [apply (add_request_ok now lo hi); try done; lia |]. intros [s1 b1] (F1 & W1 & E1 & Hz1).
    eapply returns_mono; [|apply (IH (hi + 1)); try done; lia]. intros [s2 b2] (F2 & W2 & E2 & Hz2).
    replace (hi + 1 + Z.of_nat n) with (hi + Z.of_nat (S n)) in F2 by lia. split_and!; try done; [|lia].
    rewrite E2, E1, <-app_assoc. replace (Z.of_nat (S n)) with (1 + Z.of_nat n) by lia. by rewrite client_requests_app, client_requests_one by lia.
Qed.

Lemma send_flying n lo hi s c : flying lo hi s -> 0 <= lo <= hi -> 0 <= n -> hi + n < 2 ^ 31 -> connected c = true ->
  returns (send clock n (s, c)) (fun '(s', c') => flying lo (hi + n) s' /\ c' = mk true (sent c ++ [requests hi n])).
Proof using setup.
  intros F Hlo Hn Hhi Hc. unfold send. eapply returns_seq; [apply Buffer.Buffer_ok |]. intros b [W Hb _ _ Hv].
  cbn [Buffer.q_bytes Buffer.q_vol Buffer.empty_queue] in *. eapply returns_seq; [apply (add_requests_ok _ (Z.to_nat n) lo hi); try done|].
  - lia.
  - apply (su_clock setup).
  - unfold Buffer.kCheapPrepend, Buffer.kInitialSize, vector_max_size in *. lia.
  - intros [s1 r1] (F1 & W1 & E1 & _). rewrite Z2Nat.id in F1, E1 by done. rewrite Hb in E1. cbn [app] in E1.
    rewrite (fl_conn _ _ _ F1). rewrite Buffer.readable_ok by done. unfold Buffer.peek. rewrite Buffer.load_contents, bind_Ret by done.
    split; [done |]. unfold SudokuServer.send. by rewrite Hc, E1.
Qed.

Definition response (i : Z) : bytes := (name ++ [dash] ++ pad0 8 i) ++ colon :: ans i.

Lemma rep_of_response i : 0 <= i < 2 ^ 31 -> rep_of i = response i ++ Buffer.kCRLF.
Proof using setup.
  intros Hi. destruct (id_ok i Hi) as (_ & _ & _ & Hl). unfold rep_of, SudokuWire.rep_of, response, reply, req at 1. fold (ans i).
  destruct (name ++ [dash] ++ pad0 8 i) as [|x id]; [change (zlen []) with 0 in Hl; lia |]. cbn [app]. by rewrite <-app_assoc.
Qed.

Lemma response_ok i : 0 <= i < 2 ^ 31 -> Lines.clean (response i) /\ 91 <= zlen (response i) <= 99.
Proof using setup.
  intros Hi. destruct (id_ok i Hi) as (_ & I1 & _ & Hl). destruct (ans_ok i) as (_ & Hz & Hd). destruct (digit_plain _ Hd) as (_ & A1 & _).
  unfold response. split.
  - apply no_cr_clean. rewrite elem_of_app, elem_of_cons. intros [? | [? | ?]]; done.
  - rewrite zlen_app, zlen_cons, Hz. unfold kCells. lia.
Qed.

(** A response is matched with its request. *)
Lemma verify_ok tm k hi s : flying k hi s -> 0 <= k < hi -> hi < 2 ^ 31 -> 0 <= Timestamp.microSecondsSinceEpoch_ tm < 2 ^ 62 ->
  returns (verify (response k) tm s) (fun '(good, s') => good = true /\ flying (k + 1) hi s').
Proof using setup.
  intros [Hn Hp Hi Hc Hco Ht Hl] Hk Hhi Htm. destruct (id_ok k) as (I0 & I1 & I2 & _); [lia |]. destruct (su_name setup) as [(N0 & N1 & N2 & N3) _].
  unfold verify. assert (Hc' : find_byte colon (response k) = Some (length (name ++ [dash] ++ pad0 8 k))) by (by apply find_byte_app).
  rewrite Hc'.
  assert (Ed : response k = name ++ dash :: pad0 8 k ++ colon :: ans k) by (unfold response; by rewrite <- !app_assoc).
  assert (Hf : find_byte dash (response k) = Some (length name)) by (rewrite Ed; by apply find_byte_app).
  rewrite Hf. rewrite (proj2 (Nat.ltb_lt _ _)) by (rewrite !length_app; cbn [length]; lia).
  assert (Hdr : drop (length name + 1) (response k) = pad0 8 k ++ colon :: ans k).
  { rewrite Ed. change (dash :: pad0 8 k ++ colon :: ans k) with ([dash] ++ pad0 8 k ++ colon :: ans k). rewrite app_assoc.
    replace (length name + 1)%nat with (length (name ++ [dash])) by (by rewrite length_app). by rewrite drop_app_length. }
  rewrite Hdr. destruct (ans_ok k) as (_ & _ & Hd). destruct (digit_plain _ Hd) as (A0 & _). rewrite c_string_id.
  2:{ rewrite elem_of_app, elem_of_cons. rewrite !elem_of_app in I0. intros [? | [? | ?]]; [tauto | done | done]. }
  rewrite atoi_pad0, bind_Ret by lia. pose proof (Ht k) as Hk'. destruct (sendTime_ s !! k) as [sent|] eqn:E; [|lia].
  rewrite i64_ok, bind_Ret by lia. split; [done |]. split; cbn; try done.
  - intros i. destruct (decide (i = k)) as [-> | Hne]; [rewrite lookup_delete_eq; lia |]. rewrite lookup_delete_ne by done.
    specialize (Ht i). destruct (sendTime_ s !! i); lia.
  - rewrite zlen_app, Hl. done.
Qed.

(** *** A delivery to the client *)

(** What holds before the responses [rs], the last of which is number [K - 1]. *)
Definition before (K : Z) (rs : list Z) (st : t * conn) : Prop :=
  let k := K - zlen rs in
  0 <= k /\ K + p < 2 ^ 31 /\ rs = seqZ k (zlen rs) /\ flying k (k + p) st.1 /\ connected st.2 = true /\
  concat (sent st.2) = requests 0 (k + p).

Definition take_response (tm : Timestamp.t) (i : Z) (st : t * conn) : outcome (t * conn) :=
  '(_, s1) ← verify (response i) tm st.1; send clock 1 (s1, st.2).

Lemma client_partial tm i b st x y : 0 <= i < 2 ^ 31 -> Buffer.wf b -> Buffer.contents b ++ y = rep_of i ++ x ->
  (length (Buffer.contents b) < length (rep_of i))%nat -> onMessage_body clock tm (b, st) = Ret (inr (b, st)).
Proof using setup.
  intros Hi W E Hl. destruct (response_ok i Hi) as [Hc Hz]. rewrite rep_of_response in * by done. destruct st as [s c]. unfold onMessage_body.
  rewrite Buffer.readable_contents by done. destruct (kCells + 2 <=? zlen (Buffer.contents b)); [|done].
  rewrite Buffer.contents_findCRLF, bind_Ret by done. rewrite <-app_assoc in E. rewrite length_app in Hl.
  rewrite (Lines.search_prefix (response i) _ y x) by done. cbn [fmap option_fmap option_map].
  rewrite (proj2 (Z.ltb_ge 100 _)); [done |]. unfold zlen in *. change (length Buffer.kCRLF) with 2%nat in Hl. lia.
Qed.

Lemma client_response tm K i rs b st x : 0 <= Timestamp.microSecondsSinceEpoch_ tm < 2 ^ 62 -> before K (i :: rs) st -> Buffer.wf b ->
  Buffer.contents b = rep_of i ++ x -> exists b1 st1, onMessage_body clock tm (b, st) = Ret (inl (b1, st1)) /\
    take_response tm i st = Ret st1 /\ before K rs st1 /\ Buffer.wf b1 /\ Buffer.contents b1 = x /\ Buffer.buffer_ b1 = Buffer.buffer_ b.
Proof using setup.
  intros Htm (Hk & HK & Hrs & F & Hc & Hs) W Hx. destruct st as [s c]. cbn [fst snd] in *. pose proof (zlen_nonneg rs) as Hz. pose proof (su_pipelines setup) as Hp.
  rewrite zlen_cons in *. rewrite seqZ_cons in Hrs by lia. injection Hrs as Ei Hrs. assert (HKi : K = i + 1 + zlen rs) by lia. rewrite <-Ei in *. clear Ei.
  destruct (response_ok i) as [Hcl Hrz]; [lia |]. rewrite rep_of_response in Hx by lia. rewrite <-app_assoc in Hx.
  destruct (Lines.take_line (response i) x b W Hx Hcl) as (Hf & HL & b1 & Hu & W1 & E1 & Eb).
  pose proof (verify_ok tm i (i + p) s F ltac:(lia) ltac:(lia) Htm) as HV. unfold onMessage_body, take_response. cbn [fst snd].
  rewrite Buffer.readable_contents by done. rewrite (proj2 (Z.leb_le (kCells + 2) _)); [|rewrite Hx, !zlen_app; change (zlen Buffer.kCRLF) with 2; pose proof (zlen_nonneg x); unfold kCells; lia].
  rewrite Hf, bind_Ret, HL, bind_Ret, Hu, bind_Ret. destruct (verify (response i) tm s) as [[g s1]|]; [|done]. destruct HV as [-> F1]. rewrite !bind_Ret.
  pose proof (send_flying 1 (i + 1) (i + p) s1 c F1 ltac:(lia) ltac:(lia) ltac:(lia) Hc) as HS. destruct (send clock 1 (s1, c)) as [[s2 c2]|]; [|done].
  destruct HS as [F2 ->]. rewrite bind_Ret. exists b1, (s2, mk true (sent c ++ [requests (i + p) 1])). split_and!; try done.
  unfold before. cbn [fst snd]. replace (K - zlen rs) with (i + 1) by lia. replace (i + p + 1) with (i + 1 + p) in F2 by lia.
  split_and!; try done; [lia | |].
  - rewrite Hrs at 1. replace (Z.succ i) with (i + 1) by lia. f_equal. lia.
  - cbn [sent]. rewrite concat_app, Hs. cbn [concat]. rewrite app_nil_r. replace (i + 1 + p) with (i + p + 1) by lia.
    by rewrite (client_requests_app 0 (i + p) 1) by lia.
Qed.

Lemma client_one tm d y k n b s c : 0 <= Timestamp.microSecondsSinceEpoch_ tm < 2 ^ 62 -> 0 <= k -> 0 <= n -> k + n + p < 2 ^ 31 ->
  flying k (k + p) s -> connected c = true -> concat (sent c) = requests 0 (k + p) -> Buffer.wf b ->
  Buffer.contents b ++ d ++ y = replies k n -> zlen (Buffer.buffer_ b) + zlen d <= vector_max_size -> (d ++ y = [] -> n = 0) ->
  exists m s' c' b', 0 <= m <= n /\ Lines.serve (onMessage_body clock tm) [d] b (s, c) = Ret (b', (s', c')) /\
    flying (k + m) (k + m + p) s' /\ connected c' = true /\ concat (sent c') = requests 0 (k + m + p) /\ Buffer.wf b' /\
    zlen (Buffer.buffer_ b') <= zlen (Buffer.buffer_ b) + zlen d /\ Buffer.contents b' ++ y = replies (k + m) (n - m) /\ (y = [] -> m = n).
Proof using setup.
  intros Htm Hk Hn HK F Hc Hs W E Hz Hy. pose proof (su_pipelines setup) as Hp. assert (El : zlen (seqZ k n) = n) by (unfold zlen; rewrite length_seqZ; lia).
  destruct (Lines.serve_one rep_of (fun i => 0 <= i < 2 ^ 31) (take_response tm) (before (k + n)) (onMessage_body clock tm))
    with (c := d) (y := y) (rs := seqZ k n) (b := b) (s := (s, c)) as (rs1 & rs2 & b' & [s' c'] & Er & Es & _ & HI & W' & Hz' & E' & Hy'); try done.
  - intros i Hi. rewrite rep_of_response, length_app by done. cbn. lia.
  - intros b0 [s0 c0] W0 Hb. unfold onMessage_body. by rewrite Buffer.readable_contents, Hb.
  - intros. by eapply client_partial.
  - intros i rs b0 st x _ HI W0 Hx. by eapply client_response.
  - apply list.Forall_forall. intros i Hi%elem_of_seqZ. lia.
  - unfold before. rewrite El. replace (k + n - n) with k by lia. by split_and!.
  - intros Hd. rewrite (Hy Hd). done.
  - destruct HI as (Hk2 & _ & Er2 & F2 & Hc2 & Hs2). cbn [fst snd] in *.
    assert (Hl : zlen rs1 + zlen rs2 = n) by (rewrite <-El, Er, zlen_app; done). pose proof (zlen_nonneg rs1). pose proof (zlen_nonneg rs2).
    exists (n - zlen rs2), s', c', b'. replace (k + (n - zlen rs2)) with (k + n - zlen rs2) by lia. split_and!; try done; try lia.
    + rewrite E'. unfold replies, SudokuWire.replies. rewrite Er2 at 1. replace (n - (n - zlen rs2)) with (zlen rs2) by lia. done.
    + intros Hy0. rewrite (Hy' Hy0). change (zlen []) with 0. lia.
Qed.

(** *** The invariant *)

(** The client has taken [kc] responses, the service has answered [ks] requests. *)
Record settled (kc ks : Z) (w : world) : Prop := {
  se_range : 0 <= kc <= ks;
  se_flying : flying kc (kc + p) (client w).1;
  se_client : connected (client w).2 = true;
  se_serving : SudokuWire.serving req (kc + p) ks (client w).2 (server w) (server_buffer w) (to_server w);
  se_cbuf : Buffer.wf (client_buffer w) /\ zlen (Buffer.buffer_ (client_buffer w)) <= 1032 + Z.of_nat (to_client w);
  se_responses : Buffer.contents (client_buffer w) ++ in_transit (to_client w) (server w) = replies kc (ks - kc);
  se_client_idle : in_transit (to_client w) (server w) = [] -> kc = ks;
  se_to_client : (to_client w <= length (concat (sent (server w))))%nat
}.

Lemma deliver_server n kc ks w : settled kc ks w -> Z.of_nat (to_server w) + Z.of_nat n + p < 2 ^ 31 ->
  exists w' ks', deliver (ToServer n) w = Ret w' /\ settled kc ks' w' /\ to_client w' = to_client w /\
    (to_server w' <= to_server w + n)%nat.
Proof using setup.
  intros [Hr F Hc HS Hcb Ers Hci D2] Hn. pose proof (SudokuWire.sv_range _ _ _ _ _ _ _ HS) as Hks. pose proof (proj2 (SudokuWire.sv_delivered _ _ _ _ _ _ _ HS)) as D3.
  destruct (SudokuWire.serving_delivery req (2 ^ 31) req_ok n _ _ _ _ _ _ HS) as (m & l & b' & E & El & Hm & HS'); [lia | lia |].
  cbn [deliver]. rewrite E, bind_Ret. eexists _, (ks + m). split; [reflexivity |]. split_and!; [|done|cbn; rewrite length_take; lia].
  split; cbn [client client_buffer server server_buffer to_server to_client]; try done; [lia | | |].
  - rewrite SudokuWire.transit_app, El, app_assoc by done. rewrite Ers. unfold replies. replace (ks + m - kc) with (ks - kc + m) by lia.
    rewrite SudokuWire.replies_app by lia. by replace (kc + (ks - kc)) with ks by lia.
  - rewrite SudokuWire.transit_app, El by done. intros [H0 H1]%app_nil. pose proof (Hci H0). apply SudokuWire.replies_nil in H1. lia.
  - cbn [sent]. rewrite concat_app, length_app. lia.
Qed.

Lemma deliver_client n tm kc ks w : settled kc ks w -> Z.of_nat (to_server w) + p < 2 ^ 31 -> Z.of_nat (to_client w) + Z.of_nat n < 2 ^ 31 ->
  0 <= Timestamp.microSecondsSinceEpoch_ tm < 2 ^ 62 ->
  exists w' kc', deliver (ToClient n tm) w = Ret w' /\ settled kc' ks w' /\ to_server w' = to_server w /\
    (to_client w' <= to_client w + n)%nat.
Proof using setup.
  intros [Hr F Hc HS [Wcb Hcb] Ers Hci D2] Hp Hn Htm. cbn [deliver]. pose proof (su_pipelines setup) as Hpos.
  pose proof (SudokuWire.sv_range _ _ _ _ _ _ _ HS) as Hks. pose proof (proj2 (SudokuWire.sv_delivered _ _ _ _ _ _ _ HS)) as D3. pose proof (SudokuWire.sv_sent _ _ _ _ _ _ _ HS) as Hs.
  pose proof (SudokuWire.transit_take n (to_client w) (server w)) as Et. set (d := take n (in_transit (to_client w) (server w))) in *.
  assert (Hd : (length d <= n)%nat) by (unfold d; rewrite length_take; lia). rewrite Et in Ers. destruct (client w) as [s c]. cbn [fst snd] in *.
  destruct (client_one tm d (in_transit (to_client w + length d) (server w)) kc (ks - kc) (client_buffer w) s c)
    as (m & s' & c' & b' & Hm & -> & F' & Hc' & Hs' & W' & Hz' & E' & Hy); try done; try lia.
  { unfold vector_max_size, zlen in *. lia. }
  { intros Hd0. rewrite <-Et in Hd0. rewrite (Hci Hd0). lia. }
  rewrite bind_Ret. exists (World (s', c') b' (server w) (server_buffer w) (to_server w) (to_client w + length d)), (kc + m).
  split_and!; [done | | done | cbn; lia]. replace (kc + m + p) with (kc + p + m) in * by lia.
  split; cbn [client client_buffer server server_buffer to_server to_client fst snd]; replace (kc + m + p) with (kc + p + m) by lia; try done; [lia | | | | |].
  - apply (SudokuWire.serving_more req (2 ^ 31) req_ok m (kc + p) ks c); try done; lia.
  - split; [done | unfold zlen in *; lia].
  - rewrite E'. f_equal. lia.
  - intros H0. specialize (Hy H0). lia.
  - by apply SudokuWire.transit_length.
Qed.

Lemma start_settled : returns start (fun w => settled 0 0 w /\ to_server w = 0%nat /\ to_client w = 0%nat).
Proof using setup.
  pose proof (su_pipelines setup) as Hp. unfold start, onConnection. cbn [connected pipelines_ make].
  assert (F : flying 0 0 (set_conn true (make input name p))) by (split; try done; intros i; cbn; rewrite lookup_empty; lia).
  eapply returns_seq; [apply (send_flying p 0 0); try done; lia |]. intros [s c] [F' ->].
  eapply returns_seq; [apply Buffer.Buffer_ok |]. intros b1 [W1 E1 _ _ V1].
  eapply returns_seq; [apply (SudokuWire.serving_start req (2 ^ 31) req_ok p (mk true ([] ++ [requests 0 p]))); [by cbn; rewrite app_nil_r | lia] |].
  intros b2 HS. cbn [Buffer.q_bytes Buffer.q_vol Buffer.empty_queue] in *.
  split; [|done]. split; cbn [client client_buffer server server_buffer to_server to_client fst snd connected]; try done; try lia. by rewrite E1.
Qed.

Definition total (ds : list delivery) : Z := fold_right (fun d n => bytes_of d + n) 0 ds.
Definition time_ok (d : delivery) : Prop :=
  match d with ToServer _ => True | ToClient _ tm => 0 <= Timestamp.microSecondsSinceEpoch_ tm < 2 ^ 62 end.

Lemma total_nonneg ds : 0 <= total ds.
Proof. induction ds as [|[n|n tm] ds IH]; cbn [total fold_right bytes_of]; unfold total in *; lia. Qed.

Lemma deliveries_settled ds : forall kc ks w, settled kc ks w -> Forall time_ok ds ->
  Z.of_nat (to_server w) + Z.of_nat (to_client w) + total ds + p < 2 ^ 31 ->
  returns (deliveries ds w) (fun w' => exists kc' ks', settled kc' ks' w').
Proof using setup.
  induction ds as [|d ds IH]; intros kc ks w S HT Hb; cbn [deliveries]; [by exists kc, ks |].
  apply list.Forall_cons in HT as [Ht HT]. pose proof (total_nonneg ds) as Ht0. cbn [total fold_right] in Hb. fold (total ds) in Hb.
  pose proof (su_pipelines setup). destruct d as [n | n tm]; cbn [bytes_of] in Hb.
  - destruct (deliver_server n kc ks w S) as (w' & ks' & -> & S' & E1 & E2); [lia |]. rewrite bind_Ret. apply (IH kc ks'); try done. lia.
  - destruct (deliver_client n tm kc ks w S) as (w' & kc' & -> & S' & E1 & E2); [lia | lia | done |]. rewrite bind_Ret. apply (IH kc' ks); try done. lia.
Qed.

Lemma flying_size lo hi s : flying lo hi s -> 0 <= lo <= hi -> Z.of_nat (size (sendTime_ s)) = hi - lo.
Proof.
  intros F Hlo. rewrite <-size_dom.
  assert (E : dom (sendTime_ s) = list_to_set (seqZ lo (hi - lo)) :> gset Z).
  { apply set_eq. intros i. rewrite elem_of_dom, elem_of_list_to_set, elem_of_seqZ. pose proof (fl_times _ _ _ F i) as Ht.
    destruct (sendTime_ s !! i) as [tm|]; [split; [lia | by eexists] |]. split; [by intros [? ?] | lia]. }
  rewrite E, size_list_to_set by apply NoDup_seqZ. rewrite length_seqZ. lia.
Qed.

End pipeline.

(** C2. The pipeline client against the service, for puzzles that have a solution and whatever
    way the network cuts and interleaves the two streams: nothing crashes and neither side
    closes; there are always exactly [pipelines_] requests in flight, every other request has
    its latency recorded; and there are always bytes on their way, so the exchange never
    stalls. *)
Theorem pipeline_never_stalls name input p clock ds : setup_ok name input p clock -> Forall time_ok ds -> total ds + p < 2 ^ 31 ->
  returns (w ← start name input p clock; deliveries clock ds w) (fun w =>
    let '(s, c) := client w in
    Z.of_nat (size (sendTime_ s)) = p /\ count_ s = zlen (latencies_ s) + p /\ connected c = true /\ connected (server w) = true /\
    ~ (in_transit (to_server w) c = [] /\ in_transit (to_client w) (server w) = [])).
Proof.
  intros setup HT Hb. eapply returns_seq; [by apply start_settled |]. intros w0 (S0 & E1 & E2).
  eapply returns_mono; [|apply (deliveries_settled name input p clock setup ds 0 0 w0); try done; lia].
  intros w (kc & ks & [Hr F Hc HS _ _ Hci _]). destruct (client w) as [s c]. cbn [fst snd] in *.
  pose proof (su_pipelines _ _ _ _ setup). split_and!; try done.
  - rewrite (flying_size name input p kc (kc + p) s F) by lia. lia.
  - rewrite (fl_count _ _ _ _ _ _ F), (fl_latencies _ _ _ _ _ _ F). done.
  - apply (SudokuWire.sv_up _ _ _ _ _ _ _ HS).
  - intros [H1 H2]. pose proof (SudokuWire.sv_idle _ _ _ _ _ _ _ HS H1). specialize (Hci H2). lia.
Qed.

Definition noon (i : Z) : Timestamp.t := Timestamp.Timestamp 1000000.

Lemma easy_has_solution : SudokuBoard.solution easy_puzzle easy_answer.
Proof.
  destruct (SudokuBoard.solveSudoku_spec easy_puzzle eq_refl) as [(a & E & H) | [E _]]; rewrite easy_solution in E; [by injection E as <- | discriminate E].
Qed.

Lemma easy_setup : setup_ok (lit "c0001") [easy_puzzle] 2 noon.
Proof.
  split; [| done | | lia | cbn; lia].
  - split; [|done]. unfold plain. split_and!; apply find_byte_None; reflexivity.
  - intros q ->%list_elem_of_singleton. split; [done |]. exists easy_answer. apply easy_has_solution.
Qed.

(** Two requests in flight, the streams cut in the middle of lines. *)
Lemma pipeline_never_stalls_witness :
  returns (w ← start (lit "c0001") [easy_puzzle] 2 noon; deliveries noon [ToServer 150; ToClient 98 (noon 0); ToServer 300; ToClient 50 (noon 1)] w) (fun w =>
    let '(s, c) := client w in
    Z.of_nat (size (sendTime_ s)) = 2 /\ count_ s = zlen (latencies_ s) + 2 /\ connected c = true /\ connected (server w) = true /\
    ~ (in_transit (to_server w) c = [] /\ in_transit (to_client w) (server w) = [])).
Proof.
  apply (pipeline_never_stalls (lit "c0001") [easy_puzzle] 2 noon).
  - apply easy_setup.
  - repeat (apply List.Forall_cons || apply List.Forall_nil); cbn; lia.
  - reflexivity.
Defined.

(** A puzzle whose first cell has no candidate. *)
Definition dead_puzzle : bytes :=
  lit "012345678900000000000000000000000000000000000000000000000000000000000000000000000".

(** The reply to a puzzle without a solution is shorter than [kCells + 2]: the client leaves it
    in its buffer, and with one request in flight it waits for ever. *)
Lemma pipeline_stalls_without_solution :
  returns (w ← start (lit "c0001") [dead_puzzle] 1 noon; deliveries noon [ToServer 1000; ToClient 1000 (noon 0)] w) (fun w =>
    let '(s, c) := client w in
    Buffer.contents (client_buffer w) = lit "c0001-00000000:NoSolution" ++ Buffer.kCRLF /\
    in_transit (to_server w) c = [] /\ in_transit (to_client w) (server w) = [] /\ latencies_ s = []).
Proof. vm_compute. done. Qed.

End PipelineClient.
