(* ===== verification/LoadTest.v ===== *)
(** * excercises/sudoku/loadtest.cc: requests at a given rate

    The load tester sends requests a hundred times a second, as many as make up the rate it was
    asked for, whether the service answers or not.  The client is that of pipeline.cc but for
    when it sends and for the buffer, which is a member; the code the two files have in common
    is taken from SudokuClient.v. *)

From S2P Require Import Prelude Endian NetBuffer Calendar Format LogStream TimeZone SudokuBoard Sudoku SudokuServer SudokuWire SudokuStat SudokuReport SudokuClient.

Module LoadTest.
Import SudokuServer.

(** [common] has [name_], [conn_], [input_], [count_], [sendTime_] and [latencies_]; its
    [pipelines_] is not used. *)
Record t := SudokuClient { common : PipelineClient.t; requests_ : Buffer.t }.

Definition make (input : list bytes) (name : bytes) : outcome t :=
  b ← Buffer.Buffer; Ret (SudokuClient (PipelineClient.make input name 1) b).

(** [conn_->send(&requests_)]: the buffer is emptied if the connection is up. *)
Definition conn_send (buf : Buffer.t) (c : conn) : outcome (Buffer.t * conn) :=
  if connected c then
    data ← load (Buffer.peek buf) (Buffer.readableBytes buf) (Buffer.buffer_ buf);
    Ret (Buffer.retrieveAll buf, SudokuServer.send data c)
  else Ret (buf, c).

Definition send (now : Timestamp.t) (n : Z) (st : t * conn) : outcome (t * conn) :=
  let '(s, c) := st in
  _ ← check (0 <? n);
  if negb (PipelineClient.conn_ (common s)) then Ret (s, c)
  else
    '(s1, r1) ← PipelineClient.add_requests (Z.to_nat n) now (common s) (requests_ s);
    '(r2, c2) ← conn_send r1 c;
    Ret (SudokuClient s1 r2, c2).

Definition onConnection (st : t * conn) : t * conn :=
  let '(s, c) := st in (SudokuClient (PipelineClient.set_conn (connected c) (common s)) (requests_ s), c).

Definition onMessage_body (recvTime : Timestamp.t) (st : Buffer.t * (t * conn)) :
    outcome ((Buffer.t * (t * conn)) + (Buffer.t * (t * conn))) :=
  let '(buf, (s, c)) := st in
  let len := Buffer.readableBytes buf in
  if kCells + 2 <=? len then
    crlf ← Buffer.findCRLF buf;
    match crlf with
    | Some crlf =>
        response ← load (Buffer.peek buf) (crlf - Buffer.peek buf) (Buffer.buffer_ buf);
        buf1 ← Buffer.retrieveUntil (crlf + 2) buf;
        '(good, s1) ← PipelineClient.verify response recvTime (common s);
        if negb good then Ret (inr (buf1, (SudokuClient s1 (requests_ s), shutdown c)))
        else Ret (inl (buf1, (SudokuClient s1 (requests_ s), c)))
    | None => if 100 <? len then Ret (inr (buf, (s, shutdown c))) else Ret (inr (buf, (s, c)))
    end
  else Ret (inr (buf, (s, c))).

(** The callback: the loop until no complete response is left.  [Lines.serve] calls it after every
    read. *)
Definition onMessage (recvTime : Timestamp.t) (buf : Buffer.t) (st : t * conn) : outcome (Buffer.t * (t * conn)) :=
  Lines.on_message (onMessage_body recvTime) buf st.

(** ** The load tester and its connections

    Each client comes with its connection, the buffer it reads into, and what happened to it:
    the tick after which it was connected, the one after which it was disconnected, and the
    number of responses that arrived. *)
Inductive history := Waiting | Running (since : Z) | Ended (since upto : Z).

Record client := Client { self : t; peer : conn; inbuf : Buffer.t; past : history; answered : Z }.

Record loadtest := SudokuLoadtest {
  clients_ : list client;
  count_ : Z;
  ticks_ : Z;
  sofar_ : Z
}.

Definition kHz : Z := 100.

Definition name_of (i : Z) : bytes := lit "c" ++ pad0 4 (i + 1).

Fixpoint make_clients (input : list bytes) (i : Z) (n : nat) : outcome (list client) :=
  match n with
  | O => Ret []
  | S n' =>
      s ← make input (name_of i); b ← Buffer.Buffer;
      rest ← make_clients input (i + 1) n';
      Ret (Client s (mk false []) b Waiting 0 :: rest)
  end.

Definition runClient (input : list bytes) (conn : Z) : outcome loadtest :=
  clients ← make_clients input 0 (Z.to_nat conn);
  Ret (SudokuLoadtest clients 0 0 0).

(** The loop of [tick]; [now] is the time at which client [i] sends. *)
Fixpoint send_all (now : Z -> Timestamp.t) (reqs : Z) (i : Z) (l : list client) : outcome (list client) :=
  match l with
  | [] => Ret []
  | x :: l' =>
      '(s, c) ← send (now i) (s32 reqs) (self x, peer x);
      rest ← send_all now reqs (i + 1) l';
      Ret (Client s c (inbuf x) (past x) (answered x) :: rest)
  end.

Definition tick (now : Z -> Timestamp.t) (rps : Z) (w : loadtest) : outcome loadtest :=
  ticks ← i64 (ticks_ w + 1);
  prod ← i64 (rps * ticks);
  reqs ← i64 (Z.quot prod kHz - sofar_ w);
  sofar ← i64 (sofar_ w + reqs);
  clients ← (if 0 <? reqs then send_all now reqs 0 (clients_ w) else Ret (clients_ w));
  Ret (SudokuLoadtest clients (count_ w) ticks sofar).

(** The loop of [tock]. *)
Fixpoint reports (l : list client) (latencies : list Z) (infly : Z) : outcome (list Z * Z * list client) :=
  match l with
  | [] => Ret (latencies, infly, [])
  | x :: l' =>
      '(lat1, fly1, s1) ← PipelineClient.report latencies infly (common (self x));
      '(lat2, fly2, rest) ← reports l' lat1 fly1;
      Ret (lat2, fly2, Client (SudokuClient s1 (requests_ (self x))) (peer x) (inbuf x) (past x) (answered x) :: rest)
  end.

(** [tock]; it answers what is logged.  Saving the latencies in a file is left out. *)
Definition tock (w : loadtest) : outcome (list LogStream.item * loadtest) :=
  '(latencies, infly, clients) ← reports (clients_ w) [] 0;
  '(_, stat) ← PercentileReport.Percentile latencies infly;
  count ← i32 (count_ w + 1);
  Ret (stat, SudokuLoadtest clients count (ticks_ w) (sofar_ w)).

(** ** What can happen

    A timer event, a connection that comes up or goes down, or the response to the next request
    of a client arrives.  A client that is connected stays so until it is disconnected, which is
    for good as it does not retry. *)
Inductive event := Tick (now : Z -> Timestamp.t) | Up (i : nat) | Down (i : nat) | Reply (i : nat) (recvTime : Timestamp.t).

Section run.
Variables (input : list bytes) (rps : Z).

Definition reply_to (i : nat) (k : Z) : bytes := PipelineClient.rep_of (name_of (Z.of_nat i)) input k.

Definition at_client (f : nat -> client -> outcome client) (i : nat) (w : loadtest) : outcome loadtest :=
  match clients_ w !! i with
  | Some x => x' ← f i x; Ret (SudokuLoadtest (<[i := x']> (clients_ w)) (count_ w) (ticks_ w) (sofar_ w))
  | None => Ret w
  end.

Definition come_up (n : Z) (x : client) : client :=
  match past x with
  | Waiting => let '(s, c) := onConnection (self x, mk true []) in Client s c (inbuf x) (Running n) (answered x)
  | _ => x
  end.

Definition go_down (n : Z) (x : client) : client :=
  match past x with
  | Running k => let '(s, c) := onConnection (self x, mk false (sent (peer x))) in Client s c (inbuf x) (Ended k n) (answered x)
  | _ => x
  end.

Definition respond (recvTime : Timestamp.t) (i : nat) (x : client) : outcome client :=
  match past x with
  | Running k =>
      if answered x <? PipelineClient.count_ (common (self x)) then
        '(b, (s, c)) ← Lines.serve (onMessage_body recvTime) [reply_to i (answered x)] (inbuf x) (self x, peer x);
        Ret (Client s c b (past x) (answered x + 1))
      else Ret x
  | _ => Ret x
  end.

Definition step (e : event) (w : loadtest) : outcome loadtest :=
  match e with
  | Tick now => tick now rps w
  | Up i => at_client (fun _ x => Ret (come_up (ticks_ w) x)) i w
  | Down i => at_client (fun _ x => Ret (go_down (ticks_ w) x)) i w
  | Reply i recvTime => at_client (respond recvTime) i w
  end.

Fixpoint steps (es : list event) (w : loadtest) : outcome loadtest :=
  match es with [] => Ret w | e :: es' => w1 ← step e w; steps es' w1 end.
End run.

(** ** The invariant *)

(** Requests per client after [n] ticks. *)
Definition due (rps n : Z) : Z := rps * n / kHz.

Definition empty_buffer (size : Z) (b : Buffer.t) : Prop := Buffer.wf b /\ Buffer.contents b = [] /\ zlen (Buffer.buffer_ b) <= 2000 + 101 * size.

Lemma new_buffer : returns Buffer.Buffer (empty_buffer 0).
Proof. vm_compute. repeat split; discriminate. Qed.

Section rate.
Variables (input : list bytes) (rps number : Z).
Hypothesis input_ok : input <> [].
Hypothesis puzzles_ok : forall q, q ∈ input -> SudokuWire.solvable q.
Hypothesis rps_ok : 0 <= rps.

Abbreviation flying i := (PipelineClient.flying (name_of i) input 1).
Abbreviation requests i := (PipelineClient.requests (name_of i) input).

Lemma due_mono k n : 0 <= k <= n -> 0 <= due rps k <= due rps n.
Proof using rps_ok. intros H. unfold due, kHz. split; [apply Z.div_pos; nia | apply Z.div_le_mono; nia]. Qed.

Lemma due_diff k n : 0 <= due rps n - due rps k - due rps (n - k) <= 1.
Proof.
  unfold due, kHz. pose proof (Z.div_mod (rps * n) 100). pose proof (Z.div_mod (rps * k) 100). pose proof (Z.div_mod (rps * (n - k)) 100).
  pose proof (Z.mod_pos_bound (rps * n) 100). pose proof (Z.mod_pos_bound (rps * k) 100). pose proof (Z.mod_pos_bound (rps * (n - k)) 100). lia.
Qed.

(** Client [i] after [n] ticks. *)
Definition client_ok (n i : Z) (x : client) : Prop :=
  match past x with
  | Waiting => PipelineClient.make input (name_of i) 1 = common (self x) /\ sent (peer x) = [] /\ answered x = 0 /\
      empty_buffer 0 (requests_ (self x)) /\ empty_buffer 0 (inbuf x)
  | Running k =>
      let m := due rps n - due rps k in
      0 <= k <= n /\ 0 <= answered x <= m /\ flying i (answered x) m (common (self x)) /\ connected (peer x) = true /\
      concat (sent (peer x)) = requests i 0 m /\ empty_buffer m (requests_ (self x)) /\ empty_buffer (answered x) (inbuf x)
  | Ended k d => 0 <= k <= d /\ d <= n /\ PipelineClient.conn_ (common (self x)) = false /\ concat (sent (peer x)) = requests i 0 (due rps d - due rps k)
  end.

Definition clients_ok (n : Z) (l : list client) : Prop := zlen l < 10 ^ 5 /\ forall i x, l !! i = Some x -> client_ok n (Z.of_nat i) x.

Record ok (n : Z) (w : loadtest) : Prop := {
  ok_ticks : ticks_ w = n;
  ok_n : 0 <= n;
  ok_sofar : sofar_ w = due rps n;
  ok_number : zlen (clients_ w) = number;
  ok_clients : clients_ok n (clients_ w)
}.

(** The clients' names satisfy what the wire format asks for. *)
Lemma client_setup i now : 0 <= i < 10 ^ 5 - 1 -> (forall k, 0 <= Timestamp.microSecondsSinceEpoch_ (now k) < 2 ^ 62) ->
  PipelineClient.setup_ok (name_of i) input 1 now.
Proof using input_ok puzzles_ok.
  intros Hi Hnow. split; [|done|done|lia|done]. unfold name_of.
  destruct (PipelineClient.pad0_digits 4 (i + 1)) as (ds & Hm & _ & _); [lia |]. split.
  - apply PipelineClient.plain_app. split; [unfold PipelineClient.plain; split_and!; apply find_byte_None; reflexivity |].
    apply PipelineClient.digit_plain. by apply (dec_digits_range _ ds).
  - rewrite zlen_app. change (zlen (lit "c")) with 1. unfold pad0. rewrite (proj2 (Z.ltb_ge (i + 1) 0)), Z.abs_eq by lia. cbn [app].
    pose proof (zlen_show_nonneg (i + 1) 5 ltac:(lia) ltac:(lia)). rewrite zlen_app, zlen_replicate. change (zlen []) with 0. lia.
Qed.

Lemma due_zero : due rps 0 = 0.
Proof. unfold due. by rewrite Z.mul_0_r. Qed.

Lemma buffer_grows m m' b : m <= m' -> empty_buffer m b -> empty_buffer m' b.
Proof. intros H (W & E & Hz). split_and!; [done | done | lia]. Qed.

(** A tick at which a client sends. *)
Lemma load_send_ok now n i x : 0 <= n -> 0 <= i < 10 ^ 5 - 1 -> due rps (n + 1) < 2 ^ 31 -> due rps n < due rps (n + 1) -> 0 <= Timestamp.microSecondsSinceEpoch_ now < 2 ^ 62 -> client_ok n i x ->
  returns (send now (due rps (n + 1) - due rps n) (self x, peer x)) (fun '(s, c) => client_ok (n + 1) i (Client s c (inbuf x) (past x) (answered x))).
Proof using input_ok puzzles_ok rps_ok.
  intros Hn Hi Hmax Hlt Hnow Hx. unfold send. rewrite (proj2 (Z.ltb_lt _ _)) by lia. cbn [check]. rewrite bind_Ret. unfold client_ok in *.
  destruct (past x) as [|k|k d]; cbn [past self peer answered inbuf].
  - destruct Hx as (E & H). rewrite <-E. cbn [PipelineClient.make PipelineClient.conn_ negb returns]. by rewrite <-E.
  - destruct Hx as (Hk & Ha & F & Hc & Hs & (W & Eb & Hz) & Hin). rewrite (PipelineClient.fl_conn _ _ _ _ _ _ F). cbn [negb].
    pose proof (due_mono k n ltac:(lia)) as Hd.
    eapply returns_seq; [apply (PipelineClient.add_requests_ok (name_of i) input 1 (fun _ => now) (client_setup i _ Hi (fun _ => Hnow)) now _ (answered x) _ _ _ F); try done; try lia |].
    + unfold vector_max_size. lia.
    + intros [s1 r1] (F1 & W1 & E1 & Hz1). rewrite Z2Nat.id in F1, E1, Hz1 by lia. rewrite Eb in E1. cbn [app] in E1. unfold conn_send. rewrite Hc.
      rewrite Buffer.readable_ok by done. unfold Buffer.peek. rewrite Buffer.load_contents, !bind_Ret by done. cbn [returns common requests_].
      replace (due rps n - due rps k + (due rps (n + 1) - due rps n)) with (due rps (n + 1) - due rps k) in F1 by lia.
      destruct (Buffer.retrieveAll_ok r1 W1) as [W2 E2]. unfold SudokuServer.send. rewrite Hc. cbn [connected sent].
      split_and!; try done; try lia.
      * rewrite concat_app, Hs, E1. cbn [concat]. rewrite app_nil_r.
        replace (due rps (n + 1) - due rps k) with ((due rps n - due rps k) + (due rps (n + 1) - due rps n)) by lia.
        by rewrite PipelineClient.client_requests_app by lia.
      * split_and!; [done | done | cbn [Buffer.retrieveAll Buffer.buffer_]; lia].
  - destruct Hx as (Hk & Hd & Hc & Hs). rewrite Hc. cbn [negb returns]. split_and!; try done; lia.
Qed.

Lemma load_send_all_ok now n l : forall i, 0 <= n -> due rps (n + 1) < 2 ^ 31 -> due rps n < due rps (n + 1) ->
  (forall k, 0 <= Timestamp.microSecondsSinceEpoch_ (now k) < 2 ^ 62) -> 0 <= i -> i + zlen l < 10 ^ 5 ->
  (forall j x, l !! j = Some x -> client_ok n (i + Z.of_nat j) x) ->
  returns (send_all now (due rps (n + 1) - due rps n) i l) (fun l' => length l' = length l /\ forall j x, l' !! j = Some x -> client_ok (n + 1) (i + Z.of_nat j) x).
Proof using input_ok puzzles_ok rps_ok.
  induction l as [|x l IH]; intros i Hn Hmax Hlt Hnow Hi Hl Hx; cbn [send_all]; [done |].
  rewrite zlen_cons in Hl. pose proof (zlen_nonneg l). pose proof (due_mono n (n + 1) ltac:(lia)).
  rewrite (s32_id (due rps (n + 1) - due rps n)) by lia.
  pose proof (Hx 0%nat x eq_refl) as Hx0. rewrite Z.add_0_r in Hx0. eapply returns_seq; [apply (load_send_ok (now i) n i x); try done; lia |].
  intros [s c] Hs. eapply returns_seq; [apply (IH (i + 1)); try done; try lia |].
  - intros j y Hj. replace (i + 1 + Z.of_nat j) with (i + Z.of_nat (S j)) by lia. by apply Hx.
  - intros rest [El Hr]. cbn [returns]. split; [cbn [length]; by rewrite El |]. intros [|j] y Hj; cbn in Hj.
    + injection Hj as <-. by rewrite Z.add_0_r.
    + replace (i + Z.of_nat (S j)) with (i + 1 + Z.of_nat j) by lia. by apply Hr.
Qed.

Lemma client_idle n i x : 0 <= n -> due rps (n + 1) = due rps n -> client_ok n i x -> client_ok (n + 1) i x.
Proof. intros Hn E. unfold client_ok. destruct (past x); [done | rewrite E; intros (? & ?); split; [lia | done] | intros (? & ? & ? & ?); split_and!; try done; lia]. Qed.

Lemma tick_ok now n w : ok n w -> due rps (n + 1) < 2 ^ 31 -> (forall k, 0 <= Timestamp.microSecondsSinceEpoch_ (now k) < 2 ^ 62) -> n < 2 ^ 62 ->
  returns (tick now rps w) (ok (n + 1)).
Proof using input_ok puzzles_ok rps_ok.
  intros [Ht Hn Hs HN [Hl Hc]] Hmax Hnow Hb. unfold tick. rewrite Ht, Hs. pose proof (due_mono n (n + 1) ltac:(lia)) as Hd.
  assert (Hp : 0 <= rps * (n + 1) < 2 ^ 31 * 100).
  { unfold due, kHz in Hmax. pose proof (Z.div_mod (rps * (n + 1)) 100 ltac:(lia)). pose proof (Z.mod_pos_bound (rps * (n + 1)) 100 ltac:(lia)). nia. }
  rewrite !i64_bind by lia. rewrite Z.quot_div_nonneg by (unfold kHz; lia). fold (due rps (n + 1)). rewrite !i64_bind by lia.
  replace (due rps n + (due rps (n + 1) - due rps n)) with (due rps (n + 1)) by lia.
  destruct (0 <? _) eqn:E; bools.
  - eapply returns_seq; [apply (load_send_all_ok now n (clients_ w) 0); try done; lia |].
    intros l' [El Hl']. split; cbn; try done; [lia | unfold zlen in *; by rewrite El |]. split; [unfold zlen in *; by rewrite El | done].
  - rewrite bind_Ret. split; cbn; try done; [lia |]. split; [done |]. intros i x Hi. apply client_idle; [lia | lia | by apply Hc].
Qed.

Lemma up_ok n i x : 0 <= n -> client_ok n i x -> client_ok n i (come_up n x).
Proof.
  intros Hn Hx. unfold come_up. destruct (past x) eqn:E; [|done|done]. unfold client_ok in *. rewrite E in Hx. destruct Hx as (Ec & Hs & Ha & Hr & Hb).
  cbn [onConnection past self peer common requests_ inbuf answered connected sent]. rewrite <-Ec, Z.sub_diag, Ha. split_and!; try done; try lia.
  split; cbn; try done. intros k. rewrite lookup_empty. lia.
Qed.

Lemma down_ok n i x : 0 <= n -> client_ok n i x -> client_ok n i (go_down n x).
Proof.
  intros Hn Hx. unfold go_down. destruct (past x) eqn:E; [done| |done]. unfold client_ok in *. rewrite E in Hx.
  destruct Hx as (Hk & Ha & F & Hc & Hs & _). cbn [onConnection past self peer common connected sent]. split_and!; try done; lia.
Qed.

(** A response to a running client is matched with its request. *)
Section response.
Variables (i : nat) (tm : Timestamp.t) (m : Z) (r : Buffer.t) (c : conn).
Hypothesis Hi : Z.of_nat i < 10 ^ 5 - 1.
Hypothesis Hm : m < 2 ^ 31.
Hypothesis Htm : 0 <= Timestamp.microSecondsSinceEpoch_ tm < 2 ^ 62.

Abbreviation this := (name_of (Z.of_nat i)).
Abbreviation setup := (client_setup (Z.of_nat i) (fun _ => tm) (conj (Zle_0_nat i) Hi) (fun _ => Htm)).

(** What holds before the responses [rs], the last of which is number [K - 1]. *)
Definition before (K : Z) (rs : list Z) (st : t * conn) : Prop :=
  let k := K - zlen rs in
  exists s, st = (SudokuClient s r, c) /\ 0 <= k /\ K <= m /\ rs = seqZ k (zlen rs) /\ flying (Z.of_nat i) k m s.

Definition take_response (k : Z) (st : t * conn) : outcome (t * conn) :=
  '(_, s1) ← PipelineClient.verify (PipelineClient.response this input k) tm (common st.1); Ret (SudokuClient s1 (requests_ st.1), st.2).

Lemma partial_response k b st x y : 0 <= k < 2 ^ 31 -> Buffer.wf b -> Buffer.contents b ++ y = reply_to input i k ++ x ->
  (length (Buffer.contents b) < length (reply_to input i k))%nat -> onMessage_body tm (b, st) = Ret (inr (b, st)).
Proof using input_ok puzzles_ok Hi Htm.
  intros Hk W E Hl. unfold reply_to in *. destruct (PipelineClient.response_ok _ _ _ _ setup k Hk) as [Hc Hz].
  rewrite (PipelineClient.rep_of_response _ _ _ _ setup) in * by done. destruct st as [s c0]. unfold onMessage_body.
  rewrite Buffer.readable_contents by done. destruct (kCells + 2 <=? zlen (Buffer.contents b)); [|done].
  rewrite Buffer.contents_findCRLF, bind_Ret by done. rewrite <-app_assoc in E. rewrite length_app in Hl.
  rewrite (Lines.search_prefix (PipelineClient.response this input k) _ y x) by done. cbn [fmap option_fmap option_map].
  rewrite (proj2 (Z.ltb_ge 100 _)); [done |]. unfold zlen in *. change (length Buffer.kCRLF) with 2%nat in Hl. lia.
Qed.

Lemma full_response K k rs b st x : 0 <= k < 2 ^ 31 -> before K (k :: rs) st -> Buffer.wf b -> Buffer.contents b = reply_to input i k ++ x ->
  exists b1 st1, onMessage_body tm (b, st) = Ret (inl (b1, st1)) /\ take_response k st = Ret st1 /\ before K rs st1 /\ Buffer.wf b1 /\ Buffer.contents b1 = x /\
    Buffer.buffer_ b1 = Buffer.buffer_ b.
Proof using input_ok puzzles_ok Hi Htm Hm.
  intros Hk (s & -> & Hk' & Hle & Hrs & F) W Hx. rewrite zlen_cons in *. pose proof (zlen_nonneg rs) as Hz. rewrite seqZ_cons in Hrs by lia.
  injection Hrs as Ek Hrs. rewrite <-Ek in *. unfold reply_to in Hx. destruct (PipelineClient.response_ok _ _ _ _ setup k Hk) as [Hcl Hrz].
  rewrite (PipelineClient.rep_of_response _ _ _ _ setup) in Hx by done. rewrite <-app_assoc in Hx.
  destruct (Lines.take_line _ x b W Hx Hcl) as (Hf & HL & b1 & Hu & W1 & E1 & Eb).
  pose proof (PipelineClient.verify_ok _ _ _ _ setup tm k m s F ltac:(lia) Hm Htm) as HV. unfold onMessage_body, take_response. cbn [fst snd common requests_].
  rewrite Buffer.readable_contents by done. rewrite (proj2 (Z.leb_le (kCells + 2) _)); [|rewrite Hx, !zlen_app; change (zlen Buffer.kCRLF) with 2; pose proof (zlen_nonneg x); unfold kCells; lia].
  rewrite Hf, bind_Ret, HL, bind_Ret, Hu, bind_Ret. destruct (PipelineClient.verify _ tm s) as [[g s1]|]; [|done]. destruct HV as [-> F1]. rewrite !bind_Ret. cbn [negb].
  exists b1, (SudokuClient s1 r, c). split_and!; try done. exists s1. replace (K - zlen rs) with (k + 1) by lia. split_and!; try done; try lia.
  rewrite Hrs at 1. replace (Z.succ k) with (k + 1) by lia. f_equal. lia.
Qed.

Lemma one_response k b s : 0 <= k < m -> empty_buffer k b -> flying (Z.of_nat i) k m s ->
  returns (Lines.serve (onMessage_body tm) [reply_to input i k] b (SudokuClient s r, c)) (fun '(b', st) =>
    empty_buffer (k + 1) b' /\ exists s', st = (SudokuClient s' r, c) /\ flying (Z.of_nat i) (k + 1) m s').
Proof using input_ok puzzles_ok Hi Htm Hm.
  intros Hk (W & Eb & Hz) F. destruct (PipelineClient.response_ok _ _ _ _ setup k ltac:(lia)) as [_ Hl].
  assert (Hr : zlen (reply_to input i k) <= 101).
  { unfold reply_to. rewrite (PipelineClient.rep_of_response _ _ _ _ setup), zlen_app by lia. change (zlen Buffer.kCRLF) with 2. lia. }
  destruct (Lines.serve_one (reply_to input i) (fun k => 0 <= k < 2 ^ 31) take_response (before (k + 1)) (onMessage_body tm))
    with (c := reply_to input i k) (y := @nil byte) (rs := [k]) (b := b) (s := (SudokuClient s r, c)) as (rs1 & rs2 & b' & st' & Er & -> & _ & HI & W' & Hz' & E' & Hy').
  - intros j Hj. unfold reply_to. rewrite (PipelineClient.rep_of_response _ _ _ _ setup), length_app by done. cbn. lia.
  - intros b0 [s0 c0] W0 Hb. unfold onMessage_body. by rewrite Buffer.readable_contents, Hb.
  - intros. by eapply partial_response.
  - intros j rs b0 st x Hj HI W0 Hx. by eapply full_response.
  - constructor; [lia | constructor].
  - exists s. change (zlen [k]) with 1. replace (k + 1 - 1) with k by lia. split_and!; try done; try lia.
  - done.
  - rewrite Eb. by cbn; rewrite !app_nil_r.
  - unfold vector_max_size. lia.
  - rewrite app_nil_r. intros Hnil. rewrite Hnil in *. exfalso. revert Hnil. unfold reply_to. rewrite (PipelineClient.rep_of_response _ _ _ _ setup) by lia.
    intros [_ ?]%app_nil. done.
  - rewrite (Hy' eq_refl) in *. cbn [map concat] in E'. rewrite app_nil_r in E'. destruct HI as (s' & -> & _ & _ & _ & F').
    cbn [returns]. split; [split_and!; [done | done | lia] |]. exists s'. split; [done |].
    change (zlen []) with 0 in F'. by rewrite Z.sub_0_r in F'.
Qed.
End response.

Lemma respond_ok tm n i x : 0 <= n -> Z.of_nat i < 10 ^ 5 - 1 -> due rps n < 2 ^ 31 -> 0 <= Timestamp.microSecondsSinceEpoch_ tm < 2 ^ 62 ->
  client_ok n (Z.of_nat i) x -> returns (respond input tm i x) (client_ok n (Z.of_nat i)).
Proof using input_ok puzzles_ok rps_ok.
  intros Hn Hi Hmax Htm Hx. unfold respond. destruct (past x) as [|k|] eqn:E; [done | |done]. destruct (_ <? _) eqn:El; bools; [|done].
  unfold client_ok in Hx. rewrite E in Hx. destruct Hx as (Hk & Ha & F & Hc & Hs & Hr & Hb). pose proof (due_mono k n Hk).
  rewrite (PipelineClient.fl_count _ _ _ _ _ _ F) in El. destruct (self x) as [s r]. cbn [common requests_] in *.
  eapply returns_seq; [apply (one_response i tm (due rps n - due rps k) r (peer x)); try done; lia |].
  intros [b' [s' c']] (Hb' & s1 & [= -> ->] & F1). cbn [returns]. unfold client_ok. cbn [past self peer common requests_ inbuf answered].
  split_and!; try done; lia.
Qed.

(** ** Every step keeps the invariant *)

Lemma at_client_ok f n i w : ok n w -> (forall x, Z.of_nat i < 10 ^ 5 - 1 -> client_ok n (Z.of_nat i) x -> returns (f i x) (client_ok n (Z.of_nat i))) ->
  returns (at_client f i w) (ok n).
Proof.
  intros [Ht Hn Hs HN [Hl Hc]] Hf. unfold at_client. destruct (clients_ w !! i) as [x|] eqn:E; [|by split].
  pose proof (lookup_lt_Some _ _ _ E). eapply returns_seq; [apply Hf; [unfold zlen in Hl; lia | by apply Hc] |]. intros x' Hx'.
  split; cbn; try done; [unfold zlen in *; by rewrite length_insert |]. split; [unfold zlen in *; by rewrite length_insert |]. intros j y Hj.
  apply list_lookup_insert_Some in Hj as [(<- & <- & _) | [_ Hj]]; [done | by apply Hc].
Qed.

Definition is_tick (e : event) : Z := match e with Tick _ => 1 | _ => 0 end.
Definition ticks (es : list event) : Z := fold_right (fun e n => is_tick e + n) 0 es.
Definition event_ok (e : event) : Prop :=
  match e with
  | Tick now => forall i, 0 <= Timestamp.microSecondsSinceEpoch_ (now i) < 2 ^ 62
  | Reply _ tm => 0 <= Timestamp.microSecondsSinceEpoch_ tm < 2 ^ 62
  | _ => True
  end.

Lemma load_step_ok e n w : ok n w -> event_ok e -> due rps (n + is_tick e) < 2 ^ 31 -> n < 2 ^ 62 -> returns (step input rps e w) (ok (n + is_tick e)).
Proof using input_ok puzzles_ok rps_ok.
  intros Hw He Hd Hb. pose proof (ok_ticks _ _ Hw) as Ht. pose proof (ok_n _ _ Hw) as Hn. destruct e as [now|i|i|i tm]; cbn [step is_tick event_ok] in *.
  - by apply tick_ok.
  - rewrite Z.add_0_r. apply at_client_ok; [done |]. intros x _ Hx. cbn [returns]. rewrite Ht. by apply up_ok.
  - rewrite Z.add_0_r. apply at_client_ok; [done |]. intros x _ Hx. cbn [returns]. rewrite Ht. by apply down_ok.
  - rewrite Z.add_0_r in *. apply at_client_ok; [done |]. intros x Hi Hx. by apply respond_ok.
Qed.

Lemma ticks_nonneg es : 0 <= ticks es.
Proof. induction es as [|e es IH]; [done |]. cbn [ticks fold_right]. fold (ticks es). destruct e; cbn [is_tick]; lia. Qed.

Lemma load_steps_ok es : forall n w, ok n w -> Forall event_ok es -> due rps (n + ticks es) < 2 ^ 31 -> n + ticks es < 2 ^ 62 ->
  returns (steps input rps es w) (ok (n + ticks es)).
Proof using input_ok puzzles_ok rps_ok.
  induction es as [|e es IH]; intros n w Hw He Hd Hb; cbn [steps ticks fold_right] in *; [by rewrite Z.add_0_r |]. fold (ticks es) in *.
  apply list.Forall_cons in He as [He Hes]. pose proof (ticks_nonneg es). pose proof (ok_n _ _ Hw). assert (0 <= is_tick e) by (by destruct e).
  pose proof (due_mono (n + is_tick e) (n + (is_tick e + ticks es)) ltac:(lia)).
  eapply returns_seq; [apply (load_step_ok e n); try done; lia |]. intros w1 Hw1. rewrite Z.add_assoc in *. by apply IH.
Qed.

Lemma make_clients_ok k : forall i, returns (make_clients input i k) (fun l => length l = k /\ forall j x, l !! j = Some x -> client_ok 0 (i + Z.of_nat j) x).
Proof.
  induction k as [|k IH]; intros i; cbn [make_clients]; [done |].
  eapply (returns_seq _ _ (fun s => common s = PipelineClient.make input (name_of i) 1 /\ empty_buffer 0 (requests_ s))).
  { unfold make. eapply returns_seq; [apply new_buffer |]. intros b Hb. by split. }
  intros s [Ec Hr]. eapply returns_seq; [apply new_buffer |]. intros b Hb. eapply returns_seq; [apply (IH (i + 1)) |].
  intros l [Hl Hx]. cbn [returns length]. split; [by rewrite Hl |]. intros [|j] x Hj; cbn in Hj.
  - injection Hj as <-. rewrite Z.add_0_r. unfold client_ok. cbn. by split_and!.
  - replace (i + Z.of_nat (S j)) with (i + 1 + Z.of_nat j) by lia. by apply Hx.
Qed.

Lemma runClient_ok : 0 <= number < 10 ^ 5 -> returns (runClient input number) (ok 0).
Proof using rps_ok.
  intros Hc. unfold runClient. eapply returns_seq; [apply make_clients_ok |]. intros l [Hl Hx]. cbn [returns].
  assert (zlen l = number) by (unfold zlen; lia). split; cbn; try done; [by rewrite due_zero |]. split; [lia | done].
Qed.
End rate.

(** C34. The load tester keeps the rate it was given, whatever the service does: after any timer
    events, connections, disconnections and responses, a client that is connected since tick [k]
    has sent exactly the requests due since then, numbered from 0, whole and in order, at most
    one more than the rate times the time; each is in flight or has its latency
    recorded.  A client that was disconnected has sent what was due until then. *)
Theorem load_follows_rate input rps number es : input <> [] -> (forall q, q ∈ input -> SudokuWire.solvable q) ->
  0 <= rps -> 0 <= number < 10 ^ 5 -> Forall event_ok es -> due rps (ticks es) < 2 ^ 31 -> ticks es < 2 ^ 62 ->
  returns (w ← runClient input number; steps input rps es w) (fun w =>
    zlen (clients_ w) = number /\ forall i x, clients_ w !! i = Some x ->
    match past x with
    | Waiting => sent (peer x) = []
    | Running k =>
        let m := due rps (ticks es) - due rps k in
        concat (sent (peer x)) = PipelineClient.requests (name_of (Z.of_nat i)) input 0 m /\ 0 <= m - due rps (ticks es - k) <= 1 /\
        Z.of_nat (size (PipelineClient.sendTime_ (common (self x)))) = m - answered x /\ zlen (PipelineClient.latencies_ (common (self x))) = answered x
    | Ended k d => concat (sent (peer x)) = PipelineClient.requests (name_of (Z.of_nat i)) input 0 (due rps d - due rps k)
    end).
Proof.
  intros Hi Hp Hr Hn He Hd Hb. eapply returns_seq; [by apply (runClient_ok input rps number Hr) |]. intros w0 H0.
  eapply returns_mono; [|by apply (load_steps_ok input rps number Hi Hp Hr es 0 w0)].
  intros w [_ _ _ HN [_ Hc]]. split; [done |]. intros i x Hx. specialize (Hc i x Hx). unfold client_ok in Hc. rewrite Z.add_0_l in Hc.
  destruct (past x) as [|k|k d]; [tauto | | tauto]. destruct Hc as (Hk & Ha & F & _ & Hs & _). split_and!; [done | | | |].
  - apply due_diff.
  - apply due_diff.
  - by rewrite (PipelineClient.flying_size _ _ _ _ _ _ F).
  - exact (PipelineClient.fl_latencies _ _ _ _ _ _ F).
Qed.

Lemma load_follows_rate_witness :
  let es := [Up 1; Tick PipelineClient.noon; Tick PipelineClient.noon; Up 0; Tick PipelineClient.noon; Reply 1 (PipelineClient.noon 0); Down 0; Tick PipelineClient.noon] in
  returns (w ← runClient [easy_puzzle] 2; steps [easy_puzzle] 50 es w) (fun w =>
    zlen (clients_ w) = 2 /\ forall i x, clients_ w !! i = Some x ->
    match past x with
    | Waiting => sent (peer x) = []
    | Running k =>
        let m := due 50 (ticks es) - due 50 k in
        concat (sent (peer x)) = PipelineClient.requests (name_of (Z.of_nat i)) [easy_puzzle] 0 m /\ 0 <= m - due 50 (ticks es - k) <= 1 /\
        Z.of_nat (size (PipelineClient.sendTime_ (common (self x)))) = m - answered x /\ zlen (PipelineClient.latencies_ (common (self x))) = answered x
    | Ended k d => concat (sent (peer x)) = PipelineClient.requests (name_of (Z.of_nat i)) [easy_puzzle] 0 (due 50 d - due 50 k)
    end).
Proof.
  intros es. apply (load_follows_rate [easy_puzzle] 50 2 es); try lia; try reflexivity.
  - discriminate.
  - intros q ->%list_elem_of_singleton. split; [reflexivity |]. exists easy_answer. apply PipelineClient.easy_has_solution.
  - repeat (apply List.Forall_cons || apply List.Forall_nil); cbn; lia.
Defined.

(** ** The report *)

(** What a second's report is made of: all latencies recorded since the last one, in the order
    of the clients, and the number of requests in flight. *)
Definition in_flight (l : list client) : Z := fold_right (fun x n => Z.of_nat (size (PipelineClient.sendTime_ (common (self x)))) + n) 0 l.

Lemma reports_ok l : forall lat fly, 0 <= fly -> fly + in_flight l < 2 ^ 31 ->
  returns (reports l lat fly) (fun '(lat', fly', l') =>
    lat' = lat ++ concat (map (fun x => PipelineClient.latencies_ (common (self x))) l) /\ fly' = fly + in_flight l /\
    in_flight l' = in_flight l /\ Forall (fun x => PipelineClient.latencies_ (common (self x)) = []) l').
Proof.
  induction l as [|x l IH]; intros lat fly Hf Hb; cbn [reports in_flight fold_right map concat] in *.
  - by rewrite app_nil_r, Z.add_0_r.
  - fold (in_flight l) in *. assert (0 <= in_flight l) by (clear; induction l; cbn [in_flight fold_right] in *; [done | fold (in_flight l) in *; lia]).
    unfold PipelineClient.report. rewrite i32_ok, !bind_Ret by lia. eapply returns_seq; [apply IH; lia |].
    intros [[lat2 fly2] rest] (-> & -> & Hr & Hl). cbn [returns]. rewrite <-app_assoc. split_and!; [done | lia | | by constructor].
    cbn [in_flight fold_right self common PipelineClient.sendTime_]. fold (in_flight rest). lia.
Qed.

(** The mean of the latencies is computed in an [int]: two clients that wait for 20 minutes
    stop the load test. *)
Lemma tock_overflows : exists s, Forall (fun x => PipelineClient.latencies_ (common (self x)) = [1200000000]) (clients_ s) /\ tock s = Crash IntOverflow.
Proof.
  set (x := Client (SudokuClient (PipelineClient.SudokuClient (lit "c0001") 1 true [easy_puzzle] 1 ∅ [1200000000]) (Buffer.mk [] 0 0)) (mk true []) (Buffer.mk [] 0 0) (Running 0) 1).
  exists (SudokuLoadtest [x; x] 0 0 0). split; [repeat constructor | by vm_compute].
Qed.

End LoadTest.
