(* ===== verification/BatchClient.v ===== *)
(** * excercises/sudoku/batch.cc: a file of puzzles in one batch

    The client sends every puzzle of its file when it is connected, counts the responses, and
    tells the program when it has them all.  It is composed with the service of server_basic.cc
    over a network that delivers the bytes of both directions in any pieces and in any order.
    The times it logs are left out. *)

From S2P Require Import Prelude Endian NetBuffer Calendar Format LogStream TimeZone Sudoku SudokuBoard SudokuServer SudokuWire SudokuClient.

Module BatchClient.
Import SudokuServer.

(** [runLocal]: the number of puzzles, and of those solved ([verify] accepts every answer). *)
Definition verify (result : bytes) : bool := true.

Fixpoint runLocal (lines : list bytes) (count succeed : Z) : outcome (Z * Z) :=
  match lines with
  | [] => Ret (count, succeed)
  | line :: lines' =>
      if zlen line =? kCells then
        count' ← i32 (count + 1);
        result ← solveSudoku line;
        succeed' ← (if verify result then i32 (succeed + 1) else Ret succeed);
        runLocal lines' count' succeed'
      else runLocal lines' count succeed
  end.

(** [readInput] *)
Definition readInput (lines : list bytes) : list bytes :=
  map TimeZone.c_string (List.filter (fun line => zlen line =? kCells) lines).

(** ** The program's variables and [done] *)
Record program := Program { g_connections : Z; g_finished : Z; quits : Z }.

(** The callback: after the last client the loop is told to quit. *)
Definition done (g : program) : outcome program :=
  n ← i32 (g_finished g + 1);
  Ret (Program (g_connections g) n (if n =? g_connections g then quits g + 1 else quits g)).

(** ** The client *)
Record t := SudokuClient { name_ : bytes; input_ : list bytes; count_ : Z; globals : program }.

(** The text of request [i], written with a [LogStream]. *)
Definition request_text (uninitialised : bytes) (i : Z) (req : bytes) : outcome bytes :=
  b ← LogStream.insert_all [LogStream.IInt (u64 (i + 1)); LogStream.ICStr (Some (lit ":")); LogStream.IString req; LogStream.ICStr (Some Buffer.kCRLF)]
        (FixedBuffer.FixedBuffer uninitialised);
  load 0 (FixedBuffer.length_of b) (FixedBuffer.data_ b).

Fixpoint send_all (uninitialised : bytes) (i : Z) (l : list bytes) (c : conn) : outcome conn :=
  match l with
  | [] => Ret c
  | req :: l' => text ← request_text uninitialised i req; send_all uninitialised (i + 1) l' (SudokuServer.send text c)
  end.

Definition onConnection (uninitialised : bytes) (st : t * conn) : outcome (t * conn) :=
  let '(s, c) := st in
  if connected c then c' ← send_all uninitialised 0 (input_ s) c; Ret (s, c') else Ret (s, c).

Definition onMessage_body (st : Buffer.t * (t * conn)) : outcome ((Buffer.t * (t * conn)) + (Buffer.t * (t * conn))) :=
  let '(buf, (s, c)) := st in
  let len := Buffer.readableBytes buf in
  if kCells + 2 <=? len then
    crlf ← Buffer.findCRLF buf;
    match crlf with
    | Some crlf =>
        response ← load (Buffer.peek buf) (crlf - Buffer.peek buf) (Buffer.buffer_ buf);
        buf1 ← Buffer.retrieveUntil (crlf + 2) buf;
        count ← i32 (count_ s + 1);
        let s1 := SudokuClient (name_ s) (input_ s) count (globals s) in
        if negb (verify response) then Ret (inr (buf1, (s1, shutdown c))) else Ret (inl (buf1, (s1, c)))
    | None => if 100 <? len then Ret (inr (buf, (s, shutdown c))) else Ret (inr (buf, (s, c)))
    end
  else Ret (inr (buf, (s, c))).

(** After the loop. *)
Definition finish (st : t * conn) : outcome (t * conn) :=
  let '(s, c) := st in
  if count_ s =? s32 (zlen (input_ s)) then
    g ← done (globals s); Ret (SudokuClient (name_ s) (input_ s) (count_ s) g, shutdown c)
  else Ret (s, c).

Definition onMessage (buf : Buffer.t) (st : t * conn) : outcome (Buffer.t * (t * conn)) :=
  '(b, st1) ← Lines.on_message onMessage_body buf st; st2 ← finish st1; Ret (b, st2).

(** ** The client and the service over a network *)
Record world := World {
  client : t * conn;
  client_buffer : Buffer.t;
  server : conn;
  server_buffer : Buffer.t;
  to_server : nat;
  to_client : nat
}.

Inductive delivery := ToServer (n : nat) | ToClient (n : nat).

Abbreviation in_transit := SudokuWire.in_transit.

Definition deliver (d : delivery) (w : world) : outcome world :=
  match d with
  | ToServer n =>
      let chunk := take n (in_transit (to_server w) (client w).2) in
      '(b, c) ← Lines.serve SudokuServer.onMessage_body [chunk] (server_buffer w) (server w);
      Ret (World (client w) (client_buffer w) c b (to_server w + length chunk) (to_client w))
  | ToClient n =>
      let chunk := take n (in_transit (to_client w) (server w)) in
      '(k, _, b1) ← Buffer.readFd (Buffer.ReadBytes chunk) (client_buffer w);
      '(b, st) ← (if 0 <? k then onMessage b1 (client w) else Ret (b1, client w));
      Ret (World st b (server w) (server_buffer w) (to_server w) (to_client w + length chunk))
  end.

Fixpoint deliveries (ds : list delivery) (w : world) : outcome world :=
  match ds with [] => Ret w | d :: ds' => w1 ← deliver d w; deliveries ds' w1 end.

Definition start (uninitialised name : bytes) (input : list bytes) (g : program) : outcome world :=
  st ← onConnection uninitialised (SudokuClient name input 0 g, mk true []);
  b1 ← Buffer.Buffer; b2 ← Buffer.Buffer;
  Ret (World st b1 (mk true []) b2 0 0).

Lemma readFd_count d b k e b1 : Buffer.readFd (Buffer.ReadBytes d) b = Ret (k, e, b1) -> k = zlen d.
Proof.
  unfold Buffer.readFd. destruct (store _ _ _) as [buf|]; [|done]. cbn [mbind outcome_bind]. destruct (_ <=? _); [by intros [= <- _ _] |].
  destruct (Buffer.append _ _) as [b'|]; [|done]. by intros [= <- _ _].
Qed.

(** A delivery to the client is what [Lines.serve] does, then [finish]. *)
Lemma deliver_client_eq n w : deliver (ToClient n) w =
  let chunk := take n (in_transit (to_client w) (server w)) in
  '(b, st) ← Lines.serve onMessage_body [chunk] (client_buffer w) (client w);
  st' ← (if 0 <? zlen chunk then finish st else Ret st);
  Ret (World st' b (server w) (server_buffer w) (to_server w) (to_client w + length chunk)).
Proof.
  cbn [deliver]. set (chunk := take n _). cbn zeta. cbn [Lines.serve]. unfold onMessage.
  destruct (Buffer.readFd (Buffer.ReadBytes chunk) (client_buffer w)) as [[[k e] b1]|] eqn:E; [|done]. rewrite !bind_Ret.
  rewrite (readFd_count _ _ _ _ _ E). destruct (0 <? zlen chunk); [|done]. destruct (Lines.on_message onMessage_body b1 (client w)) as [[b st]|]; [|done].
  rewrite !bind_Ret. by destruct (finish st).
Qed.

Lemma serve_nothing b st : Buffer.wf b -> zlen (Buffer.buffer_ b) <= vector_max_size -> exists b', Lines.serve onMessage_body [[]] b st = Ret (b', st) /\ Buffer.wf b' /\
  Buffer.contents b' = Buffer.contents b /\ zlen (Buffer.buffer_ b') <= zlen (Buffer.buffer_ b).
Proof.
  intros W Hz. cbn [Lines.serve]. pose proof (Buffer.readFd_ok [] b W) as HR. change (zlen []) with 0 in HR. specialize (HR ltac:(lia)).
  destruct (Buffer.readFd (Buffer.ReadBytes []) b) as [[[k e] b1]|]; [|done]. destruct HR as (-> & _ & W1 & E1 & Hz1). rewrite !bind_Ret.
  exists b1. rewrite app_nil_r in E1. split_and!; [done | done | done | lia].
Qed.

(** ** The requests and responses *)
Section batch.
Variables (uninitialised name : bytes) (input : list bytes) (g : program).
Hypothesis buffer_size : zlen uninitialised = LogStream.kSmallBuffer.
Hypothesis input_size : 0 < zlen input < 2 ^ 31.
Hypothesis puzzles_ok : forall q, q ∈ input -> SudokuWire.solvable q.
Hypothesis globals_ok : 0 <= g_finished g < 2 ^ 31 - 1.

Definition puz (i : Z) : bytes := nth (Z.to_nat i) input [].
Definition req (i : Z) : request := Named (show (i + 1)) (puz i).
Definition response (i : Z) : bytes := show (i + 1) ++ colon :: SudokuWire.ans req i.

Lemma batch_id_ok i : 0 <= i < zlen input -> PipelineClient.plain (show (i + 1)) /\ 1 <= zlen (show (i + 1)) <= 10.
Proof using input_size.
  intros Hi. unfold show. rewrite (proj2 (Z.ltb_ge (i + 1) 0)) by lia. split; [|apply zlen_show_nonneg; lia].
  destruct (show_nonneg_digits (i + 1) ltac:(lia)) as (ds & Hm & _). by apply PipelineClient.digit_plain, (dec_digits_range _ ds).
Qed.

Lemma batch_puz_ok i : 0 <= i < zlen input -> SudokuWire.solvable (puz i).
Proof using puzzles_ok. intros Hi. apply puzzles_ok. apply list_elem_of_In, nth_In. unfold zlen in Hi. lia. Qed.

Lemma batch_req_ok i : 0 <= i < zlen input -> request_ok (req i).
Proof using puzzles_ok input_size.
  intros Hi. pose proof (batch_puz_ok i Hi) as Hs. destruct (batch_id_ok i Hi) as [(I0 & I1 & I2 & _) Hl]. destruct (PipelineClient.digit_plain _ (SudokuWire.solvable_digits _ Hs)) as (_ & P1 & _).
  destruct Hs as [Hz _]. split; cbn [req puzzle_of line]; [done | done | |].
  - apply PipelineClient.no_cr_clean. rewrite elem_of_app, elem_of_cons. intros [? | [? | ?]]; done.
  - rewrite zlen_app, zlen_cons, Hz. unfold kCells. lia.
Qed.

Lemma batch_ans_ok i : 0 <= i < zlen input -> zlen (SudokuWire.ans req i) = kCells /\ forall b, b ∈ SudokuWire.ans req i -> 48 <= b2Z b <= 57.
Proof using puzzles_ok.
  intros Hi. destruct (SudokuWire.solvable_answer _ (batch_puz_ok i Hi)) as (a & E & H). unfold SudokuWire.ans. cbn [req puzzle_of]. by rewrite E.
Qed.

Lemma batch_response_ok i : 0 <= i < zlen input -> SudokuWire.rep_of req i = response i ++ Buffer.kCRLF /\ Lines.clean (response i) /\ 83 <= zlen (response i) <= 92.
Proof using puzzles_ok input_size.
  intros Hi. destruct (batch_id_ok i Hi) as [(I0 & I1 & I2 & _) Hl]. destruct (batch_ans_ok i Hi) as [Hz Hd]. destruct (PipelineClient.digit_plain _ Hd) as (_ & A1 & _). split_and!.
  - unfold SudokuWire.rep_of, response, reply, req at 1. destruct (show (i + 1)) as [|x id]; [change (zlen []) with 0 in Hl; lia |]. cbn [app]. by rewrite <-app_assoc.
  - apply PipelineClient.no_cr_clean. unfold response. rewrite elem_of_app, elem_of_cons. intros [? | [? | ?]]; done.
  - unfold response. rewrite zlen_app, zlen_cons, Hz. unfold kCells. lia.
  - unfold response. rewrite zlen_app, zlen_cons, Hz. unfold kCells. lia.
Qed.

(** Every request fits into the stream's buffer. *)
Lemma batch_request_text_ok i : 0 <= i < zlen input -> request_text uninitialised i (puz i) = Ret (encode (req i)).
Proof using puzzles_ok input_size buffer_size.
  intros Hi. destruct (batch_puz_ok i Hi) as [Hz _]. destruct (batch_id_ok i Hi) as [_ Hl]. unfold request_text. rewrite u64_id by lia.
  set (items := [_; _; _; _]). assert (Hok : Forall LogStream.item_ok items) by (repeat (apply List.Forall_cons; [cbn; done || lia |]); apply List.Forall_nil).
  assert (Ht : concat (map LogStream.show_item items) = encode (req i)).
  { unfold items. cbn [map concat LogStream.show_item]. unfold encode, req. cbn [line]. rewrite app_nil_r. by rewrite <-app_assoc. }
  assert (W : FixedBuffer.wf LogStream.kSmallBuffer (FixedBuffer.FixedBuffer uninitialised)) by (unfold FixedBuffer.wf; split; [done | cbn; unfold LogStream.kSmallBuffer; lia]).
  pose proof (LogStream.insert_all_ok items _ W Hok) as HI. destruct (LogStream.insert_all items _) as [b|]; [|done]. destruct HI as [[Wd Wc] E].
  change (FixedBuffer.text (FixedBuffer.FixedBuffer uninitialised)) with (@nil byte) in E. rewrite LogStream.spec_all_fits in E.
  2:{ rewrite Ht. unfold encode, req. cbn [line]. change (zlen []) with 0. rewrite !zlen_app, zlen_cons, Hz. change (zlen Buffer.kCRLF) with 2. unfold kCells, LogStream.kMaxNumericSize, LogStream.kSmallBuffer. lia. }
  cbn [app] in E. rewrite Ht in E. rewrite bind_Ret, <-E. unfold FixedBuffer.length_of, FixedBuffer.text. rewrite s32_id by (unfold LogStream.kSmallBuffer in *; lia).
  apply load_ok; lia.
Qed.

Lemma batch_send_all_ok l : forall i c, 0 <= i -> l = drop (Z.to_nat i) input -> connected c = true ->
  returns (send_all uninitialised i l c) (fun c' => connected c' = true /\ concat (sent c') = concat (sent c) ++ SudokuWire.requests req i (zlen l)).
Proof using puzzles_ok input_size buffer_size.
  induction l as [|q l IH]; intros i c Hi El Hc; cbn [send_all]; [split; [done | by rewrite app_nil_r] |].
  assert (Hlen : zlen (q :: l) = Z.max 0 (zlen input - i)) by (rewrite El, zlen_drop; lia). rewrite zlen_cons in *. pose proof (zlen_nonneg l).
  assert (Eq : puz i = q). { unfold puz. apply nth_lookup_Some. rewrite <-(Nat.add_0_r (Z.to_nat i)), <-lookup_drop, <-El. done. }
  rewrite <-Eq, batch_request_text_ok, bind_Ret by lia.
  eapply returns_mono; [|apply (IH (i + 1)); [lia | | by unfold SudokuServer.send; rewrite Hc]].
  - intros c' [H1 H2]. split; [done |]. rewrite H2. unfold SudokuServer.send. rewrite Hc. cbn [sent]. rewrite concat_app. cbn [concat]. rewrite app_nil_r, <-app_assoc.
    by rewrite SudokuWire.requests_app, SudokuWire.requests_one by lia.
  - replace (Z.to_nat (i + 1)) with (Z.to_nat i + 1)%nat by lia. by rewrite <-drop_drop, <-El.
Qed.

(** *** A delivery to the client *)

Definition counted (k : Z) (gl : program) : t := SudokuClient name input k gl.

(** What holds before the responses [rs], the last of which is number [K - 1]. *)
Definition before (c : conn) (K : Z) (rs : list Z) (st : t * conn) : Prop :=
  st = (counted (K - zlen rs) g, c) /\ 0 <= K - zlen rs /\ K <= zlen input /\ rs = seqZ (K - zlen rs) (zlen rs).

Definition take_response (i : Z) (st : t * conn) : outcome (t * conn) :=
  n ← i32 (count_ st.1 + 1); Ret (SudokuClient (name_ st.1) (input_ st.1) n (globals st.1), st.2).

Lemma batch_partial_response i b st x y : 0 <= i < zlen input -> Buffer.wf b -> Buffer.contents b ++ y = SudokuWire.rep_of req i ++ x ->
  (length (Buffer.contents b) < length (SudokuWire.rep_of req i))%nat -> onMessage_body (b, st) = Ret (inr (b, st)).
Proof using puzzles_ok input_size.
  intros Hi W E Hl. destruct (batch_response_ok i Hi) as (Er & Hc & Hz). rewrite Er in *. destruct st as [s c]. unfold onMessage_body.
  rewrite Buffer.readable_contents by done. destruct (kCells + 2 <=? zlen (Buffer.contents b)); [|done].
  rewrite Buffer.contents_findCRLF, bind_Ret by done. rewrite <-app_assoc in E. rewrite length_app in Hl.
  rewrite (Lines.search_prefix (response i) _ y x) by done. cbn [fmap option_fmap option_map].
  rewrite (proj2 (Z.ltb_ge 100 _)); [done |]. unfold zlen in Hz |- *. change (length Buffer.kCRLF) with 2%nat in Hl. lia.
Qed.

Lemma batch_full_response c K i rs b st x : 0 <= i < zlen input -> before c K (i :: rs) st -> Buffer.wf b -> Buffer.contents b = SudokuWire.rep_of req i ++ x ->
  exists b1 st1, onMessage_body (b, st) = Ret (inl (b1, st1)) /\ take_response i st = Ret st1 /\ before c K rs st1 /\ Buffer.wf b1 /\
    Buffer.contents b1 = x /\ Buffer.buffer_ b1 = Buffer.buffer_ b.
Proof using puzzles_ok input_size.
  intros Hi (-> & Hk & HK & Hrs) W Hx. pose proof (zlen_nonneg rs) as Hz. rewrite zlen_cons in *. rewrite seqZ_cons in Hrs by lia. injection Hrs as Ei Hrs. rewrite <-Ei in *.
  destruct (batch_response_ok i Hi) as (Er & Hcl & Hrz). rewrite Er, <-app_assoc in Hx. destruct (Lines.take_line _ x b W Hx Hcl) as (Hf & HL & b1 & Hu & W1 & E1 & Eb).
  unfold onMessage_body, take_response. cbn [fst snd counted count_ name_ input_ globals]. rewrite Buffer.readable_contents by done.
  rewrite (proj2 (Z.leb_le (kCells + 2) _)); [|rewrite Hx, !zlen_app; change (zlen Buffer.kCRLF) with 2; pose proof (zlen_nonneg x); unfold kCells; lia].
  rewrite Hf, bind_Ret, HL, bind_Ret, Hu, bind_Ret, i32_ok, !bind_Ret by lia. cbn [verify negb].
  exists b1, (counted (i + 1) g, c). split_and!; try done. unfold before. replace (K - zlen rs) with (i + 1) by lia. split_and!; try done; [lia |].
  rewrite Hrs at 1. replace (Z.succ i) with (i + 1) by lia. f_equal. lia.
Qed.

Lemma batch_client_one d y c k n b : 0 <= k -> 0 <= n -> k + n <= zlen input -> Buffer.wf b -> Buffer.contents b ++ d ++ y = SudokuWire.replies req k n ->
  zlen (Buffer.buffer_ b) + zlen d <= vector_max_size -> (d ++ y = [] -> n = 0) ->
  exists m b', 0 <= m <= n /\ Lines.serve onMessage_body [d] b (counted k g, c) = Ret (b', (counted (k + m) g, c)) /\ Buffer.wf b' /\
    zlen (Buffer.buffer_ b') <= zlen (Buffer.buffer_ b) + zlen d /\ Buffer.contents b' ++ y = SudokuWire.replies req (k + m) (n - m) /\ (y = [] -> m = n).
Proof using puzzles_ok input_size.
  intros Hk Hn HK W E Hz Hy. assert (El : zlen (seqZ k n) = n) by (unfold zlen; rewrite length_seqZ; lia).
  destruct (Lines.serve_one (SudokuWire.rep_of req) (fun i => 0 <= i < zlen input) take_response (before c (k + n)) onMessage_body)
    with (c := d) (y := y) (rs := seqZ k n) (b := b) (s := (counted k g, c)) as (rs1 & rs2 & b' & st' & Er & Es & _ & HI & W' & Hz' & E' & Hy'); try done.
  - intros i Hi. destruct (batch_response_ok i Hi) as (-> & _). rewrite length_app. cbn. lia.
  - intros b0 [s0 c0] W0 Hb. unfold onMessage_body. by rewrite Buffer.readable_contents, Hb.
  - intros. by eapply batch_partial_response.
  - intros i rs b0 st x Hi HI W0 Hx. by eapply batch_full_response.
  - apply list.Forall_forall. intros i Hi%elem_of_seqZ. lia.
  - unfold before. rewrite El. replace (k + n - n) with k by lia. by split_and!.
  - intros Hd. by rewrite (Hy Hd).
  - destruct HI as (-> & Hk2 & _ & Er2). assert (Hl : zlen rs1 + zlen rs2 = n) by (rewrite <-El, Er, zlen_app; done). pose proof (zlen_nonneg rs1). pose proof (zlen_nonneg rs2).
    exists (n - zlen rs2), b'. replace (k + (n - zlen rs2)) with (k + n - zlen rs2) by lia. split_and!; try done; try lia.
    + rewrite E'. unfold SudokuWire.replies. rewrite Er2 at 1. by replace (n - (n - zlen rs2)) with (zlen rs2) by lia.
    + intros Hy0. rewrite (Hy' Hy0). change (zlen []) with 0. lia.
Qed.

(** *** The invariant *)

Definition after (g0 : program) : program :=
  Program (g_connections g0) (g_finished g0 + 1) (if g_finished g0 + 1 =? g_connections g0 then quits g0 + 1 else quits g0).

(** The client has taken [kc] responses, the service has answered [ks] requests. *)
Record settled (kc ks : Z) (w : world) : Prop := {
  se_range : 0 <= kc <= ks;
  se_client : (client w).1 = counted kc (if kc =? zlen input then after g else g);
  se_up : connected (client w).2 = negb (kc =? zlen input);
  se_serving : SudokuWire.serving req (zlen input) ks (client w).2 (server w) (server_buffer w) (to_server w);
  se_cbuf : Buffer.wf (client_buffer w) /\ zlen (Buffer.buffer_ (client_buffer w)) <= 1032 + Z.of_nat (to_client w);
  se_responses : Buffer.contents (client_buffer w) ++ in_transit (to_client w) (server w) = SudokuWire.replies req kc (ks - kc);
  se_client_idle : in_transit (to_client w) (server w) = [] -> kc = ks;
  se_to_client : (to_client w <= length (concat (sent (server w))))%nat
}.

Lemma serving_shutdown M ks out sv sb d : SudokuWire.serving req M ks out sv sb d -> SudokuWire.serving req M ks (shutdown out) sv sb d.
Proof. intros []. by split. Qed.

Lemma batch_deliver_server n kc ks w : settled kc ks w -> Z.of_nat (to_server w) + Z.of_nat n < 2 ^ 62 ->
  exists w' ks', deliver (ToServer n) w = Ret w' /\ settled kc ks' w' /\ to_client w' = to_client w /\ (to_server w' <= to_server w + n)%nat.
Proof using puzzles_ok input_size.
  intros [Hr F Hc HS Hcb Ers Hci D2] Hn.
  destruct (SudokuWire.serving_delivery req (zlen input) batch_req_ok n _ _ _ _ _ _ HS) as (m & l & b' & E & El & Hm & HS'); [lia | lia |].
  cbn [deliver]. rewrite E, bind_Ret. eexists _, (ks + m). split; [reflexivity |]. split_and!; [|done|cbn; rewrite length_take; lia].
  split; cbn [client client_buffer server server_buffer to_server to_client]; try done; [lia | | |].
  - rewrite SudokuWire.transit_app, El, app_assoc by done. rewrite Ers. replace (ks + m - kc) with (ks - kc + m) by lia.
    rewrite SudokuWire.replies_app by lia. by replace (kc + (ks - kc)) with ks by lia.
  - rewrite SudokuWire.transit_app, El by done. intros [H0 H1]%app_nil. pose proof (Hci H0). apply SudokuWire.replies_nil in H1. lia.
  - cbn [sent]. rewrite concat_app, length_app. lia.
Qed.

Lemma finish_ok k c : 0 <= k <= zlen input -> connected c = true ->
  finish (counted k g, c) = Ret (counted k (if k =? zlen input then after g else g), if k =? zlen input then shutdown c else c).
Proof using input_size globals_ok.
  intros Hk Hc. unfold finish. cbn [counted count_ input_ name_ globals]. rewrite s32_id by lia. destruct (k =? zlen input); [|done].
  unfold done. by rewrite i32_ok, !bind_Ret by lia.
Qed.

Lemma batch_deliver_client n kc ks w : settled kc ks w -> Z.of_nat (to_client w) + Z.of_nat n < 2 ^ 62 ->
  exists w' kc', deliver (ToClient n) w = Ret w' /\ settled kc' ks w' /\ to_server w' = to_server w /\ (to_client w' <= to_client w + n)%nat.
Proof using puzzles_ok input_size globals_ok.
  intros S Hn. pose proof S as [Hr F Hc HS [Wcb Hcb] Ers Hci D2]. rewrite deliver_client_eq. cbn zeta.
  pose proof (SudokuWire.sv_range _ _ _ _ _ _ _ HS) as Hks.
  pose proof (SudokuWire.transit_take n (to_client w) (server w)) as Et. set (d := take n (in_transit (to_client w) (server w))) in *.
  assert (Hd : (length d <= n)%nat) by (unfold d; rewrite length_take; lia).
  destruct (decide (d = [])) as [Hd0|Hd0].
  - rewrite Hd0 in *. destruct (serve_nothing (client_buffer w) (client w) Wcb) as (b' & -> & W' & E' & Hz'); [unfold vector_max_size; lia |]. rewrite bind_Ret. cbn [zlen length Z.of_nat Z.ltb Z.compare].
    eexists _, kc. split; [reflexivity |]. split_and!; [|done|cbn; lia]. cbn [app length] in *. rewrite Nat.add_0_r.
    split; cbn [client client_buffer server server_buffer to_server to_client]; try done; [split; [done | lia] | by rewrite E'].
  - assert (Hlt : kc < zlen input).
    { destruct (decide (kc = zlen input)) as [Hfin|]; [|lia]. exfalso. replace (ks - kc) with 0 in Ers by lia. apply app_nil in Ers as [_ E0]. rewrite E0 in Et.
      symmetry in Et. by apply app_nil in Et as [? _]. }
    rewrite (proj2 (Z.eqb_neq kc _)) in F, Hc by lia. destruct (client w) as [s c] eqn:Ew. cbn [fst snd] in *. subst s. rewrite Et in Ers.
    destruct (batch_client_one d (in_transit (to_client w + length d) (server w)) c kc (ks - kc) (client_buffer w)) as (m & b' & Hm & -> & W' & Hz' & E' & Hy); try done; try lia.
    { unfold vector_max_size. assert (zlen d <= Z.of_nat n) by (unfold zlen; lia). lia. }
    { intros [? _]%app_nil. done. }
    rewrite bind_Ret. rewrite (proj2 (Z.ltb_lt 0 (zlen d))) by (unfold zlen; destruct d; [done | cbn; lia]). rewrite finish_ok, bind_Ret by (done || lia).
    eexists _, (kc + m). split; [reflexivity |]. split_and!; [|done|cbn; lia].
    split; cbn [client client_buffer server server_buffer to_server to_client fst snd]; try done; [lia | by destruct (_ =? _) | | | | |].
    + destruct (_ =? _); [by apply serving_shutdown | done].
    + split; [done |]. unfold zlen in Hz', Hcb |- *. lia.
    + rewrite E'. f_equal. lia.
    + intros H0. specialize (Hy H0). lia.
    + by apply SudokuWire.transit_length.
Qed.

Lemma batch_start_settled : returns (start uninitialised name input g) (fun w => settled 0 0 w /\ to_server w = 0%nat /\ to_client w = 0%nat).
Proof using puzzles_ok input_size buffer_size globals_ok.
  unfold start, onConnection. cbn [connected input_].
  eapply (returns_seq _ _ (fun st => st.1 = counted 0 g /\ connected st.2 = true /\ concat (sent st.2) = SudokuWire.requests req 0 (zlen input))).
  { eapply returns_seq; [apply (batch_send_all_ok input 0 (mk true [])); try done; by rewrite drop_0 |]. intros c' [H1 H2]. by split_and!. }
  intros [s c] (E1 & E2 & E3). cbn [fst snd] in *. eapply returns_seq; [apply Buffer.Buffer_ok |]. intros b1 [W1 Eb1 _ _ V1].
  eapply returns_seq; [apply (SudokuWire.serving_start req (zlen input) batch_req_ok (zlen input) c); [done | lia] |].
  intros b2 HS. cbn [Buffer.q_bytes Buffer.q_vol Buffer.empty_queue] in *. split; [|done].
  split; cbn [client client_buffer server server_buffer to_server to_client fst snd]; try done; rewrite ?(proj2 (Z.eqb_neq 0 (zlen input))) by lia; try done; try lia. by rewrite Eb1.
Qed.

Definition bytes_of (d : delivery) : Z := match d with ToServer n | ToClient n => Z.of_nat n end.
Definition total (ds : list delivery) : Z := fold_right (fun d n => bytes_of d + n) 0 ds.

Lemma batch_deliveries_settled ds : forall kc ks w, settled kc ks w -> Z.of_nat (to_server w) + Z.of_nat (to_client w) + total ds < 2 ^ 62 ->
  returns (deliveries ds w) (fun w' => exists kc' ks', settled kc' ks' w').
Proof using puzzles_ok input_size globals_ok.
  induction ds as [|d ds IH]; intros kc ks w S Hb; cbn [deliveries]; [by exists kc, ks |].
  assert (Ht0 : 0 <= total ds) by (clear; induction ds as [|[n|n] ds IH]; cbn [total fold_right bytes_of]; unfold total in *; lia).
  cbn [total fold_right] in Hb. fold (total ds) in Hb. destruct d as [n | n]; cbn [bytes_of] in Hb.
  - destruct (batch_deliver_server n kc ks w S) as (w' & ks' & -> & S' & E1 & E2); [lia |]. rewrite bind_Ret. apply (IH kc ks'); try done. lia.
  - destruct (batch_deliver_client n kc ks w S) as (w' & kc' & -> & S' & E1 & E2); [lia |]. rewrite bind_Ret. apply (IH kc' ks); try done. lia.
Qed.
End batch.

(** C10. The batch client against the service, for a file of puzzles that have a solution and
    whatever way the network cuts and interleaves the two streams: nothing crashes; the client
    reports that it is done exactly once, when it has counted one response for every puzzle,
    and only then closes; until then some byte is on its way, so it always gets there. *)
Theorem batch_completes uninitialised name input g ds : zlen uninitialised = LogStream.kSmallBuffer -> 0 < zlen input < 2 ^ 31 ->
  (forall q, q ∈ input -> SudokuWire.solvable q) -> 0 <= g_finished g < 2 ^ 31 - 1 -> total ds < 2 ^ 62 ->
  returns (w ← start uninitialised name input g; deliveries ds w) (fun w =>
    let '(s, c) := client w in
    let finished := count_ s =? zlen input in
    0 <= count_ s <= zlen input /\ globals s = (if finished then after g else g) /\ connected c = negb finished /\ connected (server w) = true /\
    (finished = false -> ~ (in_transit (to_server w) c = [] /\ in_transit (to_client w) (server w) = []))).
Proof.
  intros Hu Hi Hp Hg Hb. eapply returns_seq; [by apply batch_start_settled |]. intros w0 (S0 & E1 & E2).
  eapply returns_mono; [|apply (batch_deliveries_settled name input g Hi Hp Hg ds 0 0 w0); [done | lia]].
  intros w (kc & ks & [Hr F Hc HS _ _ Hci _]). pose proof (SudokuWire.sv_range _ _ _ _ _ _ _ HS) as Hks. destruct (client w) as [s c]. cbn [fst snd] in *. subst s.
  cbn [counted count_ globals]. split_and!; try done; try lia.
  - apply (SudokuWire.sv_up _ _ _ _ _ _ _ HS).
  - intros Hf [H1 H2]. pose proof (SudokuWire.sv_idle _ _ _ _ _ _ _ HS H1). specialize (Hci H2). bools. lia.
Qed.

Lemma batch_completes_witness :
  returns (w ← start (replicate 4000 x00) (lit "client-001") [easy_puzzle; easy_puzzle] (Program 1 0 0); deliveries [ToServer 100; ToClient 40; ToServer 300; ToClient 500] w) (fun w =>
    let '(s, c) := client w in
    let finished := count_ s =? 2 in
    0 <= count_ s <= 2 /\ globals s = (if finished then after (Program 1 0 0) else Program 1 0 0) /\ connected c = negb finished /\ connected (server w) = true /\
    (finished = false -> ~ (in_transit (to_server w) c = [] /\ in_transit (to_client w) (server w) = []))).
Proof.
  apply (batch_completes (replicate 4000 x00) (lit "client-001") [easy_puzzle; easy_puzzle] (Program 1 0 0)).
  - reflexivity.
  - split; reflexivity.
  - intros q Hq. assert (q = easy_puzzle) as -> by (apply elem_of_cons in Hq as [-> | ->%list_elem_of_singleton]; reflexivity).
    split; [reflexivity |]. exists easy_answer. apply PipelineClient.easy_has_solution.
  - cbn. lia.
  - reflexivity.
Defined.

(** With everything delivered the client is done and the loop is told to quit. *)
Example batch_example :
  (w ← (w ← start (replicate 4000 x00) (lit "client-001") [easy_puzzle; easy_puzzle] (Program 1 0 0); deliveries [ToServer 100; ToClient 40; ToServer 300; ToClient 500] w);
   Ret (count_ (client w).1, globals (client w).1)) = Ret (2, Program 1 1 1).
Proof. vm_compute. reflexivity. Qed.

(** The reply to a last puzzle without a solution is too short to be taken off: the client waits
    for ever. *)
Lemma batch_stalls_without_solution :
  returns (w ← start (replicate 4000 x00) (lit "client-001") [PipelineClient.dead_puzzle] (Program 1 0 0); deliveries [ToServer 1000; ToClient 1000] w) (fun w =>
    let '(s, c) := client w in
    count_ s = 0 /\ in_transit (to_server w) c = [] /\ in_transit (to_client w) (server w) = [] /\ Buffer.contents (client_buffer w) = lit "1:NoSolution" ++ Buffer.kCRLF).
Proof. vm_compute. done. Qed.

(** ** The local mode *)

(** Every line of 81 characters is counted as solved. *)
Lemma runLocal_ok lines : forall n, 0 <= n -> n + zlen lines < 2 ^ 31 ->
  runLocal lines n n = Ret (n + zlen (List.filter (fun l => zlen l =? kCells) lines), n + zlen (List.filter (fun l => zlen l =? kCells) lines)).
Proof.
  induction lines as [|l lines IH]; intros n Hn Hb; cbn [runLocal List.filter]; [by rewrite Z.add_0_r |]. rewrite zlen_cons in Hb. pose proof (zlen_nonneg lines).
  destruct (zlen l =? kCells) eqn:E; bools; [|apply IH; lia].
  rewrite i32_ok, bind_Ret by lia. destruct (SudokuBoard.solveSudoku_answers l E) as (a & -> & _). rewrite bind_Ret. cbn [verify]. rewrite bind_Ret, IH, zlen_cons by lia.
  do 2 f_equal; lia.
Qed.

End BatchClient.
