(* ===== verification/SudokuProd.v ===== *)
(** * excercises/sudoku/server_prod.cc: the service over a thread pool

    The I/O threads parse requests and hand them to the worker threads of a [ThreadPool]; a
    worker solves a puzzle and sends the reply.  A connection whose output grows is throttled:
    its requests are answered "ServerTooBusy".  Events happen in any order.  The pool,
    whose source is not in the repository, is a parameter; of it only this is used: a task given
    to [run] is either called at once or taken and finished once by some worker.  Handlers are
    atomic. *)

From S2P Require Import Prelude Endian NetBuffer Calendar TimeZone SudokuStat Sudoku SudokuBoard SudokuServer.

Module ProdServer.
Import SudokuServer.

Record Request := mkRequest { id : bytes; puzzle : bytes; receiveTime : Timestamp.t }.

(** What the handlers see of a connection; [context_] is the [boost::any] with the throttle. *)
Record connection := Connection {
  io : conn;
  inputBuffer_ : Buffer.t;
  context_ : option bool;
  highWaterMark_ : Z;
  writeCompleteCallback_ : bool
}.

Definition task : Type := Z * Request.

Record t := mk {
  numThreads_ : Z;
  connections : gmap Z connection;
  queue_ : list task;
  working : list task;                 (* taken by a worker *)
  stat_ : SudokuStat.t
}.

Definition set_connections m s := mk (numThreads_ s) m (queue_ s) (working s) (stat_ s).
Definition set_queue q s := mk (numThreads_ s) (connections s) q (working s) (stat_ s).
Definition set_working w s := mk (numThreads_ s) (connections s) (queue_ s) w (stat_ s).
Definition set_stat x s := mk (numThreads_ s) (connections s) (queue_ s) (working s) x.

Definition update (c : Z) (f : connection -> connection) (s : t) : t :=
  set_connections (alter f c (connections s)) s.

Definition set_io (i : conn) (x : connection) : connection :=
  Connection i (inputBuffer_ x) (context_ x) (highWaterMark_ x) (writeCompleteCallback_ x).
Definition send_to (c : Z) (message : bytes) : t -> t := update c (fun x => set_io (send message (io x)) x).
Definition shutdown_of (c : Z) : t -> t := update c (fun x => set_io (shutdown (io x)) x).

Definition recording (f : SudokuStat.t -> outcome SudokuStat.t) (s : t) : outcome t := x ← f (stat_ s); Ret (set_stat x s).

(** [SudokuServer(..., numThreads, ...)] *)
Definition SudokuServer (numThreads : Z) : t := mk numThreads ∅ [] [] SudokuStat.SudokuStat.

Definition mega : Z := 1024 * 1024.
Definition bad_request : bytes := lit "Bad Request!" ++ Buffer.kCRLF.

Definition onConnection (c : Z) : t -> t :=
  update c (fun x => if connected (io x) then Connection (io x) (inputBuffer_ x) (Some false) (5 * mega) (writeCompleteCallback_ x) else x).

Definition highWaterMark (c tosend : Z) (s : t) : outcome t :=
  if tosend <? 10 * mega then
    Ret (update c (fun x => Connection (io x) (inputBuffer_ x) (Some true) (10 * mega) true) s)
  else recording SudokuStat.recordBadRequest (shutdown_of c (send_to c bad_request s)).

Definition writeComplete (c : Z) : t -> t :=
  update c (fun x => Connection (io x) (inputBuffer_ x) (Some false) (5 * mega) false).

(** The line for a result; the id is left out when it is empty. *)
Definition reply_text (req : Request) (result : bytes) : bytes :=
  if zlen (id req) =? 0 then result ++ Buffer.kCRLF else id req ++ [colon] ++ result ++ Buffer.kCRLF.

(** ThreadPool.cc is not in the repository.  What the server sees of the pool: whether [run]
    calls the task in the caller's thread or queues it, and the number [queueSize] answers. *)
Record ThreadPool := mkPool { at_once : t -> bool; queueSize : t -> Z }.

Section server.
(** [Timestamp::now()], as a function of the number of responses so far. *)
Variables (clock : Z -> Timestamp.t) (pool : ThreadPool).

Definition solve (tk : task) (s : t) : outcome t :=
  let '(c, req) := tk in
  result ← solveSudoku (puzzle req);
  let s1 := send_to c (reply_text req result) s in
  recording (SudokuStat.recordResponse (clock (SudokuStat.totalResponses_ (stat_ s1))) (receiveTime req)
               (negb (bool_decide (result = kNoSolution)))) s1.

(** [ThreadPool::run] *)
Definition run (tk : task) (s : t) : outcome t :=
  if at_once pool s then solve tk s else Ret (set_queue (queue_ s ++ [tk]) s).

Definition processRequest (c : Z) (request : bytes) (now : Timestamp.t) (s : t) : outcome (bool * t) :=
  let parsed := match find_byte colon request with
                | Some i => Some (mkRequest (take i request) (drop (S i) request) now)
                | None => if 1 <? numThreads_ s then None else Some (mkRequest [] request now)
                end in
  match parsed with
  | None => Ret (false, s)
  | Some req =>
      if zlen (puzzle req) =? kCells then
        throttle ← match connections s !! c with
                   | Some x => match context_ x with Some b => Ret b | None => Crash Thrown end
                   | None => Crash NullPointer
                   end;
        if (queueSize pool s <? 1000 * 1000) && negb throttle then
          s1 ← run (c, req) s; Ret (true, s1)
        else
          s1 ← recording SudokuStat.recordDroppedRequest (send_to c (reply_text req (lit "ServerTooBusy")) s);
          Ret (true, s1)
      else Ret (false, s)
  end.

(** One turn of the loop of [onMessage]; the buffer is held apart from its connection. *)
Definition onMessage_body (c : Z) (now : Timestamp.t) (st : Buffer.t * t) : outcome ((Buffer.t * t) + (Buffer.t * t)) :=
  let '(buf, s) := st in
  let len := Buffer.readableBytes buf in
  if kCells + 2 <=? len then
    crlf ← Buffer.findCRLF buf;
    match crlf with
    | Some crlf =>
        request ← load (Buffer.peek buf) (crlf - Buffer.peek buf) (Buffer.buffer_ buf);
        buf1 ← Buffer.retrieveUntil (crlf + 2) buf;
        s1 ← recording SudokuStat.recordRequest s;
        '(good, s2) ← processRequest c request now s1;
        if (good : bool) then Ret (inl (buf1, s2))
        else
          s3 ← recording SudokuStat.recordBadRequest (shutdown_of c (send_to c bad_request s2));
          Ret (inr (buf1, s3))
    | None =>
        if 100 <? len then
          s1 ← recording SudokuStat.recordBadRequest (shutdown_of c (send_to c (lit "Id too long!" ++ Buffer.kCRLF) s));
          Ret (inr (buf, s1))
        else Ret (inr (buf, s))
    end
  else Ret (inr (buf, s)).

(** ** Events *)
Inductive event :=
| Connect (c : Z)
| Disconnect (c : Z)
| Data (c : Z) (data : bytes) (now : Timestamp.t)
| HighWater (c tosend : Z)
| WriteComplete (c : Z)
| Take (i : nat)                       (* a worker takes a queued task *)
| Finish (i : nat).                    (* a worker finishes its task *)

Definition set_buffer (b : Buffer.t) (x : connection) : connection :=
  Connection (io x) b (context_ x) (highWaterMark_ x) (writeCompleteCallback_ x).

Definition step (e : event) (s : t) : outcome t :=
  match e with
  | Connect c =>
      match connections s !! c with
      | Some _ => Ret s
      | None => b ← Buffer.Buffer;
                Ret (onConnection c (set_connections (<[c := Connection (SudokuServer.mk true []) b None (64 * mega) false]> (connections s)) s))
      end
  | Disconnect c => Ret (onConnection c (shutdown_of c s))
  | Data c data now =>
      match connections s !! c with
      | Some x => '(b, s1) ← Lines.serve (onMessage_body c now) [data] (inputBuffer_ x) s; Ret (update c (set_buffer b) s1)
      | None => Ret s
      end
  | HighWater c tosend => highWaterMark c tosend s
  | WriteComplete c => Ret (writeComplete c s)
  | Take i =>
      match queue_ s !! i with
      | Some tk => Ret (set_working (working s ++ [tk]) (set_queue (delete i (queue_ s)) s))
      | None => Ret s
      end
  | Finish i =>
      match working s !! i with
      | Some tk => solve tk (set_working (delete i (working s)) s)
      | None => Ret s
      end
  end.

Fixpoint steps (es : list event) (s : t) : outcome t :=
  match es with [] => Ret s | e :: es' => s1 ← step e s; steps es' s1 end.

End server.

(** ** Every request is answered once *)

Definition as_request (r : Request) : request := Named (id r) (puzzle r).

(** An answer to the puzzle, or the refusal of a busy server. *)
Definition replied (r : request) (o : bytes) : Prop :=
  (exists a, SudokuBoard.answers (puzzle_of r) a /\ o = reply r a) \/ o = reply r (lit "ServerTooBusy").

(** The requests of connection [c] that the pool still has. *)
Definition pending (c : Z) (s : t) : list Request := map snd (List.filter (fun tk => tk.1 =? c) (queue_ s ++ working s)).

(** What connection [c] was sent answers the requests [d], but those that are pending. *)
Definition answered (c : Z) (d : list request) (x : connection) (s : t) : Prop :=
  exists dn, Forall (fun ro => replied ro.1 ro.2) dn /\ sent (io x) = map snd dn /\ d ≡ₚ map fst dn ++ map as_request (pending c s).

Lemma reply_text_reply req a : reply_text req a = reply (as_request req) a.
Proof. unfold reply_text, reply, as_request. by destruct (id req). Qed.

Lemma filter_perm {A} (f : A -> bool) l l' : l ≡ₚ l' -> List.filter f l ≡ₚ List.filter f l'.
Proof. induction 1; cbn [List.filter]; repeat case_match; try done; [by constructor | by constructor | by etrans]. Qed.

Lemma pending_perm c s s' : queue_ s ++ working s ≡ₚ queue_ s' ++ working s' -> pending c s ≡ₚ pending c s'.
Proof. intros P. unfold pending. by apply Permutation_map, filter_perm. Qed.

Lemma answered_perm c d x s s' : queue_ s ++ working s ≡ₚ queue_ s' ++ working s' -> answered c d x s -> answered c d x s'.
Proof. intros P (dn & H1 & H2 & H3). exists dn. split_and!; try done. by rewrite <-(pending_perm c s s' P). Qed.

(** A new task of connection [c]. *)
Lemma answered_more c d x s s' req : queue_ s' ++ working s' ≡ₚ (c, req) :: queue_ s ++ working s ->
  answered c d x s -> answered c (d ++ [as_request req]) x s'.
Proof.
  intros P (dn & H1 & H2 & H3). exists dn. split_and!; try done. unfold pending. rewrite (filter_perm _ _ _ P). cbn [List.filter fst].
  rewrite Z.eqb_refl. cbn [map]. rewrite H3. unfold pending. rewrite <-Permutation_cons_append. apply Permutation_middle.
Qed.

(** A pending task of connection [c] is answered. *)
Lemma answered_done c d x s s' req o : queue_ s ++ working s ≡ₚ (c, req) :: queue_ s' ++ working s' -> replied (as_request req) o ->
  answered c d x s -> answered c d (set_io (SudokuServer.mk true (sent (io x) ++ [o])) x) s'.
Proof.
  intros P Ho (dn & H1 & H2 & H3). exists (dn ++ [(as_request req, o)]). split_and!.
  - apply list.Forall_app. split; [done | by constructor].
  - cbn [io set_io sent]. by rewrite map_app, H2.
  - rewrite H3. unfold pending. rewrite (filter_perm _ _ _ P). cbn [List.filter fst]. rewrite Z.eqb_refl. cbn [map snd].
    rewrite map_app. cbn [map fst]. by rewrite <-app_assoc.
Qed.

(** A request of connection [c] is refused. *)
Lemma answered_busy c d x s s' r o : queue_ s ++ working s = queue_ s' ++ working s' -> replied r o ->
  answered c d x s -> answered c (d ++ [r]) (set_io (SudokuServer.mk true (sent (io x) ++ [o])) x) s'.
Proof.
  intros E Ho (dn & H1 & H2 & H3). exists (dn ++ [(r, o)]). split_and!.
  - apply list.Forall_app. split; [done | by constructor].
  - cbn [io set_io sent]. by rewrite map_app, H2.
  - rewrite H3. unfold pending. rewrite E, map_app. cbn [map fst]. rewrite <- !app_assoc. apply Permutation_app_head, Permutation_app_comm.
Qed.

(** The tasks of other connections. *)
Lemma answered_other c c' d x s s' req : c' <> c -> queue_ s ++ working s ≡ₚ (c', req) :: queue_ s' ++ working s' ->
  answered c d x s <-> answered c d x s'.
Proof.
  intros Hc P. assert (E : pending c s ≡ₚ pending c s').
  { unfold pending. rewrite (filter_perm _ _ _ P). cbn [List.filter fst]. by rewrite (proj2 (Z.eqb_neq c' c)). }
  unfold answered. split; intros (dn & H1 & H2 & H3); exists dn; split_and!; try done; [by rewrite <-E | by rewrite E].
Qed.

Section accounting.
Variables (clock : Z -> Timestamp.t) (pool : ThreadPool) (T D N : Z).

(** Times are in an interval of [D] microseconds; [N] requests in all. *)
Definition time_in (tm : Timestamp.t) : Prop := T <= Timestamp.microSecondsSinceEpoch_ tm < T + D.

Record limits : Prop := {
  lm_times : 1000000 <= T /\ 0 < D /\ T + D <= 2 ^ 59;
  lm_requests : 0 <= N < 2 ^ 60;
  lm_latency : N * D < 2 ^ 62;
  lm_clock : forall n, time_in (clock n)
}.
Hypothesis lim : limits.

(** *** The statistics *)

(** Of the requests counted, [pend] are pending and [k] are in the hands of [processRequest]. *)
Record books (k pend : Z) (x : SudokuStat.t) : Prop := {
  bk_window : exists h, SudokuStat.inv h x /\ zlen h <= SudokuStat.totalResponses_ x /\ SudokuStat.total h <= SudokuStat.totalResponses_ x * D;
  bk_counts : SudokuStat.counts (SudokuStat.totalRequests_ x + SudokuStat.totalResponses_ x) x;
  bk_sum : SudokuStat.totalRequests_ x = SudokuStat.totalResponses_ x + SudokuStat.droppedRequests_ x + pend + k;
  bk_bad : SudokuStat.badRequests_ x = 0;
  bk_bound : SudokuStat.totalRequests_ x <= N
}.

Lemma books_request pend x : books 0 pend x -> SudokuStat.totalRequests_ x < N ->
  returns (SudokuStat.recordRequest x) (fun x' => books 1 pend x' /\ SudokuStat.totalRequests_ x' = SudokuStat.totalRequests_ x + 1).
Proof using lim.
  intros [(h & I & Hh & Ht) C Hs Hb Hbd] Hn. pose proof (lm_requests lim). pose proof C as [C1 C2 C3 C4 C5 C6]. unfold SudokuStat.recordRequest.
  rewrite i64_bind by lia. split; [|done]. split; cbn; try lia; [exists h; destruct I; by split | split; cbn; lia].
Qed.

Lemma books_dropped pend x : 0 <= pend -> books 1 pend x ->
  returns (SudokuStat.recordDroppedRequest x) (fun x' => books 0 pend x' /\ SudokuStat.totalRequests_ x' = SudokuStat.totalRequests_ x).
Proof using lim.
  intros Hp [(h & I & Hh & Ht) C Hs Hb Hbd]. pose proof (lm_requests lim). pose proof C as [C1 C2 C3 C4 C5 C6]. unfold SudokuStat.recordDroppedRequest.
  rewrite i64_bind by lia. split; [|done]. split; cbn; try lia; [exists h; destruct I; by split | split; cbn; lia].
Qed.

Lemma books_response pend receive solved x : 0 <= pend -> books 0 (pend + 1) x -> time_in receive ->
  returns (SudokuStat.recordResponse (clock (SudokuStat.totalResponses_ x)) receive solved x) (fun x' =>
    books 0 pend x' /\ SudokuStat.totalRequests_ x' = SudokuStat.totalRequests_ x).
Proof using lim.
  intros Hp [(h & I & Hh & Ht) C Hs Hb Hbd] Hr. destruct lim as [HT HN HL Hck]. pose proof C as [C1 C2 C3 C4 C5 C6].
  set (now := clock (SudokuStat.totalResponses_ x)). pose proof (Hck (SudokuStat.totalResponses_ x)) as Hnow. fold now in Hnow. unfold time_in in *.
  assert (He : Z.max 0 (SudokuStat.elapsed now receive) <= D) by (unfold SudokuStat.elapsed; lia).
  assert (Htot : SudokuStat.total h + Z.max 0 (SudokuStat.elapsed now receive) < 2 ^ 63) by nia.
  pose proof (SudokuStat.recordResponse_ok h x _ now receive solved I C ltac:(lia) ltac:(split; lia) ltac:(lia) Htot) as HR.
  destruct (SudokuStat.recordResponse now receive solved x) as [x'|] eqn:E; [|done]. destruct HR as [I' C'].
  apply SudokuStat.response_counters in E as (E1 & E2 & E3 & E4). cbn [returns]. split; [|lia].
  pose proof (SudokuStat.remember_length (SudokuStat.Response now receive solved) h).
  pose proof (SudokuStat.remember_total (SudokuStat.Response now receive solved) h (fun r Hr => proj2 (SudokuStat.i_seen _ _ I r Hr))) as Hrt.
  cbn [SudokuStat.cost] in Hrt. split; try lia.
  - exists (SudokuStat.remember (SudokuStat.Response now receive solved) h). split_and!; [done | lia | nia].
  - rewrite E1, E2. by replace (SudokuStat.totalRequests_ x + (SudokuStat.totalResponses_ x + 1)) with (SudokuStat.totalRequests_ x + SudokuStat.totalResponses_ x + 1) by lia.
Qed.

Lemma books_empty : books 0 0 SudokuStat.SudokuStat.
Proof using lim.
  pose proof (lm_requests lim). split; cbn; try lia; [|split; cbn; lia]. exists []. split_and!; [apply SudokuStat.inv_empty | done | done].
Qed.

(** *** The invariant *)
Variables (cs : list Z) (streams : Z -> list request).
Hypothesis cs_nodup : NoDup cs.
Hypothesis streams_ok : forall c r, c ∈ cs -> r ∈ streams c -> request_ok r /\ exists i q, r = Named i q.

Definition left_over (rem : Z -> list request) : Z := fold_right (fun c n => zlen (rem c) + n) 0 cs.
Definition upd (c : Z) (l : list request) (rem : Z -> list request) : Z -> list request := fun c' => if c' =? c then l else rem c'.

Record state_ok (rem : Z -> list request) (s : t) : Prop := {
  so_conns : forall c, c ∈ cs -> exists x d, connections s !! c = Some x /\ connected (io x) = true /\ is_Some (context_ x) /\
    streams c = d ++ rem c /\ answered c d x s;
  so_tasks : forall tk, tk ∈ queue_ s ++ working s -> tk.1 ∈ cs /\ zlen (puzzle tk.2) = kCells /\ time_in (receiveTime tk.2);
  so_books : books 0 (zlen (queue_ s ++ working s)) (stat_ s);
  so_left : SudokuStat.totalRequests_ (stat_ s) + left_over rem = N
}.

(** The handlers leave the input buffers to the connection. *)
Definition same_inputs (s s' : t) : Prop := forall c, inputBuffer_ <$> connections s' !! c = inputBuffer_ <$> connections s !! c.

Lemma left_over_out c l rem ds : c ∉ ds ->
  fold_right (fun c' n => zlen (upd c l rem c') + n) 0 ds = fold_right (fun c' n => zlen (rem c') + n) 0 ds.
Proof.
  induction ds as [|d ds IH]; intros Hc; [done |]. rewrite elem_of_cons in Hc. cbn [fold_right]. rewrite IH by (intros ?; apply Hc; by right).
  unfold upd. rewrite (proj2 (Z.eqb_neq d c)); [done |]. intros ->. apply Hc. by left.
Qed.

Lemma left_over_upd c l rem : c ∈ cs -> left_over (upd c l rem) = left_over rem - zlen (rem c) + zlen l.
Proof using cs_nodup.
  clear streams_ok. unfold left_over. induction cs_nodup as [|d ds Hd HN IH]; intros Hc; [by apply elem_of_nil in Hc |]. cbn [fold_right].
  apply elem_of_cons in Hc as [<- | Hc].
  - rewrite left_over_out by done. unfold upd. rewrite Z.eqb_refl. lia.
  - rewrite IH by done. unfold upd at 1. rewrite (proj2 (Z.eqb_neq d c)); [lia |]. by intros ->.
Qed.

Lemma left_over_ext rem rem' : (forall c, c ∈ cs -> rem c = rem' c) -> left_over rem = left_over rem'.
Proof using Type.
  unfold left_over. clear. induction cs as [|c l IH]; intros E; [done |]. cbn [fold_right]. rewrite (E c) by left.
  by rewrite IH by (intros c' Hc'; apply E; by right).
Qed.

Lemma left_over_nonneg rem : 0 <= left_over rem.
Proof. unfold left_over. clear. induction cs as [|c l IH]; cbn [fold_right]; [done |]. pose proof (zlen_nonneg (rem c)). lia. Qed.

(** *** The steps *)

Lemma lookup_update c f s c' : connections (update c f s) !! c' = if c' =? c then f <$> connections s !! c' else connections s !! c'.
Proof.
  unfold update. cbn. destruct (Z.eqb_spec c' c) as [-> | Hne]; [apply lookup_alter_eq | by apply lookup_alter_ne].
Qed.

Lemma same_inputs_update c f s : (forall x, inputBuffer_ (f x) = inputBuffer_ x) -> same_inputs s (update c f s).
Proof. intros Hf c'. rewrite lookup_update. destruct (c' =? c); [|done]. destruct (connections s !! c'); [|done]. cbn. by rewrite Hf. Qed.

(** A worker answers a task that it has taken off the pool of [s0]. *)
Lemma solve_ok rem s0 s c req : state_ok rem s0 -> queue_ s0 ++ working s0 ≡ₚ (c, req) :: queue_ s ++ working s ->
  connections s = connections s0 -> stat_ s = stat_ s0 -> returns (solve clock (c, req) s) (fun s' => state_ok rem s' /\ same_inputs s s').
Proof using lim.
  intros [Hc Ht Hb Hl] P Ec Es. destruct (Ht (c, req)) as (Hin & Hz & Htm); [rewrite P; left |]. cbn [fst snd] in *.
  unfold solve. destruct (SudokuBoard.solveSudoku_answers _ Hz) as (a & -> & Ha). rewrite bind_Ret. unfold recording.
  change (stat_ (send_to c (reply_text req a) s)) with (stat_ s). rewrite Es.
  assert (Hp : zlen (queue_ s0 ++ working s0) = zlen (queue_ s ++ working s) + 1).
  { unfold zlen. rewrite (Permutation_length P). cbn [length]. lia. }
  rewrite Hp in Hb. eapply returns_seq; [apply (books_response (zlen (queue_ s ++ working s))); [apply zlen_nonneg | done | done] |].
  intros x' [Hb' Ht']. cbn [returns]. split; [|by apply same_inputs_update]. split; cbn [stat_ set_stat].
  - intros c' Hc'. destruct (Hc c' Hc') as (x & d & Ex & Hup & Hctx & Hst & Han).
    change (connections (set_stat x' (send_to c (reply_text req a) s))) with (connections (send_to c (reply_text req a) s)).
    unfold send_to. rewrite lookup_update, Ec, Ex. destruct (Z.eqb_spec c' c) as [-> | Hne].
    + cbn [fmap option_fmap option_map]. unfold send. rewrite Hup. eexists _, d. split; [reflexivity |]. split_and!; try done.
      eapply answered_done; [exact P | | exact Han]. left. exists a. by rewrite reply_text_reply.
    + exists x, d. split_and!; try done. apply (proj1 (answered_other c' c d x s0 _ req ltac:(congruence) P)), Han.
  - intros tk Htk. apply Ht. rewrite P. by right.
  - done.
  - lia.
Qed.

(** The request in hand goes to the pool. *)
Lemma enqueue_ok c req r rs rem s x1 : c ∈ cs -> rem c = r :: rs -> r = as_request req -> zlen (puzzle req) = kCells -> time_in (receiveTime req) ->
  state_ok rem s -> books 1 (zlen (queue_ s ++ working s)) x1 -> SudokuStat.totalRequests_ x1 = SudokuStat.totalRequests_ (stat_ s) + 1 ->
  state_ok (upd c rs rem) (set_queue (queue_ s ++ [(c, req)]) (set_stat x1 s)).
Proof using cs_nodup.
  intros Hin Hrem -> Hz Htm [Hc Ht Hb Hl] Hb1 Ht1.
  assert (P : (queue_ s ++ [(c, req)]) ++ working s ≡ₚ (c, req) :: queue_ s ++ working s) by (rewrite <-app_assoc; cbn [app]; by rewrite <-Permutation_middle).
  split; cbn [queue_ working stat_ set_queue set_stat].
  - intros c' Hc'. destruct (Hc c' Hc') as (x & d & Ex & Hup & Hctx & Hst & Han). destruct (decide (c' = c)) as [-> | Hne].
    + exists x, (d ++ [as_request req]). split_and!; try done; [rewrite Hst, Hrem; unfold upd; by rewrite Z.eqb_refl, <-app_assoc |].
      by eapply answered_more.
    + exists x, d. split_and!; try done; [unfold upd; by rewrite (proj2 (Z.eqb_neq c' c)) |]. apply (proj2 (answered_other c' c d x (set_queue (queue_ s ++ [(c, req)]) (set_stat x1 s)) s req ltac:(congruence) P)), Han.
  - intros tk Htk. rewrite P in Htk. apply elem_of_cons in Htk as [-> | Htk]; [done | by apply Ht].
  - assert (Hp : zlen ((queue_ s ++ [(c, req)]) ++ working s) = zlen (queue_ s ++ working s) + 1).
    { unfold zlen. rewrite (Permutation_length P). cbn [length]. lia. }
    rewrite Hp. destruct Hb1. split; try done. lia.
  - rewrite left_over_upd, Hrem, zlen_cons by done. lia.
Qed.

(** The request in hand is refused. *)
Lemma refuse_ok c req r rs rem s x1 : c ∈ cs -> rem c = r :: rs -> r = as_request req -> state_ok rem s ->
  books 0 (zlen (queue_ s ++ working s)) x1 -> SudokuStat.totalRequests_ x1 = SudokuStat.totalRequests_ (stat_ s) + 1 ->
  state_ok (upd c rs rem) (set_stat x1 (send_to c (reply_text req (lit "ServerTooBusy")) s)).
Proof using cs_nodup.
  intros Hin Hrem -> [Hc Ht Hb Hl] Hb1 Ht1. split; cbn [queue_ working stat_ set_stat]; try done.
  - intros c' Hc'. destruct (Hc c' Hc') as (x & d & Ex & Hup & Hctx & Hst & Han).
    change (connections (set_stat x1 (send_to c (reply_text req (lit "ServerTooBusy")) s))) with (connections (send_to c (reply_text req (lit "ServerTooBusy")) s)).
    unfold send_to. rewrite lookup_update, Ex. destruct (Z.eqb_spec c' c) as [-> | Hne].
    + cbn [fmap option_fmap option_map]. unfold send. rewrite Hup. eexists _, (d ++ [as_request req]). split; [reflexivity |]. split_and!; try done.
      * rewrite Hst, Hrem. unfold upd. by rewrite Z.eqb_refl, <-app_assoc.
      * eapply answered_busy; [done | | exact Han]. right. by rewrite reply_text_reply.
    + exists x, d. split_and!; try done. unfold upd. by rewrite (proj2 (Z.eqb_neq c' c)).
  - rewrite left_over_upd, Hrem, zlen_cons by done. lia.
Qed.

Lemma recording_ok f s (P : SudokuStat.t -> Prop) : returns (f (stat_ s)) P -> returns (recording f s) (fun s' => exists x, s' = set_stat x s /\ P x).
Proof. intros H. unfold recording. eapply returns_seq; [exact H |]. intros x Hx. by exists x. Qed.

Lemma state_ok_ext rem rem' s : (forall c, rem c = rem' c) -> state_ok rem s -> state_ok rem' s.
Proof.
  intros E [Hc Ht Hb Hl]. split; try done.
  - intros c Hin. destruct (Hc c Hin) as (x & d & ? & ? & ? & Hst & ?). exists x, d. split_and!; try done. by rewrite <-E.
  - by rewrite (left_over_ext rem' rem).
Qed.

(** A request is counted and then queued, answered at once, or refused. *)
Lemma request_step c now r rs rem s : c ∈ cs -> rem c = r :: rs -> state_ok rem s -> time_in now ->
  returns (s1 ← recording SudokuStat.recordRequest s; processRequest clock pool c (line r) now s1) (fun '(good, s') =>
    good = true /\ state_ok (upd c rs rem) s' /\ same_inputs s s').
Proof using lim cs_nodup streams_ok.
  intros Hin Hrem HS Hnow. pose proof HS as [Hc Ht Hb Hl]. destruct (Hc c Hin) as (x & d & Ex & Hup & [b Hctx] & Hst & Han).
  destruct (streams_ok c r Hin) as [Hok (i & q & ->)]; [rewrite Hst, Hrem; apply elem_of_app; right; left |].
  pose proof (left_over_upd c rs rem Hin) as Hlo. rewrite Hrem, zlen_cons in Hlo. pose proof (left_over_nonneg (upd c rs rem)).
  destruct Hok as [Hz Hcol _ _]. cbn [puzzle_of line] in *. set (req := mkRequest i q now).
  eapply returns_seq; [apply recording_ok, (books_request _ _ Hb); lia |].
  intros s1 (x1 & -> & Hb1 & Ht1). unfold processRequest. rewrite (find_byte_app colon i q Hcol), take_app_length.
  replace (S (length i)) with (length (i ++ [colon])) by (rewrite length_app; cbn; lia).
  change (i ++ colon :: q) with (i ++ [colon] ++ q). rewrite app_assoc, drop_app_length. fold req. cbn [puzzle req].
  rewrite (proj2 (Z.eqb_eq _ _) Hz). cbn [connections set_stat]. rewrite Ex, Hctx, bind_Ret. cbn [queue_ set_stat].
  pose proof (enqueue_ok c req _ rs rem s x1 Hin Hrem eq_refl Hz Hnow HS Hb1 Ht1) as Hq.
  destruct (_ && negb b).
  - unfold run. destruct (at_once pool _); [|by split_and!].
    eapply returns_seq; [apply (solve_ok _ _ (set_stat x1 s) c req Hq); try done |]; [|intros s' [HS' HI]; by split_and!].
    cbn. rewrite <-app_assoc. cbn [app]. by rewrite <-Permutation_middle.
  - eapply returns_seq; [apply recording_ok, (books_dropped (zlen (queue_ s ++ working s))); [apply zlen_nonneg | exact Hb1] |].
    intros s2 (x2 & -> & Hb2 & Ht2). cbn [returns].
    split_and!; [done | | by apply (same_inputs_update c (fun x => set_io (send (reply_text req (lit "ServerTooBusy")) (io x)) x) s)].
    change (set_stat x2 (send_to c (reply_text req (lit "ServerTooBusy")) (set_stat x1 s)))
      with (set_stat x2 (send_to c (reply_text req (lit "ServerTooBusy")) s)). eapply refuse_ok; try done. cbn in Ht2. lia.
Qed.

(** *** Reading *)

Definition perform (c : Z) (now : Timestamp.t) (r : request) (s : t) : outcome t :=
  s1 ← recording SudokuStat.recordRequest s; '(_, s2) ← processRequest clock pool c (line r) now s1; Ret s2.

Lemma body_partial_prod c now r b s x y : request_ok r -> Buffer.wf b -> Buffer.contents b ++ y = encode r ++ x ->
  (length (Buffer.contents b) < length (encode r))%nat -> onMessage_body clock pool c now (b, s) = Ret (inr (b, s)).
Proof.
  intros Hr W E Hl. pose proof (encode_length r Hr) as He. unfold onMessage_body.
  rewrite Buffer.readable_contents by done. destruct (kCells + 2 <=? zlen (Buffer.contents b)); [|done].
  rewrite Buffer.contents_findCRLF, bind_Ret by done. unfold encode in E, Hl, He. rewrite <- app_assoc in E.
  rewrite (Lines.search_prefix (line r) _ y x); [|by destruct Hr|done|by rewrite length_app in Hl].
  cbn [fmap option_fmap option_map]. rewrite (proj2 (Z.ltb_ge 100 _)); [done|unfold zlen; lia].
Qed.

Definition reading (c : Z) (rem : Z -> list request) (s0 : t) (rs : list request) (s : t) : Prop :=
  state_ok (upd c rs rem) s /\ same_inputs s0 s.

Lemma body_request_prod c now rem s0 r rs b s x : c ∈ cs -> time_in now -> request_ok r -> reading c rem s0 (r :: rs) s -> Buffer.wf b ->
  Buffer.contents b = encode r ++ x -> exists b1 s1, onMessage_body clock pool c now (b, s) = Ret (inl (b1, s1)) /\ perform c now r s = Ret s1 /\
    reading c rem s0 rs s1 /\ Buffer.wf b1 /\ Buffer.contents b1 = x /\ Buffer.buffer_ b1 = Buffer.buffer_ b.
Proof using lim cs_nodup streams_ok.
  intros Hin Hnow Hr [HS HI] W Hx. pose proof (encode_length r Hr) as He. unfold onMessage_body, perform.
  assert (Hz : zlen (Buffer.contents b) = zlen (encode r) + zlen x) by (by rewrite Hx, zlen_app).
  rewrite Buffer.readable_contents by done. rewrite (proj2 (Z.leb_le (kCells + 2) _)); [|unfold zlen, kCells in *; lia].
  unfold encode in Hx. rewrite <- app_assoc in Hx.
  destruct (Lines.take_line (line r) x b W Hx (ro_line _ Hr)) as (Hf & HL & b1 & Hu & W1 & E1 & Eb).
  rewrite Hf, bind_Ret, HL, bind_Ret, Hu, bind_Ret.
  pose proof (request_step c now r rs (upd c (r :: rs) rem) s Hin ltac:(unfold upd; by rewrite Z.eqb_refl) HS Hnow) as HQ.
  destruct (recording SudokuStat.recordRequest s) as [s1|]; [|done]. rewrite !bind_Ret in *.
  destruct (processRequest clock pool c (line r) now s1) as [[g s2]|]; [|done]. destruct HQ as (-> & HS2 & HI2). rewrite !bind_Ret.
  exists b1, s2. split_and!; try done. split; [|intros c'; by rewrite HI2, HI].
  eapply state_ok_ext; [|exact HS2]. intros c'. unfold upd. by destruct (c' =? c).
Qed.

(** The data of connection [c] in a sequence of events. *)
Definition data_of (c : Z) (e : event) : bytes := match e with Data c' d _ => if c' =? c then d else [] | _ => [] end.
Definition data (c : Z) (es : list event) : bytes := concat (map (data_of c) es).

Definition inputs_ok (rem : Z -> list request) (future : Z -> bytes) (s : t) : Prop := forall c, c ∈ cs ->
  exists x, connections s !! c = Some x /\ Buffer.wf (inputBuffer_ x) /\ Buffer.contents (inputBuffer_ x) ++ future c = concat (map encode (rem c)) /\
    (future c = [] -> rem c = []) /\ zlen (Buffer.buffer_ (inputBuffer_ x)) + zlen (future c) <= vector_max_size.

Lemma inputs_same rem future s s' : same_inputs s s' -> inputs_ok rem future s -> inputs_ok rem future s'.
Proof.
  intros HI HJ c Hc. destruct (HJ c Hc) as (x & Ex & H). specialize (HI c). rewrite Ex in HI.
  destruct (connections s' !! c) as [x'|]; [|done]. injection HI as HI. exists x'. by rewrite HI.
Qed.

Lemma data_step c d now rem future s : c ∈ cs -> time_in now -> state_ok rem s ->
  inputs_ok rem (fun c' => (if c =? c' then d else []) ++ future c') s ->
  exists s' rem', step clock pool (Data c d now) s = Ret s' /\ state_ok rem' s' /\ inputs_ok rem' future s'.
Proof using lim cs_nodup streams_ok.
  intros Hin Hnow HS HJ. destruct (HJ c Hin) as (x & Ex & W & E & Hn & Hz). rewrite Z.eqb_refl in *. cbn [step]. rewrite Ex. rewrite zlen_app in Hz.
  destruct (so_conns _ _ HS c Hin) as (x0 & d0 & _ & _ & _ & Hst & _).
  destruct (Lines.serve_one encode (fun r => request_ok r) (perform c now) (reading c rem s) (onMessage_body clock pool c now))
    with (c := d) (y := future c) (rs := rem c) (b := inputBuffer_ x) (s := s) as (rs1 & rs2 & b' & s' & Er & Es & _ & [HS' HI'] & W' & Hz' & E' & Hy).
  - intros r Hr. pose proof (encode_length r Hr). lia.
  - intros b0 s0 W0 Hb0. unfold onMessage_body. by rewrite Buffer.readable_contents, Hb0.
  - intros. by eapply body_partial_prod.
  - intros r rs b0 s0 x1 Hr HI W0 Hx. by eapply body_request_prod.
  - apply list.Forall_forall. intros r Hr. apply (streams_ok c); [done |]. rewrite Hst. apply elem_of_app. by right.
  - split; [|done]. eapply state_ok_ext; [|exact HS]. intros c'. unfold upd. destruct (Z.eqb_spec c' c) as [-> |]; done.
  - done.
  - by rewrite E.
  - pose proof (zlen_nonneg (future c)). lia.
  - done.
  - rewrite Es, bind_Ret. exists (update c (set_buffer b') s'), (upd c rs2 rem). split; [done |]. split.
    + destruct HS' as [Hc Ht Hb Hl]. split; try done. intros c' Hc'. destruct (Hc c' Hc') as (x' & d' & Ex' & Hup & Hctx & Hst' & Han).
      rewrite lookup_update, Ex'. destruct (c' =? c); [|exists x', d'; by split_and!]. exists (set_buffer b' x'), d'. by split_and!.
    + intros c' Hc'. rewrite lookup_update. destruct (HJ c' Hc') as (x' & Ex' & Hx'). specialize (HI' c'). rewrite Ex' in HI'.
      destruct (connections s' !! c') as [x''|]; [|done]. injection HI' as HI'. unfold upd. rewrite (Z.eqb_sym c c') in Hx'. destruct (Z.eqb_spec c' c) as [-> | Hne].
      * exists (set_buffer b' x''). cbn. split_and!; try done. lia.
      * exists x''. rewrite HI'. cbn in *. by split_and!; [| apply Hx'..].
Qed.

Definition event_in (e : event) : Prop :=
  match e with
  | Data c _ now => c ∈ cs /\ time_in now
  | HighWater _ tosend => tosend < 10 * mega
  | Connect _ | Disconnect _ => False
  | _ => True
  end.

(** An event that touches at most the context of a connection. *)
Lemma context_step c b m w rem s : state_ok rem s ->
  let s' := update c (fun x => Connection (io x) (inputBuffer_ x) (Some b) m w) s in state_ok rem s' /\ same_inputs s s'.
Proof.
  intros [Hc Ht Hb Hl] s'. split; [|by apply same_inputs_update]. split; try done. intros c' Hc'.
  destruct (Hc c' Hc') as (x & d & Ex & Hup & Hctx & Hst & Han). unfold s'. rewrite lookup_update, Ex. destruct (c' =? c); [|exists x, d; by split_and!].
  eexists _, d. split; [reflexivity |]. by split_and!.
Qed.

Lemma event_step e rem future s : event_in e -> state_ok rem s -> inputs_ok rem (fun c => data_of c e ++ future c) s ->
  exists s' rem', step clock pool e s = Ret s' /\ state_ok rem' s' /\ inputs_ok rem' future s'.
Proof using lim cs_nodup streams_ok.
  intros He HS HJ. destruct e as [c|c|c d now|c tosend|c|i|i]; cbn [event_in data_of app] in *; try done.
  - destruct He as [Hc Hnow]. by apply (data_step c d now rem future s).
  - cbn [step]. unfold highWaterMark. rewrite (proj2 (Z.ltb_lt _ _) He). eexists _, rem. split; [reflexivity |].
    destruct (context_step c true (10 * mega) true rem s HS) as [HS' HI]. split; [done | by eapply inputs_same].
  - cbn [step]. eexists _, rem. split; [reflexivity |]. destruct (context_step c false (5 * mega) false rem s HS) as [HS' HI].
    split; [done | by eapply inputs_same].
  - cbn [step]. destruct (queue_ s !! i) as [tk|] eqn:Eq; [|by exists s, rem].
    assert (P : queue_ s ++ working s ≡ₚ delete i (queue_ s) ++ working s ++ [tk]).
    { rewrite (delete_Permutation _ _ _ Eq) at 1. cbn [app]. rewrite app_assoc. by rewrite <-Permutation_cons_append. }
    eexists _, rem. split; [reflexivity |]. split; [|done]. destruct HS as [Hc Ht Hb Hl]. split; try done; cbn [queue_ working set_working set_queue].
    + intros c Hc'. destruct (Hc c Hc') as (x & d & Ex & Hup & Hctx & Hst & Han). exists x, d. split_and!; try done. by eapply answered_perm.
    + intros tk' Htk. apply Ht. by rewrite P.
    + unfold zlen in *. by rewrite <-P.
  - cbn [step]. destruct (working s !! i) as [[c req]|] eqn:Eq; [|by exists s, rem].
    assert (P : queue_ s ++ working s ≡ₚ (c, req) :: queue_ s ++ delete i (working s)).
    { rewrite (delete_Permutation _ _ _ Eq) at 1. by rewrite <-Permutation_middle. }
    pose proof (solve_ok rem s (set_working (delete i (working s)) s) c req HS P eq_refl eq_refl) as HW.
    destruct (solve clock (c, req) _) as [s'|]; [|done]. destruct HW as [HS' HI]. exists s', rem. split; [done |]. split; [done |]. by eapply inputs_same.
Qed.

Lemma steps_books es : forall rem s, Forall event_in es -> state_ok rem s -> inputs_ok rem (fun c => data c es) s ->
  returns (steps clock pool es s) (state_ok (fun _ => [])).
Proof using lim cs_nodup streams_ok.
  induction es as [|e es IH]; intros rem s He HS HJ; cbn [steps].
  - cbn [returns]. destruct HS as [Hc Ht Hb Hl]. split; try done.
    + intros c Hin. destruct (Hc c Hin) as (x & d & Ex & Hup & Hctx & Hst & Han). exists x, d. split_and!; try done.
      destruct (HJ c Hin) as (_ & _ & _ & _ & Hn & _). rewrite (Hn eq_refl) in Hst. done.
    + rewrite <-Hl. f_equal. apply left_over_ext. intros c Hin. destruct (HJ c Hin) as (_ & _ & _ & _ & Hn & _). by rewrite (Hn eq_refl).
  - apply list.Forall_cons in He as [He Hes]. destruct (event_step e rem (fun c => data c es) s He HS HJ) as (s' & rem' & -> & HS' & HJ').
    rewrite bind_Ret. by apply (IH rem').
Qed.

(** The connections are made. *)
Lemma connect_all n : forall ds s, (forall c, c ∈ ds -> c ∈ cs) -> NoDup ds -> queue_ s = [] -> working s = [] -> numThreads_ s = n ->
  (forall c, c ∈ ds -> connections s !! c = None) ->
  returns (steps clock pool (map Connect ds) s) (fun s' => queue_ s' = [] /\ working s' = [] /\ stat_ s' = stat_ s /\
    (forall c, c ∉ ds -> connections s' !! c = connections s !! c) /\
    forall c, c ∈ ds -> exists b, Buffer.refines Buffer.empty_queue b /\
      connections s' !! c = Some (Connection (SudokuServer.mk true []) b (Some false) (5 * mega) false)).
Proof using Type.
  induction ds as [|d ds IH]; intros s Hin HN Hq Hw Hnum Hnone; cbn [map steps]; [by split_and!; [.. | intros c Hc; by apply elem_of_nil in Hc] |].
  apply list.NoDup_cons in HN as [Hd HN]. cbn [step]. rewrite (Hnone d) by left. eapply returns_seq.
  { eapply returns_seq; [apply Buffer.Buffer_ok |]. intros b Hb. instantiate (1 := fun s1 => exists b, Buffer.refines Buffer.empty_queue b /\
      s1 = onConnection d (set_connections (<[d := Connection (SudokuServer.mk true []) b None (64 * mega) false]> (connections s)) s)). cbn [returns]. eauto. }
  intros s1 (b & Hb & ->). set (s1 := onConnection d _).
  assert (H1 : forall c, connections s1 !! c = if c =? d then Some (Connection (SudokuServer.mk true []) b (Some false) (5 * mega) false) else connections s !! c).
  { intros c. unfold s1, onConnection. rewrite lookup_update. cbn. destruct (Z.eqb_spec c d) as [-> |]; [by rewrite lookup_insert_eq | by rewrite lookup_insert_ne]. }
  eapply returns_mono; [|apply (IH s1); try done].
  - intros s' (Hq' & Hw' & Hs' & Hout & Hin'). split_and!; try done.
    + intros c Hc. rewrite elem_of_cons in Hc. rewrite Hout, H1 by (intros ?; apply Hc; by right).
      rewrite (proj2 (Z.eqb_neq c d)); [done |]. intros ->. apply Hc. by left.
    + intros c Hc. apply elem_of_cons in Hc as [-> | Hc]; [|by apply Hin']. exists b. split; [done |]. rewrite Hout, H1 by done. by rewrite Z.eqb_refl.
  - intros c Hc. apply Hin. by right.
  - intros c Hc. rewrite H1. rewrite (proj2 (Z.eqb_neq c d)) by (by intros ->). apply Hnone. by right.
Qed.

Lemma start_books n : N = left_over streams -> (forall c, c ∈ cs -> zlen (concat (map encode (streams c))) <= 2 ^ 62) ->
  returns (steps clock pool (map Connect cs) (SudokuServer n)) (fun s => state_ok streams s /\
    inputs_ok streams (fun c => concat (map encode (streams c))) s).
Proof using lim cs_nodup streams_ok.
  intros HN Hz. eapply returns_mono; [|apply (connect_all n cs (SudokuServer n)); try done].
  intros s (Hq & Hw & Hs & _ & Hin). split.
  - split.
    + intros c Hc. destruct (Hin c Hc) as (b & _ & ->). eexists _, []. split; [reflexivity |]. split_and!; try done.
      exists []. unfold pending. by rewrite Hq, Hw.
    + rewrite Hq, Hw. intros tk Htk. by apply elem_of_nil in Htk.
    + rewrite Hq, Hw, Hs. apply books_empty.
    + rewrite Hs. cbn. by rewrite HN.
  - intros c Hc. destruct (Hin c Hc) as (b & [W Hb _ _ Hv] & ->). eexists. split; [reflexivity |]. cbn [inputBuffer_]. cbn in Hb, Hv. rewrite Hb.
    split_and!; try done.
    + intros E. destruct (streams c) as [|r rs] eqn:Es; [done |]. destruct (streams_ok c r Hc) as [Hr _]; [rewrite Es; left |].
      apply encode_length in Hr. cbn [map concat] in E. apply app_nil in E as [E _]. rewrite E in Hr. cbn in Hr. lia.
    + specialize (Hz c Hc). unfold Buffer.kCheapPrepend, Buffer.kInitialSize, vector_max_size in *. lia.
Qed.

End accounting.

Lemma steps_app clock pool es1 es2 s : steps clock pool (es1 ++ es2) s = (s1 ← steps clock pool es1 s; steps clock pool es2 s1).
Proof. revert s. induction es1 as [|e es1 IH]; intros s; [done |]. cbn [steps app]. destruct (step clock pool e s); [apply IH | done]. Qed.

(** C28. The service over any thread pool, with any number of connections that stay up and send
    well-formed requests with an id, in any interleaving of their data, cut into any pieces, of
    the workers and of throttling, the output staying below the second high water mark, which
    closes the connection: nothing crashes, and every request gets exactly one reply on its own
    connection with its own id, either an answer to its puzzle or "ServerTooBusy", in whatever
    order, the ones still in the pool excepted; and the statistics count every request as
    answered, dropped or pending. *)
Theorem prod_replies_once clock pool T D cs streams n es : let N := left_over cs streams in
  limits clock T D N -> NoDup cs -> (forall c r, c ∈ cs -> r ∈ streams c -> request_ok r /\ exists i q, r = Named i q) ->
  Forall (event_in T D cs) es -> (forall c, c ∈ cs -> data c es = concat (map encode (streams c)) /\ zlen (data c es) <= 2 ^ 62) ->
  returns (steps clock pool (map Connect cs ++ es) (SudokuServer n)) (fun s =>
    (forall c, c ∈ cs -> exists x, connections s !! c = Some x /\ connected (io x) = true /\ answered c (streams c) x s) /\
    SudokuStat.totalRequests_ (stat_ s) = N /\ SudokuStat.badRequests_ (stat_ s) = 0 /\
    SudokuStat.totalResponses_ (stat_ s) + SudokuStat.droppedRequests_ (stat_ s) + zlen (queue_ s ++ working s) = N).
Proof.
  intros N lim HN Hok He Hd. rewrite steps_app. eapply returns_seq; [apply (start_books clock pool T D N lim cs streams HN Hok n); [done |] |].
  { intros c Hc. destruct (Hd c Hc) as [<- ?]. done. }
  intros s [HS HJ]. eapply returns_mono; [|apply (steps_books clock pool T D N lim cs streams HN Hok es streams s He HS)].
  - intros s' [Hc Ht [_ _ Hb Hbad _] Hl]. assert (Hl0 : left_over cs (fun _ => []) = 0).
    { clear. unfold left_over. induction cs as [|c l IH]; [done |]. cbn [fold_right]. by rewrite IH. }
    rewrite Hl0 in Hl. split_and!; try lia. intros c Hin. destruct (Hc c Hin) as (x & d & Ex & Hup & _ & Hst & Han). exists x.
    rewrite app_nil_r in Hst. subst d. by split_and!.
  - intros c Hc. destruct (HJ c Hc) as (x & H). exists x. by destruct (Hd c Hc) as [-> _].
Qed.

Definition two_streams (c : Z) : list request :=
  if c =? 1 then [Named (lit "a") easy_puzzle] else if c =? 2 then [Named (lit "b") easy_puzzle; Named (lit "c") easy_puzzle] else [].

Lemma two_streams_ok c r : r ∈ two_streams c -> request_ok r /\ exists i q, r = Named i q.
Proof.
  assert (H : forall i, colon ∉ i -> Lines.clean (line (Named i easy_puzzle)) -> zlen i <= 17 -> request_ok (Named i easy_puzzle) /\ exists i' q, Named i easy_puzzle = Named i' q).
  { intros i H1 H2 H3. split; [|by eexists _, _]. split; [reflexivity | exact H1 | exact H2 |]. cbn [line]. rewrite zlen_app, zlen_cons. change (zlen easy_puzzle) with 81. lia. }
  unfold two_streams. intros Hr. destruct (c =? 1); [|destruct (c =? 2); [|by apply elem_of_nil in Hr]]; rewrite !elem_of_cons, elem_of_nil in Hr.
  - destruct Hr as [-> | []]. apply H; [apply find_byte_None; reflexivity | reflexivity | discriminate].
  - destruct Hr as [-> | [-> | []]]; apply H; try (apply find_byte_None; reflexivity); try reflexivity; discriminate.
Qed.

Definition second (i : Z) : Timestamp.t := Timestamp.Timestamp 1000005.

(** A pool that queues when it has threads. *)
Definition workers : ThreadPool := mkPool (fun s => numThreads_ s =? 0) (fun s => zlen (queue_ s)).

(** Two connections and two workers; the request of the first connection is cut, the second
    request of the other one comes when that connection is throttled. *)
Definition two_events : list event :=
  [Data 1 (lit "a:5300") (second 0); Data 2 (encode (Named (lit "b") easy_puzzle)) (second 0);
   HighWater 2 (6 * mega); Data 1 (drop 6 (encode (Named (lit "a") easy_puzzle))) (second 0); Take 1; Take 0;
   Data 2 (encode (Named (lit "c") easy_puzzle)) (second 0); Finish 0; WriteComplete 2].

Lemma prod_replies_once_witness :
  returns (steps second workers (map Connect [1; 2] ++ two_events) (SudokuServer 2)) (fun s =>
    (forall c, c ∈ [1; 2] -> exists x, connections s !! c = Some x /\ connected (io x) = true /\ answered c (two_streams c) x s) /\
    SudokuStat.totalRequests_ (stat_ s) = 3 /\ SudokuStat.badRequests_ (stat_ s) = 0 /\
    SudokuStat.totalResponses_ (stat_ s) + SudokuStat.droppedRequests_ (stat_ s) + zlen (queue_ s ++ working s) = 3).
Proof.
  apply (prod_replies_once second workers 1000000 10 [1; 2] two_streams 2 two_events).
  - split; [lia | vm_compute; split; [discriminate | reflexivity] | reflexivity | intros n; unfold time_in, second; cbn; lia].
  - apply (bool_decide_unpack _). reflexivity.
  - intros c r _. apply two_streams_ok.
  - unfold two_events. repeat (apply List.Forall_cons || apply List.Forall_nil); cbn [event_in]; try exact I; try reflexivity;
      (split; [rewrite !elem_of_cons; tauto | unfold time_in, second; cbn; lia]).
  - intros c Hc. rewrite !elem_of_cons, elem_of_nil in Hc. destruct Hc as [-> | [-> | []]]; (split; [reflexivity | vm_compute; discriminate]).
Defined.

(** The condition that connections stay up is needed: when one goes down while a worker solves its
    puzzle, the answer is dropped. *)
Example reply_to_a_closed_connection :
  (s ← steps second workers [Connect 1; Data 1 (encode (Named (lit "a") easy_puzzle)) (second 0); Take 0; Disconnect 1; Finish 0] (SudokuServer 1);
   Ret (option_map (fun x => sent (io x)) (connections s !! 1), queue_ s ++ working s, SudokuStat.totalResponses_ (stat_ s))) = Ret (Some [], [], 1).
Proof. vm_compute. reflexivity. Qed.

(** In that run one reply was sent on each connection: the worker answered the second
    connection's first request, its second one was refused. *)
Example two_events_sent :
  (s ← steps second workers (map Connect [1; 2] ++ two_events) (SudokuServer 2); Ret (map (fun c => (fun x => sent (io x)) <$> connections s !! c) [1; 2], map fst (queue_ s ++ working s))) =
  Ret ([Some [lit "a:" ++ easy_answer ++ Buffer.kCRLF]; Some [lit "c:ServerTooBusy" ++ Buffer.kCRLF]], [2]).
Proof. vm_compute. reflexivity. Qed.

(** A line that is too long is counted as a bad request, but not as a request. *)
Lemma too_long_is_no_request :
  (s ← steps second workers [Connect 1; Data 1 (replicate 101 x30) (second 0)] (SudokuServer 2);
   Ret (SudokuStat.totalRequests_ (stat_ s), SudokuStat.badRequests_ (stat_ s))) = Ret (0, 1).
Proof. vm_compute. reflexivity. Qed.

End ProdServer.
