(* ===== verification/Logging.v ===== *)
(** * Logging.h/.cc: log statements

    A log statement builds a [Logger], whose constructor writes the time, the thread and the
    level, the statement appends its items, and the destructor writes the place and hands the
    line to the output function.  The time of day is formatted once a second and kept in
    thread-local variables, as is the text of the thread's id.  strerror_r(3), gettid(2) and
    the clock are parameters; the output function is a list of lines. *)

From S2P Require Import Prelude Format LogStream Calendar TimeZone.

Module CurrentThread.

(** The thread-local variables of Thread.cc. *)
Record t := mk { t_cachedTid : Z; t_tidString : bytes; t_tidStringLength : Z }.

Definition initial : t := mk 0 [] 6.

Section thread.
Variable gettid : Z.

Definition cacheTid (c : t) : t :=
  if t_cachedTid c =? 0 then
    let text := pads 5 gettid ++ lit " " in mk gettid (snprintf 32 text) (zlen text)
  else c.

Definition tid (c : t) : Z * t :=
  let c1 := if t_cachedTid c =? 0 then cacheTid c else c in (t_cachedTid c1, c1).

(** In the child of a fork(2). *)
Definition afterFork (c : t) : t := (tid (mk 0 (t_tidString c) (t_tidStringLength c))).2.
End thread.

End CurrentThread.

Module Logger.
Import LogStream.

Inductive LogLevel := TRACE | DEBUG | INFO | WARN | ERROR | FATAL.

Definition level_number (l : LogLevel) : Z :=
  match l with TRACE => 0 | DEBUG => 1 | INFO => 2 | WARN => 3 | ERROR => 4 | FATAL => 5 end.

Definition LogLevelName (l : LogLevel) : bytes :=
  match l with
  | TRACE => lit "TRACE " | DEBUG => lit "DEBUG " | INFO => lit "INFO  "
  | WARN => lit "WARN  " | ERROR => lit "ERROR " | FATAL => lit "FATAL "
  end.

(** From the two environment variables. *)
Definition initLogLevel (trace debug : bool) : LogLevel := if trace then TRACE else if debug then DEBUG else INFO.

(** What [SourceFile] keeps of a path. *)
Definition SourceFile (file : bytes) : bytes :=
  match find_byte "/"%byte (rev file) with
  | Some i => drop (length file - i) file
  | None => file
  end.

(** The globals and the variables of the logging thread; [written] are the calls of
    [g_output], [flushed] the number of lines written when [g_flush] was last called. *)
Record t := mk {
  t_time : bytes;
  t_lastSecond : Z;
  thread : CurrentThread.t;
  g_logLevel : LogLevel;
  g_logTimeZone : option TimeZone.Data;
  written : list bytes;
  flushed : Z
}.

Definition initial (trace debug : bool) : t := mk [] 0 CurrentThread.initial (initLogLevel trace debug) None [] 0.

Definition setLogLevel (l : LogLevel) (w : t) : t :=
  mk (t_time w) (t_lastSecond w) (thread w) l (g_logTimeZone w) (written w) (flushed w).
Definition setTimeZone (tz : option TimeZone.Data) (w : t) : t :=
  mk (t_time w) (t_lastSecond w) (thread w) (g_logLevel w) tz (written w) (flushed w).
Definition set_time (text : bytes) (second : Z) (w : t) : t :=
  mk text second (thread w) (g_logLevel w) (g_logTimeZone w) (written w) (flushed w).
Definition set_thread (c : CurrentThread.t) (w : t) : t :=
  mk (t_time w) (t_lastSecond w) c (g_logLevel w) (g_logTimeZone w) (written w) (flushed w).
Definition g_output (line : bytes) (w : t) : t :=
  mk (t_time w) (t_lastSecond w) (thread w) (g_logLevel w) (g_logTimeZone w) (written w ++ [line]) (flushed w).
Definition g_flush (w : t) : t :=
  mk (t_time w) (t_lastSecond w) (thread w) (g_logLevel w) (g_logTimeZone w) (written w) (zlen (written w)).

(** [T(str, len)]: a string of known length, as an item. *)
Definition T (str : bytes) (len : Z) : outcome item := _ ← check (zlen str =? len); Ret (IString str).

(** [Fmt(fmt, val)]: its text and its length. *)
Definition Fmt (text : bytes) : bytes := snprintf 32 text.

Definition date_text (y mon mday hour min sec : Z) : bytes :=
  pads 4 y ++ pad0 2 mon ++ pad0 2 mday ++ lit " " ++ pad0 2 hour ++ lit ":" ++ pad0 2 min ++ lit ":" ++ pad0 2 sec.

Definition formatTime (time : Timestamp.t) (w : t) (stream : FixedBuffer.t) : outcome (t * FixedBuffer.t) :=
  let us := Timestamp.microSecondsSinceEpoch_ time in
  let seconds := Z.quot us Timestamp.kMicroSecondsPerSecond in
  let microseconds := Z.rem us Timestamp.kMicroSecondsPerSecond in
  w1 ← (if negb (seconds =? t_lastSecond w) then
          tm ← match g_logTimeZone w with
               | Some _ => TimeZone.toLocalTime (g_logTimeZone w) seconds
               | None => Ret (gmtime_r seconds)
               end;
          y ←ᵢ tm_year tm + 1900;
          m ←ᵢ tm_mon tm + 1;
          let text := date_text y m (tm_mday tm) (tm_hour tm) (tm_min tm) (tm_sec tm) in
          let w' := set_time (snprintf 32 text) seconds w in
          _ ← check (zlen text =? 17);
          Ret w'
        else Ret w);
  let zone := match g_logTimeZone w1 with Some _ => lit " " | None => lit "Z " end in
  let len := match g_logTimeZone w1 with Some _ => 8 | None => 9 end in
  let text := lit "." ++ pad0 6 microseconds ++ zone in
  _ ← check (zlen text =? len);
  i1 ← T (t_time w1) 17;
  i2 ← T (Fmt text) len;
  stream1 ← insert_all [i1; i2] stream;
  Ret (w1, stream1).

(** A log statement: the items are what follows the macro. *)
Inductive macro := LOG_TRACE | LOG_DEBUG | LOG_INFO | LOG_WARN | LOG_ERROR | LOG_FATAL | LOG_SYSERR | LOG_SYSFATAL.

Record statement := stmt {
  kind : macro;
  file : bytes;
  line : Z;
  func : bytes;
  items : list item;
  now : Timestamp.t;
  errno : Z
}.

Definition level_of (m : macro) : LogLevel :=
  match m with
  | LOG_TRACE => TRACE | LOG_DEBUG => DEBUG | LOG_INFO => INFO | LOG_WARN => WARN
  | LOG_ERROR | LOG_SYSERR => ERROR | LOG_FATAL | LOG_SYSFATAL => FATAL
  end.

(** The [if] of the macros. *)
Definition enabled (w : t) (m : macro) : bool :=
  match m with
  | LOG_TRACE => level_number (g_logLevel w) <=? level_number TRACE
  | LOG_DEBUG => level_number (g_logLevel w) <=? level_number DEBUG
  | LOG_INFO => level_number (g_logLevel w) <=? level_number INFO
  | _ => true
  end.

Section logger.
Variable gettid : Z.
Variable strerror_r : Z -> bytes.
Variable uninitialised : bytes.

Definition errno_items (savedErrno : Z) : list item :=
  if negb (savedErrno =? 0) then
    [ICStr (Some (strerror_r savedErrno)); ICStr (Some (lit " (errno=")); IInt savedErrno; ICStr (Some (lit ") "))]
  else [].

Definition Impl (level : LogLevel) (savedErrno : Z) (time : Timestamp.t) (w : t) : outcome (t * FixedBuffer.t) :=
  let stream := FixedBuffer.FixedBuffer uninitialised in
  '(w1, s1) ← formatTime time w stream;
  let w2 := set_thread (CurrentThread.tid gettid (thread w1)).2 w1 in
  i1 ← T (CurrentThread.t_tidString (thread w2)) (CurrentThread.t_tidStringLength (thread w2));
  i2 ← T (LogLevelName level) 6;
  s2 ← insert_all ([i1; i2] ++ errno_items savedErrno) s1;
  Ret (w2, s2).

(** The constructors of [Logger], as the macros choose them. *)
Definition Logger (st : statement) (w : t) : outcome (t * FixedBuffer.t) :=
  match kind st with
  | LOG_TRACE | LOG_DEBUG =>
      '(w1, s1) ← Impl (level_of (kind st)) 0 (now st) w;
      s2 ← insert_all [ICStr (Some (func st)); IChar " "%byte] s1;
      Ret (w1, s2)
  | LOG_SYSERR | LOG_SYSFATAL => Impl (level_of (kind st)) (errno st) (now st) w
  | _ => Impl (level_of (kind st)) 0 (now st) w
  end.

Definition finish_items (st : statement) : list item :=
  [ICStr (Some (lit " - ")); IString (SourceFile (file st)); IChar ":"%byte; IInt (line st); IChar x0a].

(** The destructor: [true] when it called abort(3). *)
Definition Logger_destroy (st : statement) (s : FixedBuffer.t) (w : t) : outcome (bool * t) :=
  s1 ← insert_all (finish_items st) s;
  let w1 := g_output (FixedBuffer.toString s1) w in
  Ret (match level_of (kind st) with FATAL => (true, g_flush w1) | _ => (false, w1) end).

Definition log (st : statement) (w : t) : outcome (bool * t) :=
  if enabled w (kind st) then
    '(w1, s1) ← Logger st w;
    s2 ← insert_all (items st) s1;
    Logger_destroy st s2 w1
  else Ret (false, w).

(** Statements up to the first one that aborts. *)
Fixpoint log_all (l : list statement) (w : t) : outcome (bool * t) :=
  match l with
  | [] => Ret (false, w)
  | st :: l' => '(aborted, w1) ← log st w; if (aborted : bool) then Ret (true, w1) else log_all l' w1
  end.

End logger.

(** ** What a log line should be *)

Definition second_of (time : Timestamp.t) : Z := Z.quot (Timestamp.microSecondsSinceEpoch_ time) Timestamp.kMicroSecondsPerSecond.
Definition micro_of (time : Timestamp.t) : Z := Z.rem (Timestamp.microSecondsSinceEpoch_ time) Timestamp.kMicroSecondsPerSecond.

(** The broken-down time a line should show. *)
Definition tm_of (tz : option TimeZone.Data) (s : Z) : outcome tm :=
  match tz with Some _ => TimeZone.toLocalTime tz s | None => Ret (gmtime_r s) end.

Definition tm_text (t : tm) : bytes :=
  date_text (tm_year t + 1900) (tm_mon t + 1) (tm_mday t) (tm_hour t) (tm_min t) (tm_sec t).

(** Four digits of year and two of everything else. *)
Definition tm_ok (t : tm) : Prop :=
  0 <= tm_year t + 1900 <= 9999 /\ 0 <= tm_mon t + 1 <= 99 /\ 0 <= tm_mday t <= 99 /\
  0 <= tm_hour t <= 99 /\ 0 <= tm_min t <= 99 /\ 0 <= tm_sec t <= 99.

Definition shows (tz : option TimeZone.Data) (s : Z) (t : tm) : Prop := tm_of tz s = Ret t /\ tm_ok t.

Definition micro_text (tz : option TimeZone.Data) (us : Z) : bytes :=
  lit "." ++ pad0 6 us ++ match tz with Some _ => lit " " | None => lit "Z " end.

Section spec.
Variable gettid : Z.
Variable strerror_r : Z -> bytes.

Definition func_items (st : statement) : list item :=
  match kind st with LOG_TRACE | LOG_DEBUG => [ICStr (Some (func st)); IChar " "%byte] | _ => [] end.

Definition saved_errno (st : statement) : Z :=
  match kind st with LOG_SYSERR | LOG_SYSFATAL => errno st | _ => 0 end.

(** Everything a line consists of, for a statement whose time is shown as [t]. *)
Definition line_items (tz : option TimeZone.Data) (st : statement) (t : tm) : list item :=
  [IString (tm_text t); IString (micro_text tz (micro_of (now st)));
   IString (pads 5 gettid ++ lit " "); IString (LogLevelName (level_of (kind st)))] ++
  errno_items strerror_r (saved_errno st) ++ func_items st ++ items st ++ finish_items st.

Definition line_text (tz : option TimeZone.Data) (st : statement) (t : tm) : bytes := spec_all (line_items tz st t) [].

(** A statement with arguments of their types, made after the first second of 1970. *)
Record statement_ok (st : statement) : Prop := {
  so_items : Forall item_ok (items st);
  so_line : 0 <= line st < 2 ^ 31;
  so_errno : - 2 ^ 31 <= errno st < 2 ^ 31;
  so_now : Timestamp.kMicroSecondsPerSecond <= Timestamp.microSecondsSinceEpoch_ (now st)
}.

(** The cached texts are those of their keys. *)
Record cache_ok (w : t) : Prop := {
  ca_time : t_lastSecond w = 0 \/ exists t, shows (g_logTimeZone w) (t_lastSecond w) t /\ t_time w = tm_text t;
  ca_tid : thread w = CurrentThread.initial \/
    thread w = CurrentThread.mk gettid (pads 5 gettid ++ lit " ") (zlen (pads 5 gettid ++ lit " "))
}.

Lemma pads_width w n : 1 <= w -> 0 <= n < 10 ^ w -> zlen (pads w n) = w.
Proof.
  intros Hw Hn. unfold pads, show. rewrite (proj2 (Z.ltb_ge n 0)) by lia.
  pose proof (zlen_show_nonneg n w Hw Hn). rewrite zlen_app. unfold zlen in *. rewrite length_replicate. lia.
Qed.

Lemma pads_bound w n : 0 <= n < 2 ^ 31 -> 0 <= w <= 10 -> zlen (pads w n) <= 10.
Proof.
  intros Hn Hw. unfold pads, show. rewrite (proj2 (Z.ltb_ge n 0)) by lia.
  pose proof (zlen_show_nonneg n 10 ltac:(lia) ltac:(lia)). rewrite zlen_app. unfold zlen in *. rewrite length_replicate. lia.
Qed.

Lemma snprintf_fits text : zlen text <= 31 -> snprintf 32 text = text.
Proof. intros H. unfold snprintf. apply take_ge. unfold zlen in H. lia. Qed.

Lemma tm_text_width t : tm_ok t -> zlen (tm_text t) = 17.
Proof.
  intros (Hy & Hm & Hd & Hh & Hi & Hs). unfold tm_text, date_text. rewrite !zlen_app.
  rewrite pads_width, !pad0_width by lia. change (zlen (lit " ")) with 1. change (zlen (lit ":")) with 1. lia.
Qed.

Lemma micro_range time : Timestamp.kMicroSecondsPerSecond <= Timestamp.microSecondsSinceEpoch_ time ->
  0 <= micro_of time < 10 ^ 6 /\ second_of time <> 0.
Proof.
  unfold micro_of, second_of, Timestamp.kMicroSecondsPerSecond. intros H. rewrite Z.rem_mod_nonneg, Z.quot_div_nonneg by lia.
  pose proof (Z.mod_pos_bound (Timestamp.microSecondsSinceEpoch_ time) (1000 * 1000)).
  pose proof (Z.div_le_lower_bound (Timestamp.microSecondsSinceEpoch_ time) (1000 * 1000) 1). lia.
Qed.

Lemma micro_text_width tz us : 0 <= us < 10 ^ 6 -> zlen (micro_text tz us) = match tz with Some _ => 8 | None => 9 end.
Proof.
  intros H. unfold micro_text. rewrite !zlen_app, pad0_width by lia. change (zlen (lit ".")) with 1. by destruct tz.
Qed.

Lemma spec_all_app l1 l2 acc : spec_all (l1 ++ l2) acc = spec_all l2 (spec_all l1 acc).
Proof. revert acc. induction l1 as [|i l1 IH]; intros acc; cbn; [done|apply IH]. Qed.

Lemma T_ok str len : zlen str = len -> T str len = Ret (IString str).
Proof. intros H. unfold T. by rewrite check_bind by (by apply Z.eqb_eq). Qed.

(** Appending items to the stream of a line under way. *)
Definition holds (s : FixedBuffer.t) (l : list item) : Prop := FixedBuffer.wf kSmallBuffer s /\ FixedBuffer.text s = spec_all l [].

Lemma append_items l1 l2 s : holds s l1 -> Forall item_ok l2 -> returns (insert_all l2 s) (fun s' => holds s' (l1 ++ l2)).
Proof.
  intros [W E] H. eapply returns_mono; [|by apply insert_all_ok]. intros s' [W' E'].
  split; [done|]. by rewrite spec_all_app, <- E.
Qed.

(** The cached text is the text of the second asked for. *)
Lemma formatTime_ok time w s t :
  Timestamp.kMicroSecondsPerSecond <= Timestamp.microSecondsSinceEpoch_ time ->
  cache_ok w -> shows (g_logTimeZone w) (second_of time) t -> holds s [] ->
  returns (formatTime time w s) (fun '(w1, s1) => w1 = set_time (tm_text t) (second_of time) w /\
    holds s1 [IString (tm_text t); IString (micro_text (g_logTimeZone w) (micro_of time))]).
Proof.
  intros Ht [Hc _] [Es Hok] Hs. destruct (micro_range time Ht) as [Hm Hn]. unfold formatTime. fold (second_of time) (micro_of time).
  fold (tm_of (g_logTimeZone w) (second_of time)). rewrite Es.
  assert (forall w1, w1 = set_time (tm_text t) (second_of time) w -> returns
    (let zone := match g_logTimeZone w1 with Some _ => lit " " | None => lit "Z " end in
     let len := match g_logTimeZone w1 with Some _ => 8 | None => 9 end in
     let text := lit "." ++ pad0 6 (micro_of time) ++ zone in
     _ ← check (zlen text =? len);
     i1 ← T (t_time w1) 17;
     i2 ← T (Fmt text) len;
     stream1 ← insert_all [i1; i2] s;
     Ret (w1, stream1)) (fun '(w1, s1) => w1 = set_time (tm_text t) (second_of time) w /\
    holds s1 [IString (tm_text t); IString (micro_text (g_logTimeZone w) (micro_of time))])) as Htail.
  { intros w1 ->. cbn [set_time g_logTimeZone t_time]. cbv zeta. fold (micro_text (g_logTimeZone w) (micro_of time)).
    pose proof (micro_text_width (g_logTimeZone w) _ Hm) as Hw.
    rewrite check_bind by (by apply Z.eqb_eq). rewrite (T_ok (tm_text t)), bind_Ret by (by apply tm_text_width).
    unfold Fmt. rewrite snprintf_fits by (rewrite Hw; destruct (g_logTimeZone w); lia). rewrite T_ok, bind_Ret by done.
    eapply returns_seq; [apply (append_items [] _ _ Hs)|].
    - repeat (apply List.Forall_cons || apply List.Forall_nil); exact I.
    - intros s1 H1. split; [done|exact H1]. }
  destruct (second_of time =? t_lastSecond w) eqn:E; bools; cbn [negb].
  - rewrite bind_Ret. apply Htail. destruct Hc as [Hc|(t' & [Es' _] & Hc)]; [congruence|].
    rewrite <- E, Es in Es'. injection Es' as <-. rewrite <- Hc, E. by destruct w.
  - destruct Hok as (Hy & Hmo & Hrest). rewrite bind_Ret. do 2 (rewrite int_bind by Date.fits; cbn [int_val]). cbv zeta. fold (tm_text t).
    pose proof (tm_text_width t (conj Hy (conj Hmo Hrest))) as Hw. rewrite check_bind by (by apply Z.eqb_eq).
    rewrite bind_Ret, snprintf_fits by lia. by apply Htail.
Qed.

Hypothesis tid_range : 0 < gettid < 2 ^ 31.

(** The state after the header of a line was written. *)
Definition stamped (st : statement) (t : tm) (w : Logger.t) : Logger.t :=
  set_thread (CurrentThread.mk gettid (pads 5 gettid ++ lit " ") (zlen (pads 5 gettid ++ lit " ")))
    (set_time (tm_text t) (second_of (now st)) w).

Lemma tid_ok w : cache_ok w -> (CurrentThread.tid gettid (thread w)).2 =
  CurrentThread.mk gettid (pads 5 gettid ++ lit " ") (zlen (pads 5 gettid ++ lit " ")).
Proof using tid_range.
  intros [_ [-> | ->]]; unfold CurrentThread.tid, CurrentThread.cacheTid; cbn [CurrentThread.initial CurrentThread.t_cachedTid].
  - change (CurrentThread.mk gettid (snprintf 32 (pads 5 gettid ++ lit " ")) (zlen (pads 5 gettid ++ lit " ")) =
            CurrentThread.mk gettid (pads 5 gettid ++ lit " ") (zlen (pads 5 gettid ++ lit " "))).
    rewrite snprintf_fits; [done|]. pose proof (pads_bound 5 gettid ltac:(lia) ltac:(lia)).
    rewrite zlen_app. change (zlen (lit " ")) with 1. lia.
  - by rewrite (proj2 (Z.eqb_neq gettid 0)) by lia.
Qed.

Variable uninitialised : bytes.
Hypothesis buffer_size : zlen uninitialised = kSmallBuffer.

Lemma errno_items_ok e : - 2 ^ 31 <= e < 2 ^ 31 -> Forall item_ok (errno_items strerror_r e).
Proof.
  intros H. unfold errno_items. destruct (negb _); repeat (apply List.Forall_cons || apply List.Forall_nil); cbn; lia || exact I.
Qed.

Lemma Impl_ok st w t e : statement_ok st -> cache_ok w -> shows (g_logTimeZone w) (second_of (now st)) t ->
  - 2 ^ 31 <= e < 2 ^ 31 ->
  returns (Impl gettid strerror_r uninitialised (level_of (kind st)) e (now st) w) (fun '(w1, s1) => w1 = stamped st t w /\
    holds s1 ([IString (tm_text t); IString (micro_text (g_logTimeZone w) (micro_of (now st)));
               IString (pads 5 gettid ++ lit " "); IString (LogLevelName (level_of (kind st)))] ++ errno_items strerror_r e)).
Proof using tid_range buffer_size.
  intros Hst Hc Ht He. unfold Impl.
  assert (Hb : holds (FixedBuffer.FixedBuffer uninitialised) []).
  { unfold holds, FixedBuffer.wf, kSmallBuffer in *. cbn. split; [lia|done]. }
  eapply returns_seq; [apply (formatTime_ok _ _ _ t); try done; apply Hst|]. intros [w1 s1] [-> Hs1].
  cbv zeta. cbn [set_time thread set_thread]. rewrite tid_ok by done.
  cbn [CurrentThread.t_tidString CurrentThread.t_tidStringLength]. rewrite (T_ok (LogLevelName _)) by (by destruct (level_of (kind st))).
  rewrite T_ok, !bind_Ret by done.
  eapply returns_seq; [apply (append_items _ _ _ Hs1)|intros s2 Hs2; by split].
  apply Forall_app. split; [|by apply errno_items_ok]. repeat (apply List.Forall_cons || apply List.Forall_nil); exact I.
Qed.

Lemma Logger_ok st w t : statement_ok st -> cache_ok w -> shows (g_logTimeZone w) (second_of (now st)) t ->
  returns (Logger gettid strerror_r uninitialised st w) (fun '(w1, s1) => w1 = stamped st t w /\
    holds s1 ([IString (tm_text t); IString (micro_text (g_logTimeZone w) (micro_of (now st)));
               IString (pads 5 gettid ++ lit " "); IString (LogLevelName (level_of (kind st)))] ++
              errno_items strerror_r (saved_errno st) ++ func_items st)).
Proof using tid_range buffer_size.
  intros Hst Hc Ht. pose proof (fun e => Impl_ok st w t e Hst Hc Ht) as HI.
  assert (H0 : - 2 ^ 31 <= 0 < 2 ^ 31) by lia. unfold Logger, saved_errno, func_items.
  destruct (kind st) eqn:Ek; cbn [level_of] in *; rewrite ?app_nil_r; try (apply HI; done || apply Hst);
    (eapply returns_seq; [by apply HI|]; intros [w1 s1] [-> Hs1];
     eapply returns_seq; [apply (append_items _ _ _ Hs1); repeat (apply List.Forall_cons || apply List.Forall_nil); exact I|];
     intros s2 Hs2; split; [done|]; by rewrite app_assoc).
Qed.

Lemma toString_holds s l : holds s l -> FixedBuffer.toString s = spec_all l [].
Proof.
  intros [[Hd Hc] <-]. unfold FixedBuffer.toString, FixedBuffer.length_of, FixedBuffer.text.
  by rewrite s32_id by (unfold kSmallBuffer in *; lia).
Qed.

(** One enabled statement: its line is written, the cache stays right. *)
Lemma log_ok st w t : statement_ok st -> cache_ok w -> shows (g_logTimeZone w) (second_of (now st)) t ->
  enabled w (kind st) = true ->
  returns (log gettid strerror_r uninitialised st w) (fun '(aborted, w') =>
    let w1 := g_output (line_text (g_logTimeZone w) st t) (stamped st t w) in
    (aborted, w') = match level_of (kind st) with FATAL => (true, g_flush w1) | _ => (false, w1) end /\ cache_ok w').
Proof using tid_range buffer_size.
  intros Hst Hc Ht En. unfold log. rewrite En. eapply returns_seq; [by apply Logger_ok|]. intros [w1 s1] [-> Hs1].
  eapply returns_seq; [apply (append_items _ _ _ Hs1), Hst|]. intros s2 Hs2.
  unfold Logger_destroy. eapply returns_seq; [apply (append_items _ _ _ Hs2)|].
  { pose proof (so_line _ Hst). repeat (apply List.Forall_cons || apply List.Forall_nil); cbn; lia || exact I. }
  intros s3 Hs3. apply toString_holds in Hs3. cbn [returns].
  assert (El : FixedBuffer.toString s3 = line_text (g_logTimeZone w) st t).
  { rewrite Hs3. unfold line_text, line_items. by rewrite <- !app_assoc. }
  rewrite El. cbv zeta. assert (cache_ok (stamped st t w)) as Hc'.
  { split; [right; by exists t|by right]. }
  destruct (level_of (kind st)); (split; [done|]); (split; [apply Hc'|apply Hc']).
Qed.

Definition shown (tz : option TimeZone.Data) (s : Z) : tm :=
  match tm_of tz s with Ret t => t | Crash _ => gmtime_r 0 end.

Definition line_of (tz : option TimeZone.Data) (st : statement) : bytes := line_text tz st (shown tz (second_of (now st))).

Definition is_fatal (st : statement) : bool := match level_of (kind st) with FATAL => true | _ => false end.

(** The statements that run: up to the first fatal one. *)
Fixpoint upto_fatal (l : list statement) : list statement :=
  match l with [] => [] | st :: l' => st :: if is_fatal st then [] else upto_fatal l' end.

Definition loggable (tz : option TimeZone.Data) (st : statement) : Prop :=
  statement_ok st /\ exists t, shows tz (second_of (now st)) t.

Lemma log_all_ok tz level l : forall w, cache_ok w -> g_logTimeZone w = tz -> g_logLevel w = level -> Forall (loggable tz) l ->
  returns (log_all gettid strerror_r uninitialised l w) (fun '(aborted, w') =>
    aborted = existsb is_fatal l /\ (aborted = true -> flushed w' = zlen (written w')) /\
    written w' = written w ++ map (line_of tz) (List.filter (fun st => enabled w (kind st)) (upto_fatal l))).
Proof using tid_range buffer_size.
  induction l as [|st l IH]; intros w Hc Htz Hl Hok; cbn [log_all]; [by rewrite app_nil_r|].
  inversion Hok as [|? ? [Hst [t Ht]] Hok']; subst. cbn [existsb upto_fatal List.filter].
  destruct (enabled w (kind st)) eqn:En.
  - eapply returns_seq; [by apply (log_ok st w t)|]. intros [a w1] [E Hc1]. cbv zeta in E.
    assert (Eline : line_of (g_logTimeZone w) st = line_text (g_logTimeZone w) st t) by (unfold line_of, shown; destruct Ht as [-> _]; done).
    assert (Hfat : is_fatal st = match level_of (kind st) with FATAL => true | _ => false end) by done.
    destruct (level_of (kind st)); rewrite Hfat; injection E as -> ->; cbn [orb];
      try (eapply returns_mono; [|by apply IH]; intros [a' w'] (-> & Hf & Hw); split_and!; [done..|];
           rewrite Hw; cbn [map]; rewrite Eline; cbn [written g_output stamped set_thread set_time]; by rewrite <- app_assoc).
    split_and!; [done..|]. cbn [map]. by rewrite Eline.
  - unfold log at 1. rewrite En, bind_Ret. assert (is_fatal st = false) as -> by (unfold is_fatal; by destruct (kind st)).
    eapply returns_mono; [|by apply IH]. intros [a' w'] (-> & Hf & Hw). by split_and!.
Qed.

End spec.

(** C38. Any sequence of log statements, at any level, in any time zone set beforehand, writes
    exactly the lines of the enabled statements, in order, up to the first fatal one, which
    flushes and aborts.  Each line shows the time of its own statement although the text is
    cached by second, the thread, the level, the error, the items and the place; nothing is cut
    from a line that leaves 32 bytes of the 4000 free. *)
Theorem log_lines gettid strerror_r uninitialised trace debug level tz l :
  0 < gettid < 2 ^ 31 -> zlen uninitialised = kSmallBuffer -> Forall (loggable tz) l ->
  let w := setTimeZone tz (setLogLevel level (initial trace debug)) in
  returns (log_all gettid strerror_r uninitialised l w) (fun '(aborted, w') =>
    aborted = existsb is_fatal l /\ (aborted = true -> flushed w' = zlen (written w')) /\
    written w' = map (line_of gettid strerror_r tz) (List.filter (fun st => enabled w (kind st)) (upto_fatal l)) /\
    (forall st, st ∈ l ->
       let text := concat (map show_item (line_items gettid strerror_r tz st (shown tz (second_of (now st))))) in
       zlen text + kMaxNumericSize <= kSmallBuffer -> line_of gettid strerror_r tz st = text)).
Proof.
  intros Ht Hb Hok w. eapply returns_mono; [|apply (log_all_ok gettid strerror_r Ht uninitialised Hb tz level l w)]; try done.
  - intros [a w'] (Ha & Hf & Hw). split_and!; [done..|]. intros st _ text Hfit. by apply (spec_all_fits _ []).
  - split; by left.
Qed.

(** UTC up to the end of the year 9999. *)
Lemma utc_shown s : 0 < s < 253402300800 -> shows None s (gmtime_r s).
Proof.
  intros Hs. split; [done|]. unfold tm_ok, gmtime_r. cbv zeta. cbn [tm_year tm_mon tm_mday tm_hour tm_min tm_sec].
  assert (Hj : 2440588 <= s / 86400 + 2440588 <= 5373484).
  { pose proof (Date.div_bounds s 86400). lia. }
  destruct (TimeZone.civil_ok (s / 86400 + 2440588)) as (Hc & _ & Ej & _); [lia|].
  revert Hc Ej. generalize (civil (s / 86400 + 2440588)). intros d Hc Ej.
  pose proof (Date.calendar_day_31 d Hc) as Hd. pose proof (Date.div_bounds s 86400 ltac:(lia)) as Hdiv.
  pose proof (Z.mod_pos_bound s 86400). pose proof (Z.mod_pos_bound (s mod 86400) 60).
  pose proof (Z.mod_pos_bound (s mod 86400 / 60) 60). pose proof (Date.div_bounds (s mod 86400) 3600).
  pose proof (Date.year_four_digits d Hc ltac:(lia)). destruct Hc as [Hm _]. lia.
Qed.

Definition demo_statement (k : macro) (us : Z) : statement :=
  stmt k (lit "/home/muduo/base/test.cc") 12 (lit "main") [ICStr (Some (lit "n = ")); IInt 42] (Timestamp.Timestamp us) 2.

(** Two statements in one second, an ignored one, and a fatal one in the next second. *)
Lemma log_lines_witness :
  let l := [demo_statement LOG_INFO 1700000000000001; demo_statement LOG_DEBUG 1700000000000002;
            demo_statement LOG_SYSERR 1700000000999999; demo_statement LOG_FATAL 1700000001000000] in
  let w := setTimeZone None (setLogLevel INFO (initial false false)) in
  returns (log_all 77 (fun _ => lit "No such file or directory") (replicate 4000 x00) l w) (fun '(aborted, w') =>
    aborted = true /\
    written w' = [lit "20231114 22:13:20.000001Z    77 INFO  n = 42 - test.cc:12" ++ [x0a];
                  lit "20231114 22:13:20.999999Z    77 ERROR No such file or directory (errno=2) n = 42 - test.cc:12" ++ [x0a];
                  lit "20231114 22:13:21.000000Z    77 FATAL n = 42 - test.cc:12" ++ [x0a]]).
Proof.
  intros l w.
  eapply returns_mono; [|apply (log_lines 77 (fun _ => lit "No such file or directory") (replicate 4000 x00) false false INFO None l)].
  - intros [a w'] (-> & _ & -> & _). vm_compute. split; reflexivity.
  - lia.
  - reflexivity.
  - repeat (apply List.Forall_cons || apply List.Forall_nil);
      (split; [split; [repeat (apply List.Forall_cons || apply List.Forall_nil); cbn; lia || exact I | cbn; lia..|
                       vm_compute; discriminate] |
               eexists; apply utc_shown; vm_compute; split; reflexivity]).
Defined.

(** The cache ignores the zone: after [setTimeZone], what is left of the second is logged
    with the old zone's time and the new zone's mark. *)
Lemma set_time_zone_is_late :
  let st := demo_statement LOG_INFO 1700000000000001 in
  let run w := log 77 (fun _ => []) (replicate 4000 x00) st w in
  match run (initial false false) with
  | Ret (_, w) =>
      (fun r => match r with Ret (_, w') => written w' | Crash _ => [] end) (run (setTimeZone (Some (TimeZone.TimeZone_fixed 28800 (lit "CST"))) w)) =
        [lit "20231114 22:13:20.000001Z    77 INFO  n = 42 - test.cc:12" ++ [x0a];
         lit "20231114 22:13:20.000001    77 INFO  n = 42 - test.cc:12" ++ [x0a]]
  | Crash _ => False
  end.
Proof. vm_compute. reflexivity. Qed.

(** A thread whose clock shows the first second of 1970 fails an assertion: its cache is
    taken to hold that second. *)
Lemma first_second_fails :
  log 77 (fun _ => []) (replicate 4000 x00) (demo_statement LOG_INFO 5) (initial false false) = Crash AssertFailed.
Proof. vm_compute. reflexivity. Qed.

(** [SourceFile] keeps the file's own name. *)
Lemma SourceFile_basename dir name : "/"%byte ∉ name -> SourceFile (dir ++ "/"%byte :: name) = name.
Proof.
  intros H. unfold SourceFile. rewrite rev_app_distr. cbn [rev]. rewrite <- app_assoc. cbn [app].
  rewrite find_byte_app by (rewrite list_elem_of_In, <- in_rev, <- list_elem_of_In; done).
  rewrite length_rev, length_app. cbn [length].
  replace (length dir + S (length name) - length name)%nat with (length (dir ++ ["/"%byte])) by (rewrite length_app; cbn; lia).
  change (dir ++ "/"%byte :: name) with (dir ++ ["/"%byte] ++ name). by rewrite app_assoc, drop_app_length.
Qed.

End Logger.
