(* ===== verification/DateText.v ===== *)
(** * Date.cc, Timestamp.cc: dates and instants as text, and dates of a broken-down time

    [Date::toIsoString] and [Timestamp::toFormattedString] show what [Calendar] and [TimeZone]
    compute; it is proved that the texts have their full width in the buffer of 32 bytes and
    that the numbers can be read off them again. *)

From S2P Require Import Prelude Endian Format Calendar LogStream TimeZone Logging.

Module DateText.

(** ** Date *)

(** [Date(const struct tm& )] *)
Definition Date_of_tm (t : tm) : outcome Date.t :=
  y ← i32 (tm_year t + 1900); m ← i32 (tm_mon t + 1); Date.Date_of_ymd y m (tm_mday t).

Definition year (d : Date.t) : outcome Z := x ← Date.yearMonthDay d; Ret (Date.year x).
Definition month (d : Date.t) : outcome Z := x ← Date.yearMonthDay d; Ret (Date.month x).
Definition day (d : Date.t) : outcome Z := x ← Date.yearMonthDay d; Ret (Date.day x).
Definition eq (x y : Date.t) : bool := Date.julianDayNumber_ x =? Date.julianDayNumber_ y.

Definition iso_text (x : Date.YearMonthDay) : bytes :=
  pads 4 (Date.year x) ++ lit "-" ++ pad0 2 (Date.month x) ++ lit "-" ++ pad0 2 (Date.day x).

Definition toIsoString (d : Date.t) : outcome bytes := x ← Date.yearMonthDay d; Ret (snprintf 32 (iso_text x)).

(** ** Timestamp *)

Definition toFormattedString (showMicroseconds : bool) (x : Timestamp.t) : outcome bytes :=
  let us := Timestamp.microSecondsSinceEpoch_ x in
  let tm_time := gmtime_r (Z.quot us Timestamp.kMicroSecondsPerSecond) in
  y ← i32 (tm_year tm_time + 1900);
  m ← i32 (tm_mon tm_time + 1);
  let text := Logger.date_text y m (tm_mday tm_time) (tm_hour tm_time) (tm_min tm_time) (tm_sec tm_time) in
  Ret (snprintf 32 (if showMicroseconds then text ++ lit "." ++ pad0 6 (Z.rem us Timestamp.kMicroSecondsPerSecond) else text)).

(** [gettimeofday] answers the two numbers. *)
Definition now (tv_sec tv_usec : Z) : outcome Timestamp.t := Timestamp.fromUnixTime tv_sec tv_usec.

(** ** Numbers in columns *)

Lemma strtol_pad0 w n rest : 0 <= n -> stops rest -> strtol (pad0 w n ++ rest) = n.
Proof.
  intros Hn Hr. pose proof (read_pad0 w n Hn) as H. unfold read_nonneg in H. destruct (pad0 w n) as [|b s] eqn:E; [done |].
  destruct (mapM dec_digit (b :: s)) as [ds|] eqn:Em; [|done]. injection H as H. by rewrite (strtol_digits _ ds).
Qed.

Lemma skip_blanks k s : strtol (replicate k " "%byte ++ s) = strtol s.
Proof. induction k as [|k IH]; [done |]. exact IH. Qed.

Lemma strtol_pads w n rest : 0 <= n -> stops rest -> strtol (pads w n ++ rest) = n.
Proof.
  intros Hn Hr. unfold pads, show. rewrite (proj2 (Z.ltb_ge n 0)) by lia. rewrite <-app_assoc, skip_blanks.
  destruct (show_nonneg_digits n Hn) as (ds & Hm & Hv & Hne). by rewrite (strtol_digits _ ds).
Qed.

Lemma drop_column (a b : bytes) n : zlen a = Z.of_nat n -> drop n (a ++ b) = b.
Proof. intros H. unfold zlen in H. by rewrite drop_app_length' by lia. Qed.

(** ** Dates *)

(** A date of a year of up to four digits, made from its parts: the text has ten characters and
    the parts can be read from its columns; the members answer the same parts. *)
Theorem iso_string_round_trip x : Date.calendar_date x -> 0 <= Date.year x <= 9999 ->
  returns (d ← Date.Date_of_ymd (Date.year x) (Date.month x) (Date.day x); s ← toIsoString d; y ← year d; m ← month d; n ← day d; Ret (s, (y, m, n)))
    (fun '(s, parts) => zlen s = 10 /\ strtol s = Date.year x /\ strtol (drop 5 s) = Date.month x /\ strtol (drop 8 s) = Date.day x /\
      parts = (Date.year x, Date.month x, Date.day x)).
Proof.
  intros Hc Hy. assert (Hs : Date.supported x) by (unfold Date.supported; lia). pose proof (Date.calendar_day_31 _ Hc) as Hd. pose proof Hc as [Hm _].
  unfold Date.Date_of_ymd. rewrite Date.date_days, !bind_Ret by done. unfold toIsoString, year, month, day, Date.yearMonthDay. cbn [Date.julianDayNumber_].
  rewrite Date.getYearMonthDay_jdn, !bind_Ret by done.
  assert (Hw : zlen (iso_text x) = 10).
  { unfold iso_text. rewrite !zlen_app, Logger.pads_width, !pad0_width by lia. done. }
  rewrite Logger.snprintf_fits by lia. cbn [returns]. split_and!; [done | by apply strtol_pads; [lia |] | | | done].
  - unfold iso_text. rewrite app_assoc, (drop_column _ _ 5) by (rewrite zlen_app, Logger.pads_width by lia; done). by apply strtol_pad0; [lia |].
  - unfold iso_text. rewrite (app_assoc (pads _ _)), (app_assoc (pads _ _ ++ _)), (app_assoc ((pads _ _ ++ _) ++ _)).
    rewrite (drop_column _ _ 8) by (rewrite !zlen_app, Logger.pads_width, pad0_width by lia; done). rewrite <-(app_nil_r (pad0 2 (Date.day x))). by apply strtol_pad0; [lia |].
Qed.

Lemma iso_string_round_trip_witness :
  returns (d ← Date.Date_of_ymd 2016 2 29; s ← toIsoString d; y ← year d; m ← month d; n ← day d; Ret (s, (y, m, n)))
    (fun '(s, parts) => zlen s = 10 /\ strtol s = 2016 /\ strtol (drop 5 s) = 2 /\ strtol (drop 8 s) = 29 /\ parts = (2016, 2, 29)).
Proof. apply (iso_string_round_trip (Date.ymd 2016 2 29)); vm_compute; split; try split; discriminate. Defined.

Example leap_day : (d ← Date.Date_of_ymd 2016 2 29; toIsoString d) = Ret (lit "2016-02-29").
Proof. vm_compute. reflexivity. Qed.

(** The date of a broken-down time is that of its instant. *)
Lemma date_of_gmtime s : TimeZone.utc_range s -> Date_of_tm (gmtime_r s) = Ret (Date.Date (s / 86400 + 2440588)).
Proof.
  intros Hr. destruct (TimeZone.civil_ok _ Hr) as (Hc & Hs & Ej & _). pose proof Hs as Hy. unfold Date.supported in Hy. pose proof Hc as [Hm _].
  unfold Date_of_tm, gmtime_r. cbv zeta. cbn [tm_year tm_mon tm_mday]. rewrite !Z.sub_add, !i32_ok, !bind_Ret by lia.
  unfold Date.Date_of_ymd. by rewrite Date.date_days, bind_Ret, Ej.
Qed.

(** ** Instants *)

(** An instant up to the end of the year 9999 is shown whole, with or without the microseconds. *)
Lemma formatted_string_ok show us : 10 ^ 6 <= us < 253402300800 * 10 ^ 6 ->
  returns (toFormattedString show (Timestamp.Timestamp us)) (fun s => zlen s = (if show then 24 else 17) /\
    take 17 s = Logger.tm_text (gmtime_r (us / 10 ^ 6)) /\ (show = true -> strtol (drop 18 s) = us mod 10 ^ 6)).
Proof.
  intros Hus. unfold toFormattedString. change (Timestamp.microSecondsSinceEpoch_ (Timestamp.Timestamp us)) with us.
  change Timestamp.kMicroSecondsPerSecond with (10 ^ 6). rewrite Z.quot_div_nonneg, Z.rem_mod_nonneg by lia. set (s := us / 10 ^ 6).
  assert (Hs : 0 < s < 253402300800) by (subst s; pose proof (Z.div_mod us (10 ^ 6)); pose proof (Z.mod_pos_bound us (10 ^ 6)); lia).
  pose proof (Z.mod_pos_bound us (10 ^ 6) ltac:(lia)) as Hmod. destruct (Logger.utc_shown s Hs) as [_ Hok]. pose proof Hok as (Hy & Hm & _).
  rewrite !i32_ok, !bind_Ret by lia. cbv zeta. change (Logger.date_text _ _ _ _ _ _) with (Logger.tm_text (gmtime_r s)).
  pose proof (Logger.tm_text_width _ Hok) as Hw. destruct show.
  - assert (Hl : zlen (Logger.tm_text (gmtime_r s) ++ lit "." ++ pad0 6 (us mod 10 ^ 6)) = 24) by (rewrite !zlen_app, Hw, pad0_width by lia; done).
    rewrite Logger.snprintf_fits by lia. cbn [returns]. split_and!; [done | by rewrite take_app_length' by (unfold zlen in Hw; lia) |]. intros _.
    rewrite app_assoc, (drop_column _ _ 18) by (rewrite zlen_app, Hw; done). rewrite <-(app_nil_r (pad0 _ _)). by apply strtol_pad0; [lia |].
  - rewrite Logger.snprintf_fits by lia. cbn [returns]. split_and!; [done | apply take_ge; unfold zlen in Hw; lia | done].
Qed.

Example formatted_example : toFormattedString true (Timestamp.Timestamp 1700000000000042) = Ret (lit "20231114 22:13:20.000042").
Proof. vm_compute. reflexivity. Qed.

End DateText.
