(* ===== verification/Threads.v ===== *)
(** * Atomic.h, Mutex.h, Condition.h, Thread.cc: threads, mutexes and conditions

    The wrappers of pthreads add state of their own: the holder of a mutex, which its assertions
    use, and the life of a thread, which is started once and joined or detached.  Threads that
    use one mutex are an interleaving of the atomic pieces of [lock], [unlock] and [wait]. *)

From S2P Require Import Prelude Endian Calendar Format LogStream TimeZone Logging.

(** ** Atomic.h *)
Module Atomic.

(** [AtomicInt32]: each operation is one atomic step; the hardware adds modulo 2^32, the
    addition that follows is one of the language. *)
Definition t := Z.
Definition AtomicIntegerT : t := 0.
Definition get (value_ : t) : Z := value_.
Definition getAndAdd (x : Z) (value_ : t) : Z * t := (value_, s32 (value_ + x)).
Definition addAndGet (x : Z) (value_ : t) : outcome (Z * t) :=
  let '(old, v) := getAndAdd x value_ in r ← i32 (old + x); Ret (r, v).
Definition incrementAndGet (value_ : t) : outcome (Z * t) := addAndGet 1 value_.
Definition decrementAndGet (value_ : t) : outcome (Z * t) := addAndGet (-1) value_.
Definition add (x : Z) (value_ : t) : t := (getAndAdd x value_).2.
Definition increment (value_ : t) : outcome t := '(_, v) ← incrementAndGet value_; Ret v.
Definition decrement (value_ : t) : outcome t := '(_, v) ← decrementAndGet value_; Ret v.
Definition getAndSet (newValue : Z) (value_ : t) : Z * t := (value_, newValue).

(** [n] calls of [incrementAndGet], by whatever threads: what they answer. *)
Fixpoint increments (n : nat) (value_ : t) : outcome (list Z * t) :=
  match n with
  | O => Ret ([], value_)
  | S n' => '(r, v) ← incrementAndGet value_; '(rs, v') ← increments n' v; Ret (r :: rs, v')
  end.

(** Every caller gets a number of its own. *)
Lemma increments_ok n : forall v, - 2 ^ 31 <= v -> v + Z.of_nat n < 2 ^ 31 -> increments n v = Ret (seqZ (v + 1) (Z.of_nat n), v + Z.of_nat n).
Proof.
  induction n as [|n IH]; intros v Hv Hn; cbn [increments]; [by rewrite Z.add_0_r |].
  unfold incrementAndGet, addAndGet, getAndAdd. rewrite i32_ok, !bind_Ret, s32_id, IH, bind_Ret by lia.
  rewrite (seqZ_cons (v + 1)) by lia. replace (Z.succ (v + 1)) with (v + 1 + 1) by lia. replace (Z.pred (Z.of_nat (S n))) with (Z.of_nat n) by lia.
  do 2 f_equal. lia.
Qed.

(** The 2^31st increment overflows. *)
Lemma increment_overflows : incrementAndGet (2 ^ 31 - 1) = Crash IntOverflow.
Proof. reflexivity. Qed.

End Atomic.

(** ** Mutex.h and Condition.h *)
Module MutexLock.

(** Where a thread is: between [pthread_mutex_lock] and the assignment to [holder_], in the
    critical section, between the assignment in [unlock] and [pthread_mutex_unlock], in
    [pthread_cond_wait], or woken up there and waiting for the mutex. *)
Inductive place := Outside | Acquired | Inside | Releasing | Waiting | Woken.

#[export] Instance place_eq_dec : EqDecision place.
Proof. solve_decision. Defined.

(** [mutex_]: the thread that has locked it. *)
Record t := mk { mutex_ : option Z; holder_ : Z; at_ : Z -> place }.

Definition MutexLock : t := mk None 0 (fun _ => Outside).

Definition move (tid : Z) (p : place) (at_ : Z -> place) : Z -> place := fun u => if u =? tid then p else at_ u.

(** The atomic pieces; [None]: the thread blocks. *)
Definition pthread_lock (tid : Z) (p : place) (m : t) : option t :=
  match mutex_ m with None => Some (mk (Some tid) (holder_ m) (move tid p (at_ m))) | Some _ => None end.

Definition lock_assign (tid : Z) (m : t) : t := mk (mutex_ m) tid (move tid Inside (at_ m)).
Definition unlock_assign (tid : Z) (m : t) : t := mk (mutex_ m) 0 (move tid Releasing (at_ m)).
Definition pthread_unlock (tid : Z) (p : place) (m : t) : t := mk None (holder_ m) (move tid p (at_ m)).

Definition isLockedByThisThread (tid : Z) (m : t) : bool := holder_ m =? tid.
Definition assertLocked (tid : Z) (m : t) : outcome unit := check (isLockedByThisThread tid m).
Definition destroy (m : t) : outcome unit := check (holder_ m =? 0).

(** A call as a thread makes it, without interruption. *)
Definition lock (tid : Z) (m : t) : option t := lock_assign tid <$> pthread_lock tid Acquired m.
Definition unlock (tid : Z) (m : t) : t := pthread_unlock tid Outside (unlock_assign tid m).

Inductive action := Lock | Assign | Unlock | Release | Wait | Wake | Relock.

(** One atomic piece of thread [tid].  [Wake] is a notification or a spurious wakeup. *)
Definition act (tid : Z) (a : action) (m : t) : option t :=
  match a, at_ m tid with
  | Lock, Outside => pthread_lock tid Acquired m
  | Assign, Acquired => Some (lock_assign tid m)
  | Unlock, Inside => Some (unlock_assign tid m)
  | Release, Releasing => Some (pthread_unlock tid Outside m)
  | Wait, Inside => Some (pthread_unlock tid Waiting m)
  | Wake, Waiting => Some (mk (mutex_ m) (holder_ m) (move tid Woken (at_ m)))
  | Relock, Woken => pthread_lock tid Inside m
  | _, _ => None
  end.

Inductive step (m : t) (tid : Z) (a : action) (m' : t) : Prop :=
| step_act : 0 < tid -> act tid a m = Some m' -> step m tid a m'.

Definition waits (a : action) : bool := match a with Wait => true | _ => false end.

(** The flag: some thread has waited on a condition. *)
Inductive reachable : bool -> t -> Prop :=
| reach_start : reachable false MutexLock
| reach_step w m tid a m' : reachable w m -> step m tid a m' -> reachable (w || waits a) m'.

(** ** The invariant *)

Definition owns (p : place) : bool := match p with Acquired | Inside | Releasing => true | _ => false end.

Record inv (w : bool) (m : t) : Prop := {
  inv_owner : forall tid, mutex_ m = Some tid <-> owns (at_ m tid) = true;
  inv_holder : forall tid, 0 < tid -> holder_ m = tid -> at_ m tid = Inside \/ at_ m tid = Waiting \/ at_ m tid = Woken;
  inv_nowait : w = false -> (forall tid, at_ m tid <> Waiting /\ at_ m tid <> Woken) /\
    (forall tid, at_ m tid = Inside -> holder_ m = tid) /\ (holder_ m <> 0 -> at_ m (holder_ m) = Inside)
}.

Lemma move_eq tid p f : move tid p f tid = p.
Proof. unfold move. by rewrite Z.eqb_refl. Qed.
Lemma move_ne tid u p f : u <> tid -> move tid p f u = f u.
Proof. intros H. unfold move. by rewrite (proj2 (Z.eqb_neq u tid) H). Qed.

(** Only one thread owns the mutex. *)
Lemma one_owner w m t1 t2 : inv w m -> owns (at_ m t1) = true -> owns (at_ m t2) = true -> t1 = t2.
Proof. intros [Ho _ _] H1%Ho H2%Ho. congruence. Qed.

(** Who owns the mutex after thread [tid] moved to [p] and the mutex is [mx]. *)
Lemma owner_moves m tid p mx : (forall u, mutex_ m = Some u <-> owns (at_ m u) = true) ->
  (owns p = true /\ mx = Some tid /\ (forall u, u <> tid -> owns (at_ m u) = false)) \/ (owns p = false /\ mx = None /\ owns (at_ m tid) = true) \/
    (owns p = false /\ mx = mutex_ m /\ owns (at_ m tid) = false) ->
  forall u, mx = Some u <-> owns (move tid p (at_ m) u) = true.
Proof.
  intros Ho H u. destruct (decide (u = tid)) as [->|Hne]; [rewrite move_eq | rewrite move_ne by done].
  - destruct H as [(H1 & -> & _) | [(H1 & -> & _) | (H1 & -> & H2)]]; [by rewrite H1 | by rewrite H1 | rewrite H1, Ho, H2; done].
  - destruct H as [(_ & -> & H) | [(_ & -> & H) | (_ & -> & _)]].
    + rewrite H by done. split; [|done]. by intros [= ->].
    + split; [done |]. intros Hu%Ho. apply Ho in H. congruence.
    + apply Ho.
Qed.

Lemma others_not_owning w m tid : inv w m -> mutex_ m = None \/ owns (at_ m tid) = true -> forall u, u <> tid -> owns (at_ m u) = false.
Proof.
  intros [Ho _ _] H u Hu. destruct (owns (at_ m u)) eqn:E; [|done]. apply Ho in E. destruct H as [H|H%Ho]; congruence.
Qed.

(** What a move of [tid] to [p] has to satisfy. *)
Lemma move_inv w w' m tid p mx h : inv w m -> 0 < tid -> (w' = false -> w = false) ->
  (owns p = true /\ mx = Some tid /\ (mutex_ m = None \/ owns (at_ m tid) = true)) \/ (owns p = false /\ mx = None /\ owns (at_ m tid) = true) \/
    (owns p = false /\ mx = mutex_ m /\ owns (at_ m tid) = false) ->
  (h = holder_ m \/ h = 0 \/ (h = tid /\ p = Inside)) -> (h = tid -> p = Inside \/ p = Waiting \/ p = Woken) ->
  (w' = false -> p <> Waiting /\ p <> Woken /\ (p = Inside -> h = tid) /\ (h <> 0 -> move tid p (at_ m) h = Inside) /\ (forall u, u <> tid -> at_ m u <> Inside \/ h = holder_ m)) ->
  inv w' (mk mx h (move tid p (at_ m))).
Proof.
  intros I Ht Hw Hmx Hh Hp Hn. pose proof I as [Io Ih In]. split; cbn [mutex_ holder_ at_].
  - apply (owner_moves m); [done |]. destruct Hmx as [(H1 & H2 & H3) | H]; [left | right; done]. split_and!; try done. by apply (others_not_owning w).
  - intros u Hu Eh. destruct (decide (u = tid)) as [->|Hne]; [rewrite move_eq; by apply Hp |]. rewrite move_ne by done.
    apply Ih; [done |]. destruct Hh as [Hh|[Hh|[Hh _]]]; subst; [done | lia | done].
  - intros W. destruct (Hn W) as (N1 & N2 & N3 & N4 & N5). destruct (In (Hw W)) as (I1 & I2 & I3). split_and!.
    + intros u. destruct (decide (u = tid)) as [->|Hne]; [by rewrite move_eq | by rewrite move_ne].
    + intros u Hu. destruct (decide (u = tid)) as [->|Hne]; [rewrite move_eq in Hu; by apply N3 |]. rewrite move_ne in Hu by done.
      destruct (N5 u Hne) as [H|H]; [done |]. rewrite H. by apply I2.
    + done.
Qed.

Lemma act_inv w m tid a m' : inv w m -> step m tid a m' -> inv (w || waits a) m'.
Proof.
  intros I [Ht Ha].
  assert (Hoth : mutex_ m = None \/ owns (at_ m tid) = true -> forall u, u <> tid -> at_ m u <> Inside).
  { intros Ho u Hu Eu. pose proof (others_not_owning w m tid I Ho u Hu) as Hf. by rewrite Eu in Hf. }
  pose proof I as [Io Ih In]. specialize (Io tid). specialize (Ih tid Ht). unfold act, pthread_lock in Ha.
  destruct a, (at_ m tid) eqn:E; try done; cbn [waits orb]; rewrite ?orb_false_r, ?orb_true_r.
  - destruct (mutex_ m) eqn:Em; [done |]. injection Ha as <-. apply (move_inv w); try done; [left; split_and!; try done; by left | by left | intros H; by destruct (Ih H) as [?|[?|?]] |].
    intros W. destruct (In W) as (N1 & N2 & N3). split_and!; try done; [|by right]. intros Hh. specialize (N3 Hh). rewrite move_ne; [done |]. intros H. rewrite H in N3. congruence.
  - injection Ha as <-. apply (move_inv w); try done; [left; split_and!; [done | by apply Io | right; by rewrite E] | right; by right | by left |].
    intros W. split_and!; try done; [intros _; by rewrite move_eq |]. intros u Hu. left. apply Hoth; [by right | done].
  - injection Ha as <-. apply (move_inv w); try done; [left; split_and!; [done | by apply Io | right; by rewrite E] | right; by left | lia |].
    intros W. split_and!; try done. intros u Hu. left. apply Hoth; [by right | done].
  - injection Ha as <-. apply (move_inv w); try done; [right; left; split_and!; [done | done | by rewrite E] | by left | intros H; by destruct (Ih H) as [?|[?|?]] |].
    intros W. destruct (In W) as (N1 & N2 & N3). split_and!; try done; [|by right]. intros Hh. specialize (N3 Hh). exfalso. destruct (decide (holder_ m = tid)) as [H|H]; [rewrite H in N3; congruence |].
    by apply (Hoth (or_intror eq_refl) (holder_ m) H).
  - injection Ha as <-. apply (move_inv w); try done; [right; left; split_and!; [done | done | by rewrite E] | by left | intros _; by right; left].
  - injection Ha as <-. apply (move_inv w); try done; [right; right; split_and!; [done | done | by rewrite E] | by left | intros _; by right; right |].
    intros W. destruct (In W) as (N1 & _). by destruct (N1 tid).
  - destruct (mutex_ m) eqn:Em; [done |]. injection Ha as <-. apply (move_inv w); try done; [left; split_and!; try done; by left | by left | intros _; by left |].
    intros W. destruct (In W) as (N1 & _). by destruct (N1 tid).
Qed.

Lemma mutex_reachable_inv w m : reachable w m -> inv w m.
Proof.
  induction 1 as [|w m tid a m' _ IH Hs]; [|by apply (act_inv w m tid)]. split; cbn; [done | lia |]. intros _. by split_and!.
Qed.

(** A thread is executing, not blocked in [wait]. *)
Definition running (p : place) : bool := match p with Waiting | Woken => false | _ => true end.

(** C9. However threads interleave on a mutex with its condition, one at most is in the critical
    section, and [isLockedByThisThread] is true of a thread that executes only if it is in the
    critical section.  As long as no thread has waited on a condition it is true of every thread
    there, so [assertLocked] does not fail, and [holder_] is 0 when the mutex is free, so the
    destructor does not fail. *)
Theorem mutex_safe w m : reachable w m ->
  (forall t1 t2, at_ m t1 = Inside -> at_ m t2 = Inside -> t1 = t2) /\
  (forall tid, 0 < tid -> running (at_ m tid) = true -> isLockedByThisThread tid m = true -> at_ m tid = Inside) /\
  (w = false -> (forall tid, at_ m tid = Inside -> assertLocked tid m = Ret tt) /\ (mutex_ m = None -> destroy m = Ret tt)).
Proof.
  intros I%mutex_reachable_inv. split_and!.
  - intros t1 t2 E1 E2. apply (one_owner w m); [done | by rewrite E1 | by rewrite E2].
  - intros tid Ht Hr Hl%Z.eqb_eq. destruct (inv_holder _ _ I tid Ht Hl) as [E|[E|E]]; [done | by rewrite E in Hr | by rewrite E in Hr].
  - intros W. destruct (inv_nowait _ _ I W) as (N1 & N2 & N3). split.
    + intros tid E. unfold assertLocked, isLockedByThisThread. rewrite (N2 tid E). by rewrite Z.eqb_refl.
    + intros Em. unfold destroy. destruct (holder_ m =? 0) eqn:E; [done |]. bools. exfalso. specialize (N3 E).
      pose proof (proj2 (inv_owner _ _ I (holder_ m))) as Ho. rewrite N3, Em in Ho. by specialize (Ho eq_refl).
Qed.

(** Runs of atomic pieces. *)
Fixpoint run (l : list (Z * action)) (m : t) : option t :=
  match l with [] => Some m | (tid, a) :: l' => m1 ← act tid a m; run l' m1 end.

Lemma run_reachable l : forall w m m', reachable w m -> Forall (fun e => 0 < e.1) l -> run l m = Some m' -> reachable (w || existsb (fun e => waits e.2) l) m'.
Proof.
  induction l as [|[tid a] l IH]; intros w m m' Hm Hl Hr; cbn [run existsb] in *.
  - injection Hr as <-. by rewrite orb_false_r.
  - apply list.Forall_cons in Hl as [Ht Hl]. cbn in Ht. destruct (act tid a m) as [m1|] eqn:E; [|done]. rewrite orb_assoc. apply (IH _ m1); try done.
    by apply (reach_step w m tid a); [|constructor].
Qed.

(** Thread 1 is in the critical section after thread 2 was, in pieces. *)
Lemma mutex_safe_witness : exists m, run [(2, Lock); (2, Assign); (2, Unlock); (2, Release); (1, Lock); (1, Assign)] MutexLock = Some m /\
  (forall t1 t2, at_ m t1 = Inside -> at_ m t2 = Inside -> t1 = t2) /\
  (forall tid, 0 < tid -> running (at_ m tid) = true -> isLockedByThisThread tid m = true -> at_ m tid = Inside) /\
  (false = false -> (forall tid, at_ m tid = Inside -> assertLocked tid m = Ret tt) /\ (mutex_ m = None -> destroy m = Ret tt)).
Proof.
  eexists. split; [reflexivity |]. apply (mutex_safe false).
  apply (run_reachable [(2, Lock); (2, Assign); (2, Unlock); (2, Release); (1, Lock); (1, Assign)] false MutexLock); [constructor | | reflexivity].
  repeat (apply List.Forall_cons || apply List.Forall_nil); cbn; lia.
Defined.

(** [wait] gives the mutex up without resetting [holder_], and takes it again without setting
    it: when another thread was in the critical section meanwhile, [assertLocked] fails in the
    thread that waited, although it has the mutex. *)
Lemma wait_loses_holder : exists m,
  run [(1, Lock); (1, Assign); (1, Wait); (2, Lock); (2, Assign); (2, Unlock); (2, Release); (1, Wake); (1, Relock)] MutexLock = Some m /\
  mutex_ m = Some 1 /\ at_ m 1 = Inside /\ assertLocked 1 m = Crash AssertFailed.
Proof. eexists. split; [reflexivity | done]. Qed.

(** While a thread waits, the free mutex keeps its holder. *)
Lemma waiting_keeps_holder : exists m, run [(1, Lock); (1, Assign); (1, Wait)] MutexLock = Some m /\ mutex_ m = None /\ destroy m = Crash AssertFailed.
Proof. eexists. split; [reflexivity | done]. Qed.

End MutexLock.

(** ** Thread.cc *)
Module Thread.

(** What became of a thread of the system: it is joined or detached once. *)
Inductive fate := Attached | Joined | Detached.

#[export] Instance fate_eq_dec : EqDecision fate.
Proof. solve_decision. Defined.

Record t := mk { started_ : bool; joined_ : bool; pthreadId_ : Z; tid_ : Z; name_ : bytes }.

(** The system: the threads created, with their fate.  Joining or detaching a thread again is
    undefined. *)
Abbreviation system := (gmap Z fate).

Definition release (id : Z) (how : fate) (sys : system) : outcome system :=
  match sys !! id with Some Attached => Ret (<[id := how]> sys) | _ => Crash UseAfterFree end.

(** The constructor; the default name has the number of the thread. *)
Definition setDefaultName (numCreated_ : Atomic.t) (name : bytes) : outcome (bytes * Atomic.t) :=
  '(num, n') ← Atomic.incrementAndGet numCreated_;
  Ret (match name with [] => snprintf 32 (lit "Thread" ++ show num) | _ => name end, n').

Definition Thread (numCreated_ : Atomic.t) (n : bytes) : outcome (t * Atomic.t) :=
  '(name, n') ← setDefaultName numCreated_ n; Ret (mk false false 0 0 name, n').

(** [pthread_create] gives an id, or fails. *)
Definition start (created : option Z) (th : t) (sys : system) : outcome (t * system) :=
  _ ← check (negb (started_ th));
  match created with
  | Some id => Ret (mk true (joined_ th) id (tid_ th) (name_ th), <[id := Attached]> sys)
  | None => Crash FatalLog
  end.

Definition join (th : t) (sys : system) : outcome (t * system) :=
  _ ← check (started_ th);
  _ ← check (negb (joined_ th));
  sys' ← release (pthreadId_ th) Joined sys;
  Ret (mk (started_ th) true (pthreadId_ th) (tid_ th) (name_ th), sys').

Definition destroy (th : t) (sys : system) : outcome system :=
  if started_ th && negb (joined_ th) then release (pthreadId_ th) Detached sys else Ret sys.

(** [ThreadData::runInThread] in the new thread, whose id is [tid]: [alive] tells whether the
    [Thread] object still exists, [func_] how the function ends.  The name the thread
    has meanwhile and afterwards, and the object. *)
Inductive ending := Finishes | ThrowsException | ThrowsStd | ThrowsOther.

Definition runInThread (tid : Z) (alive : bool) (func_ : ending) (th : t) : outcome (bytes * bytes * t) :=
  let th' := if alive then mk (started_ th) (joined_ th) (pthreadId_ th) tid (name_ th) else th in
  let t_threadName := match name_ th with [] => lit "mudoThread" | n => n end in
  match func_ with
  | Finishes => Ret (t_threadName, lit "finished", th')
  | _ => Crash Thrown                      (* abort(), or the exception leaves the thread *)
  end.

(** [sleepUsec]: the seconds and nanoseconds to sleep. *)
Definition kMicroSecondsPerSecond : Z := 1000 * 1000.
Definition sleepUsec (usec : Z) : outcome (Z * Z) :=
  nsec ← i64 (Z.rem usec kMicroSecondsPerSecond * 1000); Ret (Z.quot usec kMicroSecondsPerSecond, nsec).

Lemma sleepUsec_ok usec : 0 <= usec < 2 ^ 63 -> returns (sleepUsec usec) (fun '(s, ns) => 0 <= ns < 10 ^ 9 /\ s * 10 ^ 6 + ns / 1000 = usec).
Proof.
  intros H. unfold sleepUsec. change kMicroSecondsPerSecond with 1000000. rewrite Z.rem_mod_nonneg, Z.quot_div_nonneg by lia.
  pose proof (Z.mod_pos_bound usec 1000000 ltac:(lia)). pose proof (Z.div_mod usec 1000000 ltac:(lia)). rewrite i64_bind by lia. cbn [returns].
  rewrite Z.div_mul by lia. lia.
Qed.

(** ** The life of a thread *)

Inductive call := Start (id : Z) | Join.

Definition make_call (c : call) (st : t * system) : outcome (t * system) :=
  match c with Start id => start (Some id) st.1 st.2 | Join => join st.1 st.2 end.

Fixpoint calls (l : list call) (st : t * system) : outcome (t * system) :=
  match l with [] => Ret st | c :: l' => st1 ← make_call c st; calls l' st1 end.

(** The calls that are allowed. *)
Definition allowed (l : list call) : bool :=
  match l with [] | [Start _] | [Start _; Join] => true | _ => false end.

Definition life (l : list call) (name : bytes) (sys : system) : outcome system :=
  '(th, _) ← Thread 0 name; '(th', sys') ← calls l (th, sys); destroy th' sys'.

(** A thread object that is used as it is meant to be releases the thread it created once: it
    is joined, or detached when the object is destroyed; other threads are untouched.  Any other
    sequence of calls fails an assertion: starting twice, joining before starting, joining
    twice. *)
Theorem thread_released l name sys :
  if allowed l then
    life l name sys = Ret (match l with [] => sys | [Start id] => <[id := Detached]> sys | Start id :: _ => <[id := Joined]> sys | _ => sys end)
  else life l name sys = Crash AssertFailed.
Proof.
  unfold life, Thread, setDefaultName. change (Atomic.incrementAndGet 0) with (Ret (1, 1)). rewrite !bind_Ret.
  set (nm := match name with [] => _ | _ => name end). clearbody nm.
  destruct l as [|[id|] l]; cbn [allowed calls make_call fst snd]; [done | | done].
  unfold start. cbn [started_ negb check joined_ tid_ name_]. rewrite !bind_Ret. destruct l as [|[id'|] l]; cbn [allowed calls make_call fst snd].
  - rewrite bind_Ret. unfold destroy, release. cbn [started_ joined_ negb andb pthreadId_]. rewrite lookup_insert_eq. by rewrite insert_insert_eq.
  - done.
  - unfold join. cbn [started_ negb check joined_ tid_ name_ pthreadId_]. rewrite !bind_Ret.
    assert (Er : release id Joined (<[id := Attached]> sys) = Ret (<[id := Joined]> sys)) by (unfold release; by rewrite lookup_insert_eq, insert_insert_eq).
    rewrite Er, !bind_Ret. by destruct l as [|[id'|] l].
Qed.

(** Threads that were not named get different names. *)
Fixpoint make_threads (n : nat) (numCreated_ : Atomic.t) : outcome (list bytes) :=
  match n with
  | O => Ret []
  | S n' => '(th, c) ← Thread numCreated_ []; names ← make_threads n' c; Ret (name_ th :: names)
  end.

Lemma default_names n : forall c, 0 <= c -> c + Z.of_nat n < 2 ^ 31 -> make_threads n c = Ret (map (fun i => lit "Thread" ++ show i) (seqZ (c + 1) (Z.of_nat n))).
Proof.
  induction n as [|n IH]; intros c Hc Hn; cbn [make_threads]; [done |].
  unfold Thread, setDefaultName, Atomic.incrementAndGet, Atomic.addAndGet, Atomic.getAndAdd. rewrite i32_ok, !bind_Ret, s32_id, IH, bind_Ret by lia. cbn [name_].
  rewrite (seqZ_cons (c + 1)) by lia. replace (Z.succ (c + 1)) with (c + 1 + 1) by lia. replace (Z.pred (Z.of_nat (S n))) with (Z.of_nat n) by lia. cbn [map].
  do 2 f_equal. unfold snprintf. apply take_ge. rewrite length_app. 
  assert (zlen (show (c + 1)) <= 11).
  { unfold show. rewrite (proj2 (Z.ltb_ge (c + 1) 0)) by lia. pose proof (zlen_show_nonneg (c + 1) 10 ltac:(lia) ltac:(lia)). lia. }
  unfold zlen in *. cbn [lit length]. change (length (lit "Thread")) with 6%nat. lia.
Qed.

End Thread.
