(* ===== verification/Chat.v ===== *)
(** * excercises/chatServer/server_threaded.cc: the chat server

    The handlers of [ChatServer].  MySQL, Redis and the generated message classes are not part
    of the repository: they are classes of operations ([UserTable], [Redis], [PMessageFormat])
    with the laws of their documentation.  A connection is a number; what the codec sends to it
    is a list of messages, and nothing reaches a closed connection ([TcpConnection::send]).
    Replies of Redis are allocated and freed; freeing one that is not allocated stops the
    program. *)

From S2P Require Import Prelude TimeZone.

(** ** What the server is built on *)

(** The table [userinfo] behind a connection to MySQL. *)
Class UserTable (D : Type) := {
  ut_insert : bytes -> bytes -> D -> D * Z;             (* the row, and last_insert_id() *)
  ut_password : Z -> D -> option bytes;                 (* the first row, if any *)
  ut_set_status : Z -> Z -> D -> D;
  (* an INSERT adds a row with a new id, or fails, with an undefined last_insert_id() *)
  ut_insert_ok name passwd d : let '(d', id) := ut_insert name passwd d in
    (forall k, ut_password k d' = ut_password k d) \/
    (0 < id /\ ut_password id d = None /\ ut_password id d' = Some passwd /\
     forall k, k <> id -> ut_password k d' = ut_password k d);
  ut_status_keeps k v id d : ut_password id (ut_set_status k v d) = ut_password id d
}.

(** Redis lists; a command on a lost connection answers NULL and does nothing. *)
Class Redis (R : Type) := {
  rd_up : R -> bool;
  rd_list : Z -> R -> list bytes;
  rd_llen : Z -> R -> option Z;
  rd_lrange : Z -> Z -> Z -> R -> option (list bytes);
  rd_lpush : Z -> bytes -> R -> R * option Z;
  rd_llen_ok k r : rd_llen k r = if rd_up r then Some (zlen (rd_list k r)) else None;
  rd_lrange_ok k i r : 0 <= i ->
    rd_lrange k i (-1) r = if rd_up r then Some (drop (Z.to_nat i) (rd_list k r)) else None;
  rd_lpush_ok k b r : let '(r', o) := rd_lpush k b r in
    rd_up r' = rd_up r /\
    (forall k', rd_list k' r' = if rd_up r && (k' =? k) then b :: rd_list k' r else rd_list k' r) /\
    (is_Some o <-> rd_up r = true)
}.

(** [im::PMessage]. *)
Record PMessage := pmessage { p_uid : Z; p_peerid : Z; p_content : bytes }.

Class PMessageFormat := {
  SerializeToArray : PMessage -> bytes;
  ParseFromArray : bytes -> PMessage;
  parse_serialize m : ParseFromArray (SerializeToArray m) = m
}.

(** ** The server *)
Module ChatServer.

Inductive UserStaus := Offline | Away | Idle | Online | Busy.
Definition status_number (s : UserStaus) : Z :=
  match s with Offline => 0 | Away => 1 | Idle => 2 | Online => 3 | Busy => 4 end.

Inductive message := MSuccess (uid : Z) | MPMessage (m : PMessage) | MGMessage (gid : Z) (content : bytes).

Section server.
Context {D R : Type} {users : UserTable D} {store : Redis R} {format : PMessageFormat}.

(** [userconnections_] holds null pointers where [operator[]] made an entry;
    [groupconnections_] is a multimap, in the order of its iteration.  [live] are the replies
    allocated and not freed. *)
Record t := mk {
  userconnections_ : gmap Z (option Z);
  groupconnections_ : list (Z * Z);
  lastestRecord_ : gmap Z Z;
  mysql_ : D;
  redis_ : R;
  sent : list (Z * message);
  closed : gset Z;
  next_reply : Z;
  live : gset Z
}.

Definition ChatServer (d : D) (r : R) : t := mk ∅ [] ∅ d r [] ∅ 0 ∅.

Definition set_users u (s : t) : t := mk u (groupconnections_ s) (lastestRecord_ s) (mysql_ s) (redis_ s) (sent s) (closed s) (next_reply s) (live s).
Definition set_groups g (s : t) : t := mk (userconnections_ s) g (lastestRecord_ s) (mysql_ s) (redis_ s) (sent s) (closed s) (next_reply s) (live s).
Definition set_record l (s : t) : t := mk (userconnections_ s) (groupconnections_ s) l (mysql_ s) (redis_ s) (sent s) (closed s) (next_reply s) (live s).
Definition set_mysql d (s : t) : t := mk (userconnections_ s) (groupconnections_ s) (lastestRecord_ s) d (redis_ s) (sent s) (closed s) (next_reply s) (live s).
Definition set_redis r (s : t) : t := mk (userconnections_ s) (groupconnections_ s) (lastestRecord_ s) (mysql_ s) r (sent s) (closed s) (next_reply s) (live s).
Definition set_sent l (s : t) : t := mk (userconnections_ s) (groupconnections_ s) (lastestRecord_ s) (mysql_ s) (redis_ s) l (closed s) (next_reply s) (live s).
Definition set_closed c (s : t) : t := mk (userconnections_ s) (groupconnections_ s) (lastestRecord_ s) (mysql_ s) (redis_ s) (sent s) c (next_reply s) (live s).
Definition set_replies n l (s : t) : t := mk (userconnections_ s) (groupconnections_ s) (lastestRecord_ s) (mysql_ s) (redis_ s) (sent s) (closed s) n l.

(** [codec_.send]. *)
Definition send (conn : Z) (m : message) (s : t) : t :=
  if bool_decide (conn ∈ closed s) then s else set_sent (sent s ++ [(conn, m)]) s.

(** A reply object, if Redis answered. *)
Definition alloc_reply {A} (answer : option A) (s : t) : option (Z * A) * t :=
  match answer with
  | Some a => (Some (next_reply s, a), set_replies (next_reply s + 1) ({[ next_reply s ]} ∪ live s) s)
  | None => (None, s)
  end.

Definition freeReplyObject (p : Z) (s : t) : outcome t :=
  if bool_decide (p ∈ live s) then Ret (set_replies (next_reply s) (live s ∖ {[ p ]}) s) else Crash UseAfterFree.

(** [map[key]]: the value, made by default if it was not there. *)
Definition user_at (uid : Z) (s : t) : option Z * t :=
  match userconnections_ s !! uid with
  | Some c => (c, s)
  | None => (None, set_users (<[uid := None]> (userconnections_ s)) s)
  end.
Definition record_at (uid : Z) (s : t) : Z * t :=
  match lastestRecord_ s !! uid with
  | Some n => (n, s)
  | None => (0, set_record (<[uid := 0]> (lastestRecord_ s)) s)
  end.

(** [map.insert]: nothing if the key is there. *)
Definition insert_new {A} (k : Z) (v : A) (m : gmap Z A) : gmap Z A :=
  match m !! k with Some _ => m | None => <[k := v]> m end.

(** [atoi] of a number that is not an [int] is undefined. *)
Definition onSignUp (conn : Z) (name passwd : bytes) (s : t) : outcome t :=
  let '(d, str) := ut_insert (TimeZone.c_string name) (TimeZone.c_string passwd) (mysql_ s) in
  let s1 := set_mysql d s in
  id ← i32 str;
  let s2 := set_users (insert_new id (Some conn) (userconnections_ s1)) s1 in
  let s3 := set_record (insert_new id 0 (lastestRecord_ s2)) s2 in
  Ret (send conn (MSuccess id) s3).

(** The loop over [reply1->element]. *)
Fixpoint send_elements (count : nat) (i : Z) (conn : Z) (elements : list bytes) (s : t) : outcome t :=
  match count with
  | O => Ret s
  | S n =>
      match elements !! Z.to_nat i with
      | None => Crash OutOfRange
      | Some e => send_elements n (i + 1) conn elements (send conn (MPMessage (ParseFromArray e)) s)
      end
  end.

(** [onLogin] after the password was found right, up to the end of the loop: the status, the two
    commands and the messages sent.  The answer is the reply of LLEN, which was freed, and
    whether LRANGE had one. *)
Definition send_missed (conn uid : Z) (s : t) : outcome (Z * bool * t) :=
  let s1 := set_mysql (ut_set_status uid (status_number Online) (mysql_ s)) s in
  let '(lastestIndex, s2) := record_at uid s1 in
  let '(reply, s3) := alloc_reply (rd_llen uid (redis_ s2)) s2 in
  match reply with
  | None => Crash NullPointer
  | Some (p, currentIndex) =>
      s4 ← freeReplyObject p s3;
      let '(reply1, s5) := alloc_reply (rd_lrange uid lastestIndex (-1) (redis_ s4)) s4 in
      match reply1 with
      | Some (_, elements) =>
          s6 ← send_elements (Z.to_nat (currentIndex - lastestIndex)) 0 conn elements s5; Ret (p, true, s6)
      | None => Ret (p, false, s5)
      end
  end.

(** The end of [onLogin] frees [reply] where [reply1] is meant. *)
Definition onLogin (conn : Z) (uid : Z) (passwd : bytes) (s : t) : outcome t :=
  match ut_password uid (mysql_ s) with
  | None => Crash NullPointer
  | Some pwd =>
      if bool_decide (pwd = passwd) then
        '(reply, answered, s1) ← send_missed conn uid s;
        s2 ← (if answered : bool then freeReplyObject reply s1 else Ret s1);
        Ret (set_users (<[uid := Some conn]> (userconnections_ s2)) s2)
      else Ret s
  end.

Definition onQuit (uid : Z) (s : t) : outcome t :=
  let s1 := set_mysql (ut_set_status uid (status_number Offline) (mysql_ s)) s in
  let '(reply, s2) := alloc_reply (rd_llen uid (redis_ s1)) s1 in
  match reply with
  | Some (p, n) => freeReplyObject p (set_record (<[uid := n]> (lastestRecord_ s2)) s2)
  | None => Ret s2
  end.

Definition onPMessage (conn : Z) (m : PMessage) (s : t) : outcome t :=
  let '(c, s1) := user_at (p_peerid m) s in
  let s2 := match c with
            | Some peercon => send conn (MSuccess (p_uid m)) (send peercon (MPMessage m) s1)
            | None => s1
            end in
  let '(r, answer) := rd_lpush (p_peerid m) (SerializeToArray m) (redis_ s2) in
  let '(reply, s3) := alloc_reply answer (set_redis r s2) in
  match reply with Some (p, _) => freeReplyObject p s3 | None => Ret s3 end.

Definition onGMessage (gid : Z) (content : bytes) (s : t) : t :=
  fold_left (fun s' entry => send entry.2 (MGMessage gid content) s') (groupconnections_ s) s.

Definition onCreateGroup (conn gid : Z) (s : t) : t := set_groups (groupconnections_ s ++ [(gid, conn)]) s.
Definition onAddGroup (conn gid : Z) (s : t) : t := set_groups (groupconnections_ s ++ [(gid, conn)]) s.

(** [onConnection] only logs; a closed connection is one that cannot send. *)
Definition onConnection (connected : bool) (conn : Z) (s : t) : t :=
  if connected then s else set_closed ({[ conn ]} ∪ closed s) s.

(** ** Runs *)

Inductive event :=
| SignUp (conn : Z) (name passwd : bytes)
| Login (conn uid : Z) (passwd : bytes)
| Quit (uid : Z)
| Private (conn : Z) (m : PMessage)
| Group (gid : Z) (content : bytes)
| CreateGroup (conn gid : Z)
| AddGroup (conn gid : Z)
| Connection (connected : bool) (conn : Z).

Definition handle (e : event) (s : t) : outcome t :=
  match e with
  | SignUp conn name passwd => onSignUp conn name passwd s
  | Login conn uid passwd => onLogin conn uid passwd s
  | Quit uid => onQuit uid s
  | Private conn m => onPMessage conn m s
  | Group gid content => Ret (onGMessage gid content s)
  | CreateGroup conn gid => Ret (onCreateGroup conn gid s)
  | AddGroup conn gid => Ret (onAddGroup conn gid s)
  | Connection connected conn => Ret (onConnection connected conn s)
  end.

Fixpoint handle_all (l : list event) (s : t) : outcome t :=
  match l with [] => Ret s | e :: l' => s1 ← handle e s; handle_all l' s1 end.


(** ** What users can expect *)
























End server.


(** *** Concrete services *)

(** A table with its next id, and Redis as a map of lists. *)
Definition demo_table : Type := gmap Z bytes * Z.

#[export] Program Instance demo_users : UserTable demo_table := {
  ut_insert name passwd d :=
    if bool_decide (0 < d.2 /\ d.1 !! d.2 = None) then ((<[d.2 := passwd]> d.1, d.2 + 1), d.2) else (d, 0);
  ut_password id d := d.1 !! id;
  ut_set_status k v d := d
}.
Next Obligation.
  intros name passwd [m n]. cbn. case_bool_decide as H; [right|by left]. destruct H as [H0 Hn].
  split_and!; cbn; [done|done|apply lookup_insert_eq|intros; by apply lookup_insert_ne].
Qed.
Next Obligation. done. Qed.

#[export] Program Instance demo_redis : Redis (gmap Z (list bytes)) := {
  rd_up r := true;
  rd_list k r := default [] (r !! k);
  rd_llen k r := Some (zlen (default [] (r !! k)));
  rd_lrange k i j r := Some (drop (Z.to_nat i) (default [] (r !! k)));
  rd_lpush k b r := (<[k := b :: default [] (r !! k)]> r, Some (zlen (default [] (r !! k)) + 1))
}.
Next Obligation. done. Qed.
Next Obligation. done. Qed.
Next Obligation.
  intros k b r. cbn. split; [done|]. split; [|split; [done|by eexists]]. intros k'. destruct (Z.eqb_spec k' k) as [->|].
  - by rewrite lookup_insert_eq.
  - by rewrite lookup_insert_ne.
Qed.

(** A number as a sign and as many bytes, ended by a zero. *)
Definition put_number (n : Z) : bytes := (if n <? 0 then x02 else x03) :: replicate (Z.abs_nat n) x01 ++ [x00].
Definition get_number (b : bytes) : Z * bytes :=
  match b with
  | sign :: b' =>
      match find_byte x00 b' with
      | Some n => ((if byte_eqb sign x02 then - Z.of_nat n else Z.of_nat n), drop (S n) b')
      | None => (0, [])
      end
  | [] => (0, [])
  end.

Lemma get_put_number n b : get_number (put_number n ++ b) = (n, b).
Proof.
  unfold put_number, get_number. cbn [app]. rewrite <- app_assoc. cbn [app]. rewrite find_byte_app.
  - rewrite length_replicate. f_equal.
    + destruct (n <? 0) eqn:E; bools; [change (byte_eqb x02 x02) with true|change (byte_eqb x03 x02) with false]; cbn iota; lia.
    + replace (S (Z.abs_nat n)) with (length (replicate (Z.abs_nat n) x01 ++ [x00])) by (rewrite length_app, length_replicate; cbn; lia).
      change (replicate (Z.abs_nat n) x01 ++ x00 :: b) with (replicate (Z.abs_nat n) x01 ++ [x00] ++ b).
      by rewrite app_assoc, drop_app_length.
  - intros [H _]%elem_of_replicate. done.
Qed.

#[export] Program Instance demo_format : PMessageFormat := {
  SerializeToArray m := put_number (p_uid m) ++ put_number (p_peerid m) ++ p_content m;
  ParseFromArray b := let '(uid, b1) := get_number b in let '(peer, b2) := get_number b1 in pmessage uid peer b2
}.
Next Obligation. intros [uid peer c]. cbn -[put_number get_number]. by rewrite !get_put_number. Qed.

Definition demo_events : list event :=
  [SignUp 10 (lit "ann") (lit "a"); SignUp 11 (lit "bob") (lit "b"); Private 10 (pmessage 1 2 (lit "one")); Quit 2; Connection false 11;
   Private 10 (pmessage 1 2 (lit "two")); Private 10 (pmessage 1 2 (lit "three"))].

Definition demo_server : @t demo_table (gmap Z (list bytes)) := ChatServer (∅, 1) ∅.


(** The messages Bob missed are "two" and "three"; logging in again he gets "two" and "one". *)
Lemma login_sends_the_oldest :
  (s ← handle_all demo_events demo_server; '(_, _, s') ← send_missed 12 2 s; Ret (drop (length (sent s)) (sent s'))) =
  Ret [(12, MPMessage (pmessage 1 2 (lit "two"))); (12, MPMessage (pmessage 1 2 (lit "one")))].
Proof. vm_compute. reflexivity. Qed.

(** To the sender the lost messages look delivered: the connection stays in the map. *)
Lemma success_for_a_closed_connection :
  (s ← handle_all demo_events demo_server; Ret (drop 4 (sent s))) = Ret [(10, MSuccess 1); (10, MSuccess 1)].
Proof. vm_compute. reflexivity. Qed.

(** A login under an id there is not takes the server down. *)
Lemma unknown_user_crashes : onLogin 10 99 (lit "x") demo_server = Crash NullPointer.
Proof. reflexivity. Qed.

(** A message to an id that is not taken yet leaves a null connection behind, which the sign-up
    of that id does not replace: the new user is not reached. *)
Lemma early_message_hides_user :
  (s ← handle_all [SignUp 10 (lit "ann") (lit "a"); Private 10 (pmessage 1 2 (lit "hi")); SignUp 11 (lit "bob") (lit "b")] demo_server;
   Ret (userconnections_ s !! 2)) = Ret (Some None).
Proof. vm_compute. reflexivity. Qed.

(** A message to one group goes to the members of every group. *)
Lemma group_message_ignores_group :
  (s ← handle_all [CreateGroup 10 1; AddGroup 11 1; CreateGroup 12 2; Group 2 (lit "hi")] demo_server; Ret (map fst (sent s))) =
  Ret [10; 11; 12].
Proof. vm_compute. reflexivity. Qed.

End ChatServer.
