(* ===== verification/Mysql.v ===== *)
(** * excercises/chatServer/mysql_connection.h and .cc: the wrapper of libmysqlclient

    The library is a parameter: it answers the calls, and it counts the handle and the results
    it has given out, so that using one that was not initialised or freed is visible. *)

From S2P Require Import Prelude Format.

Module Mysql.

(** ** have_escape_char *)

Definition db_escaped_table : list Z :=
  replicate 36 1 ++ [0; 1; 1; 1] ++ replicate 20 0 ++ [1; 0; 1] ++ replicate 65 0 ++ replicate 128 0.

(** The loop from [i]; [data[i]] is a signed [char]. *)
Fixpoint escape_loop (data : bytes) (n : nat) (i : Z) : outcome bool :=
  match n with
  | O => Ret false
  | S n' =>
      c ← load i 1 data;
      let v := match c with [b] => if b2Z b <? 128 then b2Z b else b2Z b - 256 | _ => 0 end in
      if (0 <=? v) && (nth (Z.to_nat v) db_escaped_table 0 =? 1) then Ret true else escape_loop data n' (i + 1)
  end.

Definition have_escape_char (data : bytes) (size : Z) : outcome bool := escape_loop data (Z.to_nat size) 0.

(** ** The library *)

Inductive handle := Raw | Initialised | Connected | Closed.

(** Results are numbered; [live] has those that were not freed. *)
Record library := mklib { the_handle : handle; live : gset Z }.

Definition usable (h : handle) : bool := match h with Initialised | Connected => true | _ => false end.

Definition mysql_free_result (id : Z) (l : library) : outcome library :=
  if decide (id ∈ live l) then Ret (mklib (the_handle l) (live l ∖ {[id]})) else Crash UseAfterFree.

Definition mysql_close (l : library) : outcome library :=
  if usable (the_handle l) then Ret (mklib Closed (live l)) else Crash UseAfterFree.

(** A call that needs a handle. *)
Definition with_handle {A} (a : A) (l : library) : outcome A := if usable (the_handle l) then Ret a else Crash UseAfterFree.

(** ** The class *)

Record t := mk { m_result : option Z; m_connected : Z }.

Definition MysqlConnection : t := mk None 0.

Definition state : Type := t * library.

(** [init]: whether [mysql_real_connect] succeeds. *)
Definition init (connects : bool) (st : state) : Z * state :=
  let '(c, l) := st in
  ((if connects then 0 else -1), (mk (m_result c) 1, mklib (if connects then Connected else Initialised) (live l))).

Definition free_result (st : state) : outcome state :=
  let '(c, l) := st in
  match m_result c with
  | Some id => l' ← mysql_free_result id l; Ret (mk None (m_connected c), l')
  | None => Ret (c, l)
  end.

Definition fini (st : state) : outcome state :=
  if m_connected st.1 =? 0 then
    '(c1, l1) ← free_result st;
    l2 ← mysql_close l1;
    Ret (mk (m_result c1) 0, l2)
  else Ret st.

Definition destroy (st : state) : outcome state := fini st.

(** [use], [set_charset] and [ping]: the library answers [r]. *)
Definition guarded (r : Z) (st : state) : outcome Z := if m_connected st.1 =? 0 then Ret (-1) else with_handle r st.2.
Definition use := guarded.
Definition set_charset := guarded.
Definition ping := guarded.

(** What the library does with a statement: whether it fails, the result it stores (a new one)
    and the number of fields. *)
Record answer := Answer { query : Z; stored : option Z; field_count : Z }.

Definition exec (a : answer) (st : state) : outcome (Z * state) :=
  let '(c, l) := st in
  if m_connected c =? 0 then Ret (-1, st)
  else
    q ← with_handle (query a) l;
    if negb (q =? 0) then Ret (-1, st)
    else
      let l1 := match stored a with Some id => mklib (the_handle l) ({[id]} ∪ live l) | None => l end in
      if bool_decide (stored a = None) && negb (field_count a =? 0) then Ret (-1, (c, l1))
      else
        l2 ← match m_result c with Some id => mysql_free_result id l1 | None => Ret l1 end;
        Ret (0, (mk (stored a) (m_connected c), l2)).

(** [exec_format]: [text] is the statement with its arguments; what is executed. *)
Definition exec_format (text : bytes) (answers : bytes -> answer) (st : state) : outcome (Z * state) :=
  if zlen text <? 1 then Ret (-1, st) else exec (answers (snprintf 4094 text)) st.

(** [result_row_count] and [result_field_count]: the library's answer [r]; [result_row_data]: a
    row of the result. *)
Definition of_result {A} (null r : A) (st : state) : outcome A :=
  match m_result st.1 with
  | Some id => if decide (id ∈ live st.2) then Ret r else Crash UseAfterFree
  | None => Ret null
  end.
Definition result_row_count (r : Z) (st : state) : outcome Z := of_result 0 r st.
Definition result_field_count (r : Z) (st : state) : outcome Z := of_result 0 r st.
Definition result_row_data (r : option (list bytes)) (st : state) : outcome (option (list bytes)) := of_result None r st.

(** ** Which characters are found *)

Definition special (b : byte) : bool :=
  let v := b2Z b in (v <=? 35) || ((37 <=? v) && (v <=? 39)) || (v =? 60) || (v =? 62).

Lemma table_special b : (let v := if b2Z b <? 128 then b2Z b else b2Z b - 256 in (0 <=? v) && (nth (Z.to_nat v) db_escaped_table 0 =? 1)) = special b.
Proof. destruct b; reflexivity. Qed.

Lemma escape_loop_ok n data : forall i, 0 <= i -> i + Z.of_nat n = zlen data -> escape_loop data n i = Ret (existsb special (drop (Z.to_nat i) data)).
Proof.
  induction n as [|n IH]; intros i Hi Hn; cbn [escape_loop].
  - by rewrite drop_ge by (unfold zlen in Hn; lia).
  - rewrite load_ok by lia. rewrite bind_Ret. unfold slice. destruct (drop (Z.to_nat i) data) as [|b rest] eqn:E.
    { apply (f_equal length) in E. rewrite length_drop in E. unfold zlen in Hn. cbn in E. lia. }
    change (take (Z.to_nat 1) (b :: rest)) with [b]. cbn [existsb]. rewrite table_special. destruct (special b); [done |]. cbn [orb].
    rewrite IH by lia. replace (Z.to_nat (i + 1)) with (Z.to_nat i + 1)%nat by lia. by rewrite <-drop_drop, E.
Qed.

(** Control characters, blanks, both quotes, [!], [#], [%], [&], [<] and [>] are found, in a
    text of any length. *)
Lemma have_escape_char_ok data : have_escape_char data (zlen data) = Ret (existsb special data).
Proof. unfold have_escape_char. rewrite escape_loop_ok by (pose proof (zlen_nonneg data); lia). done. Qed.

(** The backslash is not, although it escapes a quote that follows it. *)
Lemma backslash_not_found : have_escape_char (lit "\") 1 = Ret false.
Proof. reflexivity. Qed.

(** ** Results *)

(** The result the object has is the only live one. *)
Record wf (st : state) : Prop := {
  wf_live : live st.2 = match m_result st.1 with Some id => {[id]} | None => ∅ end;
  wf_handle : m_connected st.1 <> 0 -> usable (the_handle st.2) = true;
  wf_raw : m_connected st.1 = 0 -> m_result st.1 = None
}.

Inductive call :=
| Init (connects : bool)
| Use (r : Z)
| Exec (a : answer)
| ExecFormat (text : bytes) (a : answer)
| FreeResult
| RowCount (r : Z)
| RowData (r : option (list bytes)).

Definition perform (k : call) (st : state) : outcome state :=
  match k with
  | Init connects => Ret (init connects st).2
  | Use r => _ ← use r st; Ret st
  | Exec a => '(_, st') ← exec a st; Ret st'
  | ExecFormat text a => '(_, st') ← exec_format text (fun _ => a) st; Ret st'
  | FreeResult => free_result st
  | RowCount r => _ ← result_row_count r st; Ret st
  | RowData r => _ ← result_row_data r st; Ret st
  end.

(** The library numbers results that are live differently. *)
Definition fresh (k : call) (st : state) : Prop :=
  match k with Exec a | ExecFormat _ a => forall id, stored a = Some id -> id ∉ live st.2 | _ => True end.

Lemma exec_ok a st : wf st -> (forall id, stored a = Some id -> id ∉ live st.2) -> returns (exec a st) (fun '(_, st') => wf st').
Proof.
  destruct st as [c l]. intros [Hl Hh Hr] Hf. cbn [fst snd] in *. unfold exec. destruct (m_connected c =? 0) eqn:E; bools; [by split |].
  unfold with_handle. rewrite Hh by done. rewrite bind_Ret. destruct (query a =? 0); cbn [negb]; [|by split].
  destruct (stored a) as [id|] eqn:Es.
  - rewrite bool_decide_eq_false_2 by done. cbn [andb]. specialize (Hf id eq_refl).
    destruct (m_result c) as [old|]; [|split; cbn; [set_solver | done | done]].
    unfold mysql_free_result. cbn [live the_handle]. rewrite decide_True by set_solver. rewrite bind_Ret. split; cbn; [set_solver | done | done].
  - rewrite bool_decide_eq_true_2 by done. cbn [andb]. destruct (field_count a =? 0); cbn [negb]; [|by split].
    destruct (m_result c) as [old|]; [|by split].
    unfold mysql_free_result. rewrite decide_True by set_solver. rewrite bind_Ret. split; cbn; [set_solver | done | done].
Qed.

Lemma perform_ok k st : wf st -> fresh k st -> returns (perform k st) wf.
Proof.
  intros W Hf. destruct k as [connects|r|a|text a| |r|r]; cbn [perform fresh] in *.
  - destruct st as [c l], W as [Hl Hh Hr]. cbn [init fst snd] in *. split; cbn; [done | by destruct connects | done].
  - unfold use, guarded, with_handle. destruct (m_connected st.1 =? 0) eqn:E; bools; [done |]. by rewrite (wf_handle _ W).
  - eapply returns_seq; [by apply exec_ok |]. by intros [r st'].
  - unfold exec_format. destruct (_ <? _); [done |]. eapply returns_seq; [by apply exec_ok |]. by intros [r st'].
  - destruct st as [c l], W as [Hl Hh Hr]. cbn [free_result fst snd] in *. destruct (m_result c) as [id|] eqn:E; [|split; cbn; by rewrite ?E].
    unfold mysql_free_result. rewrite decide_True by set_solver. rewrite bind_Ret. split; cbn; [set_solver | done | done].
  - unfold result_row_count, of_result. destruct W as [Hl Hh Hr] eqn:EW. clear EW. destruct (m_result st.1) as [id|] eqn:E; [|by split; rewrite ?E].
    rewrite decide_True by set_solver. split; by rewrite ?E.
  - unfold result_row_data, of_result. destruct W as [Hl Hh Hr] eqn:EW. clear EW. destruct (m_result st.1) as [id|] eqn:E; [|by split; rewrite ?E].
    rewrite decide_True by set_solver. split; by rewrite ?E.
Qed.

(** Any sequence of calls, with the answers of the library chosen as they come. *)
Inductive runs : list call -> state -> Prop :=
| runs_nil : runs [] (MysqlConnection, mklib Raw ∅)
| runs_snoc ks k st st' : runs ks st -> fresh k st -> perform k st = Ret st' -> runs (ks ++ [k]) st'.

(** However the object is used, short of destroying it, and whatever the library answers, every
    call returns: no result is used or freed after it was freed, none is lost, and the library
    is only called with an initialised handle. *)
Theorem mysql_results ks st k : runs ks st -> fresh k st ->
  live st.2 = match m_result st.1 with Some id => {[id]} | None => ∅ end /\ returns (perform k st) (fun st' => runs (ks ++ [k]) st').
Proof.
  intros R. assert (W : wf st).
  { induction R as [|ks k' st st' _ IH Hf E]; [by split |]. pose proof (perform_ok k' st IH Hf) as H. by rewrite E in H. }
  intros Hf. split; [apply W |]. pose proof (perform_ok k st W Hf) as H. destruct (perform k st) as [st'|] eqn:E; [|done]. cbn. by apply (runs_snoc ks k st).
Qed.

Lemma mysql_results_witness : exists st, runs [Init true; Exec (Answer 0 (Some 1) 2)] st /\
  live st.2 = match m_result st.1 with Some id => {[id]} | None => ∅ end /\
  returns (perform (Exec (Answer 0 (Some 2) 2)) st) (fun st' => runs ([Init true; Exec (Answer 0 (Some 1) 2)] ++ [Exec (Answer 0 (Some 2) 2)]) st').
Proof.
  eexists. assert (R : runs [Init true; Exec (Answer 0 (Some 1) 2)] (mk (Some 1) 1, mklib Connected ({[1]} ∪ ∅))).
  { apply (runs_snoc [Init true] _ (mk None 1, mklib Connected ∅)); [apply (runs_snoc [] _ _ _ runs_nil); [exact I | reflexivity] | cbn; set_solver | reflexivity]. }
  split; [exact R |]. apply (mysql_results _ _ (Exec (Answer 0 (Some 2) 2)) R). cbn. intros id [= <-]. set_solver.
Defined.

(** [fini] tests [m_connected] the wrong way round.  The destructor of an object that was used
    frees nothing, *)
Lemma destroy_leaks : destroy (mk (Some 1) 1, mklib Connected {[1]}) = Ret (mk (Some 1) 1, mklib Connected {[1]}).
Proof. reflexivity. Qed.

(** and that of an object that was not closes a handle that was never initialised. *)
Lemma destroy_unused : destroy (MysqlConnection, mklib Raw ∅) = Crash UseAfterFree.
Proof. reflexivity. Qed.

(** A failed [init] counts as connected. *)
Lemma init_failed_connected st : exists st', init false st = (-1, st') /\ m_connected st'.1 = 1.
Proof. destruct st as [c l]. by eexists. Qed.

(** A statement of more than 4093 characters is cut and executed. *)
Lemma long_statement_cut text answers st : 4093 < zlen text -> exec_format text answers st = exec (answers (take (Z.to_nat 4093) text)) st.
Proof. intros H. unfold exec_format. rewrite (proj2 (Z.ltb_ge (zlen text) 1)) by lia. done. Qed.

End Mysql.
