(* ===== verification/SignUp.v ===== *)
(** * excercises/chatServer/sign_up.cc and test/permutation.h: signing up many users

    [permutation] makes the arrangements of a string by swapping characters in place and back
    again.  It is proved to answer every arrangement once and to leave the string as it was, so
    the 40000 users that sign_up.cc registers have different names. *)

From Stdlib Require Import Factorial.
From S2P Require Import Prelude TimeZone.

Module Permutation.

(** A C string of which the terminator is left out. *)
Definition at_ (s : bytes) (p : nat) : byte := nth p s x00.

(** [tmp = *p; *p = *pBegin; *pBegin = tmp;] *)
Definition swap (p pBegin : nat) (s : bytes) : bytes :=
  let tmp := at_ s p in
  let s1 := <[p := at_ s pBegin]> s in
  <[pBegin := tmp]> s1.

Section loop.
Variable help : nat -> bytes -> list bytes -> outcome (bytes * list bytes).

(** The loop over [p]. *)
Fixpoint loop (fuel : nat) (pBegin p : nat) (pStr : bytes) (result : list bytes) : outcome (bytes * list bytes) :=
  match fuel with
  | O => Crash OutOfFuel
  | S fuel' =>
      if byte_eqb (at_ pStr p) x00 then Ret (pStr, result)
      else
        '(pStr1, result1) ← help (pBegin + 1) (swap p pBegin pStr) result;
        loop fuel' pBegin (p + 1) (swap p pBegin pStr1) result1
  end.
End loop.

(** The string, and the result so far. *)
Fixpoint permutationHelp (fuel : nat) (pBegin : nat) (pStr : bytes) (result : list bytes) : outcome (bytes * list bytes) :=
  match fuel with
  | O => Crash OutOfFuel
  | S fuel' =>
      if byte_eqb (at_ pStr pBegin) x00 then Ret (pStr, result ++ [TimeZone.c_string pStr])
      else loop (permutationHelp fuel') (S (length pStr)) pBegin pBegin pStr result
  end.

(** [permutation]: the string afterwards and the result; [None] is a null pointer. *)
Definition permutation (pStr : option bytes) : outcome (option bytes * list bytes) :=
  match pStr with
  | None => Ret (None, [])
  | Some s => '(s', result) ← permutationHelp (S (length s)) 0 s []; Ret (Some s', result)
  end.

(** ** The swap *)

Lemma at_lookup s p : (p < length s)%nat -> s !! p = Some (at_ s p).
Proof. intros H. unfold at_. rewrite nth_lookup. destruct (lookup_lt_is_Some_2 s p H) as [x ->]. done. Qed.

Lemma swap_length p b s : length (swap p b s) = length s.
Proof. unfold swap. by rewrite !length_insert. Qed.

Lemma swap_lookup p b s i : (p < length s)%nat -> (b < length s)%nat ->
  swap p b s !! i = if decide (i = b) then s !! p else if decide (i = p) then s !! b else s !! i.
Proof.
  intros Hp Hb. unfold swap. destruct (decide (i = b)) as [->|Hne].
  - rewrite list_lookup_insert_eq by (by rewrite length_insert). by rewrite at_lookup.
  - rewrite list_lookup_insert_ne by done. destruct (decide (i = p)) as [->|Hne']; [rewrite list_lookup_insert_eq by done; by rewrite at_lookup | by rewrite list_lookup_insert_ne].
Qed.

Lemma swap_twice p b s : (p < length s)%nat -> (b < length s)%nat -> swap p b (swap p b s) = s.
Proof.
  intros Hp Hb. apply list_eq. intros i. rewrite swap_lookup by (by rewrite swap_length). rewrite !swap_lookup by done.
  repeat destruct (decide _); congruence.
Qed.

Lemma swap_permutes p b s : (p < length s)%nat -> (b < length s)%nat -> swap p b s ≡ₚ s.
Proof.
  intros Hp Hb. apply Permutation_inj. split; [apply swap_length |].
  exists (fun i => if decide (i = b) then p else if decide (i = p) then b else i). split.
  - intros i j. repeat destruct (decide _); congruence.
  - intros i. rewrite swap_lookup by done. by repeat destruct (decide _).
Qed.

Lemma swap_front p b s : (b <= p < length s)%nat -> take b (swap p b s) = take b s.
Proof. intros H. unfold swap. rewrite !take_insert_ge by lia. done. Qed.

(** ** The arrangements of [s] that keep its first [b] characters *)
Fixpoint arrangements (n : nat) (b : nat) (s : bytes) : list bytes :=
  match n with
  | O => [s]
  | S n' => seq b (length s - b) ≫= fun p => arrangements n' (b + 1) (swap p b s)
  end.

Lemma arrangements_sound n : forall b s t, (b + n = length s)%nat -> t ∈ arrangements n b s -> t ≡ₚ s /\ take b t = take b s.
Proof.
  induction n as [|n IH]; intros b s t Hl Ht; cbn in Ht; [by apply list_elem_of_singleton in Ht as -> |].
  apply list_elem_of_bind in Ht as (p & Ht & Hp%elem_of_seq). destruct (IH (b + 1)%nat (swap p b s) t ltac:(rewrite swap_length; lia) Ht) as [H1 H2].
  split; [etrans; [exact H1 | apply swap_permutes; lia] |].
  rewrite <-(swap_front p b s) by lia. apply (f_equal (take b)) in H2. rewrite !take_take in H2. by replace (b `min` (b + 1))%nat with b in H2 by lia.
Qed.

Lemma front_step b s t p : (b <= p < length s)%nat -> length t = length s -> take b t = take b s -> t !! b = s !! p ->
  take (b + 1) t = take (b + 1) (swap p b s).
Proof.
  intros Hp Hl Ht Hb. destruct (lookup_lt_is_Some_2 s p) as [x Hx]; [lia |]. rewrite Hx in Hb.
  replace (b + 1)%nat with (S b) by lia. rewrite (take_S_r t b x Hb), (take_S_r (swap p b s) b x); [by rewrite swap_front, Ht by lia |].
  rewrite swap_lookup by lia. by destruct (decide (b = b)).
Qed.

Lemma arrangements_complete n : forall b s t, (b + n = length s)%nat -> t ≡ₚ s -> take b t = take b s -> t ∈ arrangements n b s.
Proof.
  induction n as [|n IH]; intros b s t Hl Ht Hb; cbn.
  { apply list_elem_of_singleton. rewrite !take_ge in Hb by (rewrite ?Ht; lia). done. }
  assert (Hlt : length t = length s) by (by rewrite Ht). destruct (lookup_lt_is_Some_2 t b) as [x Hx]; [lia |].
  assert (Hd : drop b t ≡ₚ drop b s).
  { apply (Permutation_app_inv_l (take b s)). rewrite <-Hb at 1. by rewrite !take_drop. }
  assert (Hin : x ∈ drop b s). { rewrite <-Hd. apply list_elem_of_lookup. exists 0%nat. rewrite lookup_drop. by rewrite Nat.add_0_r. }
  apply list_elem_of_lookup in Hin as [j Hj]. rewrite lookup_drop in Hj. pose proof (lookup_lt_Some _ _ _ Hj) as Hlen.
  apply list_elem_of_bind. exists (b + j)%nat. split; [|apply elem_of_seq; lia]. apply IH.
  - rewrite swap_length. lia.
  - rewrite Ht. symmetry. apply swap_permutes; lia.
  - apply front_step; [lia | done | done | congruence].
Qed.

Lemma arrangements_number n : forall b s, (b + n = length s)%nat -> length (arrangements n b s) = fact n.
Proof.
  induction n as [|n IH]; intros b s Hl; [done |]. cbn [arrangements]. replace (length s - b)%nat with (S n) by lia.
  change (fact (S n)) with (S n * fact n)%nat. assert (Hb : forall ps, Forall (fun p => (p < length s)%nat) ps ->
    length (ps ≫= fun p => arrangements n (b + 1) (swap p b s)) = (length ps * fact n)%nat).
  { induction 1 as [|p ps Hp _ IHp]; [done |]. cbn. rewrite length_app, (IH (b + 1)%nat) by (rewrite swap_length; lia). by rewrite IHp. }
  rewrite Hb, length_seq; [done |]. apply list.Forall_forall. intros p Hp%elem_of_seq. lia.
Qed.

Lemma arrangements_distinct n : forall b s, (b + n = length s)%nat -> NoDup s -> NoDup (arrangements n b s).
Proof.
  induction n as [|n IH]; intros b s Hl Hs; cbn; [apply NoDup_singleton |]. apply NoDup_bind; [| |apply NoDup_seq].
  - intros p q t Hp%elem_of_seq Hq%elem_of_seq Ht1 Ht2. assert (Hat : forall r, (b <= r < length s)%nat -> t ∈ arrangements n (b + 1) (swap r b s) -> t !! b = s !! r).
    { intros r Hr Hin. destruct (arrangements_sound n (b + 1)%nat (swap r b s) t ltac:(rewrite swap_length; lia) Hin) as [_ H].
      apply (f_equal (.!! b)) in H. rewrite !lookup_take_lt in H by lia. rewrite H, swap_lookup by lia. by destruct (decide (b = b)). }
    pose proof (Hat p ltac:(lia) Ht1) as Ep. pose proof (Hat q ltac:(lia) Ht2) as Eq. destruct (lookup_lt_is_Some_2 s p) as [x Hx]; [lia |].
    apply (NoDup_lookup s p q x); congruence.
  - intros p Hp%elem_of_seq. apply IH; [rewrite swap_length; lia |]. rewrite swap_permutes by lia. done.
Qed.

(** ** The program makes these arrangements *)

Lemma at_end s p : x00 ∉ s -> byte_eqb (at_ s p) x00 = bool_decide (length s <= p)%nat.
Proof.
  intros Hs. case_bool_decide as H.
  - unfold at_. by rewrite nth_overflow.
  - destruct (byte_eqb (at_ s p) x00) eqn:E; [|done]. exfalso. apply Hs, list_elem_of_lookup. exists p. rewrite at_lookup by lia.
    f_equal. by apply Byte.byte_dec_bl.
Qed.

Lemma loop_ok n b k : forall fuel p s r, (p + k = length s)%nat -> (b <= p)%nat -> (b < length s)%nat -> (b + S n = length s)%nat -> (k < fuel)%nat -> x00 ∉ s ->
  (forall s' r', length s' = length s -> x00 ∉ s' -> permutationHelp (S n) (b + 1) s' r' = Ret (s', r' ++ arrangements n (b + 1) s')) ->
  loop (permutationHelp (S n)) fuel b p s r = Ret (s, r ++ (seq p k ≫= fun p => arrangements n (b + 1) (swap p b s))).
Proof.
  induction k as [|k IH]; intros fuel p s r Hl Hb Hb' Hn Hf Hs HH; (destruct fuel as [|fuel]; [lia |]); cbn [loop]; rewrite at_end by done.
  { rewrite bool_decide_eq_true_2 by lia. cbn. by rewrite app_nil_r. }
  rewrite bool_decide_eq_false_2 by lia. assert (Hsw : x00 ∉ swap p b s) by (rewrite swap_permutes by lia; done).
  rewrite HH, bind_Ret by (by rewrite ?swap_length). rewrite swap_twice by lia.
  rewrite (IH fuel (p + 1)%nat s) by (done || lia). cbn [seq mbind list_bind]. rewrite <-app_assoc. by replace (S p) with (p + 1)%nat by lia.
Qed.

Lemma help_ok n : forall b s r, (b + n = length s)%nat -> x00 ∉ s -> permutationHelp (S n) b s r = Ret (s, r ++ arrangements n b s).
Proof.
  induction n as [|n IH]; intros b s r Hl Hs.
  - cbn [permutationHelp]. rewrite at_end, bool_decide_eq_true_2 by (done || lia). cbn [arrangements].
    f_equal. f_equal. f_equal. f_equal. unfold TimeZone.c_string. by rewrite (proj2 (find_byte_None _ _)).
  - change (permutationHelp (S (S n)) b s r) with (if byte_eqb (at_ s b) x00 then Ret (s, r ++ [TimeZone.c_string s])
      else loop (permutationHelp (S n)) (S (length s)) b b s r).
    rewrite at_end, bool_decide_eq_false_2 by (done || lia). cbn [arrangements].
    apply (loop_ok n b (length s - b)); try done; try lia. intros s' r' Hl' Hs'. apply IH; [lia | done].
Qed.

(** C11. [permutation] answers the arrangements of the characters of a string and nothing else,
    as many as there are (n factorial), each once when the characters are different, and the
    string is as it was before. *)
Theorem permutation_all s : x00 ∉ s ->
  returns (permutation (Some s)) (fun '(s', l) => s' = Some s /\ (forall t, t ∈ l <-> t ≡ₚ s) /\ length l = fact (length s) /\ (NoDup s -> NoDup l)).
Proof.
  intros Hs. unfold permutation. rewrite (help_ok (length s) 0 s []), bind_Ret by done. cbn [returns app]. split_and!.
  - done.
  - intros t. split; [by intros [? _]%arrangements_sound | intros Ht; by apply arrangements_complete].
  - by apply arrangements_number.
  - by apply arrangements_distinct.
Qed.

Lemma permutation_all_witness :
  returns (permutation (Some (lit "abc"))) (fun '(s', l) =>
    s' = Some (lit "abc") /\ (forall t, t ∈ l <-> t ≡ₚ lit "abc") /\ length l = fact (length (lit "abc")) /\ (NoDup (lit "abc") -> NoDup l)).
Proof. apply (permutation_all (lit "abc")). apply find_byte_None. reflexivity. Defined.

Example permutation_abc : permutation (Some (lit "abc")) =
  Ret (Some (lit "abc"), [lit "abc"; lit "acb"; lit "bac"; lit "bca"; lit "cba"; lit "cab"]).
Proof. vm_compute. reflexivity. Qed.

End Permutation.

(** ** sign_up.cc *)
Module SignUp.
Import Permutation.

(** The [SignUp] message, name and password. *)
Definition sign (name : bytes) : bytes * bytes := (name, lit "123").

(** [main]: the messages it writes. *)
Definition main_ (username : bytes) : outcome (list (bytes * bytes)) :=
  '(_, result) ← permutation (Some username);
  match result with
  | [] => Crash OutOfRange                 (* result[0] is printed *)
  | _ => if 40000 <? zlen result then Ret (map sign (take (Z.to_nat 40000) result)) else Ret []
  end.

(** It signs up 40000 users with different names. *)
Lemma users_signed_up : returns (main_ (lit "abcdefgh")) (fun l =>
  zlen l = 40000 /\ NoDup (map fst l) /\ Forall (fun m => m.1 ≡ₚ lit "abcdefgh" /\ m.2 = lit "123") l).
Proof.
  unfold main_, permutation. change (S (length (lit "abcdefgh"))) with 9%nat. rewrite (help_ok 8 0 (lit "abcdefgh") []), !bind_Ret by (done || (apply find_byte_None; reflexivity)). cbn [app].
  pose proof (arrangements_number 8 0 (lit "abcdefgh") eq_refl) as Hn. pose proof (arrangements_sound 8 0 (lit "abcdefgh")) as Hs.
  assert (Hd : NoDup (arrangements 8 0 (lit "abcdefgh"))) by (apply arrangements_distinct; [done | by apply (bool_decide_unpack _)]).
  assert (Hz : zlen (arrangements 8 0 (lit "abcdefgh")) = 40320) by (unfold zlen; rewrite Hn; by vm_compute).
  remember (arrangements 8 0 (lit "abcdefgh")) as l eqn:El. clear El Hn. destruct l as [|x l']; [done |]. set (l := x :: l') in *.
  rewrite Hz. change (40000 <? 40320) with true. cbn [returns]. split_and!.
  - unfold zlen in *. rewrite length_map, length_take. lia.
  - rewrite map_map. cbn [sign fst]. rewrite map_id. apply (sublist_NoDup _ l); [done | apply sublist_take].
  - apply list.Forall_forall. intros m (t & -> & Ht)%list_elem_of_fmap. cbn. split; [|done]. apply Hs; [done |].
    apply (elem_of_sublist (take (Z.to_nat 40000) l)); [done | apply sublist_take].
Qed.

End SignUp.
