(* ===== verification/ChatClient.v ===== *)
(** * excercises/chatServer/client.cc and stress.cc: the command line client of the chat server

    Lines typed by the user are split at blanks and turned into messages.  The state has what
    the functions share: the global [messageReceived], the file user.info, and the messages
    written to the connection ([ChatClient::write] waits until there is one).  Access to a
    missing word is undefined in the source and crashes here.  [Stress] is the load generator
    made of the same client. *)

From S2P Require Import Prelude Format.

Module ChatClient.

(** ** split *)
Section split.
Variable sep : byte.

(** The second loop: [count] separators are still to come. *)
Fixpoint split_loop (count : Z) (src tmp : bytes) (res : list bytes) : list bytes :=
  match src with
  | [] => res ++ [[]]
  | c :: src' =>
      if 0 <? count then
        if negb (byte_eqb c sep) then split_loop count src' (tmp ++ [c]) res
        else split_loop (count - 1) src' [] (if 0 <? zlen tmp then res ++ [tmp] else res)
      else res ++ [src]
  end.

Definition split (src : bytes) : list bytes := split_loop (zlen (List.filter (fun c => byte_eqb c sep) src)) src [] [].
End split.

(** ** The messages and the state *)
Inductive message :=
| SignUp (name passwd : bytes)
| Login (uid : Z) (passwd : bytes)
| PMessage (uid peerid : Z) (content : bytes)
| GMessage (gid : Z) (content : bytes)
| CreateGroup (gid : Z)
| AddGroup (gid : Z)
| Quit (uid : Z).

(** [messageReceived]: null, the last [Success], or deleted. *)
Inductive pointer := Null | Live (uid : Z) | Deleted.

Record t := mk {
  messageReceived : pointer;
  user_info : option (list bytes);       (* the lines of the file *)
  written : list message;
  disconnected : bool;
  wrong : nat                            (* lines "Wrong Type of Message!" *)
}.

Definition start : t := mk Null None [] false 0.

Definition write (m : message) (s : t) : t := mk (messageReceived s) (user_info s) (written s ++ [m]) (disconnected s) (wrong s).

(** [message[i]] *)
Definition word (i : nat) (message : list bytes) : outcome bytes :=
  match message !! i with Some w => Ret w | None => Crash OutOfRange end.

(** The first line of user.info, empty when there is none. *)
Definition first_line (s : t) : bytes := match user_info s with Some (l :: _) => l | _ => [] end.

(** [content += message[i] + " "] for the words from [i]. *)
Definition content_from (i : nat) (message : list bytes) : bytes := concat (map (fun w => w ++ lit " ") (drop i message)).

Definition onSuccess (uid : Z) (s : t) : t := mk (Live uid) (user_info s) (written s) (disconnected s) (wrong s).

(** [sign]; [reply] is the uid of the [Success] that ends the wait for one. *)
Definition sign (reply : Z) (message : list bytes) (s : t) : outcome t :=
  name ← word 1 message; passwd ← word 2 message;
  let s1 := write (SignUp name passwd) s in
  match (match messageReceived s1 with Null => Live reply | p => p end) with
  | Live id => Ret (mk Deleted (Some [show id; name; passwd]) (written s1) (disconnected s1) (wrong s1))
  | _ => Crash UseAfterFree
  end.

Definition login (message : list bytes) (s : t) : outcome t :=
  w ← word 1 message; uid ← atol w; passwd ← word 2 message; Ret (write (Login uid passwd) s).

Definition onPrivateChat (message : list bytes) (s : t) : outcome t :=
  uid ← atoi (first_line s);
  w ← word 1 message; peerid ← atol w;
  Ret (write (PMessage uid peerid (content_from 2 message)) s).

Definition quit (s : t) : outcome t :=
  uid ← atol (first_line s);
  let s1 := write (Quit uid) s in
  Ret (mk (messageReceived s1) (user_info s1) (written s1) true (wrong s1)).

Definition groupChat (message : list bytes) (s : t) : outcome t :=
  w ← word 1 message; gid ← atol w; Ret (write (GMessage gid (content_from 1 message)) s).

Definition createGroup (message : list bytes) (s : t) : outcome t :=
  w ← word 1 message; gid ← atol w; Ret (write (CreateGroup gid) s).

Definition addGroup (message : list bytes) (s : t) : outcome t :=
  w ← word 1 message; gid ← atol w; Ret (write (AddGroup gid) s).

(** [message[0][0]] of an empty word is the terminator. *)
Definition dispatch (reply : Z) (message : list bytes) (s : t) : outcome t :=
  w ← word 0 message;
  match w with
  | "s"%byte :: _ => sign reply message s
  | "l"%byte :: _ => login message s
  | "p"%byte :: _ => onPrivateChat message s
  | "c"%byte :: _ => createGroup message s
  | "a"%byte :: _ => addGroup message s
  | "g"%byte :: _ => groupChat message s
  | "q"%byte :: _ => quit s
  | _ => Ret (mk (messageReceived s) (user_info s) (written s) (disconnected s) (S (wrong s)))
  end.

(** A line of input, or a [Success] from the server. *)
Inductive event := Line (text : bytes) (reply : Z) | Received (uid : Z).

Definition blank : byte := " "%byte.

Definition step (e : event) (s : t) : outcome t :=
  match e with
  | Line text reply => dispatch reply (split blank text) s
  | Received uid => Ret (onSuccess uid s)
  end.

Fixpoint steps (es : list event) (s : t) : outcome t :=
  match es with [] => Ret s | e :: es' => s1 ← step e s; steps es' s1 end.

(** ** What split does *)

Definition is_word (w : bytes) : Prop := w <> [] /\ blank ∉ w.

Fixpoint join (ws : list bytes) : bytes :=
  match ws with [] => [] | [w] => w | w :: ws' => w ++ [blank] ++ join ws' end.

Definition blanks (s : bytes) : Z := zlen (List.filter (fun c => byte_eqb c blank) s).

Lemma blanks_app s1 s2 : blanks (s1 ++ s2) = blanks s1 + blanks s2.
Proof. unfold blanks. by rewrite filter_app, zlen_app. Qed.

Lemma blanks_word w : blank ∉ w -> blanks w = 0.
Proof.
  intros H. unfold blanks. induction w as [|c w IH]; [done |]. cbn. destruct (byte_eqb c blank) eqn:E.
  - apply byte_eqb_eq in E. subst c. destruct H. left.
  - apply IH. intros Hin. apply H. by right.
Qed.

(** A word and the separator after it. *)
Lemma split_word w : blank ∉ w -> forall count tmp res rest, 0 < count -> tmp ++ w <> [] ->
  split_loop blank count (w ++ blank :: rest) tmp res = split_loop blank (count - 1) rest [] (res ++ [tmp ++ w]).
Proof.
  induction w as [|c w IH]; intros Hw count tmp res rest Hc Hne; cbn [app split_loop]; rewrite (proj2 (Z.ltb_lt 0 count)) by lia.
  - cbn [negb byte_eqb]. change (byte_eqb blank blank) with true. cbn [negb]. rewrite app_nil_r in *.
    destruct tmp as [|c tmp]; [done |]. rewrite (proj2 (Z.ltb_lt 0 _)); [done |]. rewrite zlen_cons. pose proof (zlen_nonneg tmp). lia.
  - destruct (byte_eqb c blank) eqn:E; [apply byte_eqb_eq in E; subst c; destruct Hw; left |]. cbn [negb].
    rewrite IH; [by rewrite <-app_assoc | | done |]; [intros Hin; apply Hw; by right |]. destruct tmp; done.
Qed.

(** Words with single blanks between them are taken apart. *)
Lemma split_join ws : ws <> [] -> Forall is_word ws -> split blank (join ws) = ws.
Proof.
  intros Hne Hw. assert (HG : forall res, split_loop blank (blanks (join ws)) (join ws) [] res = res ++ ws); [|by apply HG].
  induction Hw as [|w ws [Hw1 Hw2] Hws IH]; [done |]. destruct ws as [|w2 ws].
  - intros res. cbn [join]. rewrite blanks_word by done. destruct w; [done |]. done.
  - intros res. change (join (w :: w2 :: ws)) with (w ++ blank :: join (w2 :: ws)). rewrite blanks_app, blanks_word by done.
    change (blank :: join (w2 :: ws)) with ([blank] ++ join (w2 :: ws)) at 1. rewrite blanks_app. change (blanks [blank]) with 1.
    assert (0 <= blanks (join (w2 :: ws))) by apply zlen_nonneg. rewrite split_word; [|done | lia | done].
    replace (0 + (1 + blanks (join (w2 :: ws))) - 1) with (blanks (join (w2 :: ws))) by lia. rewrite IH by done. cbn [app]. by rewrite <-app_assoc.
Qed.

(** ** A session *)

(** Once signed up: private messages, and what the server says meanwhile. *)
Inductive talk := Say (peerid : Z) (ws : list bytes) | Hear (uid : Z).

Definition talk_event (k : talk) : event :=
  match k with Say peerid ws => Line (join ([lit "p"; show peerid] ++ ws)) 0 | Hear uid => Received uid end.
Definition talk_messages (id : Z) (k : talk) : list message :=
  match k with Say peerid ws => [PMessage id peerid (concat (map (fun w => w ++ lit " ") ws))] | Hear _ => [] end.
Definition talk_ok (k : talk) : Prop :=
  match k with Say peerid ws => - 2 ^ 63 <= peerid < 2 ^ 63 /\ Forall is_word ws | Hear _ => True end.

Lemma show_is_word n : is_word (show n).
Proof.
  assert (Hnn : forall m, 0 <= m -> is_word (show_nonneg m)).
  { intros m Hm. destruct (show_nonneg_digits m Hm) as (ds & Hd & _ & Hne). split; [done |]. intros Hb. apply (dec_digits_range _ _ Hd) in Hb.
    vm_compute in Hb. destruct Hb as [Hb _]. by apply Hb. }
  unfold show. destruct (n <? 0) eqn:E; bools; [|by apply Hnn]. destruct (Hnn (- n)) as [H1 H2]; [lia |]. split; [done |].
  intros [Hb|Hb]%elem_of_app; [|done]. apply list_elem_of_singleton in Hb. done.
Qed.

(** The words [cmd] and [ws] were typed. *)
Lemma line_words cmd ws reply s : is_word cmd -> Forall is_word ws -> step (Line (join (cmd :: ws)) reply) s = dispatch reply (cmd :: ws) s.
Proof. intros H1 H2. cbn [step]. rewrite split_join; [done | done | by constructor]. Qed.

Lemma letter_word b : b <> blank -> is_word [b].
Proof. intros H. split; [done |]. intros Hb%list_elem_of_singleton. by subst. Qed.

Lemma talk_step id name passwd k s : talk_ok k -> - 2 ^ 31 <= id < 2 ^ 31 -> user_info s = Some [show id; name; passwd] ->
  exists s', step (talk_event k) s = Ret s' /\ user_info s' = user_info s /\ written s' = written s ++ talk_messages id k.
Proof.
  intros Hk Hid Hu. destruct k as [peerid ws|uid]; [|exists (onSuccess uid s); cbn; by rewrite app_nil_r].
  destruct Hk as [Hp Hws]. unfold talk_event. change ([lit "p"; show peerid] ++ ws) with (lit "p" :: show peerid :: ws).
  rewrite line_words; [| by apply letter_word | constructor; [apply show_is_word | done]].
  cbn [dispatch word lookup list_lookup mbind outcome_bind]. unfold onPrivateChat, first_line. rewrite Hu, atoi_show, bind_Ret by done.
  cbn [word lookup list_lookup mbind outcome_bind]. rewrite atol_show by done. eexists. split; [reflexivity |]. done.
Qed.

Lemma talk_steps id name passwd ks : Forall talk_ok ks -> - 2 ^ 31 <= id < 2 ^ 31 -> forall s, user_info s = Some [show id; name; passwd] ->
  exists s', steps (map talk_event ks) s = Ret s' /\ user_info s' = user_info s /\ written s' = written s ++ concat (map (talk_messages id) ks).
Proof.
  intros Hk Hid. induction Hk as [|k ks Hk _ IH]; intros s Hu; [exists s; by rewrite app_nil_r |].
  destruct (talk_step id name passwd k s Hk Hid Hu) as (s1 & E1 & U1 & W1). destruct (IH s1) as (s2 & E2 & U2 & W2); [congruence |].
  exists s2. cbn [map steps concat]. rewrite E1, bind_Ret. split_and!; [done | congruence | by rewrite W2, W1, <-app_assoc].
Qed.

Lemma steps_append es1 es2 s : steps (es1 ++ es2) s = (s1 ← steps es1 s; steps es2 s1).
Proof. revert s. induction es1 as [|e es1 IH]; intros s; [done |]. cbn [steps app]. destruct (step e s); [apply IH | done]. Qed.

(** A user who signs up, talks and quits: the words typed become these messages, with the id
    the server gave, whatever else the server sends meanwhile; the id is kept in user.info. *)
Theorem client_session name passwd id ks : is_word name -> is_word passwd -> - 2 ^ 31 <= id < 2 ^ 31 -> Forall talk_ok ks ->
  returns (steps (Line (join [lit "s"; name; passwd]) id :: map talk_event ks ++ [Line (lit "q") 0]) start) (fun s =>
    written s = SignUp name passwd :: concat (map (talk_messages id) ks) ++ [Quit id] /\
    user_info s = Some [show id; name; passwd] /\ disconnected s = true).
Proof.
  intros Hn Hp Hid Hk. cbn [steps]. rewrite line_words; [| by apply letter_word | constructor; [done | constructor; [done | constructor]]].
  change (dispatch id [lit "s"; name; passwd] start) with (Ret (mk Deleted (Some [show id; name; passwd]) [SignUp name passwd] false 0)). rewrite bind_Ret.
  destruct (talk_steps id name passwd ks Hk Hid (mk Deleted (Some [show id; name; passwd]) [SignUp name passwd] false 0) eq_refl) as (s & E & U & W).
  rewrite steps_append, E, bind_Ret. cbn [steps]. change (lit "q") with (join [lit "q"]). rewrite line_words; [| by apply letter_word | constructor].
  change (dispatch 0 [lit "q"] s) with (quit s). unfold quit, first_line. rewrite U. cbn [user_info]. rewrite atol_show, !bind_Ret by lia.
  cbn [returns written user_info disconnected write]. split_and!; [by rewrite W | done | done].
Qed.

Lemma client_session_witness :
  returns (steps (Line (join [lit "s"; lit "ann"; lit "pw"]) 7 :: map talk_event [Say 8 [lit "good"; lit "day"]; Hear 7] ++ [Line (lit "q") 0]) start) (fun s =>
    written s = [SignUp (lit "ann") (lit "pw"); PMessage 7 8 (lit "good day "); Quit 7] /\
    user_info s = Some [show 7; lit "ann"; lit "pw"] /\ disconnected s = true).
Proof.
  assert (Hw : forall w, w <> [] -> find_byte blank w = None -> is_word w) by (intros w H1 H2; split; [exact H1 | by apply find_byte_None]).
  apply (client_session (lit "ann") (lit "pw") 7 [Say 8 [lit "good"; lit "day"]; Hear 7]); try (apply Hw; [discriminate | reflexivity]); [lia |].
  repeat (apply List.Forall_cons || apply List.Forall_nil); cbn [talk_ok]; [|exact I]. split; [lia |].
  repeat (apply List.Forall_cons || apply List.Forall_nil); (apply Hw; [discriminate | reflexivity]).
Defined.

(** ** What goes wrong *)

(** [sign] deletes the answer and leaves the pointer: signing up again reads it. *)
Lemma second_sign_up_fails : steps [Line (lit "s ann pw") 7; Line (lit "s bob pw") 8] start = Crash UseAfterFree.
Proof. vm_compute. reflexivity. Qed.

(** The words are taken without counting them. *)
Lemma missing_word_fails : steps [Line (lit "s ann") 7] start = Crash OutOfRange.
Proof. vm_compute. reflexivity. Qed.

(** The text of a group message begins with the number of the group. *)
Lemma group_text_has_gid : (s ← steps [Line (lit "g 5 hi") 0] start; Ret (written s)) = Ret [GMessage 5 (lit "5 hi ")].
Proof. vm_compute. reflexivity. Qed.

(** Ids are 64 bits wide, but private messages read theirs as an [int]. *)
Lemma large_id_fails : steps [Line (lit "s ann pw") (2 ^ 31); Line (lit "p 1 hi") 0] start = Crash IntOverflow.
Proof. vm_compute. reflexivity. Qed.

End ChatClient.

(** ** stress.cc

    The client of client.cc with a [main] that logs users in, sends private messages and logs
    them out.  [rand k] is the [k]-th answer of rand(3). *)
Module Stress.
Import ChatClient.

Definition content : bytes := lit "Hello world!" ++ [x0a].
Definition count : nat := N.to_nat 200000.

(** The first and the last loop: one message for every user from 2 on; [i <= INT_MAX] never ends
    but by the overflow of [i]. *)
Definition for_users (m : Z -> message) (nums : Z) (s : t) : outcome t :=
  if nums =? 2 ^ 31 - 1 then Crash IntOverflow else Ret (foldl (fun s i => write (m i) s) s (seqZ 2 (nums - 1))).

(** [rand() % nums + 1] *)
Definition pick (r nums : Z) : outcome Z := if nums =? 0 then Crash DivisionByZero else i32 (Z.rem r nums + 1).

(** The loop from its [k]-th turn; the ids picked are compared and not used. *)
Fixpoint send_loop (rand : nat -> Z) (nums : Z) (turns k : nat) (s : t) : outcome t :=
  match turns with
  | O => Ret s
  | S turns' =>
      uid ← pick (rand (2 * k)%nat) nums;
      peerid ← pick (rand (2 * k + 1)%nat) nums;
      send_loop rand nums turns' (S k) (if peerid =? uid then s else write (PMessage 2 1 content) s)
  end.

Definition disconnect (s : t) : t := mk (messageReceived s) (user_info s) (written s) true (wrong s).

Definition main_ (rand : nat -> Z) (argv : list bytes) (s : t) : outcome t :=
  if 2 <? zlen argv then
    arg ← (match argv !! 3%nat with Some a => Ret a | None => Crash NullPointer end);
    nums ← atoi arg;
    s1 ← for_users (fun i => Login i (lit "123")) nums s;
    s2 ← send_loop rand nums count 0 s1;
    s3 ← for_users Quit nums s2;
    Ret (disconnect s3)
  else Ret s.

(** The turns, out of those from [k] on, that send a message. *)
Definition sending (rand : nat -> Z) (nums : Z) (k : nat) : bool :=
  negb (Z.rem (rand (2 * k + 1)%nat) nums =? Z.rem (rand (2 * k)%nat) nums).

Lemma for_users_ok m nums s : nums < 2 ^ 31 - 1 -> returns (for_users m nums s) (fun s' => written s' = written s ++ map m (seqZ 2 (nums - 1))).
Proof.
  intros Hn. unfold for_users. rewrite (proj2 (Z.eqb_neq nums _)) by lia. cbn [returns].
  revert s. induction (seqZ 2 (nums - 1)) as [|i l IH]; intros s; cbn [foldl map]; [by rewrite app_nil_r |].
  rewrite IH. cbn [written write]. by rewrite <-app_assoc.
Qed.

Lemma pick_ok r nums : 0 <= r -> 0 < nums < 2 ^ 31 -> pick r nums = Ret (Z.rem r nums + 1).
Proof. intros Hr Hn. unfold pick. rewrite (proj2 (Z.eqb_neq nums 0)) by lia. pose proof (Z.rem_bound_pos r nums Hr ltac:(lia)). apply i32_ok. lia. Qed.

Lemma send_loop_ok rand nums turns : (forall k, 0 <= rand k) -> 0 < nums < 2 ^ 31 -> forall k s, returns (send_loop rand nums turns k s) (fun s' =>
  written s' = written s ++ map (fun _ => PMessage 2 1 content) (List.filter (sending rand nums) (seq k turns))).
Proof.
  intros Hr Hn. induction turns as [|turns IH]; intros k s; cbn [send_loop seq List.filter map]; [by rewrite app_nil_r |].
  rewrite !pick_ok, !bind_Ret by done. eapply returns_mono; [|apply IH]. intros s' ->. unfold sending at 2.
  assert (E : forall a b, (a + 1 =? b + 1) = (a =? b)) by (intros a b; destruct (Z.eqb_spec a b), (Z.eqb_spec (a + 1) (b + 1)); lia). rewrite E.
  destruct (Z.rem (rand (2 * k + 1)%nat) nums =? Z.rem (rand (2 * k)%nat) nums); [done |]. cbn [negb map written write]. by rewrite <-app_assoc.
Qed.

(** Whatever rand(3) answers, the program logs the users 2 to [nums] in, sends one message for
    every turn that picked two ids, never more than 200000, logs the users out and
    disconnects. *)
Lemma stress_writes rand nums prog host port rest s : (forall k, 0 <= rand k) -> 0 < nums < 2 ^ 31 - 1 ->
  returns (main_ rand (prog :: host :: port :: show nums :: rest) s) (fun s' => disconnected s' = true /\ exists n, (n <= count)%nat /\
    written s' = written s ++ map (fun i => Login i (lit "123")) (seqZ 2 (nums - 1)) ++ replicate n (PMessage 2 1 content) ++ map Quit (seqZ 2 (nums - 1))).
Proof.
  intros Hr Hn. unfold main_. pose proof (zlen_nonneg rest). rewrite (proj2 (Z.ltb_lt 2 _)) by (rewrite !zlen_cons; lia).
  change ((prog :: host :: port :: show nums :: rest) !! 3%nat) with (Some (show nums)). cbv iota. rewrite bind_Ret, atoi_show, bind_Ret by lia.
  eapply returns_seq; [apply for_users_ok; lia |]. intros s1 E1. eapply returns_seq; [apply send_loop_ok; [done | lia] |]. intros s2 E2.
  eapply returns_seq; [apply for_users_ok; lia |]. intros s3 E3. split; [done |].
  exists (length (List.filter (sending rand nums) (seq 0 count))). split.
  - etrans; [apply filter_length_le |]. by rewrite length_seq.
  - cbn [disconnect written]. rewrite E3, E2, E1, <-!app_assoc.
    generalize (List.filter (sending rand nums) (seq 0 count)). intros l.
    rewrite <-(const_fmap (fun _ : nat => PMessage 2 1 content) l) by done. done.
Qed.

(** One user never sends; none divides by zero; the count is read although it need not be there. *)
Lemma stress_single_user rand turns k s : (forall k, 0 <= rand k) -> send_loop rand 1 turns k s = Ret s.
Proof.
  intros Hr. revert k. induction turns as [|turns IH]; intros k; cbn [send_loop]; [done |]. rewrite !pick_ok, !bind_Ret by (done || lia).
  rewrite !Z.rem_1_r. apply IH.
Qed.

Lemma stress_no_user rand prog host port s : main_ rand [prog; host; port; lit "0"] s = Crash DivisionByZero.
Proof.
  unfold main_. assert (exists n, count = S n) as [n ->] by (exists (Nat.pred count); unfold count; lia). reflexivity.
Qed.

Lemma stress_without_count rand prog host port s : main_ rand [prog; host; port] s = Crash NullPointer.
Proof. reflexivity. Qed.

End Stress.
