(* ===== verification/Broadcast.v ===== *)
(** * excercises/chat: servers that send every message to every connection

    [LoopBroadcast] is server_threaded_highperformance.cc: each I/O thread keeps the set of its
    own connections, and a message is queued in every loop under a mutex.  [SharedList] is
    server_threaded_efficient.cc: the set of connections is shared and copied on write.
    [TopicTable] is the table of topics of hub_threaded_efficient.cc, which is copied the same
    way.  The framing is that of [LengthHeaderCodec]. *)

From S2P Require Import Prelude Endian NetBuffer Framing LengthCodec.

(** ** server_threaded_highperformance.cc *)
Module LoopBroadcast.

(** [pending] are the functors queued in the loops, [local_] the [ThreadLocalSingleton] of each
    thread (absent: null), [wire] the frames given to each connection. *)
Record t := mk {
  loops_ : gset Z;
  pending : gmap Z (list bytes);
  local_ : gmap Z (gset Z);
  wire : gmap Z (list bytes)
}.

Definition set_pending q s := mk (loops_ s) q (local_ s) (wire s).
Definition set_local q s := mk (loops_ s) (pending s) q (wire s).
Definition set_wire q s := mk (loops_ s) (pending s) (local_ s) q.

Definition queue_of (l : Z) (s : t) : list bytes := default [] (pending s !! l).
Definition wire_of (c : Z) (s : t) : list bytes := default [] (wire s !! c).

(** [LocalConnections::instance()] makes the set on the first call. *)
Definition instance (l : Z) (s : t) : gset Z := default ∅ (local_ s !! l).

Definition onConnection (l c : Z) (connected : bool) (s : t) : t :=
  set_local (<[l := if connected then {[c]} ∪ instance l s else instance l s ∖ {[c]}]> (local_ s)) s.

(** [codec_.send] to a connection. *)
Definition codec_send (message : bytes) (c : Z) (s : t) : outcome t :=
  buf ← LengthHeaderCodec.send message;
  data ← load (Buffer.peek buf) (Buffer.readableBytes buf) (Buffer.buffer_ buf);
  Ret (set_wire (<[c := wire_of c s ++ [data]]> (wire s)) s).

Fixpoint send_all (message : bytes) (cs : list Z) (s : t) : outcome t :=
  match cs with [] => Ret s | c :: cs' => s1 ← codec_send message c s; send_all message cs' s1 end.

Definition distributeMessage (l : Z) (message : bytes) (s : t) : outcome t :=
  send_all message (elements (instance l s)) (set_local (<[l := instance l s]> (local_ s)) s).

(** The loop over [loops_], under the mutex. *)
Fixpoint queue_all (message : bytes) (ls : list Z) (s : t) : t :=
  match ls with [] => s | l :: ls' => queue_all message ls' (set_pending (<[l := queue_of l s ++ [message]]> (pending s)) s) end.

Definition onStringMessage (message : bytes) (s : t) : t := queue_all message (elements (loops_ s)) s.

Definition threadInit (l : Z) (s : t) : outcome t :=
  _ ← check (bool_decide (local_ s !! l = None));
  let s1 := set_local (<[l := ∅]> (local_ s)) s in
  Ret (mk ({[l]} ∪ loops_ s1) (pending s1) (local_ s1) (wire s1)).

(** ** Events, in any order *)
Inductive event :=
| Up (l c : Z)
| Down (l c : Z)
| Message (message : bytes)
| RunFunctor (l : Z).                  (* the loop runs its next functor *)

#[export] Instance event_eq_dec : EqDecision event.
Proof. solve_decision. Defined.

Definition step (e : event) (s : t) : outcome t :=
  match e with
  | Up l c => Ret (onConnection l c true s)
  | Down l c => Ret (onConnection l c false s)
  | Message m => Ret (onStringMessage m s)
  | RunFunctor l =>
      match queue_of l s with
      | m :: rest => distributeMessage l m (set_pending (<[l := rest]> (pending s)) s)
      | [] => Ret s
      end
  end.

Fixpoint steps (es : list event) (s : t) : outcome t :=
  match es with [] => Ret s | e :: es' => s1 ← step e s; steps es' s1 end.

Definition init : t := mk ∅ ∅ ∅ ∅.

Fixpoint threads (ls : list Z) (s : t) : outcome t :=
  match ls with [] => Ret s | l :: ls' => s1 ← threadInit l s; threads ls' s1 end.

(** ** The order of the messages *)

Lemma queue_all_ok m ls : forall s, NoDup ls -> let s' := queue_all m ls s in
  loops_ s' = loops_ s /\ local_ s' = local_ s /\ wire s' = wire s /\
  forall l, queue_of l s' = queue_of l s ++ (if bool_decide (l ∈ ls) then [m] else []).
Proof.
  induction ls as [|l ls IH]; intros s HN; cbn [queue_all].
  - split_and!; try done. intros l. rewrite bool_decide_eq_false_2 by apply not_elem_of_nil. by rewrite app_nil_r.
  - apply list.NoDup_cons in HN as [Hl HN]. destruct (IH (set_pending (<[l := queue_of l s ++ [m]]> (pending s)) s) HN) as (E1 & E2 & E3 & E4).
    split_and!; try done. intros l'. rewrite E4. unfold queue_of at 1. cbn [pending set_pending]. destruct (decide (l' = l)) as [-> | Hne].
    + rewrite lookup_insert_eq. cbn. rewrite bool_decide_eq_false_2, bool_decide_eq_true_2 by (done || left). by rewrite app_nil_r.
    + rewrite lookup_insert_ne by done. f_equal. assert (E : l' ∈ ls <-> l' ∈ l :: ls) by (rewrite elem_of_cons; naive_solver).
      by rewrite (bool_decide_ext _ _ E).
Qed.

Lemma codec_send_ok m c s : zlen m <= 65536 ->
  codec_send m c s = Ret (set_wire (<[c := wire_of c s ++ [frame m]]> (wire s)) s).
Proof.
  intros Hm. unfold codec_send. pose proof (LengthHeaderCodec.send_ok m Hm) as HS. destruct (LengthHeaderCodec.send m) as [b|]; [|done].
  destruct HS as [W E]. rewrite bind_Ret, Buffer.readable_ok by done. unfold Buffer.peek. by rewrite Buffer.load_contents, bind_Ret, E.
Qed.

Lemma send_all_ok m cs : zlen m <= 65536 -> forall s, NoDup cs -> exists w, send_all m cs s = Ret (set_wire w s) /\
  forall c, default [] (w !! c) = wire_of c s ++ (if bool_decide (c ∈ cs) then [frame m] else []).
Proof.
  intros Hm. induction cs as [|c cs IH]; intros s HN; cbn [send_all].
  - exists (wire s). split; [by destruct s |]. intros c. rewrite bool_decide_eq_false_2 by apply not_elem_of_nil. by rewrite app_nil_r.
  - apply list.NoDup_cons in HN as [Hc HN]. rewrite codec_send_ok, bind_Ret by done.
    destruct (IH (set_wire (<[c := wire_of c s ++ [frame m]]> (wire s)) s) HN) as (w & -> & Hw). exists w. split; [done |].
    intros c'. rewrite Hw. unfold wire_of at 1. cbn [wire set_wire]. destruct (decide (c' = c)) as [-> | Hne].
    + rewrite lookup_insert_eq. cbn. rewrite bool_decide_eq_false_2, bool_decide_eq_true_2 by (done || left). by rewrite app_nil_r.
    + rewrite lookup_insert_ne by done. f_equal. assert (E : c' ∈ cs <-> c' ∈ c :: cs) by (rewrite elem_of_cons; naive_solver).
      by rewrite (bool_decide_ext _ _ E).
Qed.

Lemma threads_ok rest : forall done s, NoDup (done ++ rest) -> loops_ s = list_to_set done -> pending s = ∅ -> wire s = ∅ ->
  (forall l, local_ s !! l = if bool_decide (l ∈ done) then Some ∅ else None) ->
  exists s', threads rest s = Ret s' /\ loops_ s' = list_to_set (done ++ rest) /\ pending s' = ∅ /\ wire s' = ∅ /\
    forall l, local_ s' !! l = if bool_decide (l ∈ done ++ rest) then Some ∅ else None.
Proof.
  induction rest as [|l rest IH]; intros done s HN Hl Hp Hw Hloc; cbn [threads]; [exists s; by rewrite app_nil_r |].
  assert (Hout : l ∉ done) by (apply list.NoDup_app in HN as (_ & HN & _); intros H; apply (HN l H); left).
  unfold threadInit. rewrite (Hloc l), (bool_decide_eq_false_2 (l ∈ done)) by done. rewrite check_bind by done. rewrite bind_Ret.
  replace (done ++ l :: rest) with ((done ++ [l]) ++ rest) in * by (by rewrite <-app_assoc). apply IH; try done.
  - cbn. rewrite Hl, list_to_set_app_L. cbn. set_solver.
  - intros l'. cbn. destruct (decide (l' = l)) as [-> | Hne].
    + rewrite lookup_insert_eq, bool_decide_eq_true_2; [done |]. apply elem_of_app. right. left.
    + rewrite lookup_insert_ne, Hloc by done. assert (E : l' ∈ done <-> l' ∈ done ++ [l]) by (rewrite elem_of_app, list_elem_of_singleton; naive_solver).
      by rewrite (bool_decide_ext _ _ E).
Qed.

Section order.
(** The loops whose threads ran [threadInit], and the loop of each connection. *)
Variables (ls : list Z) (home : Z -> Z).
Hypothesis ls_nodup : NoDup ls.

Definition ups (es : list event) : list Z := concat (map (fun e => match e with Up _ c => [c] | _ => [] end) es).
Definition messages (es : list event) : list bytes := concat (map (fun e => match e with Message m => [m] | _ => [] end) es).

(** How many messages there were, and how many of them loop [l] took from its queue. *)
Definition count (l : Z) (n : nat * nat) (e : event) : nat * nat :=
  match e with
  | Message _ => (S n.1, n.2)
  | RunFunctor l' => if (l' =? l) && (n.2 <? n.1)%nat then (n.1, S n.2) else n
  | _ => n
  end.
Definition distributed (l : Z) (es : list event) : nat := (fold_left (count l) es (0%nat, 0%nat)).2.

(** The events before connection [c] goes down. *)
Fixpoint until_down (c : Z) (es : list event) : list event :=
  match es with
  | [] => []
  | Down l c' :: es' => if c' =? c then [] else Down l c' :: until_down c es'
  | e :: es' => e :: until_down c es'
  end.

Definition event_ok (e : event) : Prop :=
  match e with
  | Up l c | Down l c => home c = l
  | Message m => zlen m <= 65536
  | RunFunctor _ => True
  end.

(** *** Counting *)

Lemma messages_app es1 es2 : messages (es1 ++ es2) = messages es1 ++ messages es2.
Proof. unfold messages. by rewrite map_app, concat_app. Qed.

Lemma ups_app es1 es2 : ups (es1 ++ es2) = ups es1 ++ ups es2.
Proof. unfold ups. by rewrite map_app, concat_app. Qed.

Lemma count_ok l es : (fold_left (count l) es (0%nat, 0%nat)).1 = length (messages es) /\ (distributed l es <= length (messages es))%nat.
Proof.
  unfold distributed. induction es as [|e es IH] using rev_ind; [done |]. rewrite fold_left_app, messages_app, length_app. cbn [fold_left].
  destruct (fold_left _ es _) as [g p]. cbn [fst snd] in IH. destruct IH as [<- Hp]. destruct e as [l' c|l' c|m|l']; cbn [count fst snd messages map concat app length]; try lia.
  destruct (l' =? l); cbn [andb]; [|cbn; lia]. destruct (Nat.ltb_spec p g); cbn; lia.
Qed.

Lemma distributed_snoc l es e : distributed l (es ++ [e]) =
  match e with RunFunctor l' => if (l' =? l) && (distributed l es <? length (messages es))%nat then S (distributed l es) else distributed l es
  | _ => distributed l es end.
Proof.
  destruct (count_ok l es) as [<- _]. unfold distributed. rewrite fold_left_app. cbn [fold_left].
  destruct (fold_left _ es _) as [g p]. destruct e; cbn; try done. by case_match.
Qed.

Lemma distributed_mono l es1 es2 : (distributed l es1 <= distributed l (es1 ++ es2))%nat.
Proof.
  induction es2 as [|e es2 IH] using rev_ind; [by rewrite app_nil_r |]. rewrite app_assoc, distributed_snoc.
  destruct e; try done. case_match; lia.
Qed.

Lemma until_down_prefix c es : exists rest, es = until_down c es ++ rest.
Proof.
  induction es as [|e es [rest IH]]; [by exists [] |]. destruct e as [l' c'|l' c'|m|l']; cbn [until_down]; try (exists rest; cbn; by rewrite <-IH).
  destruct (c' =? c); [by eexists | exists rest; cbn; by rewrite <-IH].
Qed.

Lemma until_down_snoc c es e : until_down c (es ++ [e]) =
  if decide (until_down c es = es) then es ++ until_down c [e] else until_down c es.
Proof.
  induction es as [|e' es IH]; [done |]. destruct e' as [l' c'|l' c'|m|l']; cbn [until_down app].
  2: destruct (c' =? c); [by rewrite decide_False |].
  all: rewrite IH; destruct (decide (until_down c es = es)) as [E | E];
    [rewrite decide_True by (by rewrite E) | rewrite decide_False by (by intros [=])]; done.
Qed.

(** *** The invariant, over the events so far *)

Lemma snoc_split {A} (h : list A) e es1 x es2 : h ++ [e] = es1 ++ x :: es2 ->
  (es2 = [] /\ es1 = h /\ x = e) \/ exists es, es2 = es ++ [e] /\ h = es1 ++ x :: es.
Proof.
  destruct es2 as [|y es2 _] using rev_ind; intros E.
  - apply app_inj_tail in E as [-> ->]. by left.
  - rewrite app_comm_cons, app_assoc in E. apply app_inj_tail in E as [-> ->]. right. by exists es2.
Qed.

(** What a connection is sent that came after [es1], when [es2] happened since. *)
Definition heard (c : Z) (es1 es2 : list event) (G : list bytes) : list bytes :=
  drop (distributed (home c) es1) (take (distributed (home c) (es1 ++ Up (home c) c :: until_down c es2)) G).

Record ordered (h : list event) (s : t) : Prop := {
  or_loops : loops_ s = list_to_set ls;
  or_queue : forall l, queue_of l s = if bool_decide (l ∈ ls) then drop (distributed l h) (messages h) else [];
  or_new : forall c, c ∉ ups h -> wire_of c s = [];
  or_home : forall l c, c ∈ instance l s -> home c = l /\ c ∈ ups h;
  or_up : forall c es1 es2, h = es1 ++ Up (home c) c :: es2 -> (c ∈ instance (home c) s <-> until_down c es2 = es2);
  or_wire : forall c es1 es2, h = es1 ++ Up (home c) c :: es2 ->
    wire_of c s = if bool_decide (home c ∈ ls) then map frame (heard c es1 es2 (messages h)) else [];
  or_sizes : Forall (fun m => zlen m <= 65536) (messages h)
}.

Lemma heard_bound c es1 es2 :
  (distributed (home c) (es1 ++ Up (home c) c :: until_down c es2) <= distributed (home c) (es1 ++ Up (home c) c :: es2))%nat.
Proof.
  destruct (until_down_prefix c es2) as [rest E]. rewrite E at 2. rewrite app_comm_cons, app_assoc. apply distributed_mono.
Qed.

(** A message that was not distributed yet, or an event without one, changes nothing. *)
Lemma heard_more c es1 es2 G : (distributed (home c) (es1 ++ Up (home c) c :: es2) <= length (messages (es1 ++ Up (home c) c :: es2)))%nat ->
  heard c es1 es2 (messages (es1 ++ Up (home c) c :: es2) ++ G) = heard c es1 es2 (messages (es1 ++ Up (home c) c :: es2)).
Proof. intros H. unfold heard. rewrite take_app_le; [done |]. pose proof (heard_bound c es1 es2). lia. Qed.

Lemma heard_quiet c es1 es2 e G : distributed (home c) ((es1 ++ Up (home c) c :: es2) ++ [e]) = distributed (home c) (es1 ++ Up (home c) c :: es2) ->
  heard c es1 (es2 ++ [e]) G = heard c es1 es2 G.
Proof.
  intros H. unfold heard. rewrite until_down_snoc. destruct (decide (until_down c es2 = es2)) as [-> |]; [|done].
  destruct (until_down_prefix c [e]) as [rest E]. destruct (until_down c [e]) as [|e' r] eqn:Eu; [by rewrite app_nil_r |].
  assert (Hr : e' :: r = [e]) by (destruct e; cbn in Eu; try done; by case_match). rewrite Hr.
  by rewrite app_comm_cons, app_assoc, H.
Qed.

Lemma until_down_snoc_iff c es e : until_down c (es ++ [e]) = es ++ [e] <-> until_down c es = es /\ until_down c [e] = [e].
Proof.
  rewrite until_down_snoc. destruct (decide (until_down c es = es)) as [E | E].
  - split; [intros H%app_inv_head; done | by intros [_ ->]].
  - split; [|by intros [? _]]. intros H. destruct (until_down_prefix c es) as [rest E']. apply (f_equal length) in E'.
    rewrite H, !length_app in E'. cbn in E'. lia.
Qed.

(** An event other than a functor sends nothing. *)
Lemma quiet_step h s s' e : ordered h s -> (forall c, wire_of c s' = wire_of c s) ->
  match e with RunFunctor _ => False | Up _ c => c ∉ ups h | _ => True end ->
  (forall c, c ∉ ups (h ++ [e]) -> wire_of c s' = []) /\
  (forall c es1 es2, h ++ [e] = es1 ++ Up (home c) c :: es2 ->
    wire_of c s' = if bool_decide (home c ∈ ls) then map frame (heard c es1 es2 (messages (h ++ [e]))) else []).
Proof.
  intros [Hl Hq Hn Hh Hu Hw Hz] Ew He. assert (Ed : forall l, distributed l (h ++ [e]) = distributed l h) by (intros l; rewrite distributed_snoc; by destruct e).
  split; [intros c Hc; rewrite Ew; apply Hn; intros ?; apply Hc; rewrite ups_app, elem_of_app; by left |].
  intros c es1 es2 [(-> & -> & <-) | (es & -> & E)]%snoc_split; rewrite Ew.
  - rewrite (Hn c He). unfold heard. cbn [until_down]. rewrite Ed, drop_ge by (rewrite length_take; lia). by case_bool_decide.
  - rewrite (Hw c es1 es E). destruct (bool_decide _); [|done]. rewrite heard_quiet by (by rewrite <-E). rewrite messages_app, E, heard_more; [done |]. apply count_ok.
Qed.

Lemma message_step h s m : ordered h s -> zlen m <= 65536 -> ordered (h ++ [Message m]) (onStringMessage m s).
Proof using ls_nodup.
  intros HO Hm. pose proof HO as [Hl Hq Hn Hh Hu Hw Hz]. unfold onStringMessage. rewrite Hl.
  destruct (queue_all_ok m (elements (list_to_set ls : gset Z)) s (NoDup_elements _)) as (E1 & E2 & E3 & E4).
  set (s' := queue_all m _ s) in *. assert (Ein : forall l, instance l s' = instance l s) by (intros l; unfold instance; by rewrite E2).
  destruct (quiet_step h s s' (Message m) HO) as [Hn' Hw']; [intros c; unfold wire_of; by rewrite E3 | done |].
  split; [by rewrite E1 | | done | | | done |].
  - intros l. rewrite E4, Hq, distributed_snoc, messages_app, (bool_decide_ext (l ∈ elements (list_to_set ls : gset Z)) (l ∈ ls)) by (by rewrite elem_of_elements, elem_of_list_to_set).
    case_bool_decide; [|done]. by rewrite drop_app_le by apply count_ok.
  - intros l c. rewrite Ein, ups_app, elem_of_app. intros [? ?]%Hh. by split; [|left].
  - intros c es1 es2 [(_ & _ & [=]) | (es & -> & E)]%snoc_split. rewrite Ein, (Hu c es1 es E), until_down_snoc_iff. naive_solver.
  - rewrite messages_app. apply list.Forall_app. split; [done | by constructor].
Qed.

Lemma instance_insert l (v : gset Z) s l' : instance l' (set_local (<[l := v]> (local_ s)) s) = if l' =? l then v else instance l' s.
Proof.
  unfold instance. cbn. destruct (Z.eqb_spec l' l) as [-> | Hne]; [by rewrite lookup_insert_eq | by rewrite lookup_insert_ne].
Qed.

Lemma up_step h s c : ordered h s -> c ∉ ups h -> ordered (h ++ [Up (home c) c]) (onConnection (home c) c true s).
Proof using ls_nodup.
  intros HO Hc. pose proof HO as [Hl Hq Hn Hh Hu Hw Hz].
  destruct (quiet_step h s (onConnection (home c) c true s) (Up (home c) c) HO) as [Hn' Hw']; [done | done |].
  unfold onConnection in *. split; [done | | done | | | done | by rewrite messages_app, app_nil_r].
  - intros l. rewrite distributed_snoc, messages_app, app_nil_r. apply Hq.
  - intros l c'. rewrite instance_insert, ups_app, elem_of_app. destruct (Z.eqb_spec l (home c)) as [-> | Hne]; [|intros [? ?]%Hh; by split; [|left]].
    rewrite elem_of_union, elem_of_singleton. intros [-> | [? ?]%Hh]; [by split; [|right; left] | by split; [|left]].
  - intros c' es1 es2 HE. rewrite instance_insert. apply snoc_split in HE as [(-> & -> & [= ? ->]) | (es & -> & E)].
    + rewrite Z.eqb_refl. set_solver.
    + assert (Hne : c' <> c) by (intros ->; apply Hc; rewrite E, ups_app, elem_of_app; right; left).
      rewrite until_down_snoc_iff, <-(Hu c' es1 es E). destruct (Z.eqb_spec (home c') (home c)) as [-> |]; set_solver.
Qed.

Lemma down_step h s c : ordered h s -> ordered (h ++ [Down (home c) c]) (onConnection (home c) c false s).
Proof using ls_nodup.
  intros HO. pose proof HO as [Hl Hq Hn Hh Hu Hw Hz].
  destruct (quiet_step h s (onConnection (home c) c false s) (Down (home c) c) HO) as [Hn' Hw']; [done | done |].
  unfold onConnection in *. split; [done | | done | | | done | by rewrite messages_app, app_nil_r].
  - intros l. rewrite distributed_snoc, messages_app, app_nil_r. apply Hq.
  - intros l c'. rewrite instance_insert, ups_app, elem_of_app. destruct (Z.eqb_spec l (home c)) as [-> | Hne].
    + rewrite elem_of_difference. intros [[? ?]%Hh _]. by split; [|left].
    + intros [? ?]%Hh. by split; [|left].
  - intros c' es1 es2 [(_ & _ & [=]) | (es & -> & E)]%snoc_split. rewrite instance_insert, until_down_snoc_iff, <-(Hu c' es1 es E). cbn [until_down].
    destruct (Z.eqb_spec c c') as [-> | Hne]; [rewrite Z.eqb_refl; set_solver |]. destruct (Z.eqb_spec (home c') (home c)) as [-> |]; set_solver.
Qed.

(** The functor at the head of the queue: every connection of the loop is sent its message. *)
Lemma functor_wire h s l m (w : gmap Z (list bytes)) : ordered h s -> l ∈ ls -> messages h !! distributed l h = Some m ->
  (forall c, default [] (w !! c) = wire_of c s ++ (if bool_decide (c ∈ elements (instance l s)) then [frame m] else [])) ->
  (forall c, c ∉ ups (h ++ [RunFunctor l]) -> default [] (w !! c) = []) /\
  (forall c es1 es2, h ++ [RunFunctor l] = es1 ++ Up (home c) c :: es2 ->
    default [] (w !! c) = if bool_decide (home c ∈ ls) then map frame (heard c es1 es2 (messages (h ++ [RunFunctor l]))) else []).
Proof.
  intros [Hl Hq Hn Hh Hu Hw Hz] Hin Hm Ew. setoid_rewrite (fun c => bool_decide_ext _ _ (elem_of_elements (instance l s) c)) in Ew.
  assert (Hlt : (distributed l h < length (messages h))%nat) by (by apply lookup_lt_Some in Hm).
  rewrite messages_app, ups_app, !app_nil_r. split.
  { intros c Hc. rewrite Ew, (Hn c Hc). rewrite bool_decide_eq_false_2; [done |]. by intros [_ ?]%Hh. }
  intros c es1 es2 [(_ & _ & [=]) | (es & -> & E)]%snoc_split. rewrite Ew, (Hw c es1 es E).
  destruct (decide (home c = l)) as [<- | Hne].
  - rewrite !(bool_decide_eq_true_2 (home c ∈ ls)) by done. destruct (decide (until_down c es = es)) as [Hd | Hd].
    + rewrite bool_decide_eq_true_2 by (by apply (Hu c es1 es E)). unfold heard. rewrite until_down_snoc, decide_True by done. rewrite Hd, <-E.
      cbn [until_down]. rewrite app_comm_cons, app_assoc, <-E, distributed_snoc, Z.eqb_refl, (proj2 (Nat.ltb_lt _ _) Hlt). cbn [andb].
      rewrite (take_S_r _ _ m Hm), drop_app_le, map_app; [done |]. rewrite length_take. pose proof (distributed_mono (home c) es1 (Up (home c) c :: es)) as H. rewrite <-E in H. lia.
    + rewrite bool_decide_eq_false_2 by (by rewrite (Hu c es1 es E)). unfold heard. by rewrite until_down_snoc, decide_False, app_nil_r.
  - rewrite (bool_decide_eq_false_2 (c ∈ instance l s)), app_nil_r by (by intros [? _]%Hh). destruct (bool_decide _); [|done].
    rewrite heard_quiet; [done |]. rewrite distributed_snoc. by rewrite (proj2 (Z.eqb_neq l (home c))).
Qed.

Lemma idle_step h s l : ordered h s -> queue_of l s = [] -> ordered (h ++ [RunFunctor l]) s.
Proof.
  intros [Hl Hq Hn Hh Hu Hw Hz] Eq.
  assert (Ed : forall l', l' ∈ ls -> distributed l' (h ++ [RunFunctor l]) = distributed l' h).
  { intros l' Hin. rewrite distributed_snoc. destruct (Z.eqb_spec l l') as [<- |]; [|done]. rewrite Hq, bool_decide_eq_true_2 in Eq by done.
    apply (f_equal length) in Eq. rewrite length_drop in Eq. cbn in Eq. destruct (Nat.ltb_spec (distributed l h) (length (messages h))); [lia | done]. }
  split; rewrite ?messages_app, ?ups_app, ?app_nil_r; try done.
  - intros l'. rewrite Hq. case_bool_decide; [|done]. by rewrite Ed.
  - intros c es1 es2 [(_ & _ & [=]) | (es & -> & E)]%snoc_split. rewrite (Hu c es1 es E), until_down_snoc_iff. naive_solver.
  - intros c es1 es2 [(_ & _ & [=]) | (es & -> & E)]%snoc_split. rewrite (Hw c es1 es E). case_bool_decide; [|done].
    rewrite heard_quiet; [done |]. rewrite <-E. by apply Ed.
Qed.

Lemma distribute_step h s l : ordered h s -> returns (step (RunFunctor l) s) (ordered (h ++ [RunFunctor l])).
Proof using ls_nodup.
  intros HO. pose proof HO as [Hl Hq Hn Hh Hu Hw Hz]. cbn [step]. destruct (queue_of l s) as [|m rest] eqn:Eq; [by apply idle_step |].
  rewrite Hq in Eq. destruct (bool_decide_reflect (l ∈ ls)) as [Hin |]; [|done].
  assert (Hm : messages h !! distributed l h = Some m) by (rewrite <-(Nat.add_0_r (distributed l h)), <-lookup_drop, Eq; done).
  assert (Hr : rest = drop (S (distributed l h)) (messages h)) by (rewrite (drop_S _ _ _ Hm) in Eq; by injection Eq).
  assert (Hmz : zlen m <= 65536) by (rewrite list.Forall_forall in Hz; apply Hz; by eapply list_elem_of_lookup_2).
  unfold distributeMessage. set (s1 := set_pending (<[l := rest]> (pending s)) s). change (instance l s1) with (instance l s).
  destruct (send_all_ok m (elements (instance l s)) Hmz (set_local (<[l := instance l s]> (local_ s1)) s1) (NoDup_elements _)) as (w & -> & Ew).
  cbn [returns]. destruct (functor_wire h s l m w HO Hin Hm Ew) as [Hn' Hw']. rewrite ups_app, app_nil_r in Hn'. rewrite messages_app, app_nil_r in Hw'.
  assert (Ein : forall l', instance l' (set_wire w (set_local (<[l := instance l s]> (local_ s1)) s1)) = instance l' s).
  { intros l'. etransitivity; [apply (instance_insert l (instance l s) s1 l') |]. by destruct (Z.eqb_spec l' l) as [-> |]. }
  split; rewrite ?messages_app, ?ups_app, ?app_nil_r; try done.
  - intros l'. rewrite distributed_snoc. unfold queue_of, s1. cbn [pending set_pending set_local set_wire]. destruct (Z.eqb_spec l l') as [<- | Hne].
    + rewrite lookup_insert_eq, bool_decide_eq_true_2 by done. apply lookup_lt_Some in Hm. by rewrite (proj2 (Nat.ltb_lt _ _) Hm).
    + rewrite lookup_insert_ne by done. apply Hq.
  - intros l' c. rewrite Ein. apply Hh.
  - intros c es1 es2 [(_ & _ & [=]) | (es & -> & E)]%snoc_split. rewrite Ein, (Hu c es1 es E), until_down_snoc_iff. naive_solver.
Qed.

Lemma steps_ordered es : forall h s, ordered h s -> Forall event_ok es -> NoDup (ups (h ++ es)) -> returns (steps es s) (ordered (h ++ es)).
Proof using ls_nodup.
  induction es as [|e es IH]; intros h s HO He HN; cbn [steps]; [by rewrite app_nil_r |].
  apply list.Forall_cons in He as [He Hes]. replace (h ++ e :: es) with ((h ++ [e]) ++ es) in * by (by rewrite <-app_assoc).
  eapply returns_seq; [|intros s1 H1; by apply IH]. destruct e as [l c|l c|m|l]; cbn [step event_ok] in *; [subst l | subst l | |].
  - cbn [returns]. apply up_step; [done |]. rewrite !ups_app in HN. apply list.NoDup_app in HN as [HN _]. apply list.NoDup_app in HN as (_ & HN & _).
    intros Hc. apply (HN c Hc). left.
  - by apply down_step.
  - by apply message_step.
  - by apply distribute_step.
Qed.

Lemma start_ordered : returns (threads ls init) (ordered []).
Proof using ls_nodup.
  destruct (threads_ok ls [] init) as (s & -> & Hl & Hp & Hw & Hloc); try done. cbn [returns]. cbn [app] in *. split; try done.
  - intros l. unfold queue_of. rewrite Hp. by case_bool_decide.
  - intros c _. unfold wire_of. by rewrite Hw.
  - intros l c. unfold instance. rewrite Hloc. by case_bool_decide.
  - intros c [|? es1] es2; done.
  - intros c [|? es1] es2; done.
Qed.

End order.

(** C12. The messages of all clients form one sequence, the same for everybody.  Let [ls] be the
    loops whose threads ran [threadInit]; [TcpServer] runs it in none, so that [ls] is empty in
    the program and no message reaches anybody.  Whatever the interleaving of connections,
    messages and loops: the queue of each loop of [ls] holds, in order, the messages the loop has
    not distributed yet.  A connection of such a loop is sent, framed, exactly the messages its
    loop distributed while it was up: those of the sequence from the first one that was not yet
    distributed when it came, none lost, repeated or out of order, and all the later ones once
    the queue is empty if it is still up.  A connection of another loop is sent nothing. *)
Theorem broadcast_total_order ls home es : NoDup ls -> Forall (event_ok home) es -> NoDup (ups es) ->
  returns (s ← threads ls init; steps es s) (fun s =>
    (forall l, queue_of l s = if bool_decide (l ∈ ls) then drop (distributed l es) (messages es) else []) /\
    (forall c es1 es2, es = es1 ++ Up (home c) c :: es2 ->
      wire_of c s =
        if bool_decide (home c ∈ ls) then
          map frame (drop (distributed (home c) es1) (take (distributed (home c) (es1 ++ Up (home c) c :: until_down c es2)) (messages es)))
        else [])).
Proof.
  intros HN He Hups. eapply returns_seq; [by apply (start_ordered ls home) |]. intros s0 H0.
  eapply returns_mono; [|apply (steps_ordered ls home HN es [] s0 H0 He Hups)].
  intros s [Hl Hq Hn Hh Hu Hw Hz]. split; [exact Hq | exact Hw].
Qed.

(** Two loops; connection 11 comes after the first message was distributed in its loop, and 30
    is in a loop that never ran [threadInit]. *)
Definition two_loops : list event :=
  [Up 1 10; Up 2 20; Message (lit "hi"); RunFunctor 1; Up 1 11; Message (lit "yo"); Up 3 30; RunFunctor 1; Down 1 10; RunFunctor 2].

Lemma broadcast_total_order_witness :
  returns (s ← threads [1; 2] init; steps two_loops s) (fun s =>
    queue_of 1 s = [] /\ queue_of 2 s = [lit "yo"] /\
    wire_of 10 s = [frame (lit "hi"); frame (lit "yo")] /\ wire_of 20 s = [frame (lit "hi")] /\ wire_of 11 s = [frame (lit "yo")] /\ wire_of 30 s = []).
Proof.
  eapply returns_mono; [|apply (broadcast_total_order [1; 2] (fun c => c / 10) two_loops)].
  - intros s [Hq Hw]. split_and!; [by rewrite (Hq 1) | by rewrite (Hq 2) | | | |].
    + exact (Hw 10 [] (tail two_loops) eq_refl).
    + exact (Hw 20 (take 1 two_loops) (drop 2 two_loops) eq_refl).
    + exact (Hw 11 (take 4 two_loops) (drop 5 two_loops) eq_refl).
    + exact (Hw 30 (take 6 two_loops) (drop 7 two_loops) eq_refl).
  - apply (bool_decide_unpack _). reflexivity.
  - repeat (apply List.Forall_cons || apply List.Forall_nil); cbn [event_ok]; try exact I; try reflexivity; vm_compute; discriminate.
  - apply (bool_decide_unpack _). reflexivity.
Defined.

(** [TcpServer::start] never calls the thread initialisation callback: [loops_] stays empty, and
    a message goes to nobody. *)
Lemma message_without_threadInit m s : loops_ s = ∅ -> onStringMessage m s = s.
Proof. intros E. unfold onStringMessage. by rewrite E, elements_empty. Qed.

End LoopBroadcast.

(** ** server_threaded_efficient.cc *)
Module SharedList.

(** Lists are on a heap with the [shared_ptr]s to them: [connections_] and those of the
    broadcasts in progress, each with the connections it still has to send to. *)
Record t := mk {
  heap : gmap Z (gset Z);
  connections_ : Z;
  broadcasts : list (Z * bytes * list Z);
  next : Z;
  wire : gmap Z (list bytes)
}.

Definition use_count (p : Z) (s : t) : Z :=
  (if connections_ s =? p then 1 else 0) + zlen (List.filter (fun b => b.1.1 =? p) (broadcasts s)).

Definition list_at (p : Z) (s : t) : outcome (gset Z) :=
  match heap s !! p with Some l => Ret l | None => Crash UseAfterFree end.

(** The last owner frees the list. *)
Definition release (p : Z) (s : t) : t :=
  if use_count p s =? 0 then mk (delete p (heap s)) (connections_ s) (broadcasts s) (next s) (wire s) else s.

Definition onConnection (c : Z) (connected : bool) (s : t) : outcome t :=
  s1 ← (if use_count (connections_ s) s =? 1 then
          l ← list_at (connections_ s) s;
          Ret (release (connections_ s) (mk (<[next s := l]> (heap s)) (next s) (broadcasts s) (next s + 1) (wire s)))
        else Ret s);
  _ ← check (use_count (connections_ s1) s1 =? 1);
  l ← list_at (connections_ s1) s1;
  Ret (mk (<[connections_ s1 := if connected : bool then {[c]} ∪ l else l ∖ {[c]}]> (heap s1)) (connections_ s1) (broadcasts s1) (next s1) (wire s1)).

(** [getConnectionList] and the begin of the loop of [onStringMessage]. *)
Definition begin_broadcast (message : bytes) (s : t) : outcome t :=
  l ← list_at (connections_ s) s;
  Ret (mk (heap s) (connections_ s) (broadcasts s ++ [(connections_ s, message, elements l)]) (next s) (wire s)).

(** A connection event works when no broadcast is in progress, and fails its assertion, the
    condition of the copy being the wrong way round, whenever one is. *)
Lemma onConnection_during_broadcast c up s l : heap s !! connections_ s = Some l -> heap s !! next s = None ->
  (Forall (fun b => b.1.1 < next s) (broadcasts s)) -> connections_ s < next s ->
  if List.existsb (fun b => b.1.1 =? connections_ s) (broadcasts s) then onConnection c up s = Crash AssertFailed
  else returns (onConnection c up s) (fun s' => heap s' !! connections_ s' = Some (if up then {[c]} ∪ l else l ∖ {[c]})).
Proof.
  intros Hl Hn Hb Hlt. unfold onConnection, use_count. rewrite Z.eqb_refl.
  destruct (List.existsb _ (broadcasts s)) eqn:E.
  - apply existsb_exists in E as (b & Hin & Eb). assert (Hf : b ∈ List.filter (fun b => b.1.1 =? connections_ s) (broadcasts s)).
    { apply list_elem_of_In, filter_In. done. }
    destruct (List.filter _ (broadcasts s)) as [|b0 bs] eqn:Ef; [by apply elem_of_nil in Hf |]. rewrite zlen_cons. pose proof (zlen_nonneg bs).
    rewrite (proj2 (Z.eqb_neq (1 + (1 + zlen bs)) 1)) by lia. rewrite bind_Ret. rewrite Z.eqb_refl, Ef, zlen_cons.
    rewrite (proj2 (Z.eqb_neq (1 + (1 + zlen bs)) 1)) by lia. done.
  - assert (Ef : forall p, (forall b, b ∈ broadcasts s -> b.1.1 <> p) -> List.filter (fun b => b.1.1 =? p) (broadcasts s) = []).
    { intros p Hp. generalize (broadcasts s), Hp. clear. intros bs. induction bs as [|b bs IH]; intros Hp; [done |]. cbn.
      rewrite (proj2 (Z.eqb_neq b.1.1 p)) by (apply Hp; left). apply IH. intros b' Hb'. apply Hp. by right. }
    rewrite (Ef (connections_ s)). 2:{ intros b Hin Eb. apply not_true_iff_false in E. apply E, existsb_exists. exists b. rewrite <-list_elem_of_In. split; [done | by apply Z.eqb_eq]. }
    change (1 + zlen []) with 1. rewrite Z.eqb_refl. unfold list_at. rewrite Hl, !bind_Ret. unfold release, use_count. cbn [connections_ broadcasts].
    rewrite (proj2 (Z.eqb_neq (next s) (connections_ s))) by lia. rewrite (Ef (connections_ s)).
    2:{ intros b Hin Eb. apply not_true_iff_false in E. apply E, existsb_exists. exists b. rewrite <-list_elem_of_In. split; [done | by apply Z.eqb_eq]. }
    change (0 + zlen [] =? 0) with true. cbn [connections_ broadcasts heap next wire]. rewrite Z.eqb_refl, (Ef (next s)).
    2:{ intros b Hin Eb. rewrite list.Forall_forall in Hb. specialize (Hb b Hin). lia. }
    cbn. rewrite lookup_delete_ne, lookup_insert_eq by lia. rewrite check_bind, bind_Ret by done. cbn [returns heap connections_]. apply lookup_insert_eq.
Qed.

(** Someone connects while a message is being sent around. *)
Example connection_during_broadcast :
  (s ← onConnection 1 true (mk {[0 := ∅]} 0 [] 1 ∅); s ← begin_broadcast (lit "hi") s; onConnection 2 true s) = Crash AssertFailed.
Proof. vm_compute. reflexivity. Qed.

End SharedList.

(** ** hub_threaded_efficient.cc *)
Module TopicTable.

(** [topics_] is the only owner of the table on the heap; a [Topic] is its audience here. *)
Record t := mk { heap : gmap Z (gmap bytes (gset Z)); topics_ : Z; next : Z }.

Definition PubSubServer : t := mk {[0 := ∅]} 0 1.

(** [getTopic]: nobody else ever owns the table, so [unique] holds and every call copies it and
    frees the old one; the answer is a reference into the new table. *)
Definition getTopic (topic : bytes) (s : t) : outcome (Z * t) :=
  match heap s !! topics_ s with
  | None => Crash UseAfterFree
  | Some table =>
      let table' := match table !! topic with Some _ => table | None => <[topic := ∅]> table end in
      Ret (next s, mk (<[next s := table']> (delete (topics_ s) (heap s))) (next s) (next s + 1))
  end.

(** [Topic::add] through such a reference, after the mutex was released. *)
Definition add (ref : Z) (topic : bytes) (c : Z) (s : t) : outcome t :=
  match heap s !! ref with
  | None => Crash UseAfterFree
  | Some table =>
      match table !! topic with
      | None => Crash UseAfterFree
      | Some audiences => Ret (mk (<[ref := <[topic := {[c]} ∪ audiences]> table]> (heap s)) (topics_ s) (next s))
      end
  end.

Definition subscribe (topic : bytes) (c : Z) (s : t) : outcome t := '(ref, s1) ← getTopic topic s; add ref topic c s1.

Definition audience (topic : bytes) (s : t) : option (gset Z) := table ← heap s !! topics_ s; table !! topic.

(** One thread at a time: a subscription is recorded, the other topics keep theirs. *)
Lemma subscribe_alone topic c s table : heap s !! topics_ s = Some table -> topics_ s <> next s ->
  returns (subscribe topic c s) (fun s' => audience topic s' = Some ({[c]} ∪ default ∅ (table !! topic)) /\
    forall topic', topic' <> topic -> audience topic' s' = table !! topic').
Proof.
  intros Ht Hn. unfold subscribe, getTopic. rewrite Ht, bind_Ret. unfold add, audience. cbn. rewrite lookup_insert_eq.
  destruct (table !! topic) as [a|] eqn:E; cbn; rewrite ?E, ?lookup_insert_eq; cbn; rewrite lookup_insert_eq; cbn;
    (split; [by rewrite lookup_insert_eq |]); intros topic' Hne; by rewrite !lookup_insert_ne by done.
Qed.

(** Two threads: between the [getTopic] of one and its [add] another one calls [getTopic], and
    the reference dangles. *)
Example subscription_races :
  ('(ref, s1) ← getTopic (lit "a") PubSubServer; '(_, s2) ← getTopic (lit "b") s1; add ref (lit "a") 7 s2) = Crash UseAfterFree.
Proof. vm_compute. reflexivity. Qed.

End TopicTable.
