(* ===== verification/SimpleChat.v ===== *)
(** * excercises/chat: the chat server without users, its client and its load test

    [ChatServer] is chat/server.cc, and chat/server_threaded.cc, whose handlers are the same under
    a mutex.  [ChatClient] is chat/client.cc.  [ChatLoadTest] is chat/loadtest.cc (the copy in
    excercises/chatServer is identical), alone and against that server.  Between the two is the
    codec of LengthCodec.v: what is framed on one side is delivered on the other. *)

From S2P Require Import Prelude Endian NetBuffer Framing LengthCodec Threads.

(** ** Frames on the connections *)

(** The frames given to each connection. *)
Abbreviation wires := (gmap Z (list bytes)).

Definition wire_of (c : Z) (w : wires) : list bytes := default [] (w !! c).

(** [codec_.send] to a connection. *)
Definition codec_send (message : bytes) (c : Z) (w : wires) : outcome wires :=
  buf ← LengthHeaderCodec.send message;
  data ← load (Buffer.peek buf) (Buffer.readableBytes buf) (Buffer.buffer_ buf);
  Ret (<[c := wire_of c w ++ [data]]> w).

Lemma chat_codec_send_ok m c w : zlen m <= 65536 -> codec_send m c w = Ret (<[c := wire_of c w ++ [frame m]]> w).
Proof.
  intros Hm. unfold codec_send. pose proof (LengthHeaderCodec.send_ok m Hm) as HS. destruct (LengthHeaderCodec.send m) as [b|]; [|done].
  destruct HS as [W E]. rewrite bind_Ret, Buffer.readable_ok by done. unfold Buffer.peek. by rewrite Buffer.load_contents, bind_Ret, E.
Qed.

Lemma wire_of_insert c c' l w : wire_of c' (<[c := l]> w) = if c' =? c then l else wire_of c' w.
Proof. unfold wire_of. destruct (Z.eqb_spec c' c) as [-> | Hne]; [by rewrite lookup_insert_eq | by rewrite lookup_insert_ne]. Qed.

(** ** server.cc *)
Module ChatServer.

Record t := mk { connections_ : gset Z; wire : wires }.

Definition ChatServer : t := mk ∅ ∅.

Definition onConnection (c : Z) (connected : bool) (s : t) : t :=
  mk (if connected then {[c]} ∪ connections_ s else connections_ s ∖ {[c]}) (wire s).

(** The loop over the set. *)
Fixpoint send_all (message : bytes) (cs : list Z) (w : wires) : outcome wires :=
  match cs with [] => Ret w | c :: cs' => w1 ← codec_send message c w; send_all message cs' w1 end.

Definition onStringMessage (message : bytes) (s : t) : outcome t :=
  w ← send_all message (elements (connections_ s)) (wire s); Ret (mk (connections_ s) w).

Lemma chat_send_all_ok m cs : zlen m <= 65536 -> forall w, NoDup cs -> returns (send_all m cs w) (fun w' =>
  forall c, wire_of c w' = wire_of c w ++ (if bool_decide (c ∈ cs) then [frame m] else [])).
Proof.
  intros Hm. induction cs as [|c cs IH]; intros w HN; cbn [send_all].
  - intros c. rewrite bool_decide_eq_false_2 by apply not_elem_of_nil. by rewrite app_nil_r.
  - apply list.NoDup_cons in HN as [Hc HN]. rewrite chat_codec_send_ok, bind_Ret by done. eapply returns_mono; [|by apply IH].
    intros w' Hw c'. rewrite Hw, wire_of_insert. destruct (Z.eqb_spec c' c) as [-> | Hne].
    + rewrite bool_decide_eq_false_2, bool_decide_eq_true_2 by (done || left). by rewrite app_nil_r.
    + f_equal. assert (E : c' ∈ cs <-> c' ∈ c :: cs) by (rewrite elem_of_cons; naive_solver). by rewrite (bool_decide_ext _ _ E).
Qed.

Lemma onStringMessage_ok m s : zlen m <= 65536 -> returns (onStringMessage m s) (fun s' => connections_ s' = connections_ s /\
  forall c, wire_of c (wire s') = wire_of c (wire s) ++ (if bool_decide (c ∈ connections_ s) then [frame m] else [])).
Proof.
  intros Hm. unfold onStringMessage. eapply returns_seq; [apply chat_send_all_ok; [done | apply NoDup_elements] |]. intros w Hw. split; [done |].
  intros c. cbn [wire]. by rewrite Hw, (bool_decide_ext _ (c ∈ connections_ s)) by apply elem_of_elements.
Qed.

(** What the server is told, in order. *)
Inductive event := Up (c : Z) | Down (c : Z) | Message (message : bytes).

Definition step (e : event) (s : t) : outcome t :=
  match e with
  | Up c => Ret (onConnection c true s)
  | Down c => Ret (onConnection c false s)
  | Message m => onStringMessage m s
  end.

Fixpoint steps (es : list event) (s : t) : outcome t :=
  match es with [] => Ret s | e :: es' => s1 ← step e s; steps es' s1 end.

(** The messages that arrive while [c] is connected. *)
Fixpoint heard (c : Z) (connected : bool) (es : list event) : list bytes :=
  match es with
  | [] => []
  | Up c' :: es' => heard c (connected || (c =? c')) es'
  | Down c' :: es' => heard c (connected && negb (c =? c')) es'
  | Message m :: es' => (if connected then [m] else []) ++ heard c connected es'
  end.

Definition event_ok (e : event) : Prop := match e with Message m => zlen m <= 65536 | _ => True end.

Lemma onConnection_member c c' up s : bool_decide (c ∈ connections_ (onConnection c' up s)) =
  if up then bool_decide (c ∈ connections_ s) || (c =? c') else bool_decide (c ∈ connections_ s) && negb (c =? c').
Proof.
  destruct up; cbn [onConnection connections_]; destruct (Z.eqb_spec c c') as [-> | Hne]; repeat case_bool_decide; try done; set_solver.
Qed.

(** Every connection is sent, framed, the messages that arrive while it is connected and no
    others, in their order, its own among them. *)
Lemma everybody_hears es : forall s, Forall event_ok es -> returns (steps es s) (fun s' =>
  forall c, wire_of c (wire s') = wire_of c (wire s) ++ map frame (heard c (bool_decide (c ∈ connections_ s)) es)).
Proof.
  induction es as [|e es IH]; intros s He; cbn [steps]; [intros c; by rewrite app_nil_r |].
  apply list.Forall_cons in He as [He Hes]. destruct e as [c'|c'|m]; cbn [step].
  1, 2: rewrite bind_Ret; eapply returns_mono; [|by apply IH]; intros s' H c; by rewrite H, onConnection_member.
  eapply returns_seq; [by apply onStringMessage_ok |]. intros s1 [E1 E2]. eapply returns_mono; [|by apply IH].
  intros s' H c. rewrite H, E1, E2, <-app_assoc. f_equal. cbn [heard]. rewrite map_app. by case_bool_decide.
Qed.

Example server_example :
  (s ← steps [Up 1; Up 2; Message (lit "hi"); Down 2; Message (lit "yo")] ChatServer; Ret (wire_of 1 (wire s), wire_of 2 (wire s))) =
  Ret ([frame (lit "hi"); frame (lit "yo")], [frame (lit "hi")]).
Proof. vm_compute. reflexivity. Qed.

End ChatServer.

(** ** client.cc *)
Module ChatClient.

(** [connection_] and the frames written; a line read from the terminal is written in the main
    thread, [onConnection] runs in the loop's thread, both as one step (the second without the
    mutex the first takes). *)
Record t := mk { connection_ : option Z; written : wires }.

Definition onConnection (c : Z) (connected : bool) (s : t) : t := mk (if connected then Some c else None) (written s).

Definition write (message : bytes) (s : t) : outcome t :=
  match connection_ s with
  | Some c => w ← codec_send message c (written s); Ret (mk (connection_ s) w)
  | None => Ret s
  end.

Fixpoint write_lines (lines : list bytes) (s : t) : outcome t :=
  match lines with [] => Ret s | l :: lines' => s1 ← write l s; write_lines lines' s1 end.

(** Lines typed while there is a connection are written to it as frames; lines typed before are
    dropped. *)
Lemma write_lines_ok lines : forall s, Forall (fun l => zlen l <= 65536) lines -> returns (write_lines lines s) (fun s' =>
  connection_ s' = connection_ s /\
  forall c, wire_of c (written s') = wire_of c (written s) ++ (if bool_decide (connection_ s = Some c) then map frame lines else [])).
Proof.
  induction lines as [|l lines IH]; intros s Hl; cbn [write_lines]; [split; [done |]; intros c; case_bool_decide; by rewrite app_nil_r |].
  apply list.Forall_cons in Hl as [Hl Hls]. unfold write. destruct (connection_ s) as [c0|] eqn:E.
  - rewrite chat_codec_send_ok, !bind_Ret by done. eapply returns_mono; [|by apply IH]. cbn [connection_ written]. intros s' [E1 E2]. split; [congruence |].
    intros c. rewrite E2, wire_of_insert, ?E. destruct (Z.eqb_spec c c0) as [-> | Hne]; [by rewrite bool_decide_eq_true_2, <-app_assoc by done |].
    by rewrite bool_decide_eq_false_2 by congruence.
  - rewrite bind_Ret. eapply returns_mono; [|by apply IH]. intros s' [E1 E2]. split; [congruence |]. intros c. by rewrite E2, E.
Qed.

End ChatClient.

(** ** loadtest.cc *)
Module ChatLoadTest.

(** A client, with a number for the connection it has to the server. *)
Record client := mkClient { connection_ : option Z; receiveTime_ : option Z }.

(** The globals, the clients of [main], the timers [send] waits in (client), the functors
    [g_statistic] queued in [g_loop], and the frames written to the server. *)
Record t := mk {
  g_connections : Z;
  g_aliveConnections : Atomic.t;
  g_messagesReceived : Atomic.t;
  g_startTime : option Z;
  clients : gmap Z client;
  timers : list Z;
  statistics : nat;
  written : wires
}.

Definition hello : bytes := lit "hello".

(** What [main] has set up when the loops run. *)
Definition main_ (connections : Z) : t :=
  mk connections Atomic.AtomicIntegerT Atomic.AtomicIntegerT None
    (list_to_map (map (fun i => (i, mkClient None None)) (seqZ 0 connections))) [] 0 ∅.

Definition client_at (i : Z) (g : t) : outcome client :=
  match clients g !! i with Some c => Ret c | None => Crash UseAfterFree end.

Definition set_client (i : Z) (c : client) (g : t) : t :=
  mk (g_connections g) (g_aliveConnections g) (g_messagesReceived g) (g_startTime g) (<[i := c]> (clients g)) (timers g) (statistics g) (written g).

Definition onConnection (i conn : Z) (connected : bool) (g : t) : outcome t :=
  c ← client_at i g;
  if connected then
    let g1 := set_client i (mkClient (Some conn) (receiveTime_ c)) g in
    '(alive, v) ← Atomic.incrementAndGet (g_aliveConnections g1);
    Ret (mk (g_connections g1) v (g_messagesReceived g1) (g_startTime g1) (clients g1)
      (if alive =? g_connections g1 then timers g1 ++ [i] else timers g1) (statistics g1) (written g1))
  else Ret (set_client i (mkClient None (receiveTime_ c)) g).

(** [now] is the loop's [pollReturnTime]. *)
Definition onStringMessage (i now : Z) (g : t) : outcome t :=
  c ← client_at i g;
  let g1 := set_client i (mkClient (connection_ c) (Some now)) g in
  '(received, v) ← Atomic.incrementAndGet (g_messagesReceived g1);
  Ret (mk (g_connections g1) (g_aliveConnections g1) v (g_startTime g1) (clients g1) (timers g1)
    (if received =? g_connections g1 then S (statistics g1) else statistics g1) (written g1)).

Definition send (i now : Z) (g : t) : outcome t :=
  c ← client_at i g;
  match connection_ c with
  | None => Crash NullPointer
  | Some conn =>
      w ← codec_send hello conn (written g);
      Ret (mk (g_connections g) (g_aliveConnections g) (g_messagesReceived g) (Some now) (clients g) (timers g) (statistics g) w)
  end.

(** The rows [statistic] prints: the percentage and the place in the sorted times; [None] where
    the code reads outside the vector. *)
Definition row (n percent i : nat) : option (nat * nat) := if (i <? n)%nat then Some (percent, i) else None.

Fixpoint rows_from (fuel n i : nat) : list (option (nat * nat)) :=
  match fuel with
  | O => []
  | S f => if (i <? n)%nat then row n (i * 100 / n) i :: rows_from f n (i + Nat.max 1 (n / 20)) else []
  end.

Definition statistic (n : nat) : list (option (nat * nat)) :=
  rows_from n n 0 ++ (if (100 <=? n)%nat then [row n 99 (n - n / 100)] else []) ++ [row n 100 (n - 1)].

(** ** Against the server *)

(** [seen]: how many of the frames the server sent a client have been delivered to it. *)
Record system := Sys { server : ChatServer.t; test : t; seen : gmap Z nat }.

Definition seen_of (i : Z) (s : system) : nat := default 0%nat (seen s !! i).

Inductive event :=
| Connect (i : Z)                 (* client [i] and the server learn of their connection *)
| Timer (now : Z)                 (* the first timer is due; its message reaches the server *)
| Deliver (i now : Z).            (* the next frame for client [i] reaches it *)

Definition enabled (e : event) (s : system) : bool :=
  match e with
  | Connect i => match clients (test s) !! i with Some (mkClient None _) => true | _ => false end
  | Timer _ => match timers (test s) with [] => false | _ => true end
  | Deliver i _ => (seen_of i s <? length (wire_of i (ChatServer.wire (server s))))%nat
  end.

Definition drop_timer (g : t) : t :=
  mk (g_connections g) (g_aliveConnections g) (g_messagesReceived g) (g_startTime g) (clients g) (tail (timers g)) (statistics g) (written g).

Definition step (e : event) (s : system) : outcome system :=
  match e with
  | Connect i => g ← onConnection i i true (test s); Ret (Sys (ChatServer.onConnection i true (server s)) g (seen s))
  | Timer now =>
      match timers (test s) with
      | [] => Ret s
      | i :: _ => g ← send i now (drop_timer (test s)); srv ← ChatServer.onStringMessage hello (server s); Ret (Sys srv g (seen s))
      end
  | Deliver i now => g ← onStringMessage i now (test s); Ret (Sys (server s) g (<[i := S (seen_of i s)]> (seen s)))
  end.

(** The events that are possible when their turn comes happen. *)
Fixpoint run (es : list event) (s : system) : outcome system :=
  match es with [] => Ret s | e :: es' => s1 ← (if enabled e s then step e s else Ret s); run es' s1 end.

Definition start (n : Z) : system := Sys ChatServer.ChatServer (main_ n) ∅.

(** ** The measurement ends *)
Section system.
Variable n : Z.
Hypothesis n_int : 0 < n < 2 ^ 31.

Definition everybody : gset Z := list_to_set (seqZ 0 n).

(** [up] are connected, [rec] have their message, [fired]: the message was sent. *)
Record inv (up rec : gset Z) (fired : bool) (s : system) : Prop := {
  in_n : g_connections (test s) = n;
  in_clients : forall i, i ∈ everybody -> exists r, clients (test s) !! i = Some (mkClient (if bool_decide (i ∈ up) then Some i else None) r) /\ (i ∈ rec <-> is_Some r);
  in_nobody : forall i, i ∉ everybody -> clients (test s) !! i = None;
  in_up : up ⊆ everybody;
  in_rec : rec ⊆ up;
  in_alive : g_aliveConnections (test s) = Z.of_nat (size up);
  in_received : g_messagesReceived (test s) = Z.of_nat (size rec);
  in_server : ChatServer.connections_ (server s) = up;
  in_timers : if fired then timers (test s) = [] /\ up = everybody
              else if bool_decide (up = everybody) then exists j, timers (test s) = [j] /\ j ∈ up else timers (test s) = [];
  in_statistics : statistics (test s) = if bool_decide (rec = everybody) then 1%nat else 0%nat;
  in_wire : forall i, wire_of i (ChatServer.wire (server s)) = if fired && bool_decide (i ∈ up) then [frame hello] else [];
  in_seen : forall i, seen_of i s = if bool_decide (i ∈ rec) then 1%nat else 0%nat;
  in_fired : fired = false -> rec = ∅
}.

Lemma elem_everybody i : i ∈ everybody <-> 0 <= i < n.
Proof. unfold everybody. rewrite elem_of_list_to_set, elem_of_seqZ. lia. Qed.

Lemma size_everybody : Z.of_nat (size everybody) = n.
Proof using n_int. unfold everybody. rewrite size_list_to_set by apply NoDup_seqZ. rewrite length_seqZ. lia. Qed.

(** Sets of clients are complete when they have [n] members. *)
Lemma complete_iff (X : gset Z) : X ⊆ everybody -> Z.of_nat (size X) <= n /\ (Z.of_nat (size X) = n <-> X = everybody).
Proof using n_int.
  intros HX. pose proof size_everybody. pose proof (subseteq_size _ _ HX). split; [lia |]. split; [|intros ->; done].
  intros E. apply set_eq. intros i. split; [apply HX |]. intros Hi. destruct (decide (i ∈ X)) as [|Hn]; [done |]. exfalso.
  pose proof (subset_size X everybody ltac:(set_solver)). lia.
Qed.

Lemma size_insert (X : gset Z) i : i ∉ X -> Z.of_nat (size ({[i]} ∪ X)) = Z.of_nat (size X) + 1.
Proof. intros H. rewrite size_union, size_singleton by set_solver. lia. Qed.

Lemma increment_ok v : 0 <= v < 2 ^ 31 - 1 -> Atomic.incrementAndGet v = Ret (v + 1, v + 1).
Proof. intros H. unfold Atomic.incrementAndGet, Atomic.addAndGet, Atomic.getAndAdd. by rewrite i32_ok, bind_Ret, s32_id by lia. Qed.

Lemma start_inv : inv ∅ ∅ false (start n).
Proof using n_int.
  assert (Hne : (∅ : gset Z) <> everybody) by (intros E; assert (0 ∈ (∅ : gset Z)) by (rewrite E; apply elem_everybody; lia); set_solver).
  split; cbn [start test server seen main_ g_connections clients timers statistics g_aliveConnections g_messagesReceived]; try done.
  - intros i Hi%elem_everybody. exists None. rewrite bool_decide_eq_false_2 by set_solver. split; [|split; [set_solver | intros [? ?]; done]].
    apply elem_of_list_to_map_1; [rewrite <-list_fmap_compose; cbn; rewrite list_fmap_id; apply NoDup_seqZ |].
    apply list_elem_of_In, in_map_iff. exists i. split; [done |]. apply list_elem_of_In, elem_of_seqZ. lia.
  - intros i Hi. apply not_elem_of_list_to_map_1. rewrite <-list_fmap_compose. cbn. rewrite list_fmap_id, elem_of_seqZ.
    rewrite elem_everybody in Hi. lia.
  - by rewrite bool_decide_eq_false_2.
  - by rewrite bool_decide_eq_false_2.
Qed.

Lemma client_of up rec fired s i : inv up rec fired s -> i ∈ everybody ->
  exists r, client_at i (test s) = Ret (mkClient (if bool_decide (i ∈ up) then Some i else None) r) /\ (i ∈ rec <-> is_Some r).
Proof. intros HI Hi. apply (in_clients _ _ _ _ HI) in Hi as (r & E & Hr). exists r. unfold client_at. by rewrite E. Qed.

Lemma connect_step up rec fired s i : inv up rec fired s -> enabled (Connect i) s = true ->
  i ∈ everybody /\ (i ∉ up) /\ returns (step (Connect i) s) (inv ({[i]} ∪ up) rec fired).
Proof using n_int.
  intros HI He. cbn [enabled] in He. destruct (decide (i ∈ everybody)) as [Hi | Hi]; [|by rewrite (in_nobody _ _ _ _ HI i Hi) in He].
  destruct (client_of _ _ _ _ i HI Hi) as (r & Ec & Hr). assert (Hu : i ∉ up).
  { intros Hu. unfold client_at in Ec. destruct (clients (test s) !! i) as [c|]; [|done]. injection Ec as ->. by rewrite bool_decide_eq_true_2 in He. }
  split_and!; [done | done |]. destruct HI as [En Hc Hnb Hup Hrec Ea Er Es Ht Est Hw Hseen Hf].
  assert (Hfired : fired = false) by (destruct fired; [|done]; destruct Ht as [_ ->]; done). subst fired. specialize (Hf eq_refl) as ->.
  pose proof (complete_iff up Hup) as [Hle Hfull]. assert (up <> everybody) by (intros ->; done).
  assert (Hup' : {[i]} ∪ up ⊆ everybody) by set_solver. pose proof (complete_iff _ Hup') as [Hle' Hfull']. rewrite size_insert in * by done.
  rewrite bool_decide_eq_false_2 in Ht, Ec by done.
  cbn [step]. unfold onConnection. rewrite Ec, bind_Ret. cbn [set_client g_aliveConnections]. rewrite Ea, increment_ok, !bind_Ret by lia.
  split; cbn [test server seen ChatServer.onConnection ChatServer.connections_ ChatServer.wire set_client g_connections clients timers statistics g_aliveConnections g_messagesReceived receiveTime_]; try done.
  - intros j Hj. destruct (decide (j = i)) as [-> | Hne].
    + rewrite lookup_insert_eq, bool_decide_eq_true_2 by set_solver. eauto.
    + rewrite lookup_insert_ne by done. rewrite (bool_decide_ext _ (j ∈ up)) by set_solver. by apply Hc.
  - intros j Hj. rewrite lookup_insert_ne by (by intros ->). by apply Hnb.
  - by rewrite size_insert.
  - by rewrite Es.
  - rewrite En, Ht. destruct (bool_decide_reflect ({[i]} ∪ up = everybody)) as [E | E].
    + rewrite (proj2 (Z.eqb_eq _ _)) by (by apply Hfull'). exists i. split; [done | set_solver].
    + by rewrite (proj2 (Z.eqb_neq _ _)) by (by rewrite Hfull').
Qed.

Lemma timer_step up rec fired s now : inv up rec fired s -> enabled (Timer now) s = true ->
  fired = false /\ up = everybody /\ returns (step (Timer now) s) (inv up rec true).
Proof using n_int.
  intros HI He. pose proof HI as [En Hc Hnb Hup Hrec Ea Er Es Ht Est Hw Hseen Hf]. cbn [enabled step] in *. destruct fired; [destruct Ht as [Ht _]; by rewrite Ht in He |].
  destruct (bool_decide_reflect (up = everybody)) as [Hall | Hall]; [|by rewrite Ht in He]. destruct Ht as (j & Ht & Hj). rewrite Ht. split_and!; [done | done |].
  destruct (client_of _ _ _ _ j HI ltac:(set_solver)) as (r & Ec & Hr). rewrite bool_decide_eq_true_2 in Ec by done.
  unfold send. change (client_at j (drop_timer (test s))) with (client_at j (test s)). rewrite Ec, bind_Ret. cbn [connection_].
  rewrite chat_codec_send_ok, !bind_Ret by (vm_compute; discriminate).
  eapply returns_seq; [apply ChatServer.onStringMessage_ok; vm_compute; discriminate |]. intros srv [Esrv Ewire]. specialize (Hf eq_refl) as ->.
  split; cbn [test server seen drop_timer g_connections clients timers statistics g_aliveConnections g_messagesReceived]; try done.
  - by rewrite Esrv.
  - by rewrite Ht.
  - intros i. by rewrite Ewire, Hw, Es.
Qed.

Lemma deliver_step up rec fired s i now : inv up rec fired s -> enabled (Deliver i now) s = true ->
  i ∈ everybody /\ (i ∉ rec) /\ fired = true /\ returns (step (Deliver i now) s) (inv up ({[i]} ∪ rec) fired).
Proof using n_int.
  intros HI He. pose proof HI as [En Hc Hnb Hup Hrec Ea Er Es Ht Est Hw Hseen Hf]. cbn [enabled step] in *. rewrite Hw, Hseen in He.
  destruct fired; [|apply Nat.ltb_lt in He; cbn in He; lia]. apply Nat.ltb_lt in He. cbn [andb] in He.
  destruct (bool_decide_reflect (i ∈ up)) as [Hu | Hu]; [|cbn in He; lia]. destruct (bool_decide_reflect (i ∈ rec)) as [Hr | Hr]; [cbn in He; lia |].
  assert (Hi : i ∈ everybody) by set_solver. split_and!; [done | done | done |]. destruct Ht as [Ht Hall].
  destruct (client_of _ _ _ _ i HI Hi) as (r & Ec & Hr').
  assert (Hrec' : {[i]} ∪ rec ⊆ everybody) by set_solver. pose proof (complete_iff _ Hrec') as [Hle' Hfull'].
  assert (Hrecne : rec <> everybody) by (intros ->; done). rewrite size_insert in * by done. rewrite bool_decide_eq_false_2 in Est by done.
  rewrite bool_decide_eq_true_2 in Ec by done.
  unfold onStringMessage. rewrite Ec, bind_Ret. cbn [set_client g_messagesReceived]. rewrite Er, increment_ok, !bind_Ret by lia.
  split; cbn [test server seen set_client g_connections clients timers statistics g_aliveConnections g_messagesReceived connection_]; try done.
  - intros j Hj. destruct (decide (j = i)) as [-> | Hne].
    + rewrite lookup_insert_eq, bool_decide_eq_true_2 by done. exists (Some now). split; [done |]. split; [done | set_solver].
    + rewrite lookup_insert_ne by done. destruct (Hc j Hj) as (r0 & E0 & Hr0). exists r0. split; [done |]. set_solver.
  - intros j Hj. rewrite lookup_insert_ne by (by intros ->). by apply Hnb.
  - set_solver.
  - by rewrite size_insert.
  - rewrite En, Est. destruct (bool_decide_reflect ({[i]} ∪ rec = everybody)) as [E | E].
    + by rewrite (proj2 (Z.eqb_eq _ _)) by (by apply Hfull').
    + by rewrite (proj2 (Z.eqb_neq _ _)) by (by rewrite Hfull').
  - intros j. unfold seen_of at 1. cbn [seen]. destruct (decide (j = i)) as [-> | Hne].
    + rewrite lookup_insert_eq, bool_decide_eq_true_2 by set_solver. cbn. fold (seen_of i s). by rewrite Hseen, bool_decide_eq_false_2.
    + rewrite lookup_insert_ne, (bool_decide_ext _ (j ∈ rec)) by set_solver. apply Hseen.
Qed.

(** A client that is missing from an incomplete set. *)
Lemma missing (X : gset Z) : X ⊆ everybody -> X <> everybody -> exists i, i ∈ everybody /\ (i ∉ X).
Proof.
  intros HX Hne. destruct (set_choose_L (everybody ∖ X)) as [i Hi%elem_of_difference]; [|by exists i].
  intros E. apply Hne, set_eq. intros j. split; [apply HX |]. intros Hj. destruct (decide (j ∈ X)) as [|Hn]; [done |].
  assert (Hd : j ∈ everybody ∖ X) by (by apply elem_of_difference). rewrite E in Hd. by apply elem_of_empty in Hd.
Qed.

Lemma run_inv es : forall up rec fired s, inv up rec fired s -> returns (run es s) (fun s' => exists up' rec' fired', inv up' rec' fired' s').
Proof using n_int.
  induction es as [|e es IH]; intros up rec fired s HI; cbn [run]; [by exists up, rec, fired |].
  destruct (enabled e s) eqn:He; [|rewrite bind_Ret; by eapply IH]. destruct e as [i|now|i now].
  - destruct (connect_step _ _ _ _ i HI He) as (_ & _ & HR). eapply returns_seq; [exact HR |]. intros s1 H1. by eapply IH.
  - destruct (timer_step _ _ _ _ now HI He) as (_ & _ & HR). eapply returns_seq; [exact HR |]. intros s1 H1. by eapply IH.
  - destruct (deliver_step _ _ _ _ i now HI He) as (_ & _ & _ & HR). eapply returns_seq; [exact HR |]. intros s1 H1. by eapply IH.
Qed.

(** What is still to happen; every event takes one off, so there are at most [2 n + 1]. *)
Definition work (up rec : gset Z) (fired : bool) : Z :=
  2 * n + 1 - Z.of_nat (size up) - Z.of_nat (size rec) - (if fired then 1 else 0).

Lemma step_work up rec fired s e : inv up rec fired s -> enabled e s = true -> returns (step e s) (fun s' =>
  exists up' rec' fired', inv up' rec' fired' s' /\ 0 <= work up' rec' fired' < work up rec fired).
Proof using n_int.
  intros HI He. assert (Hb : forall up' rec' fired' s', inv up' rec' fired' s' -> 0 <= work up' rec' fired').
  { intros up' rec' fired' s' [_ _ _ Hup Hrec _ _ _ _ _ _ _ _]. pose proof (complete_iff up' Hup) as [H1 _].
    pose proof (complete_iff rec' ltac:(set_solver)) as [H2 _]. unfold work. destruct fired'; lia. }
  destruct e as [i|now|i now].
  - destruct (connect_step _ _ _ _ i HI He) as (_ & Hi & HR). eapply returns_mono; [|exact HR]. intros s' H'. eexists _, _, _. split; [exact H' |].
    split; [by eapply Hb |]. unfold work. rewrite size_insert by done. lia.
  - destruct (timer_step _ _ _ _ now HI He) as (-> & _ & HR). eapply returns_mono; [|exact HR]. intros s' H'. eexists _, _, _. split; [exact H' |].
    split; [by eapply Hb |]. unfold work. lia.
  - destruct (deliver_step _ _ _ _ i now HI He) as (_ & Hi & _ & HR). eapply returns_mono; [|exact HR]. intros s' H'. eexists _, _, _. split; [exact H' |].
    split; [by eapply Hb |]. unfold work. rewrite size_insert by done. lia.
Qed.

(** All clients have the message with its time, and the statistic is queued once. *)
Definition finished (s : system) : Prop :=
  statistics (test s) = 1%nat /\ forall i, 0 <= i < n -> wire_of i (ChatServer.wire (server s)) = [frame hello] /\
    exists now, clients (test s) !! i = Some (mkClient (Some i) (Some now)).

Lemma inv_progress up rec fired s : inv up rec fired s -> (exists e, enabled e s = true) \/ finished s.
Proof using n_int.
  intros [En Hc Hnb Hup Hrec Ea Er Es Ht Est Hw Hseen Hf]. destruct (decide (up = everybody)) as [-> | Hne].
  2:{ destruct (missing up Hup Hne) as (i & Hi & Hi'). left. exists (Connect i). cbn.
      destruct (Hc i Hi) as (r & -> & _). by rewrite bool_decide_eq_false_2. }
  destruct fired; [|rewrite bool_decide_eq_true_2 in Ht by done; destruct Ht as (j & Ht & _); left; exists (Timer 0); cbn; by rewrite Ht].
  destruct (decide (rec = everybody)) as [-> | Hne].
  - right. rewrite bool_decide_eq_true_2 in Est by done. split; [done |]. intros i Hi%elem_everybody. rewrite Hw, bool_decide_eq_true_2 by done.
    split; [done |]. destruct (Hc i Hi) as (r & -> & Hr). destruct (proj1 Hr Hi) as [now ->]. exists now. by rewrite bool_decide_eq_true_2.
  - left. destruct (missing rec Hrec Hne) as (i & Hi & Hi'). exists (Deliver i 0). cbn [enabled].
    rewrite Hw, Hseen, (bool_decide_eq_true_2 (i ∈ everybody)), (bool_decide_eq_false_2 (i ∈ rec)) by done. reflexivity.
Qed.

End system.

(** The load test against the server: in whatever order the clients connect, the timer fires and
    the messages arrive, nothing fails; as long as the measurement is not complete some event
    is possible, and when none is every client was sent "hello" once, has the time it came at, and the statistic was queued
    exactly once. *)
Theorem load_test_completes n es : 0 < n < 2 ^ 31 ->
  returns (run es (start n)) (fun s => (statistics (test s) <= 1)%nat /\ ((exists e, enabled e s = true) \/ finished n s)).
Proof.
  intros Hn. eapply returns_mono; [|eapply (run_inv n Hn es), (start_inv n Hn)]. intros s (up & rec & fired & HI).
  split; [|by eapply inv_progress]. rewrite (in_statistics _ _ _ _ _ HI). case_bool_decide; lia.
Qed.

Definition three_clients : list event := [Connect 1; Connect 0; Timer 5; Connect 2; Deliver 1 6; Timer 7; Deliver 2 8; Deliver 0 9; Deliver 1 10; Deliver 1 11].

Lemma load_test_completes_witness :
  returns (run three_clients (start 3)) (fun s => (statistics (test s) <= 1)%nat /\ ((exists e, enabled e s = true) \/ finished 3 s)).
Proof. apply (load_test_completes 3 three_clients). lia. Defined.

Example three_clients_measured :
  (s ← run three_clients (start 3); Ret (statistics (test s), map (fun i => receiveTime_ <$> clients (test s) !! i) [0; 1; 2])) =
  Ret (1%nat, [Some (Some 9); Some (Some 10); Some (Some 8)]).
Proof. vm_compute. reflexivity. Qed.

(** A client that is disconnected before its timer is due uses a null connection. *)
Lemma send_after_disconnect i conn now g c : clients g !! i = Some c ->
  (g1 ← onConnection i conn false g; send i now g1) = Crash NullPointer.
Proof. intros E. unfold onConnection, client_at. rewrite E, !bind_Ret. unfold send, client_at. cbn. by rewrite lookup_insert_eq. Qed.

(** ** The rows of the statistic *)

Lemma rows_from_ok fuel n : forall i, Forall is_Some (rows_from fuel n i).
Proof.
  induction fuel as [|fuel IH]; intros i; cbn [rows_from]; [done |]. unfold row. destruct (i <? n)%nat eqn:E; [|done].
  constructor; [by eexists | apply IH].
Qed.

(** With the fuel of [statistic] the loop has ended. *)
Lemma rows_from_complete fuel n : forall i, (n <= i + fuel)%nat -> forall fuel', (fuel <= fuel')%nat -> rows_from fuel' n i = rows_from fuel n i.
Proof.
  induction fuel as [|fuel IH]; intros i Hi fuel' Hf.
  - destruct fuel' as [|f']; [done |]. cbn [rows_from]. by rewrite (proj2 (Nat.ltb_ge i n)) by lia.
  - destruct fuel' as [|f']; [lia |]. cbn [rows_from]. destruct (i <? n)%nat; [|done]. f_equal. apply IH; lia.
Qed.

(** No row reads outside the vector, unless there is no client at all. *)
Lemma statistic_ok n : (0 < n)%nat -> Forall is_Some (statistic n) /\ statistic 0 = [None].
Proof.
  intros Hn. split; [|reflexivity]. unfold statistic. apply list.Forall_app. split; [apply rows_from_ok |].
  apply list.Forall_app. unfold row. split.
  - destruct (Nat.leb_spec 100 n) as [H|H]; [|done]. pose proof (Nat.div_str_pos n 100 ltac:(lia)).
    rewrite (proj2 (Nat.ltb_lt (n - n / 100) n)) by lia. constructor; [by eexists | done].
  - rewrite (proj2 (Nat.ltb_lt (n - 1) n)) by lia. constructor; [by eexists | done].
Qed.

End ChatLoadTest.
