(* ===== verification/FileUtil.v ===== *)
(** * FileUtil.h/.cc: appending to and reading files

    A file is its bytes.  How many bytes each fwrite(3), read(2) and pread(2) takes or gives is
    a list of answers that the calls consume, cut to what the call asked for (when the list is
    used up the calls do all they were asked for); so the theorems hold for every way the
    system splits the transfers, and for errors at any point. *)

From S2P Require Import Prelude.

Module AppendFile.

(** [disk] is the file, [pending] what the stream still holds; an answer of a write is how
    many bytes the stream accepts and how many pending bytes it writes out on that
    occasion. *)
Record t := mk {
  disk : bytes;
  pending : bytes;
  answers : list (Z * Z);
  writtenBytes_ : Z
}.

(** The constructor: fopen(3) in append mode, [None] if it failed. *)
Definition AppendFile (opened : option bytes) (answers : list (Z * Z)) : outcome t :=
  match opened with Some file => Ret (mk file [] answers 0) | None => Crash AssertFailed end.

(** [n] pending bytes go to the file. *)
Definition spill (n : nat) (f : t) : t := mk (disk f ++ take n (pending f)) (drop n (pending f)) (answers f) (writtenBytes_ f).

(** [fwrite_unlocked(logline, 1, len, fp_)] of the bytes [l]. *)
Definition write (l : bytes) (f : t) : Z * t :=
  let '(n, out, rest) := match answers f with
                         | [] => (zlen l, 0, [])
                         | (n, out) :: rest => (Z.max 0 (Z.min n (zlen l)), out, rest)
                         end in
  (n, spill (Z.to_nat out) (mk (disk f) (pending f ++ take (Z.to_nat n) l) rest (writtenBytes_ f))).

(** The loop: [n] bytes of the line are written. *)
Definition append_body (logline : bytes) (st : Z * t) : outcome ((Z * t) + (Z * t)) :=
  let '(n, f) := st in
  let remain := zlen logline - n in
  if 0 <? remain then
    let '(x, f1) := write (drop (Z.to_nat n) logline) f in
    if x =? 0 then Ret (inr (n, f1)) else Ret (inl (n + x, f1))
  else Ret (inr (n, f)).

Definition append (logline : bytes) (f : t) : outcome t :=
  let '(n, f1) := write logline f in
  '(_, f2) ← while (S (length logline)) (append_body logline) (n, f1);
  Ret (mk (disk f2) (pending f2) (answers f2) (u64 (writtenBytes_ f2 + zlen logline))).

Definition flush (f : t) : t := mk (disk f ++ pending f) [] (answers f) (writtenBytes_ f).

(** The destructor: fclose(3) writes out what is pending. *)
Definition destroy (f : t) : bytes := disk (flush f).

Fixpoint append_all (lines : list bytes) (f : t) : outcome t :=
  match lines with [] => Ret f | l :: rest => f1 ← append l f; append_all rest f1 end.

(** All that was accepted, in the file or on its way. *)
Definition stream (f : t) : bytes := disk f ++ pending f.

Lemma fwrite_ok l f : let '(n, f') := write l f in
  0 <= n <= zlen l /\ stream f' = stream f ++ take (Z.to_nat n) l /\ writtenBytes_ f' = writtenBytes_ f /\
  (answers f = [] -> n = zlen l /\ answers f' = []) /\
  (Forall (fun a => 0 < a.1) (answers f) -> (0 < zlen l -> 0 < n) /\ Forall (fun a => 0 < a.1) (answers f')).
Proof.
  pose proof (zlen_nonneg l). unfold write, stream, spill. destruct (answers f) as [|[n out] rest]; cbn [disk pending answers writtenBytes_].
  - split_and!; try done; try lia. by rewrite <- app_assoc, take_drop, app_assoc.
  - split_and!; try done; try lia.
    + by rewrite <- app_assoc, take_drop, app_assoc.
    + intros Hf. inversion Hf as [|? ? Ha Hr]; subst. cbn in Ha. split; [lia|done].
Qed.

Lemma append_line_ok l f : returns (append l f) (fun f' => exists k, (k <= length l)%nat /\
  stream f' = stream f ++ take k l /\ writtenBytes_ f' = u64 (writtenBytes_ f + zlen l) /\
  (Forall (fun a => 0 < a.1) (answers f) -> k = length l /\ Forall (fun a => 0 < a.1) (answers f'))).
Proof.
  unfold append. pose proof (fwrite_ok l f) as Hw. destruct (write l f) as [n f1]. destruct Hw as (Hn & Es & Ew & _ & Hpos).
  pose (good := Forall (fun a : Z * Z => 0 < a.1)).
  eapply returns_seq; [apply (while_measure _ (fun '(n, f2) => 0 <= n <= zlen l /\ stream f2 = stream f ++ take (Z.to_nat n) l /\
      writtenBytes_ f2 = writtenBytes_ f /\ (good (answers f) -> good (answers f2)))
    (fun '(n, f2) => 0 <= n <= zlen l /\ stream f2 = stream f ++ take (Z.to_nat n) l /\
      writtenBytes_ f2 = writtenBytes_ f /\ (good (answers f) -> n = zlen l /\ good (answers f2)))
    (fun '(n, _) => Z.to_nat (zlen l - n)))|].
  - clear n f1 Hn Es Ew Hpos. intros [n f1] (Hn & Es & Ew & Hg). unfold append_body. destruct (0 <? zlen l - n) eqn:E; bools.
    2:{ cbn. split_and!; try done; try lia; auto. intros; split; [lia|auto]. }
    pose proof (fwrite_ok (drop (Z.to_nat n) l) f1) as Hw. destruct (write _ f1) as [x f2].
    destruct Hw as (Hx & Es' & Ew' & _ & Hpos).
    assert (Ed : zlen (drop (Z.to_nat n) l) = zlen l - n) by (unfold zlen in *; rewrite length_drop; lia).
    rewrite Ed in Hx, Hpos. destruct (x =? 0) eqn:E0; bools; cbn [returns].
    + subst x. change (Z.to_nat 0) with 0%nat in Es'. rewrite take_0, app_nil_r in Es'. split_and!; try done; try lia; try congruence.
      intros G. destruct (Hpos (Hg G)) as [G1 _]. lia.
    + split_and!; try lia; try congruence.
      * rewrite Es', Es, <- app_assoc. f_equal. replace (Z.to_nat (n + x)) with (Z.to_nat n + Z.to_nat x)%nat by lia.
        by rewrite take_take_drop.
      * intros G. by apply Hpos, Hg.
  - split_and!; try done; try lia. intros G. by apply Hpos.
  - unfold zlen in *. lia.
  - intros [n' f2] (Hn' & Es' & Ew' & Hg). cbn [returns]. exists (Z.to_nat n'). unfold stream in *. cbn [disk pending writtenBytes_ answers].
    split_and!; try done; [unfold zlen in *; lia|by rewrite Ew'|]. intros G. destruct (Hg G) as [-> G']. split; [unfold zlen; lia|done].
Qed.

End AppendFile.

Module ReadSmallFile.

Definition kBufferSize : Z := 64 * 1024.
Definition EISDIR : Z := 21.

Inductive mode := Regular | Directory | Other.

(** What fstat(2) tells. *)
Record stat := mkstat { st_mode : mode; st_size : Z; st_mtime : Z; st_ctime : Z }.

(** An answer of read(2) or pread(2): how many bytes, or an error. *)
Inductive answer := Gives (n : Z) | Fails (errno : Z).

(** The open file with the rest of its bytes, its status, the answers to come, and [buf_] up
    to its NUL. *)
Record t := mk {
  fd_ : Z;
  err_ : Z;
  file : bytes;
  position : Z;
  status : stat + Z;
  answers : list answer;
  buf_ : bytes
}.

(** The constructor, with the descriptor or the error of open(2). *)
Definition ReadSmallFile (opened : Z + Z) (file : bytes) (status : stat + Z) (answers : list answer) : t :=
  match opened with
  | inl fd => mk fd 0 file 0 status answers []
  | inr errno => mk (-1) errno file 0 status answers []
  end.

(** The bytes a read of [len] at offset [pos] gives, or its error. *)
Definition next_answer (pos len : Z) (f : t) : (bytes + Z) * t :=
  let avail := slice pos len (file f) in
  let '(r, rest) := match answers f with
                    | [] => (inl avail, [])
                    | Gives n :: rest => (inl (take (Z.to_nat (Z.max 1 n)) avail), rest)
                    | Fails e :: rest => (inr e, rest)
                    end in
  (r, mk (fd_ f) (err_ f) (file f) (position f) (status f) rest (buf_ f)).

Definition read (toRead : Z) (f : t) : (bytes + Z) * t :=
  let '(r, f1) := next_answer (position f) toRead f in
  match r with
  | inl d => (r, mk (fd_ f1) (err_ f1) (file f1) (position f1 + zlen d) (status f1) (answers f1) (buf_ f1))
  | inr _ => (r, f1)
  end.

(** What [readToString] stores through its pointers. *)
Record times := mktimes { fileSize : option Z; modifyTime : option Z; createTime : option Z }.

(** [std::string::reserve] of more than a string can hold throws. *)
Definition reserve (n : Z) : outcome unit := if (0 <=? n) then Ret tt else Crash Thrown.

(** The status part: the error so far and the results stored. *)
Definition read_status (maxSize : Z) (want_size want_mtime want_ctime : bool) (f : t) (err : Z) : outcome (Z * times) :=
  if want_size then
    match status f with
    | inl st =>
        '(err1, size) ← match st_mode st with
                        | Regular => _ ← reserve (s32 (Z.min maxSize (st_size st))); Ret (err, Some (st_size st))
                        | Directory => Ret (EISDIR, None)
                        | Other => Ret (err, None)
                        end;
        Ret (err1, mktimes size (if want_mtime then Some (st_mtime st) else None) (if want_ctime then Some (st_ctime st) else None))
    | inr errno => Ret (errno, mktimes None None None)
    end
  else Ret (err, mktimes None None None).

Definition read_body (maxSize : Z) (s : Z * bytes * t) : outcome ((Z * bytes * t) + (Z * bytes * t)) :=
  let '(err, content, f) := s in
  if zlen content <? u64 maxSize then
    let toRead := Z.min (u64 maxSize - zlen content) kBufferSize in
    let '(r, f1) := read toRead f in
    match r with
    | inl [] => Ret (inr (err, content, f1))
    | inl d => Ret (inl (err, content ++ d, f1))
    | inr e => Ret (inr (e, content, f1))
    end
  else Ret (inr (err, content, f)).

(** [readToString]: the error, the content, and the results; every read that goes on takes a
    byte off the file. *)
Definition readToString (maxSize : Z) (want_size want_mtime want_ctime : bool) (content : bytes) (f : t) :
    outcome (Z * bytes * times * t) :=
  if 0 <=? fd_ f then
    '(err, tms) ← read_status maxSize want_size want_mtime want_ctime f (err_ f);
    '(err1, content1, f1) ← while (S (length (file f))) (read_body maxSize) (err, [], f);
    Ret (err1, content1, tms, f1)
  else Ret (err_ f, content, mktimes None None None, f).

(** [readToBuffer]: the error and the size stored. *)
Definition readToBuffer (f : t) : Z * option Z * t :=
  if 0 <=? fd_ f then
    let '(r, f1) := next_answer 0 (kBufferSize - 1) f in
    match r with
    | inl d => (err_ f, Some (zlen d), mk (fd_ f1) (err_ f1) (file f1) (position f1) (status f1) (answers f1) d)
    | inr e => (e, None, f1)
    end
  else (err_ f, None, f).

(** [FileUtil::readFile]. *)
Definition readFile (opened : Z + Z) (file : bytes) (st : stat + Z) (answers : list answer) (maxSize : Z) : outcome (Z * bytes * times) :=
  '(err, content, tms, _) ← readToString maxSize true true true [] (ReadSmallFile opened file st answers);
  Ret (err, content, tms).

(** ** Lemmas *)

Definition no_failure (l : list answer) : Prop := Forall (fun a => match a with Gives _ => True | Fails _ => False end) l.

Lemma read_ok toRead f : 0 < toRead -> 0 <= position f <= zlen (file f) -> no_failure (answers f) ->
  exists d f', read toRead f = (inl d, f') /\ zlen d <= toRead /\ d = slice (position f) (zlen d) (file f) /\
    position f' = position f + zlen d /\ position f' <= zlen (file f) /\ file f' = file f /\ no_failure (answers f') /\
    (d = [] -> position f = zlen (file f)).
Proof.
  intros Ht Hp Hn.
  assert (Hk : forall k : nat, (k <= Z.to_nat toRead)%nat -> (0 < k)%nat ->
    let d := take k (slice (position f) toRead (file f)) in
    zlen d <= toRead /\ d = slice (position f) (zlen d) (file f) /\ position f + zlen d <= zlen (file f) /\
    (d = [] -> position f = zlen (file f))).
  { intros k Hk Hk0 d. unfold d, slice, zlen in *. rewrite take_take, Nat.min_l by lia.
    rewrite length_take, length_drop. split_and!; try lia.
    - rewrite Nat2Z.id. destruct (decide (k <= length (file f) - Z.to_nat (position f))%nat).
      + by rewrite Nat.min_l by lia.
      + rewrite Nat.min_r by lia. rewrite !take_ge; [done|rewrite length_drop; lia..].
    - intros E%(f_equal length). rewrite length_take, length_drop in E. cbn in E. lia. }
  unfold read, next_answer. destruct (answers f) as [|[n|e] rest] eqn:Ea; cbn [position zlen].
  - destruct (Hk (Z.to_nat toRead) ltac:(lia) ltac:(lia)) as (H1 & H2 & H3 & H4).
    assert (Es : take (Z.to_nat toRead) (slice (position f) toRead (file f)) = slice (position f) toRead (file f))
      by (apply take_ge; unfold slice; rewrite length_take; lia).
    rewrite Es in *. eexists _, _. split; [done|]. cbn [position file answers]. by split_and!.
  - inversion Hn as [|? ? _ Hr]; subst.
    set (k := Nat.min (Z.to_nat (Z.max 1 n)) (Z.to_nat toRead)).
    destruct (Hk k ltac:(lia) ltac:(lia)) as (H1 & H2 & H3 & H4).
    assert (Es : take (Z.to_nat (Z.max 1 n)) (slice (position f) toRead (file f)) = take k (slice (position f) toRead (file f))).
    { unfold slice, k. rewrite !take_take. f_equal. lia. }
    rewrite Es. eexists _, _. split; [done|]. cbn [position file answers]. by split_and!.
  - inversion Hn; done.
Qed.

(** However the reads are split, the whole file up to [maxSize] is read. *)
Lemma read_loop_ok maxSize f err : 0 <= maxSize < 2 ^ 31 -> position f = 0 -> no_failure (answers f) ->
  returns (while (S (length (file f))) (read_body maxSize) (err, [], f)) (fun '(err', content, _) =>
    err' = err /\ content = take (Z.to_nat maxSize) (file f)).
Proof.
  intros Hm Hp Hn. pose proof (zlen_nonneg (file f)) as Hz0.
  apply (while_measure _ (fun '(e, c, f') => e = err /\ file f' = file f /\ no_failure (answers f') /\
    position f' = zlen c /\ c = take (length c) (file f) /\ zlen c <= zlen (file f) /\ zlen c <= maxSize)
    _ (fun '(_, c, f') => Z.to_nat (zlen (file f) - zlen c))).
  - intros [[e c] f1] (-> & Ef & Hn1 & Ep & Ec & Hl & Hc). unfold read_body. pose proof (zlen_nonneg c) as Hc0.
    rewrite u64_id by lia. destruct (zlen c <? maxSize) eqn:E; bools.
    2:{ cbn. split; [done|]. rewrite Ec at 1. f_equal. unfold zlen in *. lia. }
    cbv zeta. destruct (read_ok (Z.min (maxSize - zlen c) kBufferSize) f1) as (d & f2 & -> & Hd & Ed & Ep2 & Hp2 & Ef2 & Hn2 & Hnil).
    { unfold kBufferSize. lia. } { rewrite Ef. lia. } { done. }
    pose proof (zlen_nonneg d). destruct d as [|x d].
    + cbn. split; [done|]. rewrite Ec at 1. specialize (Hnil eq_refl). rewrite Ep, Ef in Hnil.
      unfold zlen in *. rewrite !take_ge by lia. done.
    + cbn [returns]. set (d' := x :: d) in *. assert (0 < zlen d') by (unfold d', zlen; cbn; lia). rewrite zlen_app.
      split; [split_and!|]; try lia; try done; try congruence.
      * rewrite length_app, Ed, Ef, Ep at 1. unfold slice. rewrite Ec at 1.
        rewrite <- take_take_drop. unfold zlen. rewrite !Nat2Z.id. done.
      * rewrite <- Ef. lia.
  - split_and!; try done; unfold zlen in *; cbn; lia.
  - unfold zlen in *. cbn. lia.
Qed.

End ReadSmallFile.

Lemma append_all_ok lines : forall f, Forall (fun a => 0 < a.1) (AppendFile.answers f) -> 0 <= AppendFile.writtenBytes_ f ->
  AppendFile.writtenBytes_ f + zlen (concat lines) < 2 ^ 64 ->
  returns (AppendFile.append_all lines f) (fun f' => AppendFile.stream f' = AppendFile.stream f ++ concat lines /\
    AppendFile.writtenBytes_ f' = AppendFile.writtenBytes_ f + zlen (concat lines)).
Proof.
  induction lines as [|l lines IH]; intros f Hf H0 Hz; cbn [AppendFile.append_all concat] in *.
  - cbn. rewrite app_nil_r. change (zlen (@nil byte)) with 0. split; [done|lia].
  - rewrite zlen_app in Hz. pose proof (zlen_nonneg l). pose proof (zlen_nonneg (concat lines)).
    eapply returns_seq; [apply AppendFile.append_line_ok|]. intros f1 (k & _ & Es & Ew & Hg). destruct (Hg Hf) as [-> Hf1].
    rewrite u64_id in Ew by lia. rewrite firstn_all in Es.
    eapply returns_mono; [|apply IH; [done|lia|lia]]. intros f' [Es' Ew']. rewrite zlen_app. split; [|lia].
    by rewrite Es', Es, <- app_assoc.
Qed.

Lemma readFile_ok fd file mtime ctime ranswers maxSize :
  0 <= fd -> 0 <= maxSize < 2 ^ 31 -> ReadSmallFile.no_failure ranswers ->
  returns (ReadSmallFile.readFile (inl fd) file (inl (ReadSmallFile.mkstat ReadSmallFile.Regular (zlen file) mtime ctime)) ranswers maxSize)
    (fun '(err, content, tms) => err = 0 /\ content = take (Z.to_nat maxSize) file /\ ReadSmallFile.fileSize tms = Some (zlen file)).
Proof.
  intros Hfd Hm Hr. unfold ReadSmallFile.readFile, ReadSmallFile.readToString, ReadSmallFile.ReadSmallFile.
  cbn [ReadSmallFile.fd_ ReadSmallFile.err_ ReadSmallFile.file]. rewrite (proj2 (Z.leb_le 0 fd) Hfd).
  unfold ReadSmallFile.read_status. cbn [ReadSmallFile.status ReadSmallFile.st_mode ReadSmallFile.st_size].
  pose proof (zlen_nonneg file). unfold ReadSmallFile.reserve. rewrite s32_id by lia.
  rewrite (proj2 (Z.leb_le 0 _)) by lia. rewrite !bind_Ret.
  eapply (returns_seq _ _ (fun '(err, content, tms, _) => err = 0 /\ content = take (Z.to_nat maxSize) file /\ ReadSmallFile.fileSize tms = Some (zlen file))).
  - eapply returns_seq; [by apply ReadSmallFile.read_loop_ok|]. intros [[e c] f1] [-> ->]. by cbn.
  - intros [[[e c] tms] f1] H1. exact H1.
Qed.

(** C40. What is appended is what is read.  Whatever pieces the stream accepts, as long as it
    accepts something, appending lines and closing the file leaves the old content followed by
    the lines, and [writtenBytes] counts them; and whatever pieces read(2) delivers, [readFile]
    then gives the first [maxSize] bytes of it without an error, and its size.  An append that
    stops early leaves a prefix of its line and no more. *)
Theorem file_round_trip old lines wanswers ranswers fd maxSize mtime ctime :
  Forall (fun a => 0 < a.1) wanswers -> ReadSmallFile.no_failure ranswers -> 0 <= fd -> 0 <= maxSize < 2 ^ 31 ->
  zlen (concat lines) < 2 ^ 63 ->
  returns (f ← AppendFile.AppendFile (Some old) wanswers; AppendFile.append_all lines f) (fun f =>
    let file := AppendFile.destroy f in
    file = old ++ concat lines /\ AppendFile.writtenBytes_ f = zlen (concat lines) /\
    returns (ReadSmallFile.readFile (inl fd) file (inl (ReadSmallFile.mkstat ReadSmallFile.Regular (zlen file) mtime ctime)) ranswers maxSize)
      (fun '(err, content, tms) => err = 0 /\ content = take (Z.to_nat maxSize) file /\
         ReadSmallFile.fileSize tms = Some (zlen file)) /\
    (forall l f', AppendFile.append l f' = Ret f -> exists k, AppendFile.stream f = AppendFile.stream f' ++ take k l)).
Proof.
  intros Hw Hr Hfd Hm Hlen. cbn [AppendFile.AppendFile]. rewrite bind_Ret.
  eapply returns_mono; [|apply (append_all_ok lines (AppendFile.mk old [] wanswers 0)); [done|done|cbn; lia]].
  intros f (Es & Ew). cbn in Es, Ew. rewrite app_nil_r in Es. cbv zeta.
  assert (Ed : AppendFile.destroy f = old ++ concat lines) by exact Es. rewrite Ed. split_and!; [done|done| |].
  - by apply readFile_ok.
  - intros l f' E. pose proof (AppendFile.append_line_ok l f') as H. rewrite E in H. destruct H as (k & _ & H & _). by exists k.
Qed.

(** Two lines after a title: the stream takes two bytes of the first line, and read(2) gives
    three at first. *)
Lemma file_round_trip_witness :
  returns (f ← AppendFile.AppendFile (Some (lit "log ")) [(2, 1); (9, 0)]; AppendFile.append_all [lit "one "; lit "two"] f) (fun f =>
    let file := AppendFile.destroy f in
    file = lit "log one two" /\ AppendFile.writtenBytes_ f = 7 /\
    returns (ReadSmallFile.readFile (inl 5) file (inl (ReadSmallFile.mkstat ReadSmallFile.Regular (zlen file) 1 2)) [ReadSmallFile.Gives 3] 6)
      (fun '(err, content, tms) => err = 0 /\ content = lit "log on" /\ ReadSmallFile.fileSize tms = Some 11)).
Proof.
  eapply returns_mono; [|apply (file_round_trip (lit "log ") [lit "one "; lit "two"] [(2, 1); (9, 0)] [ReadSmallFile.Gives 3] 5 6 1 2)].
  - cbv zeta. intros f (E & Ew & Hr & _). rewrite E in *. split; [reflexivity|]. split; [exact Ew|]. exact Hr.
  - repeat (apply List.Forall_cons || apply List.Forall_nil); reflexivity.
  - repeat (apply List.Forall_cons || apply List.Forall_nil); exact I.
  - lia.
  - lia.
  - vm_compute. reflexivity.
Defined.

(** A write that fails is counted as written. *)
Lemma failed_append_is_counted :
  (f ← AppendFile.AppendFile (Some []) [(1, 0); (0, 0)]; f1 ← AppendFile.append (lit "line") f;
   Ret (AppendFile.destroy f1, AppendFile.writtenBytes_ f1)) = Ret (lit "l", 4).
Proof. vm_compute. reflexivity. Qed.
