(* ===== verification/ProcessInfo.v ===== *)
(** * ProcessInfo.cc: what /proc tells about the process

    The files of /proc are read with [FileUtil], directories are scanned with a filter that only
    counts or collects.  Answers of the system are arguments: the bytes of a file with the
    pieces read(2) delivers, the entries of a directory, the answers of the other calls. *)

From stdpp Require Import sorting.
From S2P Require Import Prelude Format LogStream TimeZone Logging FileUtil.

Module ProcessInfo.
Import ReadSmallFile.

(** ** Directories *)

Definition isdigit (b : byte) : bool := match dec_digit b with Some _ => true | None => false end.

(** [d->d_name[0]]; of an empty name it is the terminator. *)
Definition first_char (d_name : bytes) : byte := match d_name with c :: _ => c | [] => x00 end.

(** The filters: the thread-local variable, and 0. *)
Definition fdDirFilter (d_name : bytes) (t_numOpenedFiles : Z) : outcome (Z * Z) :=
  if isdigit (first_char d_name) then n ← i32 (t_numOpenedFiles + 1); Ret (n, 0) else Ret (t_numOpenedFiles, 0).

Definition taskDirFilter (d_name : bytes) (t_pids : list Z) : outcome (list Z * Z) :=
  if isdigit (first_char d_name) then pid ← atoi d_name; Ret (t_pids ++ [pid], 0) else Ret (t_pids, 0).

(** [scandir]: the filter is called for each entry; the entries it takes are listed.  [None] is
    a directory that cannot be opened. *)
Section scandir.
Context {S : Type} (filter : bytes -> S -> outcome (S * Z)).

Fixpoint scandir (entries : list bytes) (s : S) : outcome (S * list bytes) :=
  match entries with
  | [] => Ret (s, [])
  | d :: entries' =>
      '(s1, r) ← filter d s;
      '(s2, namelist) ← scandir entries' s1;
      Ret (s2, if r =? 0 then namelist else d :: namelist)
  end.

Definition scanDir (dir : option (list bytes)) (s : S) : outcome (S * Z) :=
  match dir with
  | Some entries => '(s1, namelist) ← scandir entries s; _ ← check (bool_decide (namelist = [])); Ret (s1, zlen namelist)
  | None => Ret (s, -1)
  end.
End scandir.

Definition openedFiles (dir : option (list bytes)) : outcome Z := '(n, _) ← scanDir fdDirFilter dir 0; Ret n.

Definition threads (dir : option (list bytes)) : outcome (list Z) :=
  '(result, _) ← scanDir taskDirFilter dir []; Ret (merge_sort Z.le result).

(** [getrlimit]: the limit, or it failed. *)
Definition maxOpenFiles (rlim_cur : option Z) (dir : option (list bytes)) : outcome Z :=
  match rlim_cur with Some n => Ret (s32 n) | None => openedFiles dir end.

(** ** Files *)

(** A file of /proc as open(2), fstat(2) and read(2) show it. *)
Record proc_file := mkfile { opened : Z + Z; bytes_in : bytes; fstat : stat + Z; reads : list answer }.

(** [FileUtil::readFile(name, 65536, &result)], its error ignored. *)
Definition read_proc (f : proc_file) : outcome bytes :=
  '(_, result, _, _) ← readToString 65536 false false false [] (ReadSmallFile (opened f) (bytes_in f) (fstat f) (reads f));
  Ret result.

Definition procStatus (status : proc_file) : outcome bytes := read_proc status.
Definition procStat (stat : proc_file) : outcome bytes := read_proc stat.

(** The name of the file [threadStat] reads. *)
Definition threadStat_name (tid : Z) : bytes := snprintf 64 (lit "/proc/self/task/" ++ show tid ++ lit "/stat").

(** [std::string::rfind] of a character. *)
Definition rfind (c : byte) (s : bytes) : option nat := (fun i => length s - 1 - i)%nat <$> find_byte c (rev s).

Definition procname_of (stat : bytes) : StringPiece.t :=
  match find_byte "("%byte stat, rfind ")"%byte stat with
  | Some lp, Some rp =>
      if (lp <? rp)%nat then StringPiece.set (drop (lp + 1) stat) (s32 (Z.of_nat rp - Z.of_nat lp - 1)) (StringPiece.StringPiece [] 0)
      else StringPiece.StringPiece [] 0
  | _, _ => StringPiece.StringPiece [] 0
  end.

Definition procname (stat : proc_file) : outcome bytes := s ← procStat stat; Ret (StringPiece.contents (procname_of s)).

Definition numThreads (status : proc_file) : outcome Z :=
  s ← procStatus status;
  match search (lit "Threads:") s with
  | Some pos => atoi (TimeZone.c_string (drop (pos + 8) s))
  | None => Ret 0
  end.

(** ** The rest *)

Definition pidString (pid : Z) : bytes := snprintf 32 (show pid).
Definition username (result : option bytes) : bytes := match result with Some pw_name => TimeZone.c_string pw_name | None => lit "unknownuser" end.
(** [gethostname] fills [buf], of 256 bytes, or fails. *)
Definition hostname (buf : option bytes) : bytes :=
  match buf with Some b => TimeZone.c_string (take 255 b) | None => lit "unknownhost" end.
(** [readlink]: the bytes of the link, of which 1024 at most, or an error. *)
Definition exePath (link : option bytes) : bytes := match link with Some l => take 1024 l | None => [] end.

(** ** What they answer *)

Lemma read_proc_ok f fd : opened f = inl fd -> 0 <= fd -> no_failure (reads f) -> zlen (bytes_in f) <= 65536 -> read_proc f = Ret (bytes_in f).
Proof.
  intros Ho Hfd Hr Hz. unfold read_proc, readToString, ReadSmallFile. rewrite Ho. cbn [fd_ err_ file]. rewrite (proj2 (Z.leb_le 0 fd) Hfd). unfold read_status. rewrite bind_Ret.
  pose proof (read_loop_ok 65536 (mk fd 0 (bytes_in f) 0 (fstat f) (reads f) []) 0 ltac:(lia) eq_refl Hr) as H. cbn [file] in H.
  destruct (while _ _ _) as [[[e c] f1]|]; [|done]. destruct H as [_ ->]. rewrite !bind_Ret. f_equal. apply take_ge. unfold zlen in Hz. lia.
Qed.

Lemma rfind_app c l1 l2 : c ∉ l2 -> rfind c (l1 ++ c :: l2) = Some (length l1).
Proof.
  intros H. unfold rfind. rewrite rev_app_distr. cbn [rev]. rewrite <-app_assoc. cbn [app]. rewrite find_byte_app by (by intros ?%list_elem_of_In%in_rev%list_elem_of_In).
  cbn. f_equal. rewrite length_app, length_rev. cbn [length]. lia.
Qed.

(** The name of the program is what is between the first parenthesis and the last, so it may
    have parentheses itself. *)
Lemma procname_ok f fd pid name rest : opened f = inl fd -> 0 <= fd -> no_failure (reads f) -> zlen (bytes_in f) <= 65536 ->
  bytes_in f = pid ++ lit "(" ++ name ++ lit ")" ++ rest -> "("%byte ∉ pid -> ")"%byte ∉ rest -> procname f = Ret name.
Proof.
  intros Ho Hfd Hr Hz E Hp Hn. unfold procname, procStat. rewrite (read_proc_ok f fd), bind_Ret by done. f_equal. rewrite E in Hz |- *. clear E Ho.
  change (lit "(" ++ name ++ lit ")" ++ rest) with ("("%byte :: name ++ lit ")" ++ rest) in *. unfold procname_of. rewrite find_byte_app by done.
  replace (pid ++ "("%byte :: name ++ lit ")" ++ rest) with ((pid ++ "("%byte :: name) ++ ")"%byte :: rest) by (by rewrite <-app_assoc).
  rewrite rfind_app by done. rewrite (proj2 (Nat.ltb_lt _ _)) by (rewrite length_app; cbn [length]; lia).
  rewrite !zlen_app, zlen_cons, zlen_app in Hz. pose proof (zlen_nonneg pid). pose proof (zlen_nonneg rest). unfold StringPiece.set, StringPiece.contents.
  cbn [StringPiece.length_ StringPiece.ptr_]. rewrite length_app. cbn [length]. unfold zlen in *. rewrite s32_id by lia.
  replace (Z.of_nat (length pid + S (length name)) - Z.of_nat (length pid) - 1) with (Z.of_nat (length name)) by lia.
  unfold slice. change (Z.to_nat 0) with 0%nat. rewrite Nat2Z.id, drop_0. change (pid ++ "("%byte :: name) with (pid ++ lit "(" ++ name).
  rewrite <- !app_assoc, (app_assoc pid), drop_app_length' by (rewrite length_app; cbn; lia). by rewrite take_app_length.
Qed.

Lemma c_string_app l x : x00 ∉ l -> TimeZone.c_string (l ++ x) = l ++ TimeZone.c_string x.
Proof.
  intros H. unfold TimeZone.c_string. assert (E : find_byte x00 (l ++ x) = (fun k => length l + k)%nat <$> find_byte x00 x).
  { induction l as [|b l IH]; cbn [app find_byte length]; [by destruct (find_byte x00 x) |].
    destruct (byte_eqb b x00) eqn:Eb; [apply byte_eqb_eq in Eb; subst; exfalso; apply H; left |].
    rewrite IH by (by intros ?; apply H; right). by destruct (find_byte x00 x). }
  rewrite E. destruct (find_byte x00 x) as [k|]; cbn; [|done]. by rewrite take_app_add.
Qed.

(** The number of threads is the number after the first "Threads:". *)
Lemma numThreads_ok f fd before n rest : opened f = inl fd -> 0 <= fd -> no_failure (reads f) -> zlen (bytes_in f) <= 65536 ->
  bytes_in f = before ++ lit "Threads:" ++ x09 :: show_nonneg n ++ x0a :: rest -> search (lit "Threads:") (bytes_in f) = Some (length before) ->
  0 <= n < 2 ^ 31 -> numThreads f = Ret n.
Proof.
  intros Ho Hfd Hr Hz E Hf Hn. unfold numThreads, procStatus. rewrite (read_proc_ok f fd), bind_Ret by done. rewrite Hf, E.
  rewrite app_assoc, drop_app_length' by (by rewrite length_app). destruct (show_nonneg_digits n ltac:(lia)) as (ds & Hm & Hv & Hne).
  change (x09 :: show_nonneg n ++ x0a :: rest) with ([x09] ++ show_nonneg n ++ [x0a] ++ rest). rewrite !app_assoc, c_string_app.
  - rewrite <- !app_assoc. unfold atoi. change (strtol ([x09] ++ show_nonneg n ++ [x0a] ++ TimeZone.c_string rest)) with (strtol (show_nonneg n ++ [x0a] ++ TimeZone.c_string rest)).
    rewrite (strtol_digits _ ds), Hv by done. apply i32_ok. lia.
  - rewrite !elem_of_app, !list_elem_of_singleton. intros [[H|H]|H]; [done | | done]. pose proof (dec_digits_range _ _ Hm x00 H) as Hb.
    vm_compute in Hb. by destruct Hb as [Hb _]; apply Hb.
Qed.

(** A directory whose entries are numbers and other names. *)
Definition entry_number (d : bytes) : option Z := if isdigit (first_char d) then Some (strtol d) else None.

Lemma scandir_tasks entries : Forall (fun d => - 2 ^ 31 <= strtol d < 2 ^ 31) entries -> forall pids,
  scandir taskDirFilter entries pids = Ret (pids ++ omap entry_number entries, []).
Proof.
  induction 1 as [|d entries Hd _ IH]; intros pids; cbn [scandir omap list_omap]; [by rewrite app_nil_r |]. unfold taskDirFilter, entry_number.
  destruct (isdigit (first_char d)).
  - unfold atoi. rewrite i32_ok, !bind_Ret by done. rewrite IH, bind_Ret. cbn [Z.eqb]. by rewrite <-app_assoc.
  - rewrite bind_Ret, IH, bind_Ret. done.
Qed.

(** [threads] answers the numbers among the entries, in order. *)
Lemma proc_threads_ok entries : Forall (fun d => - 2 ^ 31 <= strtol d < 2 ^ 31) entries ->
  returns (threads (Some entries)) (fun l => l ≡ₚ omap entry_number entries /\ StronglySorted Z.le l).
Proof.
  intros H. unfold threads, scanDir. rewrite (scandir_tasks entries H), !bind_Ret. rewrite bool_decide_eq_true_2 by done. cbn [check]. rewrite !bind_Ret. cbn [returns app].
  split; [apply merge_sort_Permutation | apply (StronglySorted_merge_sort _)].
Qed.

(** Tasks named by their ids, among the entries every directory has. *)
Lemma threads_of_tasks tids : Forall (fun n => 0 <= n < 2 ^ 31) tids -> returns (threads (Some (lit "." :: lit ".." :: map show_nonneg tids))) (fun l => l ≡ₚ tids /\ StronglySorted Z.le l).
Proof.
  intros H. assert (Hs : forall n, 0 <= n < 2 ^ 31 -> strtol (show_nonneg n) = n /\ isdigit (first_char (show_nonneg n)) = true).
  { intros n Hn. destruct (show_nonneg_digits n ltac:(lia)) as (ds & Hm & Hv & Hne). split.
    - rewrite <-(app_nil_r (show_nonneg n)). by rewrite (strtol_digits _ ds).
    - destruct (show_nonneg n) as [|b l]; [done |]. cbn in Hm |- *. unfold isdigit. by destruct (dec_digit b). }
  assert (Ho : omap entry_number (lit "." :: lit ".." :: map show_nonneg tids) = tids).
  { change (omap entry_number (map show_nonneg tids) = tids). induction H as [|n tids Hn _ IH]; [done |]. cbn [map omap list_omap]. unfold entry_number at 1.
    destruct (Hs n Hn) as [-> ->]. by rewrite IH. }
  eapply returns_mono; [|apply proc_threads_ok]; [intros l; by rewrite Ho |]. constructor; [by vm_compute |]. constructor; [by vm_compute |]. apply list.Forall_forall. intros d (n & -> & Hn)%list_elem_of_fmap.
  rewrite list.Forall_forall in H. specialize (H n Hn). rewrite (proj1 (Hs n H)). lia.
Qed.

(** [openedFiles] counts the entries that are numbers. *)
Lemma openedFiles_ok entries : zlen entries < 2 ^ 31 - 1 -> openedFiles (Some entries) = Ret (zlen (List.filter (fun d => isdigit (first_char d)) entries)).
Proof.
  intros Hz. unfold openedFiles, scanDir. assert (H : forall n, 0 <= n -> n + zlen entries < 2 ^ 31 ->
    scandir fdDirFilter entries n = Ret (n + zlen (List.filter (fun d => isdigit (first_char d)) entries), [])).
  { clear Hz. induction entries as [|d l IH]; intros n Hn Hb; cbn [scandir List.filter]; [by rewrite Z.add_0_r |]. rewrite zlen_cons in Hb. pose proof (zlen_nonneg l). unfold fdDirFilter.
    destruct (isdigit (first_char d)); [rewrite i32_ok by lia |]; rewrite !bind_Ret, IH, bind_Ret by lia; cbn [Z.eqb]; [|done]. rewrite zlen_cons. do 2 f_equal. lia. }
  by rewrite H by lia.
Qed.

(** The name of a process is in the file too: one that is called "Threads:9" has 9 threads. *)
Lemma numThreads_misled : numThreads (mkfile (inl 3) (lit "Name:" ++ x09 :: lit "Threads:9" ++ x0a :: lit "Threads:" ++ x09 :: lit "1" ++ [x0a]) (inr 0) []) = Ret 9.
Proof. vm_compute. reflexivity. Qed.

End ProcessInfo.
